(* ===== verification/_CoqProject ===== *)
-Q . S2P
Prelude.v
Lcg.v
Lottery.v
Proc.v
ProcInv.v
ProcSim.v
ProcTheory.v
Syscall.v
FsImage.v
Xcheck.v
XcheckSpec.v
XcheckContest.v
XcheckRepair.v
Xcheck3.v
XcheckFiles.v
Btree.v
Heap.v
BtreeMem.v
BtreeText.v
MemExercises.v
Threads.v
Explore.v
Barrier.v
RwLock.v
NsMutex.v
Savages.v
Barbershop.v
FifoBarbershop.v
Hilzer.v
Smokers.v
Rendezvous.v
ApproxCounter.v
SimpleCounter.v
Benchmark.v
Queue.v
Lists.v
HandOverHand.v
HohMem.v
Vector.v
Crc.v
Csum.v
Cstring.v
Rle.v
Pzip.v
Wzip.v
Textutils.v
Mytail.v
Request.v
Processes.v
FileTools.v
WebClient.v
ClientThreads.v
Webserver.v
Wish.v
WishMain.v
SelectServer.v
SelectLoop.v
UringServer.v
FileServers.v
Aio.v
UdpLib.v
UdpAsync.v
UdpPrograms.v
