(* ===== verification/Prelude.v ===== *)
(** * Verification of the programs of ostep-hw

    The repository holds solutions to the homework and the projects of the book
    "Operating Systems: Three Easy Pieces".  It is not one program but a set of
    programs and kernel parts that share themes: an xv6 kernel with lottery
    scheduling, a file system checker in several versions, concurrent data
    structures and synchronisation problems, servers with their clients, a shell,
    compressors, checksums and small text utilities.  This library models them in Rocq, one file per component,
    and proves what makes them correct; where the code does something else, a
    theorem says what.

    ** Conventions

    A function of the source is a function here, with its name where Rocq allows
    it.  Integers are [Z], reduced to the width of their C type with [u8] ...
    [s64] below wherever the width matters; where a count cannot reach the width
    the file says so and uses [Z].  A computation that can fail returns an
    [outcome]: [Done] for a normal return, [Fail] for a reported error (an error
    return with a message, [exit], a kernel [panic]), [Crash] for behaviour that C
    leaves undefined or a failed [assert].  Loops that are not structural take
    fuel; the theorems on them give an amount that suffices, or say how the call
    is made with it.  Text and data of files are lists of bytes; what the system
    calls return is an argument.  Code outside the repository (the rest of xv6) is
    reached through type classes whose laws are stated next to them and hold of
    the concrete machine of [ProcSim].

    ** The files

    - [Prelude]: integers, outcomes, loops, step relations, tactics and lemmas
      that the other files share.

    The kernel, [projects/scheduling-xv6-lottery/src]:
    - [Lcg], [Lottery]: [random] and [getwinner] of [proc.c]; the generator has
      full period, [getwinner] returns for every number of tickets, and as many calls
      of it as fill a period return every winner equally often.
    - [Proc]: the process table and every function of [proc.c]; the environment
      is the classes [KernelEnv], [KernelServices] and [KernelSpec].
    - [ProcInv]: the table invariant [kinv], kept by every step.
    - [ProcSim]: a machine that satisfies the laws, used by the witnesses.
    - [ProcTheory]: the invariant of reachable states, what [fork], [exit],
      [wait], [sleep], [kill] and a scheduling round do, and what the code fails
      to do ([process_defects]).
    - [Syscall]: [syscall.c] and [sysproc.c]: arguments from user memory are
      accepted exactly when they lie in the caller's memory, the dispatcher; what [ps.c] shows.

    The file system checker, [projects/filesystems-check]:
    - [FsImage]: the structures of [fs.h] in an image.
    - [Xcheck], [XcheckSpec]: [xcheck.c] and a declarative description of the
      images it accepts, proved exact; what it misses.
    - [XcheckContest]: [xcheck_contest_1.c] and [xcheck_contest_2.c] refine
      [xcheck]; when [trace_parent] returns.
    - [XcheckRepair], [Xcheck3]: [xcheck_contest_3.c]: the repair of lost inodes,
      and the whole program against contest 1.
    - [XcheckFiles]: the files of contest 3, and of
      [xcheck_contest_3_same_input_output_files.c], which loses the image.

    Data structures and counters, [29/]:
    - [Btree]: [put], [insert] and [split] of [btree.c] on trees: a sorted
      balanced tree, exactly the new pair added.
    - [Heap]: programs on memory that is allocated and freed: triples, a frame rule
      and a solver for permutations of cells.
    - [BtreeMem]: the same functions, and [freeTree], on pointers; they implement
      those of [Btree] and free what they allocate.
    - [BtreeText]: [toString] and [main].
    - [ApproxCounter], [SimpleCounter]: the counters under any schedule.
    - [Benchmark]: the kernel module of [29/benchmark]: its variances on 64-bit
      integers and what its tests for overflow miss.
    - [Queue], [Lists], [HandOverHand], [HohMem]: the queue and the lists; the list with a lock
      in every node under any schedule of the lookups, and in memory with its locks.
    - [Vector]: the growing array of [14/vector.h].

    Exercises on processes and memory, [5/], [6/], [13/], [14/], [19/], [21/]:
    - [Processes]: a machine of processes with [fork], [wait], [exec], pipes,
      signals and the buffer of [stdout]; the programs of [5/] and the second part of
      [6/1.c] under every schedule.
    - [MemExercises]: the memory errors of [14/], and the loops of the programs that
      measure memory.

    Synchronisation, [31/]:
    - [Threads]: the machine: threads, semaphores, interleavings, sums over the
      threads, and the wrappers of [common_threads.h].
    - [Barrier], [RwLock], [NsMutex], [Savages], [Barbershop], [FifoBarbershop],
      [Hilzer]: each program for any number of threads: safety, bounded runs and
      no deadlock where the program terminates.
    - [Explore], [Smokers], [Rendezvous]: programs with a fixed number of threads,
      whose states are listed by computation; [Explore] proves that this covers
      every run.

    Files and text:
    - [Crc], [Csum]: the checks of [45/]: the CRC is the remainder of the
      polynomial division, detects bursts of up to 16 bits; the checksum files.
    - [Cstring]: strings in arrays, lines, [strstr], numbers in network order.
    - [Rle]: run-length encoding as a specification, with uniqueness.
    - [Pzip], [Wzip]: [projects/concurrency-pzip], for any number of jobs that its
      workers finish, and [wzip]/[wunzip] of [projects/initial-utilities] against [Rle].
    - [Textutils]: [wcat], [wgrep] and [projects/initial-reverse].
    - [Mytail]: the last lines of a file, [39/mytail.c].
    - [FileTools]: [myfind], [myls] and [stat] of [39/].

    Servers and the shell:
    - [Request]: [request.c] of [projects/concurrency-webserver] with [readline]:
      what a request is answered with, what is served, and what goes wrong.
    - [WebClient]: the answers of the workers, the CGI program [spin.c] and the
      client [wclient.c]: a request, its answer and what is printed of it.
    - [ClientThreads]: the threads of [wclient.c], which print one after the other
      under a lock.
    - [Webserver]: master and workers of [wserver.c] on [Threads]: one worker
      serves the accepted requests in order, several can lose some.
    - [Wish], [WishMain]: [projects/processes-shell/wish.c]: parsing, built-in
      commands and the search for programs; the loop over lines with a thread for
      each command, which share the paths and the working directory.
    - [SelectServer], [SelectLoop]: the requests and the file cache of
      [33/server_select.c], against a server without a cache, and its event loop.
    - [UringServer]: [33/server_io_uring.c]: the operations of the connections in
      any order, and what [33/client.c] shows.
    - [FileServers]: [33/server_epoll.c] and [33/server_libevent.c] against one
      specification of a file server; the repeated [connect] of [33/connection.h].
    - [Aio]: the experiments with asynchronous input and output of [33/].
    - [UdpLib], [UdpAsync]: how [48/UDP-lib.h] cuts messages into datagrams and
      reads them; the library on io_uring with its numbers and
      acknowledgements.
    - [UdpPrograms]: the clients and servers on these libraries, and [48/strsep.c].

    ** How the parts interact

    In the kernel, [Syscall] calls [Proc], [Proc] draws winners with [Lottery];
    the scheduler and the handlers meet in the step relation of [Proc], over
    which [kernel_invariant] is proved.  The checkers share [FsImage]; the
    contests extend [Xcheck] and their theorems use its exact description.  The
    programs of [31/] and the counters and lookups of [29/] run on [Threads], whose
    lemmas ([reach_inv], [steps_bounded], [stuck_exec], [tsum_step]) carry their
    proofs.  [Pzip] and [Wzip] implement [Rle].  [Webserver] runs on
    [Threads] too; that a request is refused there is what [Request] decides, and
    [WebClient] joins [Request], the workers and the client into one exchange.
    [BtreeMem] refines [Btree] through the predicates of [Heap]; [WishMain] runs
    the commands of [Wish] as threads; [SelectLoop] calls [SelectServer] for every
    descriptor that is ready; [XcheckFiles] runs [Xcheck3] on mapped files;
    [UdpAsync] shares the datagrams of [UdpLib], and [UdpPrograms] calls both.  [ClientThreads]
    runs the functions of [WebClient] on [Threads]; [FileServers] states what a file server
    promises as a class, whose lemmas on batches of events both servers use; [HohMem]
    and [MemExercises] use the memory of [Heap].

    ** Bounds and assumptions

    In [Threads] all threads exist from the start, at their first instruction;
    a semaphore has no upper bound; a step is one instruction, and updates that a
    lock protects are one step, except in the counters, where a load and a store
    are separate instructions; the exclusion theorems show that no other thread
    touches the variable meanwhile.  [getwinner]
    is given [2^31] draws, one period.  [trace_parent], [wait] and [sys_sleep] may
    not return: their theorems say when they do.  [wunzip] and the text utilities
    get the length of the file as fuel, and consume a byte per round.  The lists of
    [Queue] and [Lists] get the size of the heap, which bounds their length.  The
    client of the web server gets one unit more than the bytes it is sent, and takes one of
    them in every round ([client_returns]).  In [UringServer] the kernel completes any submitted
    operation next; a queue is never full.  In [WishMain] what the kernel answers to a
    name may differ from line to line; on one line it depends on the name and the
    working directory alone.  In [Pzip] the workers finish jobs in order, and none is
    cancelled inside one.  What uninitialised arrays hold is an argument; the
    theorems on [Wzip] and [UdpAsync] say what they need of it.  A file that is mapped in [XcheckFiles]
    and [WebClient] does not change its size meanwhile.  The
    CRC and checksum programs are modelled from the results of [read] on.  The programs of [Processes]
    are followed through all their schedules by [check], whose fuel is the bound on
    the steps that is proved with it; the two writers of [5/2.c] are treated by induction.
    In [FileServers] and [Aio] the order of the events and the completion of requests is
    arbitrary; a new descriptor is one that is not in use.  The loops of [HohMem] get more than the length of
    the list, those of [UdpPrograms] more than the datagrams.

    ** Not modelled

    Homework answers in Markdown, simulators and plots in Python, awk and shell,
    and patches against xv6 (they patch code that is not here).  The opening of
    listening sockets, the parsing of options by [getopt], host names, clocks and the
    numbers that are printed from them (the first half of [6/1.c], the times of
    [19/] and [21/]).  Header files that declare functions or abort when a wrapped call
    fails ([29/thread_helper.h], [45/common.h], [defs.h] and [user.h] of xv6), and the
    test programs of the xv6 projects, which only make calls.  Debug output.  Code that
    repeats modelled code: the versions of [xcheck_contest_3.c] made for debugging,
    [45/crc_orig_mod.c]; and [48/UDP-lib_async_also_server.h], whose [UDP_Read] goes
    through a pointer that was never set. *)

From Stdlib Require Import ZArith Lia.
From stdpp Require Import base tactics list list_numbers numbers relations.

Declare Scope ostep_scope.
Delimit Scope ostep_scope with ostep.
Local Open Scope Z_scope.

(** * Machine integers *)

(** A value of a [w]-bit unsigned C type: reduction modulo [2^w]. *)
Definition wrapu (w : Z) (x : Z) : Z := x mod 2 ^ w.

(** A value of a [w]-bit two's complement C type. *)
Definition wraps (w : Z) (x : Z) : Z := (x + 2 ^ (w - 1)) mod 2 ^ w - 2 ^ (w - 1).

Definition u8 (x : Z) : Z := wrapu 8 x.

Definition u16 (x : Z) : Z := wrapu 16 x.

Definition u32 (x : Z) : Z := wrapu 32 x.

Definition u64 (x : Z) : Z := wrapu 64 x.

Definition s8 (x : Z) : Z := wraps 8 x.

Definition s16 (x : Z) : Z := wraps 16 x.

Definition s32 (x : Z) : Z := wraps 32 x.

Definition s64 (x : Z) : Z := wraps 64 x.

(** * Outcomes of a C computation

    [Done a] is a normal return, [Fail e] a reported error (an error return, a
    diagnostic followed by [exit], a kernel [panic]) and [Crash w] a behaviour
    the C standard leaves undefined or an [assert] that aborts. *)
Inductive outcome (E A : Type) : Type :=
| Done (a : A)
| Fail (e : E)
| Crash (why : E).

Arguments Done {E A} a.
Arguments Fail {E A} e.
Arguments Crash {E A} why.

Definition obind {E A B : Type} (m : outcome E A) (k : A -> outcome E B) : outcome E B :=
  match m with
  | Done a => k a
  | Fail e => Fail e
  | Crash w => Crash w
  end.

Notation "'let*' x := m 'in' k" := (obind m (fun x => k))
  (at level 10, x name, m at level 200, k at level 200) : ostep_scope.

Notation "'let*' ' p := m 'in' k" := (obind m (fun x => match x with p => k end))
  (at level 10, p pattern, m at level 200, k at level 200) : ostep_scope.

(** A C [for] loop over a list of index values, threading a state and stopping
    at the first error. *)
Fixpoint ofold {E A S : Type} (f : A -> S -> outcome E S) (l : list A) (s : S) : outcome E S :=
  match l with
  | [] => Done s
  | a :: l' => obind (f a s) (ofold f l')
  end.

(** * Iteration *)

Fixpoint iter {A : Type} (n : nat) (f : A -> A) (x : A) : A :=
  match n with
  | O => x
  | S n' => iter n' f (f x)
  end.

(** * Step relations and invariants *)

(** [reachable init step s]: [s] is reached from an initial state by finitely
    many steps. *)
Definition reachable {St : Type} (init : St -> Prop) (step : St -> St -> Prop) (s : St) : Prop :=
  exists s0, init s0 /\ rtc step s0 s.

(** * Tactics *)

(** Split on the innermost boolean test of the goal or of a hypothesis,
    keeping the equation. *)
Ltac case_bool :=
  match goal with
  | |- context [if ?b then _ else _] =>
      lazymatch type of b with bool => destruct b eqn:? end
  | H : context [if ?b then _ else _] |- _ =>
      lazymatch type of b with bool => destruct b eqn:? end
  end.

(** Turn boolean comparisons on [Z] and [nat] into propositions. *)
Ltac bool_to_prop :=
  repeat match goal with
  | H : _ && _ = true |- _ => apply andb_true_iff in H; destruct H
  | H : _ || _ = false |- _ => apply orb_false_iff in H; destruct H
  | H : negb _ = true |- _ => apply negb_true_iff in H
  | H : negb _ = false |- _ => apply negb_false_iff in H
  | H : (_ <? _) = true |- _ => apply Z.ltb_lt in H
  | H : (_ <? _) = false |- _ => apply Z.ltb_ge in H
  | H : (_ <=? _) = true |- _ => apply Z.leb_le in H
  | H : (_ <=? _) = false |- _ => apply Z.leb_gt in H
  | H : (_ =? _) = true |- _ => apply Z.eqb_eq in H
  | H : (_ =? _) = false |- _ => apply Z.eqb_neq in H
  | H : bool_decide _ = true |- _ => apply bool_decide_eq_true in H
  | H : bool_decide _ = false |- _ => apply bool_decide_eq_false in H
  end.

Create HintDb ostep.
Create Rewrite HintDb ostep.

(** * Lemmas on machine integers *)

Lemma wrapu_range w x : 0 <= w -> 0 <= wrapu w x < 2 ^ w.
Proof. intros. apply Z.mod_pos_bound. lia. Qed.

Lemma wrapu_small w x : 0 <= x < 2 ^ w -> wrapu w x = x.
Proof. intros. by apply Z.mod_small. Qed.

Lemma wraps_range w x : 0 < w -> - 2 ^ (w - 1) <= wraps w x < 2 ^ (w - 1).
Proof.
  intros Hw. unfold wraps.
  assert (E : 2 ^ w = 2 * 2 ^ (w - 1)) by (rewrite <- Z.pow_succ_r; [f_equal; lia | lia]).
  assert (0 < 2 ^ (w - 1)) by lia.
  pose proof (Z.mod_pos_bound (x + 2 ^ (w - 1)) (2 ^ w)). lia.
Qed.

Lemma wraps_small w x : 0 < w -> - 2 ^ (w - 1) <= x < 2 ^ (w - 1) -> wraps w x = x.
Proof.
  intros Hw Hx. unfold wraps.
  assert (E : 2 ^ w = 2 * 2 ^ (w - 1)) by (rewrite <- Z.pow_succ_r; [f_equal; lia | lia]).
  rewrite Z.mod_small; lia.
Qed.

Lemma u8_range x : 0 <= u8 x < 256.
Proof. apply (wrapu_range 8). lia. Qed.

Lemma u16_range x : 0 <= u16 x < 65536.
Proof. apply (wrapu_range 16). lia. Qed.

Lemma u32_range x : 0 <= u32 x < 4294967296.
Proof. apply (wrapu_range 32). lia. Qed.

Lemma u32_small x : 0 <= x < 4294967296 -> u32 x = x.
Proof. apply (wrapu_small 32). Qed.

Lemma u16_small x : 0 <= x < 65536 -> u16 x = x.
Proof. apply (wrapu_small 16). Qed.

Lemma u8_small x : 0 <= x < 256 -> u8 x = x.
Proof. apply (wrapu_small 8). Qed.

Lemma s32_small x : -2147483648 <= x < 2147483648 -> s32 x = x.
Proof. apply (wraps_small 32). lia. Qed.

Lemma s32_range x : -2147483648 <= s32 x < 2147483648.
Proof. apply (wraps_range 32). lia. Qed.

Lemma s16_small x : -32768 <= x < 32768 -> s16 x = x.
Proof. apply (wraps_small 16). lia. Qed.

#[export] Hint Resolve u8_range u16_range u32_range s32_range : ostep.
#[export] Hint Rewrite u8_small u16_small u32_small s32_small s16_small using lia : ostep.

(** * Lemmas on outcomes and loops *)

Lemma obind_Done {E A B} (m : outcome E A) (k : A -> outcome E B) b :
  obind m k = Done b <-> exists a, m = Done a /\ k a = Done b.
Proof. destruct m; simpl; split; try (intros (? & ? & ?); congruence); eauto; discriminate. Qed.

Lemma Done_inj {E A} (a b : A) : @Done E A a = Done b -> a = b.
Proof. congruence. Qed.

Lemma ofold_app {E A S} (f : A -> S -> outcome E S) l1 l2 s :
  ofold f (l1 ++ l2) s = obind (ofold f l1 s) (ofold f l2).
Proof.
  revert s; induction l1 as [|a l1 IH]; intros s; simpl; [done|].
  destruct (f a s); simpl; auto.
Qed.

(** Loop invariant rule: a property kept by every completed iteration holds at
    the end, together with any fact each iteration establishes about its own
    index. *)
Lemma ofold_inv {E A S} (f : A -> S -> outcome E S) (I : list A -> S -> Prop) l s s' :
  I [] s ->
  (forall done a rest t t', l = done ++ a :: rest -> I done t -> f a t = Done t' ->
     I (done ++ [a]) t') ->
  ofold f l s = Done s' -> I l s'.
Proof.
  intros H0 Hstep.
  cut (forall rest done t, l = done ++ rest -> I done t -> ofold f rest t = Done s' -> I l s').
  { intros H ?. by eapply (H l [] s). }
  induction rest as [|a rest IH]; intros done t El Hd Hf; simpl in Hf.
  - injection Hf as <-. by rewrite El, app_nil_r.
  - apply obind_Done in Hf as (t' & H1 & H2).
    apply (IH (done ++ [a]) t'); [by rewrite <- app_assoc | by eapply Hstep | done].
Qed.

(** A loop whose iterations all complete, completes. *)
Lemma ofold_total {E A S} (f : A -> S -> outcome E S) (I : list A -> S -> Prop) l s :
  I [] s ->
  (forall done a rest t, l = done ++ a :: rest -> I done t -> exists t', f a t = Done t' /\ I (done ++ [a]) t') ->
  exists s', ofold f l s = Done s' /\ I l s'.
Proof.
  intros H0 Hstep.
  cut (forall rest done t, l = done ++ rest -> I done t -> exists s', ofold f rest t = Done s' /\ I l s').
  { intros H. by apply (H l [] s). }
  induction rest as [|a rest IH]; intros done t El Hd; simpl.
  - exists t. split; [done|]. by rewrite El, app_nil_r.
  - destruct (Hstep done a rest t El Hd) as (t' & -> & Ht'). simpl. apply (IH (done ++ [a]) t'); [by rewrite <- app_assoc|done].
Qed.

Lemma iter_add {A} n m (f : A -> A) x : iter (n + m) f x = iter m f (iter n f x).
Proof. revert x; induction n; simpl; auto. Qed.

Lemma iter_S_r {A} n (f : A -> A) x : iter (S n) f x = f (iter n f x).
Proof. revert x; induction n; intros; simpl in *; auto. Qed.

(** * Lemmas on step relations *)

(** Rule induction over reachable states. *)
Lemma reachable_inv {St} (init : St -> Prop) (step : St -> St -> Prop) (I : St -> Prop) :
  (forall s, init s -> I s) ->
  (forall s s', I s -> step s s' -> I s') ->
  forall s, reachable init step s -> I s.
Proof.
  intros Hi Hs s (s0 & H0 & Hr). revert Hr.
  apply (rtc_ind_r (fun x => I x)); eauto.
Qed.

Lemma reachable_init {St} (init : St -> Prop) step s : init s -> reachable init step s.
Proof. intros; exists s; split; [done | constructor]. Qed.

Lemma reachable_step {St} (init : St -> Prop) (step : St -> St -> Prop) s s' :
  reachable init step s -> step s s' -> reachable init step s'.
Proof. intros (s0 & H0 & Hr) Hs. exists s0; split; [done|]. by eapply rtc_r. Qed.

#[export] Hint Resolve reachable_init reachable_step : ostep.

(** * Lemmas on lists *)

(** Pigeonhole: [N] distinct integers of [[0, N)] are all of them. *)
Lemma NoDup_range_complete (l : list Z) (N : Z) :
  NoDup l -> Forall (fun x => 0 <= x < N) l -> Z.of_nat (length l) = N ->
  l ≡ₚ seqZ 0 N.
Proof.
  intros Hnd Hr Hl.
  apply submseteq_length_Permutation.
  - apply NoDup_submseteq; [done|]. intros x Hx.
    rewrite Forall_forall in Hr. specialize (Hr x Hx). apply elem_of_seqZ. lia.
  - rewrite length_seqZ. lia.
Qed.

Lemma filter_none {A} (P : A -> Prop) {decP : forall x, Decision (P x)} (l : list A) :
  Forall (fun x => ~ P x) l -> filter P l = [].
Proof. induction 1; simpl; [done|]. by rewrite filter_cons_False. Qed.

Lemma filter_all {A} (P : A -> Prop) {decP : forall x, Decision (P x)} (l : list A) :
  Forall P l -> filter P l = l.
Proof. induction 1; simpl; [done|]. rewrite filter_cons_True by done. by f_equal. Qed.

(** Filtering an integer range by membership of an interval keeps the interval. *)
Lemma filter_seqZ_interval (P : Z -> Prop) {decP : forall x, Decision (P x)} (N lo hi : Z) :
  0 <= lo <= hi -> hi <= N ->
  (forall x, 0 <= x < N -> P x <-> lo <= x < hi) ->
  filter P (seqZ 0 N) = seqZ lo (hi - lo).
Proof.
  intros Hlo Hhi HP.
  replace N with (lo + ((hi - lo) + (N - hi))) by lia.
  rewrite !seqZ_app, !list.filter_app by lia.
  rewrite (filter_none _ (seqZ 0 lo)), (filter_none _ (seqZ _ (N - hi))), app_nil_r
    by (apply Forall_seqZ; intros x ? ?%HP; lia).
  apply filter_all, Forall_seqZ. intros x ?. apply HP; lia.
Qed.

(** An array with one element replaced keeps a pointwise property. *)
Lemma Forall_insert_list {A} (P : A -> Prop) (l : list A) i x :
  Forall P l -> P x -> Forall P (<[i:=x]> l).
Proof. intros. by apply Forall_insert. Qed.

#[export] Hint Resolve Forall_insert_list : ostep.
