(* ===== verification/Lcg.v ===== *)
(** * Linear congruential generators modulo a power of two

    The arithmetic behind [random] of
    [projects/scheduling-xv6-lottery/src/proc.c]: a generator
    [x |-> (a * x + c) mod 2^k] with [a = 1 (mod 4)] and [c] odd visits every
    residue once per [2^k] draws (the power-of-two case of the Hull-Dobell
    theorem). *)

From Stdlib Require Import ZArith Lia Znumtheory Zpow_facts.
From stdpp Require Import base tactics list list_numbers numbers.
From S2P Require Import Prelude.

Local Open Scope Z_scope.

Definition lcg (a c k x : Z) : Z := (a * x + c) mod 2 ^ k.

(** The first [n] states met from [x], [x] included. *)
Definition orbit (f : Z -> Z) (x : Z) (n : Z) : list Z :=
  (fun i => iter (Z.to_nat i) f x) <$> seqZ 0 n.

Section full_period.
Context (a c k : Z) (Hk : 0 <= k) (Ha : a mod 4 = 1) (Hc : Z.odd c = true).

Local Definition affine (x : Z) : Z := a * x + c.

Local Fixpoint gs (n : nat) : Z :=
  match n with O => 0 | S n' => a * gs n' + 1 end.

Local Lemma iter_affine n x : iter n affine x = a ^ Z.of_nat n * x + c * gs n.
Proof.
  induction n as [|n IH]; [simpl; lia|].
  rewrite iter_S_r, IH. unfold affine. cbn [gs].
  rewrite Nat2Z.inj_succ, Z.pow_succ_r by lia. ring.
Qed.

Local Lemma gs_geometric n : (a - 1) * gs n = a ^ Z.of_nat n - 1.
Proof.
  induction n as [|n IH]; [simpl; lia|].
  cbn [gs]. rewrite Nat2Z.inj_succ, Z.pow_succ_r by lia.
  rewrite Z.mul_add_distr_l. replace ((a - 1) * (a * gs n)) with (a * ((a - 1) * gs n)) by ring.
  rewrite IH. ring.
Qed.

Local Lemma gs_add n m : gs (n + m) = a ^ Z.of_nat m * gs n + gs m.
Proof.
  induction m as [|m IH]; [rewrite Nat.add_0_r; simpl; lia|].
  rewrite Nat.add_succ_r. cbn [gs]. rewrite IH.
  rewrite Nat2Z.inj_succ, Z.pow_succ_r by lia. ring.
Qed.

Local Lemma a_odd : Z.odd a = true.
Proof. rewrite Zodd_mod. apply Z.eqb_eq. Z.div_mod_to_equations. lia. Qed.

Local Lemma gs_parity n : Z.odd (gs n) = Nat.odd n.
Proof.
  induction n as [|n IH]; [done|].
  cbn [gs]. rewrite Z.odd_add, Z.odd_mul, a_odd, IH, Nat.odd_succ, <- Nat.negb_odd.
  simpl. by destruct (Nat.odd n).
Qed.

Local Lemma pow_a_mod4 n : a ^ Z.of_nat n mod 4 = 1.
Proof.
  induction n as [|n IH]; [done|].
  rewrite Nat2Z.inj_succ, Z.pow_succ_r, Z.mul_mod, IH, Ha by lia. done.
Qed.

Local Lemma coprime_pow2 (j y : Z) : 0 <= j -> Z.odd y = true -> rel_prime (2 ^ j) y.
Proof.
  intros Hj Hy. apply rel_prime_sym, rel_prime_Zpower_r; [done|]. apply rel_prime_sym.
  apply prime_rel_prime; [apply prime_2|].
  intros [q Hq]. subst y. rewrite Z.odd_mul in Hy. simpl in Hy.
  by rewrite andb_false_r in Hy.
Qed.

Local Lemma pow2_divides_gs (j n : nat) :
  (2 ^ Z.of_nat j | gs n) -> (2 ^ Z.of_nat j | Z.of_nat n).
Proof.
  revert n; induction j as [|j IH]; intros n H; [simpl; apply Z.divide_1_l|].
  rewrite Nat2Z.inj_succ, Z.pow_succ_r in * by lia.
  assert (Hev : Nat.odd n = false).
  { rewrite <- gs_parity. destruct H as [q ->]. rewrite Z.mul_assoc, !Z.odd_mul. simpl.
    by rewrite andb_false_r. }
  rewrite <- Nat.negb_even in Hev. apply negb_false_iff, Nat.even_spec in Hev as [m ->].
  replace (2 * m)%nat with (m + m)%nat in * by lia.
  rewrite gs_add in H.
  assert (Hq : exists q, a ^ Z.of_nat m + 1 = 2 * (2 * q + 1)).
  { pose proof (pow_a_mod4 m) as Hm. exists (a ^ Z.of_nat m / 4).
    Z.div_mod_to_equations. lia. }
  destruct Hq as [q Hq].
  replace (a ^ Z.of_nat m * gs m + gs m) with (2 * ((2 * q + 1) * gs m)) in H
    by (transitivity ((a ^ Z.of_nat m + 1) * gs m); [rewrite Hq|]; ring).
  apply Z.mul_divide_cancel_l in H; [|lia].
  apply Gauss in H; [|apply coprime_pow2; [lia|]].
  - rewrite Nat2Z.inj_add, Z.add_diag. by apply Z.mul_divide_mono_l, IH.
  - rewrite Z.odd_add, Z.odd_mul. done.
Qed.

Local Lemma lcg_iter_mod n x :
  iter n (lcg a c k) x mod 2 ^ k = iter n affine x mod 2 ^ k.
Proof.
  induction n as [|n IH]; [done|].
  rewrite !iter_S_r. unfold lcg at 1, affine at 1.
  rewrite Z.mod_mod by lia.
  rewrite <- Z.add_mod_idemp_l, <- Z.mul_mod_idemp_r, IH by lia.
  rewrite Z.mul_mod_idemp_r, Z.add_mod_idemp_l by lia. done.
Qed.

Lemma lcg_range x : 0 <= lcg a c k x < 2 ^ k.
Proof. apply Z.mod_pos_bound. lia. Qed.

Lemma lcg_iter_range n x : 0 <= x < 2 ^ k -> 0 <= iter n (lcg a c k) x < 2 ^ k.
Proof. intros Hx. destruct n as [|n]; [done|]. rewrite iter_S_r. apply lcg_range. Qed.

Local Lemma lcg_return n x :
  0 <= x < 2 ^ k -> iter n (lcg a c k) x = x -> (2 ^ k | Z.of_nat n).
Proof.
  intros Hx Hret. pose proof (lcg_iter_mod n x) as Hm. rewrite Hret, iter_affine in Hm.
  assert (Hd : (2 ^ k | ((a - 1) * x + c) * gs n)).
  { replace (((a - 1) * x + c) * gs n) with ((a ^ Z.of_nat n * x + c * gs n) - x)
      by (transitivity (x * ((a - 1) * gs n) + c * gs n); [rewrite gs_geometric|]; ring).
    apply Z.mod_divide; [lia|]. rewrite Zminus_mod, <- Hm, Z.sub_diag. apply Z.mod_0_l. lia. }
  apply Gauss in Hd.
  - replace k with (Z.of_nat (Z.to_nat k)) in * by lia. by apply pow2_divides_gs.
  - apply coprime_pow2; [done|].
    rewrite Z.odd_add, Z.odd_mul, Hc, Z.odd_sub, a_odd. done.
Qed.

Local Lemma lcg_iter_inj i j x :
  0 <= x < 2 ^ k -> Z.of_nat j < 2 ^ k -> (i < j)%nat ->
  iter i (lcg a c k) x <> iter j (lcg a c k) x.
Proof.
  intros Hx Hj Hij E.
  replace j with (i + (j - i))%nat in E by lia. rewrite iter_add in E.
  symmetry in E. apply lcg_return in E; [|by apply lcg_iter_range].
  apply Z.divide_pos_le in E; lia.
Qed.

(** Every window of [2^k] consecutive states is a permutation of [[0, 2^k)]. *)
Lemma lcg_full_period x : 0 <= x < 2 ^ k -> orbit (lcg a c k) x (2 ^ k) ≡ₚ seqZ 0 (2 ^ k).
Proof.
  intros Hx. unfold orbit. apply NoDup_range_complete.
  - apply NoDup_fmap_2_strong; [|apply NoDup_seqZ].
    intros i j Hi Hj E. apply elem_of_seqZ in Hi, Hj.
    destruct (Z.lt_trichotomy i j) as [Hlt|[->|Hlt]]; [exfalso|done|exfalso; symmetry in E];
      revert E; apply lcg_iter_inj; lia.
  - apply Forall_fmap, Forall_forall. intros i _. simpl. by apply lcg_iter_range.
  - rewrite length_fmap, length_seqZ. lia.
Qed.

(** Every residue is reached within [2^k] draws. *)
Lemma lcg_reaches x y :
  0 <= x < 2 ^ k -> 0 <= y < 2 ^ k -> exists n, Z.of_nat n < 2 ^ k /\ iter n (lcg a c k) x = y.
Proof.
  intros Hx Hy. assert (Hin : y ∈ seqZ 0 (2 ^ k)) by (apply elem_of_seqZ; lia).
  rewrite <- (lcg_full_period x Hx) in Hin. unfold orbit in Hin.
  apply list_elem_of_fmap in Hin as (i & -> & Hi). apply elem_of_seqZ in Hi.
  exists (Z.to_nat i). split; [lia|done].
Qed.

End full_period.
