(* ===== verification/Lottery.v ===== *)
(** * The lottery of the xv6 scheduler

    [random] and [getwinner] of [projects/scheduling-xv6-lottery/src/proc.c].
    xv6 runs on i386, where [long] and [unsigned long] have 32 bits: every
    product, sum and comparison below is taken at that width. *)

From Stdlib Require Import ZArith Lia Znumtheory String.
From stdpp Require Import base tactics list list_numbers numbers.
From S2P Require Import Prelude Lcg.

Local Open Scope Z_scope.
Local Open Scope ostep_scope.

(** [val = (1103515245U * val + 12345U) & 0x7fffffff]: the new value of the
    global [val], which is also the value returned. *)
Definition random (val : Z) : Z :=
  Z.land (u32 (u32 (1103515245 * u32 val) + 12345)) 2147483647.

(** The local variables of [getwinner]. *)
Definition num_bins (totaltickets : Z) : Z := u32 (u32 totaltickets + 1).

Definition num_rand : Z := u32 (2147483647 + 1).

Definition bin_size (totaltickets : Z) : Z := num_rand / num_bins totaltickets.

Definition defect (totaltickets : Z) : Z := num_rand mod num_bins totaltickets.

(** The [do ... while] loop: draw until the value is below the bound; [None]
    when the fuel runs out. *)
Fixpoint draw (fuel : nat) (bound val : Z) : option Z :=
  match fuel with
  | O => None
  | S fuel' =>
      let x := random val in
      if bound <=? u32 x then draw fuel' bound x else Some x
  end.

(** [getwinner]: the winner and the new value of [val].  A zero divisor, which
    a negative argument leads to, is undefined behaviour. *)
Definition getwinner (fuel : nat) (totaltickets val : Z) : option (outcome string (Z * Z)) :=
  if num_bins totaltickets =? 0 then Some (Crash "num_rand / 0"%string) else
  match draw fuel (u32 (num_rand - defect totaltickets)) val with
  | None => None
  | Some x =>
      if bin_size totaltickets =? 0 then Some (Crash "x / 0"%string)
      else Some (Done (s32 (u32 x / bin_size totaltickets), x))
  end.

(** ** Lemmas *)

Lemma random_lcg val : random val = lcg 1103515245 12345 31 val.
Proof.
  unfold random, lcg, u32, wrapu.
  change 2147483647 with (Z.ones 31). rewrite Z.land_ones by lia.
  rewrite Z.mod_mod_divide by (exists 2; lia).
  rewrite Z.mul_mod_idemp_r by lia.
  rewrite <- Z.add_mod_idemp_l, Z.mod_mod_divide by (lia || (exists 2; lia)).
  by rewrite Z.add_mod_idemp_l by lia.
Qed.

Lemma random_range val : 0 <= random val < 2 ^ 31.
Proof. rewrite random_lcg. apply lcg_range. lia. Qed.

Lemma orbit_random x n : orbit random x n = orbit (lcg 1103515245 12345 31) x n.
Proof.
  unfold orbit. apply list_fmap_ext. intros i y _.
  generalize (Z.to_nat y) as k. intros k. revert x.
  induction k as [|k IH]; intros x; simpl; [done|]. by rewrite random_lcg, IH.
Qed.

(** The draw stops as soon as some iterate is below the bound. *)
Lemma draw_hits bound n : forall val,
  iter n random (random val) < bound ->
  exists x, draw (S n) bound val = Some x /\ 0 <= x < 2 ^ 31 /\ x < bound.
Proof.
  induction n as [|n IH]; intros val H; cbn [iter draw] in *;
    pose proof (random_range val) as Hr; rewrite u32_small by lia.
  - destruct (Z.leb_spec bound (random val)); [lia|]. eauto.
  - destruct (Z.leb_spec bound (random val)); [|eauto].
    destruct (IH (random val) H) as (x & Hx & ?). exists x. cbn [draw] in Hx. auto.
Qed.

Lemma draw_mono bound n m : forall val x,
  (n <= m)%nat -> draw n bound val = Some x -> draw m bound val = Some x.
Proof.
  revert m; induction n as [|n IH]; intros m val x Hle H; [done|].
  destruct m as [|m]; [lia|]. cbn [draw] in *.
  destruct (bound <=? _); [|done]. apply (IH m); [lia|done].
Qed.

Section bins.
Context (t : Z) (Ht : 0 <= t < 2 ^ 31).

Lemma num_bins_eq : num_bins t = t + 1.
Proof using Ht. unfold num_bins. rewrite (u32_small t), u32_small by lia. done. Qed.

Lemma bins_cover : num_rand = bin_size t * (t + 1) + defect t.
Proof using Ht.
  unfold bin_size, defect. rewrite num_bins_eq.
  pose proof (Z.div_mod num_rand (t + 1)). lia.
Qed.

Lemma defect_range : 0 <= defect t < t + 1.
Proof using Ht. unfold defect. rewrite num_bins_eq. apply Z.mod_pos_bound. lia. Qed.

Lemma bin_size_pos : 0 < bin_size t.
Proof using Ht.
  unfold bin_size. rewrite num_bins_eq. apply Z.div_str_pos.
  change num_rand with 2147483648. lia.
Qed.

Lemma bound_eq : u32 (num_rand - defect t) = bin_size t * (t + 1).
Proof using Ht.
  pose proof bins_cover as E. pose proof defect_range as D.
  change num_rand with 2147483648 in *.
  rewrite u32_small by lia. lia.
Qed.

(** A draw below the bound falls in exactly one bin. *)
Lemma bin_of x w :
  0 <= w -> (x / bin_size t = w <-> w * bin_size t <= x < (w + 1) * bin_size t).
Proof using Ht.
  intros Hw. pose proof bin_size_pos as Hp. split; intros H.
  - subst w. pose proof (Z.div_mod x (bin_size t)).
    pose proof (Z.mod_pos_bound x (bin_size t) Hp). nia.
  - symmetry. apply (Z.div_unique_pos x (bin_size t) w (x - w * bin_size t)); nia.
Qed.

End bins.

(** ** Properties *)

(** [random] has full period: whatever the seed, [2^31] consecutive draws
    visit every value of [[0, 2^31)] exactly once. *)
Lemma random_full_period (val : Z) (Hval : 0 <= val < 2 ^ 31) :
  orbit random val (2 ^ 31) ≡ₚ seqZ 0 (2 ^ 31).
Proof.
  rewrite orbit_random. by apply lcg_full_period.
Qed.

Lemma random_full_period_witness : orbit random 1 (2 ^ 31) ≡ₚ seqZ 0 (2 ^ 31).
Proof. apply (random_full_period 1). lia. Defined.

(** The loop ends: one of [2^31] draws is below the bound. *)
Lemma draw_total (totaltickets val : Z) (Ht : 0 <= totaltickets < 2 ^ 31) :
  exists x, draw (Z.to_nat (2 ^ 31)) (u32 (num_rand - defect totaltickets)) val = Some x /\
    0 <= x < 2 ^ 31 /\ x < u32 (num_rand - defect totaltickets).
Proof.
  destruct (lcg_reaches 1103515245 12345 31 ltac:(lia) eq_refl eq_refl (random val) 0)
    as (n & Hn & H0); [apply random_range | lia |].
  assert (Hit : iter n random (random val) = 0).
  { rewrite <- H0. generalize (random val). clear. induction n; intros y; simpl; [done|].
    by rewrite random_lcg. }
  pose proof (bin_size_pos totaltickets Ht) as Hb.
  destruct (draw_hits (u32 (num_rand - defect totaltickets)) n val) as (x & Hx & Hr).
  { rewrite Hit, bound_eq by done. nia. }
  exists x. split; [|done]. apply (draw_mono _ _ (Z.to_nat (2 ^ 31))) in Hx; [done|lia].
Qed.

(** The bin of a draw below the bound. *)
Lemma bin_range (t x : Z) (Ht : 0 <= t < 2 ^ 31) : 0 <= x < bin_size t * (t + 1) ->
  s32 (u32 x / bin_size t) = x / bin_size t /\ 0 <= x / bin_size t <= t.
Proof.
  intros Hx. pose proof (bin_size_pos t Ht) as Hb. pose proof (bins_cover t Ht) as Hc. pose proof (defect_range t Ht).
  change num_rand with (2 ^ 31) in Hc. rewrite u32_small by lia.
  assert (0 <= x / bin_size t < t + 1) by (split; [apply Z.div_pos; lia|apply Z.div_lt_upper_bound; lia]).
  rewrite s32_small by lia. lia.
Qed.

(** [getwinner] as a draw and its bin. *)
Lemma getwinner_draw fuel t val : 0 <= t < 2 ^ 31 ->
  getwinner fuel t val = (fun x => Done (s32 (u32 x / bin_size t), x)) <$> draw fuel (u32 (num_rand - defect t)) val.
Proof.
  intros Ht. unfold getwinner. rewrite num_bins_eq by done. pose proof (bin_size_pos t Ht).
  destruct (Z.eqb_spec (t + 1) 0); [lia|]. destruct (Z.eqb_spec (bin_size t) 0); [lia|]. by destruct (draw _ _ _).
Qed.

(** [getwinner] terminates and is in range: for every ticket total that an
    [int] can hold and every seed, [2^31] draws are enough for it to return,
    and it returns a winner of the closed interval [[0, totaltickets]]. *)
Theorem getwinner_returns (totaltickets val : Z) (Ht : 0 <= totaltickets < 2 ^ 31) :
  exists winner val',
    getwinner (Z.to_nat (2 ^ 31)) totaltickets val = Some (Done (winner, val')) /\
    0 <= winner <= totaltickets /\ 0 <= val' < 2 ^ 31.
Proof.
  destruct (draw_total totaltickets val Ht) as (x & Hx & Hr & Hlt). rewrite bound_eq in Hlt by done.
  destruct (bin_range totaltickets x Ht) as [E H]; [lia|].
  rewrite getwinner_draw, Hx by done. cbn [fmap option_fmap option_map]. rewrite E. eexists _, _. split; [reflexivity|]. split; [exact H|exact Hr].
Qed.

Lemma getwinner_returns_witness :
  exists winner val', getwinner (Z.to_nat (2 ^ 31)) 10 1 = Some (Done (winner, val')) /\
    0 <= winner <= 10 /\ 0 <= val' < 2 ^ 31.
Proof. apply (getwinner_returns 10 1). lia. Defined.

(** ** Successive calls *)

(** The winners of a number of calls of [getwinner], each with the value of [val]
    that the one before left. *)
Fixpoint winners (calls fuel : nat) (totaltickets val : Z) : option (outcome string (list Z * Z)) :=
  match calls with
  | O => Some (Done ([], val))
  | S calls =>
      match getwinner fuel totaltickets val with
      | Some (Done (w, val)) =>
          match winners calls fuel totaltickets val with
          | Some (Done (ws, val)) => Some (Done (w :: ws, val))
          | r => r
          end
      | Some (Fail e) => Some (Fail e)
      | Some (Crash e) => Some (Crash e)
      | None => None
      end
  end.

(** The next [n] values of the generator. *)
Fixpoint draws (n : nat) (val : Z) : list Z := match n with O => [] | S n => random val :: draws n (random val) end.

Lemma draws_orbit n : forall val, draws n val = (fun i => iter (Z.to_nat i) random (random val)) <$> seqZ 0 (Z.of_nat n).
Proof.
  induction n as [|n IH]; intros val; [done|]. cbn [draws]. rewrite seqZ_cons by lia. cbn [fmap list_fmap].
  f_equal. rewrite IH. replace (Z.pred (Z.of_nat (S n))) with (Z.of_nat n) by lia. change (Z.succ 0) with (1 + 0).
  rewrite <- fmap_add_seqZ, <- list_fmap_compose. apply list_fmap_ext. intros i x Hx. apply lookup_seqZ in Hx as [-> ?]. cbn [compose].
  by replace (Z.to_nat (1 + (0 + Z.of_nat i))) with (S (Z.to_nat (0 + Z.of_nat i))) by lia.
Qed.

Lemma draws_period m val : 0 <= m -> draws (Z.to_nat m) val = orbit random (random val) m.
Proof. intros Hm. rewrite draws_orbit, Z2Nat.id by exact Hm. reflexivity. Qed.

(** A value that is not below the bound is passed over. *)
Lemma getwinner_next t val : 0 <= t < 2 ^ 31 ->
  getwinner (Z.to_nat (2 ^ 31)) t val =
    if decide (random val < bin_size t * (t + 1)) then Some (Done (random val / bin_size t, random val))
    else getwinner (Z.to_nat (2 ^ 31)) t (random val).
Proof.
  intros Ht. pose proof (random_range val) as Hr.
  destruct (draw_total t val Ht) as (x & Hx & _). destruct (draw_total t (random val) Ht) as (y & Hy & _).
  rewrite !getwinner_draw by exact Ht. assert (Hb : Z.to_nat (2 ^ 31) <> 0%nat) by lia. revert Hx Hy Hb.
  generalize (Z.to_nat (2 ^ 31)) as n. intros [|n] Hx Hy Hb; [by destruct Hb|]. rewrite Hx, Hy. cbn [draw] in Hx.
  rewrite (u32_small (random val)) in Hx by lia. rewrite bound_eq in * by exact Ht.
  destruct (Z.leb_spec (bin_size t * (t + 1)) (random val)).
  - rewrite decide_False by lia. apply (draw_mono _ _ (S n)) in Hx; [|lia]. congruence.
  - rewrite decide_True by assumption. injection Hx as <-. cbn [fmap option_fmap option_map]. rewrite (proj1 (bin_range t (random val) Ht ltac:(lia))). reflexivity.
Qed.

(** The calls take the values of the generator below the bound, in their order. *)
Lemma winners_draws t n : 0 <= t < 2 ^ 31 -> forall val,
  let acc := filter (fun x => x < bin_size t * (t + 1)) (draws n val) in
  exists val', winners (length acc) (Z.to_nat (2 ^ 31)) t val = Some (Done ((fun x => x / bin_size t) <$> acc, val')).
Proof.
  intros Ht. pose proof (fun val => getwinner_next t val Ht) as Hg. revert Hg. generalize (Z.to_nat (2 ^ 31)) as big. intros big Hg.
  induction n as [|n IH]; intros val acc; subst acc; [by eexists|]. cbn [draws]. destruct (IH (random val)) as [val' E].
  destruct (decide (random val < bin_size t * (t + 1))) as [Hlt|Hge].
  - rewrite filter_cons_True by done. exists val'. cbn [length winners fmap list_fmap]. by rewrite Hg, decide_True, E by done.
  - rewrite filter_cons_False by done. destruct (filter _ _) as [|x acc]; [by eexists|]. exists val'. rewrite <- E.
    cbn [length winners]. by rewrite (Hg val), decide_False by done.
Qed.

Lemma filter_image (f : Z -> Z) w (l : list Z) : filter (fun x => x = w) (f <$> l) = f <$> filter (fun x => f x = w) l.
Proof.
  induction l as [|x l IH]; [done|]. cbn [fmap list_fmap]. destruct (decide (f x = w)).
  - rewrite !filter_cons_True by done. cbn [fmap list_fmap]. by rewrite <- IH.
  - rewrite !filter_cons_False by done. exact IH.
Qed.

(** C5: the lottery is fair.  For every number of tickets that an [int] can hold
    and every seed, as many calls of [getwinner] as there are accepted values in
    a period of the generator, one after the other, return every winner of the
    closed interval [[0, totaltickets]] equally often, [bin_size] times. *)
Theorem getwinner_fair (totaltickets val : Z) (Ht : 0 <= totaltickets < 2 ^ 31) :
  exists ws val', winners (Z.to_nat (bin_size totaltickets * (totaltickets + 1))) (Z.to_nat (2 ^ 31)) totaltickets val = Some (Done (ws, val')) /\
    Forall (fun w => 0 <= w <= totaltickets) ws /\
    forall w, 0 <= w <= totaltickets -> length (filter (fun x => x = w) ws) = Z.to_nat (bin_size totaltickets).
Proof.
  pose proof (bin_size_pos totaltickets Ht) as Hb.
  pose proof (bins_cover totaltickets Ht) as Hc. pose proof (defect_range totaltickets Ht).
  change num_rand with (2 ^ 31) in Hc.
  destruct (winners_draws totaltickets (Z.to_nat (2 ^ 31)) Ht val) as [val' E].
  assert (Hp : draws (Z.to_nat (2 ^ 31)) val ≡ₚ seqZ 0 (2 ^ 31)).
  { rewrite draws_period by lia. exact (random_full_period (random val) (random_range val)). }
  set (acc := filter _ (draws _ val)) in E.
  assert (Ha : acc ≡ₚ seqZ 0 (bin_size totaltickets * (totaltickets + 1))).
  { unfold acc. rewrite Hp. rewrite (filter_seqZ_interval _ _ 0 (bin_size totaltickets * (totaltickets + 1))); [by rewrite Z.sub_0_r|lia|nia|].
    intros x Hx. lia. }
  clearbody acc. rewrite Ha, length_seqZ in E at 1. exists ((fun x => x / bin_size totaltickets) <$> acc), val'. split; [exact E|]. split.
  - apply Forall_fmap, Forall_forall. intros x Hx. rewrite Ha in Hx. apply list_elem_of_In, elem_of_seqZ in Hx. cbn [compose]. apply (bin_range totaltickets x Ht). lia.
  - intros w Hw. rewrite filter_image, length_fmap. rewrite Ha.
    rewrite (filter_seqZ_interval _ _ (w * bin_size totaltickets) ((w + 1) * bin_size totaltickets)); [rewrite length_seqZ; lia|nia|nia|].
    intros x Hx. rewrite bin_of by (done || lia). lia.
Qed.

Lemma getwinner_fair_witness :
  exists ws val', winners (Z.to_nat (bin_size 2 * 3)) (Z.to_nat (2 ^ 31)) 2 1 = Some (Done (ws, val')) /\
    length (filter (fun x => x = 1) ws) = Z.to_nat (bin_size 2).
Proof.
  destruct (getwinner_fair 2 1 ltac:(lia)) as (ws & val' & E & _ & H). exists ws, val'. split; [exact E|]. apply H. lia.
Defined.
