(* ===== verification/Proc.v ===== *)
(** * xv6 processes with lottery scheduling

    Model of [projects/scheduling-xv6-lottery/src/proc.c] and of the types of
    [proc.h] and [pstat.h].

    The kernel state [kst] holds the process table, the globals of [proc.c]
    and, behind the type [ext], everything that belongs to files of xv6 that
    are not in the repository (spinlocks, interrupt state, physical memory,
    page tables, the file layer).  Those parts are reached only through the
    operations of the class [KernelEnv] (operations that cannot switch to
    another process) and [KernelServices] (operations that can: they may change
    the whole kernel state).  A pointer to an entry of the process table is the
    index of the entry, the null pointer is [None]; [panic] is [Fail], a
    dereference of a null pointer [Crash]. *)

From Stdlib Require Import ZArith Lia String.
From stdpp Require Import base tactics list list_numbers numbers.
From S2P Require Import Prelude Lcg Lottery.

Local Open Scope Z_scope.
Local Open Scope ostep_scope.

(** ** Data *)

Definition NPROC : nat := 64.

Definition NOFILE : nat := 16.

Inductive procstate := UNUSED | EMBRYO | SLEEPING | RUNNABLE | RUNNING | ZOMBIE.

#[export] Instance procstate_eq_dec : EqDecision procstate.
Proof. solve_decision. Defined.

(** A sleep channel: a [void *] that is null, a process, or another kernel
    address. *)
Inductive channel := CNull | CProc (p : nat) | CAddr (a : Z).

#[export] Instance channel_eq_dec : EqDecision channel.
Proof. solve_decision. Defined.

(** The registers of the trap frame that [proc.c] and [syscall.c] use. *)
Record trapframe := mkTf {
  tf_eax : Z; tf_esp : Z; tf_eip : Z; tf_eflags : Z;
  tf_cs : Z; tf_ds : Z; tf_es : Z; tf_ss : Z }.

(** Saved registers for kernel context switches. *)
Record context := mkContext { edi : Z; esi : Z; ebx : Z; ebp : Z; eip : Z }.

(** Per-process state.  [tf] and [context] are the records the two pointers
    point to, [kret] the return address [allocproc] leaves on the kernel
    stack above the context. *)
Record proc := mkProc {
  sz : Z; pgdir : Z; kstack : Z; state : procstate; pid : Z; parent : option nat;
  tf : trapframe; kret : Z; ctx : context; chan : channel; killed : Z;
  ofile : list Z; cwd : Z; name : string; tickets : Z; ticks : Z }.

Definition set_sz x p := mkProc x p.(pgdir) p.(kstack) p.(state) p.(pid) p.(parent) p.(tf) p.(kret) p.(ctx) p.(chan) p.(killed) p.(ofile) p.(cwd) p.(name) p.(tickets) p.(ticks).
Definition set_pgdir x p := mkProc p.(sz) x p.(kstack) p.(state) p.(pid) p.(parent) p.(tf) p.(kret) p.(ctx) p.(chan) p.(killed) p.(ofile) p.(cwd) p.(name) p.(tickets) p.(ticks).
Definition set_kstack x p := mkProc p.(sz) p.(pgdir) x p.(state) p.(pid) p.(parent) p.(tf) p.(kret) p.(ctx) p.(chan) p.(killed) p.(ofile) p.(cwd) p.(name) p.(tickets) p.(ticks).
Definition set_state x p := mkProc p.(sz) p.(pgdir) p.(kstack) x p.(pid) p.(parent) p.(tf) p.(kret) p.(ctx) p.(chan) p.(killed) p.(ofile) p.(cwd) p.(name) p.(tickets) p.(ticks).
Definition set_pid x p := mkProc p.(sz) p.(pgdir) p.(kstack) p.(state) x p.(parent) p.(tf) p.(kret) p.(ctx) p.(chan) p.(killed) p.(ofile) p.(cwd) p.(name) p.(tickets) p.(ticks).
Definition set_parent x p := mkProc p.(sz) p.(pgdir) p.(kstack) p.(state) p.(pid) x p.(tf) p.(kret) p.(ctx) p.(chan) p.(killed) p.(ofile) p.(cwd) p.(name) p.(tickets) p.(ticks).
Definition set_tf x p := mkProc p.(sz) p.(pgdir) p.(kstack) p.(state) p.(pid) p.(parent) x p.(kret) p.(ctx) p.(chan) p.(killed) p.(ofile) p.(cwd) p.(name) p.(tickets) p.(ticks).
Definition set_kret x p := mkProc p.(sz) p.(pgdir) p.(kstack) p.(state) p.(pid) p.(parent) p.(tf) x p.(ctx) p.(chan) p.(killed) p.(ofile) p.(cwd) p.(name) p.(tickets) p.(ticks).
Definition set_ctx x p := mkProc p.(sz) p.(pgdir) p.(kstack) p.(state) p.(pid) p.(parent) p.(tf) p.(kret) x p.(chan) p.(killed) p.(ofile) p.(cwd) p.(name) p.(tickets) p.(ticks).
Definition set_chan x p := mkProc p.(sz) p.(pgdir) p.(kstack) p.(state) p.(pid) p.(parent) p.(tf) p.(kret) p.(ctx) x p.(killed) p.(ofile) p.(cwd) p.(name) p.(tickets) p.(ticks).
Definition set_killed x p := mkProc p.(sz) p.(pgdir) p.(kstack) p.(state) p.(pid) p.(parent) p.(tf) p.(kret) p.(ctx) p.(chan) x p.(ofile) p.(cwd) p.(name) p.(tickets) p.(ticks).
Definition set_ofile x p := mkProc p.(sz) p.(pgdir) p.(kstack) p.(state) p.(pid) p.(parent) p.(tf) p.(kret) p.(ctx) p.(chan) p.(killed) x p.(cwd) p.(name) p.(tickets) p.(ticks).
Definition set_cwd x p := mkProc p.(sz) p.(pgdir) p.(kstack) p.(state) p.(pid) p.(parent) p.(tf) p.(kret) p.(ctx) p.(chan) p.(killed) p.(ofile) x p.(name) p.(tickets) p.(ticks).
Definition set_name x p := mkProc p.(sz) p.(pgdir) p.(kstack) p.(state) p.(pid) p.(parent) p.(tf) p.(kret) p.(ctx) p.(chan) p.(killed) p.(ofile) p.(cwd) x p.(tickets) p.(ticks).
Definition set_tickets x p := mkProc p.(sz) p.(pgdir) p.(kstack) p.(state) p.(pid) p.(parent) p.(tf) p.(kret) p.(ctx) p.(chan) p.(killed) p.(ofile) p.(cwd) p.(name) x p.(ticks).
Definition set_ticks x p := mkProc p.(sz) p.(pgdir) p.(kstack) p.(state) p.(pid) p.(parent) p.(tf) p.(kret) p.(ctx) p.(chan) p.(killed) p.(ofile) p.(cwd) p.(name) p.(tickets) x.

(** Per-CPU state: the two fields of [struct cpu] that [proc.c] itself reads or
    writes directly as data; [ncli] and [intena] are reached through the
    environment, with the interrupt state they describe. *)
Record cpu := mkCpu { apicid : Z; cproc : option nat }.

Inductive klock := ptable_lock | tickslock | other_lock (n : Z).

#[export] Instance klock_eq_dec : EqDecision klock.
Proof. solve_decision. Defined.

Record kst (ext : Type) := mkK {
  ptable : list proc; cpus : list cpu; ncpu : nat;
  initproc : option nat; nextpid : Z; val : Z; gticks : Z; first : Z;
  kext : ext }.

Arguments mkK {ext}.
Arguments ptable {ext}.
Arguments cpus {ext}.
Arguments ncpu {ext}.
Arguments initproc {ext}.
Arguments nextpid {ext}.
Arguments val {ext}.
Arguments gticks {ext}.
Arguments first {ext}.
Arguments kext {ext}.

Record pstat := mkPstat { inuse : list Z; ptickets : list Z; ppid : list Z; pticks : list Z }.

(** ** The environment *)

(** Operations of other xv6 files that do not switch processes. *)
Class KernelEnv (ext : Type) := {
  FL_IF : Z; PGSIZE : Z; SEG_UCODE : Z; SEG_UDATA : Z; DPL_USER : Z;
  forkret_addr : Z; trapret_addr : Z;
  readeflags : ext -> Z;
  lapicid : ext -> Z;
  ncli : ext -> Z;
  intena : ext -> Z;
  set_intena : Z -> ext -> ext;
  pushcli : ext -> ext;
  popcli : ext -> outcome string ext;
  sti : ext -> ext;
  initlock : klock -> ext -> ext;
  acquire : klock -> ext -> outcome string ext;
  release : klock -> ext -> outcome string ext;
  holding : klock -> ext -> bool;
  kalloc : ext -> Z * ext;
  kfree : Z -> ext -> ext;
  setupkvm : ext -> Z * ext;
  inituvm : Z -> ext -> ext;
  copyuvm : Z -> Z -> ext -> Z * ext;
  freevm : Z -> ext -> ext;
  allocuvm : Z -> Z -> Z -> ext -> Z * ext;
  deallocuvm : Z -> Z -> Z -> ext -> Z * ext;
  switchuvm : nat -> ext -> ext;
  switchkvm : ext -> ext;
  filedup : Z -> ext -> Z * ext;
  idup : Z -> ext -> Z * ext;
  namei : string -> ext -> Z * ext;
  safestrcpy : string -> Z -> string;
  getcallerpcs : Z -> ext -> list Z }.

(** Operations that may put the caller to sleep, and the two directions of the
    context switch.  [swtch_sched p] runs the rest of the system from the
    moment process [p] leaves for the scheduler until it is switched back in;
    [swtch_proc p] runs process [p] until it calls [sched]. *)
Class KernelServices (ext : Type) := {
  fileclose : Z -> kst ext -> outcome string (kst ext);
  begin_op : kst ext -> outcome string (kst ext);
  iput : Z -> kst ext -> outcome string (kst ext);
  end_op : kst ext -> outcome string (kst ext);
  iinit : kst ext -> outcome string (kst ext);
  initlog : kst ext -> outcome string (kst ext);
  swtch_sched : nat -> kst ext -> outcome string (kst ext);
  swtch_proc : nat -> kst ext -> outcome string (kst ext) }.

Section kernel.
Context {ext : Type} `{!KernelEnv ext} `{!KernelServices ext}.

Implicit Type st : kst ext.

(** *** Field updates of the kernel state *)

Definition set_ptable t st : kst ext :=
  mkK t st.(cpus) st.(ncpu) st.(initproc) st.(nextpid) st.(val) st.(gticks) st.(first) st.(kext).
Definition set_cpus c st : kst ext :=
  mkK st.(ptable) c st.(ncpu) st.(initproc) st.(nextpid) st.(val) st.(gticks) st.(first) st.(kext).
Definition set_initproc i st : kst ext :=
  mkK st.(ptable) st.(cpus) st.(ncpu) i st.(nextpid) st.(val) st.(gticks) st.(first) st.(kext).
Definition set_nextpid n st : kst ext :=
  mkK st.(ptable) st.(cpus) st.(ncpu) st.(initproc) n st.(val) st.(gticks) st.(first) st.(kext).
Definition set_val v st : kst ext :=
  mkK st.(ptable) st.(cpus) st.(ncpu) st.(initproc) st.(nextpid) v st.(gticks) st.(first) st.(kext).
Definition set_first f st : kst ext :=
  mkK st.(ptable) st.(cpus) st.(ncpu) st.(initproc) st.(nextpid) st.(val) st.(gticks) f st.(kext).
Definition set_ext e st : kst ext :=
  mkK st.(ptable) st.(cpus) st.(ncpu) st.(initproc) st.(nextpid) st.(val) st.(gticks) st.(first) e.

(** An assignment to fields of an entry of the process table. *)
Definition upd (p : nat) (f : proc -> proc) st : kst ext :=
  set_ptable (alter f p st.(ptable)) st.

Definition with_ext (f : ext -> ext) st : kst ext := set_ext (f st.(kext)) st.

Definition with_ext_o (f : ext -> outcome string ext) st : outcome string (kst ext) :=
  let* e := f st.(kext) in Done (set_ext e st).

Definition with_ext_v {A} (f : ext -> A * ext) st : A * kst ext :=
  let '(a, e) := f st.(kext) in (a, set_ext e st).

(** A pointer that is dereferenced. *)
Definition deref {A} (o : option A) : outcome string A :=
  match o with Some a => Done a | None => Crash "null pointer"%string end.

Definition entry (p : nat) st : outcome string proc := deref (st.(ptable) !! p).

(** ** CPU and current process *)

Definition pinit st : kst ext := with_ext (initlock ptable_lock) st.

Definition mycpu st : outcome string nat :=
  if negb (Z.land (readeflags st.(kext)) FL_IF =? 0)
  then Fail "mycpu called with interrupts enabled"%string
  else match list_find (fun c => c.(apicid) = lapicid st.(kext)) (take st.(ncpu) st.(cpus)) with
       | Some (i, _) => Done i
       | None => Fail "unknown apicid"%string
       end.

Definition cpuid st : outcome string nat := mycpu st.

Definition myproc st : outcome string (option nat * kst ext) :=
  let st1 := with_ext pushcli st in
  let* c := mycpu st1 in
  let* cp := deref (st1.(cpus) !! c) in
  let* st2 := with_ext_o popcli st1 in
  Done (cp.(cproc), st2).

(** [myproc()] used as [myproc()->field]. *)
Definition curproc st : outcome string (nat * kst ext) :=
  let* '(p, st) := myproc st in
  let* p := deref p in Done (p, st).

(** ** Allocation of a process *)

(** First [UNUSED] entry of the table. *)
Definition find_unused st : option nat :=
  fst <$> list_find (fun p => p.(state) = UNUSED) st.(ptable).

Definition allocproc st : outcome string (option nat * kst ext) :=
  let* st := with_ext_o (acquire ptable_lock) st in
  match find_unused st with
  | None =>
      let* st := with_ext_o (release ptable_lock) st in Done (None, st)
  | Some p =>
      let st := upd p (set_state EMBRYO) st in
      let st := upd p (set_pid st.(nextpid)) st in
      let st := set_nextpid (s32 (st.(nextpid) + 1)) st in
      let st := upd p (set_tickets 1) st in
      let* st := with_ext_o (release ptable_lock) st in
      let '(ks, st) := with_ext_v kalloc st in
      let st := upd p (set_kstack ks) st in
      if ks =? 0 then Done (None, upd p (set_state UNUSED) st)
      else
        let st := upd p (set_kret trapret_addr) st in
        let st := upd p (set_ctx (mkContext 0 0 0 0 forkret_addr)) st in
        Done (Some p, st)
  end.

Definition userinit st : outcome string (kst ext) :=
  let* '(op, st) := allocproc st in
  let st := set_initproc op st in
  let '(pd, st) := with_ext_v setupkvm st in
  let* p := deref op in
  let st := upd p (set_pgdir pd) st in
  if pd =? 0 then Fail "userinit: out of memory?"%string else
  let st := with_ext (inituvm pd) st in
  let st := upd p (set_sz PGSIZE) st in
  let ds := Z.lor (Z.shiftl SEG_UDATA 3) DPL_USER in
  let st := upd p (set_tf (mkTf 0 PGSIZE 0 FL_IF
                     (Z.lor (Z.shiftl SEG_UCODE 3) DPL_USER) ds ds ds)) st in
  let st := upd p (set_name (safestrcpy "initcode" 16)) st in
  let '(d, st) := with_ext_v (namei "/") st in
  let st := upd p (set_cwd d) st in
  let* st := with_ext_o (acquire ptable_lock) st in
  let st := upd p (set_state RUNNABLE) st in
  with_ext_o (release ptable_lock) st.

Definition growproc (n : Z) st : outcome string (Z * kst ext) :=
  let* '(p, st) := curproc st in
  let* cp := entry p st in
  let old := cp.(sz) in
  let '(new, st) :=
    if n >? 0 then with_ext_v (allocuvm cp.(pgdir) old (u32 (old + n))) st
    else if n <? 0 then with_ext_v (deallocuvm cp.(pgdir) old (u32 (old + n))) st
    else (old, st) in
  if negb (n =? 0) && (new =? 0) then Done (-1, st)
  else
    let st := upd p (set_sz new) st in
    Done (0, with_ext (switchuvm p) st).

(** ** fork *)

(** [for(i = 0; i < NOFILE; i++) if(curproc->ofile[i])
       np->ofile[i] = filedup(curproc->ofile[i]);] *)
Fixpoint dup_files (ids : list nat) (src np : nat) st : kst ext :=
  match ids with
  | [] => st
  | i :: ids =>
      let f := default 0 ((st.(ptable) !! src) ≫= fun p => p.(ofile) !! i) in
      if f =? 0 then dup_files ids src np st
      else let '(f', st) := with_ext_v (filedup f) st in
           dup_files ids src np (upd np (fun p => set_ofile (<[i := f']> p.(ofile)) p) st)
  end.

Definition fork st : outcome string (Z * kst ext) :=
  let* '(cur, st) := curproc st in
  let* '(onp, st) := allocproc st in
  match onp with
  | None => Done (-1, st)
  | Some np =>
      let* cp := entry cur st in
      let '(pd, st) := with_ext_v (copyuvm cp.(pgdir) cp.(sz)) st in
      let st := upd np (set_pgdir pd) st in
      if pd =? 0 then
        let* n := entry np st in
        let st := with_ext (kfree n.(kstack)) st in
        let st := upd np (set_kstack 0) st in
        Done (-1, upd np (set_state UNUSED) st)
      else
        let st := upd np (set_sz cp.(sz)) st in
        let st := upd np (set_parent (Some cur)) st in
        let st := upd np (set_tf cp.(tf)) st in
        let st := upd np (set_tickets cp.(tickets)) st in
        let st := upd np (fun p => let t := p.(tf) in
                    set_tf (mkTf 0 t.(tf_esp) t.(tf_eip) t.(tf_eflags) t.(tf_cs) t.(tf_ds)
                                 t.(tf_es) t.(tf_ss)) p) st in
        let st := dup_files (seq 0 NOFILE) cur np st in
        let '(d, st) := with_ext_v (idup cp.(cwd)) st in
        let st := upd np (set_cwd d) st in
        let st := upd np (set_name (safestrcpy cp.(name) 16)) st in
        let* n := entry np st in
        let* st := with_ext_o (acquire ptable_lock) st in
        let st := upd np (set_state RUNNABLE) st in
        let* st := with_ext_o (release ptable_lock) st in
        Done (n.(pid), st)
  end.

(** ** Sleep and wakeup *)

Definition wakeup1 (c : channel) st : kst ext :=
  set_ptable ((fun p => if bool_decide (p.(state) = SLEEPING /\ p.(chan) = c)
                        then set_state RUNNABLE p else p) <$> st.(ptable)) st.

Definition wakeup (c : channel) st : outcome string (kst ext) :=
  let* st := with_ext_o (acquire ptable_lock) st in
  with_ext_o (release ptable_lock) (wakeup1 c st).

Definition sched st : outcome string (kst ext) :=
  let* '(p, st) := curproc st in
  if negb (holding ptable_lock st.(kext)) then Fail "sched ptable.lock"%string else
  let* _ := mycpu st in
  if negb (ncli st.(kext) =? 1) then Fail "sched locks"%string else
  let* pr := entry p st in
  if decide (pr.(state) = RUNNING) then Fail "sched running"%string else
  if negb (Z.land (readeflags st.(kext)) FL_IF =? 0) then Fail "sched interruptible"%string else
  let saved := intena st.(kext) in
  let* st := swtch_sched p st in
  let* _ := mycpu st in
  Done (with_ext (set_intena saved) st).

Definition yield st : outcome string (kst ext) :=
  let* st := with_ext_o (acquire ptable_lock) st in
  let* '(p, st) := curproc st in
  let st := upd p (set_state RUNNABLE) st in
  let* st := sched st in
  with_ext_o (release ptable_lock) st.

Definition forkret st : outcome string (kst ext) :=
  let* st := with_ext_o (release ptable_lock) st in
  if st.(first) =? 0 then Done st
  else
    let st := set_first 0 st in
    let* st := iinit st in
    initlog st.

(** [sleep(chan, lk)]; [None] is a null [lk]. *)
Definition sleep (c : channel) (lk : option klock) st : outcome string (kst ext) :=
  let* '(op, st) := myproc st in
  match op, lk with
  | None, _ => Fail "sleep"%string
  | Some _, None => Fail "sleep without lk"%string
  | Some p, Some l =>
      let* st :=
        if decide (l = ptable_lock) then Done st
        else let* st := with_ext_o (acquire ptable_lock) st in
             with_ext_o (release l) st in
      let st := upd p (set_chan c) st in
      let st := upd p (set_state SLEEPING) st in
      let* st := sched st in
      let st := upd p (set_chan CNull) st in
      if decide (l = ptable_lock) then Done st
      else let* st := with_ext_o (release ptable_lock) st in
           with_ext_o (acquire l) st
  end.

(** ** exit *)

(** [for(fd = 0; fd < NOFILE; fd++) if(curproc->ofile[fd]){
       fileclose(curproc->ofile[fd]); curproc->ofile[fd] = 0; }] *)
Fixpoint close_files (fds : list nat) (cur : nat) st : outcome string (kst ext) :=
  match fds with
  | [] => Done st
  | fd :: fds =>
      let f := default 0 ((st.(ptable) !! cur) ≫= fun p => p.(ofile) !! fd) in
      if f =? 0 then close_files fds cur st
      else let* st := fileclose f st in
           close_files fds cur (upd cur (fun p => set_ofile (<[fd := 0]> p.(ofile)) p) st)
  end.

(** A pointer to a process used as a sleep channel. *)
Definition chan_of (p : option nat) : channel :=
  match p with Some i => CProc i | None => CNull end.

(** The loop that passes abandoned children to init. *)
Fixpoint reparent (ps : list nat) (cur : nat) st : kst ext :=
  match ps with
  | [] => st
  | i :: ps =>
      match st.(ptable) !! i with
      | Some p =>
          if decide (p.(parent) = Some cur) then
            let st := upd i (set_parent st.(initproc)) st in
            let st := if decide (p.(state) = ZOMBIE)
                      then wakeup1 (chan_of st.(initproc)) st else st in
            reparent ps cur st
          else reparent ps cur st
      | None => reparent ps cur st
      end
  end.

(** [exit] from [acquire(&ptable.lock)] to the assignment of [ZOMBIE]. *)
Definition exit_locked (cur : nat) st : outcome string (kst ext) :=
  let* st := with_ext_o (acquire ptable_lock) st in
  let* cp := entry cur st in
  let st := wakeup1 (chan_of cp.(parent)) st in
  let st := reparent (seq 0 NPROC) cur st in
  Done (upd cur (set_state ZOMBIE) st).

Definition exit st : outcome string (kst ext) :=
  let* '(cur, st) := curproc st in
  if decide (Some cur = st.(initproc)) then Fail "init exiting"%string else
  let* st := close_files (seq 0 NOFILE) cur st in
  let* st := begin_op st in
  let* cp := entry cur st in
  let* st := iput cp.(cwd) st in
  let* st := end_op st in
  let st := upd cur (set_cwd 0) st in
  let* st := exit_locked cur st in
  let* _ := sched st in
  Fail "zombie exit"%string.

(** ** wait *)

(** One scan of the table: either the entry of an exited child, or whether the
    process has children. *)
Fixpoint wait_scan (ps : list proc) (i : nat) (cur : nat) (havekids : bool) : nat + bool :=
  match ps with
  | [] => inr havekids
  | p :: ps =>
      if decide (p.(parent) = Some cur) then
        if decide (p.(state) = ZOMBIE) then inl i
        else wait_scan ps (S i) cur true
      else wait_scan ps (S i) cur havekids
  end.

(** The block executed for the exited child found. *)
Definition reap (i : nat) st : outcome string (Z * kst ext) :=
  let* p := entry i st in
  let st := with_ext (kfree p.(kstack)) st in
  let st := upd i (set_kstack 0) st in
  let st := with_ext (freevm p.(pgdir)) st in
  let st := upd i (set_pid 0) st in
  let st := upd i (set_parent None) st in
  let st := upd i (set_name EmptyString) st in
  let st := upd i (set_killed 0) st in
  let st := upd i (set_state UNUSED) st in
  let* st := with_ext_o (release ptable_lock) st in
  Done (p.(pid), st).

(** The [for(;;)] loop; [None] when the fuel runs out. *)
Fixpoint wait_loop (fuel : nat) (cur : nat) st : option (outcome string (Z * kst ext)) :=
  match fuel with
  | O => None
  | S fuel =>
      match wait_scan st.(ptable) 0 cur false with
      | inl i => Some (reap i st)
      | inr havekids =>
          match entry cur st with
          | Done cp =>
              if negb havekids || negb (cp.(killed) =? 0) then
                Some (let* st := with_ext_o (release ptable_lock) st in Done (-1, st))
              else
                match sleep (CProc cur) (Some ptable_lock) st with
                | Done st => wait_loop fuel cur st
                | Fail e => Some (Fail e)
                | Crash w => Some (Crash w)
                end
          | Fail e => Some (Fail e)
          | Crash w => Some (Crash w)
          end
      end
  end.

Definition wait (fuel : nat) st : option (outcome string (Z * kst ext)) :=
  match (let* '(cur, st) := curproc st in
         let* st := with_ext_o (acquire ptable_lock) st in Done (cur, st)) with
  | Done (cur, st) => wait_loop fuel cur st
  | Fail e => Some (Fail e)
  | Crash w => Some (Crash w)
  end.

(** ** Scheduler *)

Definition total_tickets st : Z :=
  fold_left (fun acc p => if decide (p.(state) = RUNNABLE) then s32 (acc + p.(tickets)) else acc)
    st.(ptable) 0.

Definition set_cproc (c : nat) (p : option nat) st : kst ext :=
  set_cpus (alter (fun k => mkCpu k.(apicid) p) c st.(cpus)) st.

(** The body of the second loop for an entry whose cumulated tickets exceed the
    winner: switch to it and account for the ticks it used. *)
Definition run_proc (c p : nat) st : outcome string (kst ext) :=
  let ticks0 := st.(gticks) in
  let st := set_cproc c (Some p) st in
  let st := with_ext (switchuvm p) st in
  let st := upd p (set_state RUNNING) st in
  let* st := swtch_proc p st in
  let st := with_ext switchkvm st in
  let st := set_cproc c None st in
  let st := upd p (fun q => set_ticks (s32 (q.(ticks) + u32 (st.(gticks) - ticks0))) q) st in
  let* pr := entry p st in
  if pr.(tickets) >? 1 then
    let* par := deref pr.(parent) in
    let* _ := entry par st in
    Done st
  else Done st.

(** The second loop over the table, from entry [p] on, with the value of
    [counter] reached. *)
Fixpoint sched_scan (ps : list nat) (c : nat) (winner counter : Z) st : outcome string (kst ext) :=
  match ps with
  | [] => Done st
  | p :: ps =>
      let* pr := entry p st in
      if decide (pr.(state) <> RUNNABLE) then sched_scan ps c winner counter st
      else
        let counter := s32 (counter + pr.(tickets)) in
        if counter <=? winner then sched_scan ps c winner counter st
        else let* st := run_proc c p st in sched_scan ps c winner counter st
  end.

(** One turn of the [for(;;)] loop; [None] when the draw of the winner runs out
    of fuel. *)
Definition scheduler_round (fuel : nat) (c : nat) st : option (outcome string (kst ext)) :=
  match (let st := with_ext sti st in with_ext_o (acquire ptable_lock) st) with
  | Done st =>
      match getwinner fuel (total_tickets st) st.(val) with
      | None => None
      | Some w =>
          Some (let* '(winner, v) := w in
                let st := set_val v st in
                let* st := sched_scan (seq 0 NPROC) c winner 0 st in
                with_ext_o (release ptable_lock) st)
      end
  | Fail e => Some (Fail e)
  | Crash w => Some (Crash w)
  end.

(** [scheduler]: the CPU it runs on and the state in which its loop starts. *)
Definition scheduler_start st : outcome string (nat * kst ext) :=
  let* c := mycpu st in Done (c, set_cproc c None st).

(** The loop itself, as steps. *)
Inductive scheduler_step (c : nat) : kst ext -> kst ext -> Prop :=
| scheduler_step_round fuel st st' :
    scheduler_round fuel c st = Some (Done st') -> scheduler_step c st st'.

(** ** kill, procdump, settickets, getpinfo *)

Definition kill (target : Z) st : outcome string (Z * kst ext) :=
  let* st := with_ext_o (acquire ptable_lock) st in
  match list_find (fun p => p.(pid) = target) st.(ptable) with
  | Some (i, p) =>
      let st := upd i (set_killed 1) st in
      let st := if decide (p.(state) = SLEEPING) then upd i (set_state RUNNABLE) st else st in
      let* st := with_ext_o (release ptable_lock) st in Done (0, st)
  | None =>
      let* st := with_ext_o (release ptable_lock) st in Done (-1, st)
  end.

Definition state_name (s : procstate) : string :=
  match s with
  | UNUSED => "unused" | EMBRYO => "embryo" | SLEEPING => "sleep "
  | RUNNABLE => "runble" | RUNNING => "run   " | ZOMBIE => "zombie"
  end%string.

(** [for(i=0; i<10 && pc[i] != 0; i++)] *)
Fixpoint until_zero (l : list Z) : list Z :=
  match l with [] => [] | a :: l => if a =? 0 then [] else a :: until_zero l end.

(** One line of [procdump]: pid, state, name and the program counters printed
    for a sleeping process. *)
Definition procdump_line st (p : proc) : option (Z * string * string * list Z) :=
  if decide (p.(state) = UNUSED) then None
  else Some (p.(pid), state_name p.(state), p.(name),
             if decide (p.(state) = SLEEPING)
             then until_zero (take 10 (getcallerpcs (p.(ctx).(ebp) + 8) st.(kext)))
             else []).

Definition procdump st : list (Z * string * string * list Z) :=
  omap (procdump_line st) st.(ptable).

Definition settickets (number : Z) st : outcome string (Z * kst ext) :=
  let* st := with_ext_o (acquire ptable_lock) st in
  let* '(cur, st) := curproc st in
  let* cp := entry cur st in
  let currentpid := cp.(pid) in
  match list_find (fun p => p.(pid) = currentpid) st.(ptable) with
  | Some (i, _) =>
      let st := upd i (set_tickets number) st in
      let* st := with_ext_o (release ptable_lock) st in Done (0, st)
  | None =>
      let* st := with_ext_o (release ptable_lock) st in Done (-1, st)
  end.

Definition getpinfo st : outcome string (pstat * Z * kst ext) :=
  let* st := with_ext_o (acquire ptable_lock) st in
  let ps := mkPstat ((fun p => if decide (p.(state) = UNUSED) then 0 else 1) <$> st.(ptable))
                    (tickets <$> st.(ptable)) (pid <$> st.(ptable)) (ticks <$> st.(ptable)) in
  let* st := with_ext_o (release ptable_lock) st in
  Done (ps, 0, st).

End kernel.

(** ** Steps of the system

    The effects of the handlers on the shared state, each taken in one piece
    under [ptable.lock]; [sleep] and [yield] up to the call of [sched], and the
    scheduler's switch to a process.  The process that executes a handler is
    the one running on its CPU. *)

Section steps.
Context {ext : Type} `{!KernelEnv ext} `{!KernelServices ext}.

Definition runs (cur : nat) (st : kst ext) : Prop :=
  exists p, st.(ptable) !! cur = Some p /\ p.(state) = RUNNING.

Definition INT_MAX : Z := 2147483647.

Inductive kstep : kst ext -> kst ext -> Prop :=
| ks_userinit st st' :
    st.(initproc) = None -> st.(nextpid) < INT_MAX -> userinit st = Done st' -> kstep st st'
| ks_fork cur st st1 st' r :
    curproc st = Done (cur, st1) -> runs cur st -> st.(nextpid) < INT_MAX ->
    fork st = Done (r, st') -> kstep st st'
| ks_exit cur st st' :
    runs cur st -> st.(initproc) <> Some cur -> exit_locked cur st = Done st' -> kstep st st'
| ks_reap cur i st st' r :
    wait_scan st.(ptable) 0 cur false = inl i -> reap i st = Done (r, st') -> kstep st st'
| ks_sleep cur c st :
    runs cur st -> kstep st (upd cur (set_state SLEEPING) (upd cur (set_chan c) st))
| ks_yield cur st : runs cur st -> kstep st (upd cur (set_state RUNNABLE) st)
| ks_wakeup c st st' : wakeup c st = Done st' -> kstep st st'
| ks_kill n st st' r : kill n st = Done (r, st') -> kstep st st'
| ks_settickets n st st' r : 1 <= n -> settickets n st = Done (r, st') -> kstep st st'
| ks_run c p pr st :
    st.(ptable) !! p = Some pr -> pr.(state) = RUNNABLE ->
    kstep st (upd p (set_state RUNNING) (set_cproc c (Some p) st))
| ks_other st st' :
    st'.(ptable) = st.(ptable) -> st'.(initproc) = st.(initproc) ->
    st'.(nextpid) = st.(nextpid) -> kstep st st'.

(** The table of a booting kernel: every entry is zero. *)
Definition zero_proc : proc :=
  mkProc 0 0 0 UNUSED 0 None (mkTf 0 0 0 0 0 0 0 0) 0 (mkContext 0 0 0 0 0) CNull 0
         (replicate NOFILE 0) 0 EmptyString 0 0.

Definition kinit (st : kst ext) : Prop :=
  st.(ptable) = replicate NPROC zero_proc /\ st.(nextpid) = 1 /\ st.(initproc) = None.

End steps.

(** ** Documented behaviour of the environment *)

(** What the code relies on: [pushcli] disables interrupts and [popcli] undoes
    it; [acquire] and [release] take and give up a lock the CPU does not hold
    or holds, and count in [ncli] the locks held, with interrupts off as long as
    there are any; the memory and file services leave the locks and the CPU
    alone. *)
Definition quiet {ext} `{!KernelEnv ext} (e e' : ext) : Prop :=
  lapicid e' = lapicid e /\ forall l, holding l e' = holding l e.

Definition intr_off {ext} `{!KernelEnv ext} (e : ext) : Prop := Z.land (readeflags e) FL_IF = 0.

Class KernelSpec (ext : Type) `{!KernelEnv ext} := {
  pushcli_off e : intr_off (pushcli e);
  pushcli_lapicid e : lapicid (pushcli e) = lapicid e;
  popcli_pushcli e : exists e', popcli (pushcli e) = Done e' /\ quiet e e' /\
    ncli e' = ncli e /\ (intr_off e -> intr_off e');
  acquire_free l e : holding l e = false ->
    exists e', acquire l e = Done e' /\ holding l e' = true /\ lapicid e' = lapicid e /\
      (forall l', l' <> l -> holding l' e' = holding l' e) /\ ncli e' = ncli e + 1 /\ intr_off e';
  acquire_held l e : holding l e = true -> acquire l e = Fail "acquire"%string;
  release_held l e : holding l e = true ->
    exists e', release l e = Done e' /\ holding l e' = false /\ lapicid e' = lapicid e /\
      (forall l', l' <> l -> holding l' e' = holding l' e) /\ ncli e' = ncli e - 1 /\
      (ncli e' <> 0 -> intr_off e -> intr_off e');
  release_free l e : holding l e = false -> release l e = Fail "release"%string;
  kalloc_quiet e : quiet e (snd (kalloc e));
  kfree_quiet a e : quiet e (kfree a e);
  copyuvm_quiet d n e : quiet e (snd (copyuvm d n e));
  freevm_quiet d e : quiet e (freevm d e);
  filedup_quiet f e : quiet e (snd (filedup f e));
  idup_quiet i e : quiet e (snd (idup i e)) }.

(** ** Invariant *)

(** A process that can be the parent of another one. *)
Definition alive (s : procstate) : bool :=
  match s with SLEEPING | RUNNABLE | RUNNING => true | _ => false end.

Definition alive_at (t : list proc) (j : nat) : Prop :=
  exists q, t !! j = Some q /\ alive q.(state) = true.

Record table_ok (t : list proc) (np : Z) : Prop := {
  tok_length : length t = NPROC;
  tok_nodup i j p q : t !! i = Some p -> t !! j = Some q ->
    p.(pid) <> 0 -> p.(pid) = q.(pid) -> i = j;
  tok_pid i p : t !! i = Some p -> 0 <= p.(pid) < np;
  tok_used i p : t !! i = Some p -> p.(state) <> UNUSED -> 0 < p.(pid) /\ 1 <= p.(tickets);
  tok_unused i p : t !! i = Some p -> p.(state) = UNUSED -> p.(parent) = None;
  tok_parent i p j : t !! i = Some p -> p.(parent) = Some j -> alive_at t j }.

Definition kinv {ext} (st : kst ext) : Prop :=
  table_ok st.(ptable) st.(nextpid) /\ 0 < st.(nextpid) /\
  (forall ip, st.(initproc) = Some ip -> alive_at st.(ptable) ip).
