(* ===== verification/ProcInv.v ===== *)
(** * The process table invariant

    Lemmas on updates of the process table and the proof that every step of
    the kernel keeps [kinv]: live pids are unique and below [nextpid], used
    entries have a positive pid and at least one ticket, free entries have no
    parent, and parents are alive. *)

From Stdlib Require Import ZArith Lia String.
From stdpp Require Import base tactics list list_numbers numbers relations.
From S2P Require Import Prelude Lcg Lottery Proc.

Local Open Scope Z_scope.
Local Open Scope ostep_scope.

(** ** Updates of one entry *)

Lemma alter_insert {A} (f : A -> A) (l : list A) i x :
  l !! i = Some x -> alter f i l = <[i := f x]> l.
Proof.
  intros H. apply list_eq. intros j. destruct (decide (i = j)) as [<-|].
  - rewrite list_lookup_alter_eq, H, list_lookup_insert_eq; [done|]. by eapply lookup_lt_Some.
  - by rewrite list_lookup_alter_ne, list_lookup_insert_ne.
Qed.

Lemma alter_insert_eq {A} (f : A -> A) (l : list A) i x :
  (i < length l)%nat -> alter f i (<[i := x]> l) = <[i := f x]> l.
Proof.
  intros H. rewrite (alter_insert _ _ _ x), list_insert_insert_eq; [done|].
  by rewrite list_lookup_insert_eq.
Qed.

Section env.
Context {ext : Type} `{!KernelEnv ext} `{!KernelServices ext}.
Implicit Type st : kst ext.

(** Updates of different parts of the state commute; a chain of assignments to
    the fields of one entry is one assignment.  The tactic [norm_kst] below brings a
    state to the form [set_ext e (set_initproc ip (set_nextpid n (upd i f st)))]. *)

Lemma upd_upd i f g st : upd i f (upd i g st) = upd i (fun p => f (g p)) st.
Proof. unfold upd, set_ptable. cbn. f_equal. revert i. induction (ptable st); intros []; cbn; f_equal; auto. Qed.

Lemma upd_set_ext i f e st : upd i f (set_ext e st) = set_ext e (upd i f st).
Proof. done. Qed.

Lemma upd_set_nextpid i f n st : upd i f (set_nextpid n st) = set_nextpid n (upd i f st).
Proof. done. Qed.

Lemma upd_set_initproc i f ip st : upd i f (set_initproc ip st) = set_initproc ip (upd i f st).
Proof. done. Qed.

Lemma set_ext_set_ext e e' st : set_ext e (set_ext e' st) = set_ext e st.
Proof. done. Qed.

Lemma set_nextpid_set_ext n e st : set_nextpid n (set_ext e st) = set_ext e (set_nextpid n st).
Proof. done. Qed.

Lemma set_initproc_set_ext ip e st : set_initproc ip (set_ext e st) = set_ext e (set_initproc ip st).
Proof. done. Qed.

Lemma with_ext_set_ext f st : with_ext f st = set_ext (f (kext st)) st.
Proof. done. Qed.

Lemma proj_set_ext e st :
  ptable (set_ext e st) = ptable st /\ nextpid (set_ext e st) = nextpid st /\
  initproc (set_ext e st) = initproc st /\ kext (set_ext e st) = e.
Proof. done. Qed.

Lemma proj_set_nextpid n st :
  ptable (set_nextpid n st) = ptable st /\ nextpid (set_nextpid n st) = n /\
  initproc (set_nextpid n st) = initproc st /\ kext (set_nextpid n st) = kext st.
Proof. done. Qed.

Lemma proj_set_initproc ip st :
  ptable (set_initproc ip st) = ptable st /\ nextpid (set_initproc ip st) = nextpid st /\
  initproc (set_initproc ip st) = ip /\ kext (set_initproc ip st) = kext st.
Proof. done. Qed.

Lemma proj_upd i f st :
  ptable (upd i f st) = alter f i (ptable st) /\ nextpid (upd i f st) = nextpid st /\
  initproc (upd i f st) = initproc st /\ kext (upd i f st) = kext st.
Proof. done. Qed.

Lemma upd_insert i f st p :
  ptable st !! i = Some p -> upd i f st = set_ptable (<[i := f p]> (ptable st)) st.
Proof. intros H. unfold upd. by rewrite (alter_insert _ _ _ _ H). Qed.

Lemma with_ext_o_Done f st st' :
  with_ext_o f st = Done st' <-> exists e, f st.(kext) = Done e /\ st' = set_ext e st.
Proof.
  unfold with_ext_o. rewrite obind_Done. split; intros (e & ? & H); exists e;
    [injection H as <- | subst]; auto.
Qed.

Lemma with_ext_v_eq {A} (f : ext -> A * ext) st :
  with_ext_v f st = (fst (f st.(kext)), set_ext (snd (f st.(kext))) st).
Proof. unfold with_ext_v. by destruct (f (kext st)). Qed.

Lemma curproc_Done st p st' :
  curproc st = Done (p, st') -> exists e, st' = set_ext e st.
Proof.
  unfold curproc, myproc. intros H.
  apply obind_Done in H as ([op st2] & H & H2).
  apply obind_Done in H2 as (q & _ & [= _ <-]).
  apply obind_Done in H as (c & _ & H). apply obind_Done in H as (cp & _ & H).
  apply obind_Done in H as (st3 & H & [= _ <-]).
  apply with_ext_o_Done in H as (e & _ & ->). by exists e.
Qed.

Lemma entry_Done p st pr : entry p st = Done pr <-> st.(ptable) !! p = Some pr.
Proof. unfold entry, deref. destruct (ptable st !! p); split; intros; by simplify_eq. Qed.

End env.

(** Bring the states of a goal and of the hypotheses to normal form. *)
Ltac norm_kst :=
  repeat (progress (rewrite ?upd_upd, ?upd_set_ext, ?upd_set_nextpid, ?upd_set_initproc,
    ?set_ext_set_ext, ?set_nextpid_set_ext, ?set_initproc_set_ext, ?with_ext_set_ext,
    ?with_ext_v_eq in *; cbn beta iota zeta in * )).

(** Take apart a handler that returned. *)
Ltac invert_done :=
  repeat match goal with
  | H : obind _ _ = Done _ |- _ =>
      apply obind_Done in H as (? & ? & ?); cbn beta iota zeta in *
  | H : with_ext_o _ _ = Done _ |- _ => apply with_ext_o_Done in H as (? & _ & ->)
  | H : curproc _ = Done (_, _) |- _ => apply curproc_Done in H as (? & ->)
  | H : entry _ _ = Done _ |- _ => apply entry_Done in H
  | H : Done _ = Done _ |- _ => injection H as H; subst
  | H : (_, _) = (_, _) |- _ => injection H; clear H; intros; subst
  end.

(** ** Preservation lemmas for the table *)

Lemma alive_used s : alive s = true -> s <> UNUSED.
Proof. by destruct s. Qed.

Lemma alive_at_insert_ne t i p' j : alive_at t j -> i <> j -> alive_at (<[i := p']> t) j.
Proof. intros (q & H & Ha) Hne. exists q. by rewrite list_lookup_insert_ne. Qed.

Lemma alive_at_insert t i p' j :
  (i < length t)%nat -> alive_at t j -> (i = j -> alive p'.(state) = true) ->
  alive_at (<[i := p']> t) j.
Proof.
  intros Hi Hj Hp. destruct (decide (i = j)) as [<-|]; [|by apply alive_at_insert_ne].
  exists p'. rewrite list_lookup_insert_eq by done. auto.
Qed.

(** One entry changes. *)
Lemma table_ok_update t np np' i p p' :
  table_ok t np -> t !! i = Some p -> np <= np' ->
  (p'.(pid) = p.(pid) \/ p'.(pid) = 0 /\ 0 < np' \/ p'.(pid) = np /\ 0 < np < np') ->
  (p'.(state) <> UNUSED -> 0 < p'.(pid) /\ 1 <= p'.(tickets)) ->
  (p'.(state) = UNUSED -> p'.(parent) = None) ->
  (forall j, p'.(parent) = Some j -> alive_at t j /\ j <> i) ->
  (alive p.(state) = true -> alive p'.(state) = true) ->
  table_ok (<[i := p']> t) np'.
Proof.
  intros [Hl Hnd Hpid Hus Hun Hpar] Hi Hnp Hp1 Hp2 Hp3 Hp4 Hp5.
  assert (Hlt : (i < length t)%nat) by (by eapply lookup_lt_Some).
  split.
  - by rewrite length_insert.
  - intros a b q r Ha Hb Hz E.
    apply list_lookup_insert_Some in Ha as [(-> & -> & _)|(Hai & Ha)],
      Hb as [(-> & -> & _)|(Hbi & Hb)]; [done| | |by eapply Hnd].
    + destruct Hp1 as [Hp1|[Hp1|Hp1]]; [|lia|].
      * eapply Hnd; [apply Hi|apply Hb|lia|lia].
      * pose proof (Hpid _ _ Hb). lia.
    + destruct Hp1 as [Hp1|[Hp1|Hp1]]; [|lia|].
      * eapply Hnd; [apply Ha|apply Hi|lia|lia].
      * pose proof (Hpid _ _ Ha). lia.
  - intros a q Ha. apply list_lookup_insert_Some in Ha as [(-> & -> & _)|(_ & Ha)].
    + pose proof (Hpid _ _ Hi). lia.
    + pose proof (Hpid _ _ Ha). lia.
  - intros a q Ha. apply list_lookup_insert_Some in Ha as [(-> & -> & _)|(_ & Ha)]; eauto.
  - intros a q Ha. apply list_lookup_insert_Some in Ha as [(-> & -> & _)|(_ & Ha)]; eauto.
  - intros a q j Ha Hj. apply list_lookup_insert_Some in Ha as [(-> & -> & _)|(_ & Ha)].
    + destruct (Hp4 j Hj). by apply alive_at_insert_ne.
    + apply alive_at_insert; [done|by eapply Hpar|]. intros ->.
      destruct (Hpar _ _ _ Ha Hj) as (r & Hr & Har). simplify_eq. auto.
Qed.

(** An entry that no one has as parent may die. *)
Lemma table_ok_die t np i p p' :
  table_ok t np -> t !! i = Some p ->
  (forall a q, t !! a = Some q -> q.(parent) <> Some i) ->
  p'.(parent) = p.(parent) \/ p'.(parent) = None ->
  p'.(pid) = p.(pid) \/ p'.(pid) = 0 /\ 0 < np ->
  (p'.(state) <> UNUSED -> 0 < p'.(pid) /\ 1 <= p'.(tickets)) ->
  (p'.(state) = UNUSED -> p'.(parent) = None) ->
  table_ok (<[i := p']> t) np.
Proof.
  intros Hok Hi Hch Hpa Hp1 Hp2 Hp3. pose proof Hok as [Hl Hnd Hpid Hus Hun Hpar].
  assert (Hlt : (i < length t)%nat) by (by eapply lookup_lt_Some).
  split.
  - by rewrite length_insert.
  - intros a b q r Ha Hb Hz E.
    apply list_lookup_insert_Some in Ha as [(-> & -> & _)|(Hai & Ha)],
      Hb as [(-> & -> & _)|(Hbi & Hb)]; [done| | |by eapply Hnd].
    + destruct Hp1 as [Hp1|Hp1]; [|lia]. eapply Hnd; [apply Hi|apply Hb|lia|lia].
    + destruct Hp1 as [Hp1|Hp1]; [|lia]. eapply Hnd; [apply Ha|apply Hi|lia|lia].
  - intros a q Ha. apply list_lookup_insert_Some in Ha as [(-> & -> & _)|(_ & Ha)].
    + pose proof (Hpid _ _ Hi). lia.
    + eauto.
  - intros a q Ha. apply list_lookup_insert_Some in Ha as [(-> & -> & _)|(_ & Ha)]; eauto.
  - intros a q Ha. apply list_lookup_insert_Some in Ha as [(-> & -> & _)|(_ & Ha)]; eauto.
  - intros a q j Ha Hj.
    assert (j <> i /\ alive_at t j) as [Hji Hal].
    { apply list_lookup_insert_Some in Ha as [(-> & -> & _)|(_ & Ha)].
      - destruct Hpa as [E|E]; rewrite E in Hj; [|done].
        split; [|by eapply Hpar]. intros ->. by eapply Hch.
      - split; [|by eapply Hpar]. intros ->. by eapply Hch. }
    by apply alive_at_insert_ne.
Qed.

(** Every entry changes, but not what the invariant reads of it, except for the
    parent. *)
Definition same_entry (p p' : proc) : Prop :=
  p'.(pid) = p.(pid) /\ p'.(tickets) = p.(tickets) /\
  (p'.(state) = UNUSED <-> p.(state) = UNUSED) /\ alive p'.(state) = alive p.(state).

Lemma table_ok_pointwise t t' np :
  table_ok t np -> length t' = length t ->
  (forall i p p', t !! i = Some p -> t' !! i = Some p' ->
     same_entry p p' /\
     (p'.(parent) = p.(parent) \/
      p.(parent) <> None /\ forall j, p'.(parent) = Some j -> alive_at t j)) ->
  table_ok t' np.
Proof.
  intros [Hl Hnd Hpid Hus Hun Hpar] Hlen Hpt.
  assert (Hback : forall i p', t' !! i = Some p' -> exists p, t !! i = Some p).
  { intros i p' H. apply lookup_lt_Some in H. rewrite Hlen in H. by apply lookup_lt_is_Some. }
  assert (Hal : forall j, alive_at t j -> alive_at t' j).
  { intros j (q & Hq & Ha). destruct (lookup_lt_is_Some_2 t' j) as [q' Hq'].
    { rewrite Hlen. by eapply lookup_lt_Some. }
    exists q'. destruct (Hpt _ _ _ Hq Hq') as ((_ & _ & _ & E) & _). by rewrite E. }
  split.
  - by rewrite Hlen.
  - intros i j p q Hi Hj Hz E. destruct (Hback _ _ Hi) as [p0 Hi0], (Hback _ _ Hj) as [q0 Hj0].
    destruct (Hpt _ _ _ Hi0 Hi) as ((E1 & _) & _), (Hpt _ _ _ Hj0 Hj) as ((E2 & _) & _).
    eapply Hnd; [apply Hi0|apply Hj0|congruence|congruence].
  - intros i p Hi. destruct (Hback _ _ Hi) as [p0 Hi0].
    destruct (Hpt _ _ _ Hi0 Hi) as ((-> & _) & _). eauto.
  - intros i p Hi Hs. destruct (Hback _ _ Hi) as [p0 Hi0].
    destruct (Hpt _ _ _ Hi0 Hi) as ((-> & -> & E & _) & _). eapply Hus; eauto. by rewrite <- E.
  - intros i p Hi Hs. destruct (Hback _ _ Hi) as [p0 Hi0].
    destruct (Hpt _ _ _ Hi0 Hi) as ((_ & _ & E & _) & [Hp|[Hn _]]).
    + rewrite Hp. eapply Hun; eauto. by apply E.
    + exfalso. apply Hn. eapply Hun; eauto. by apply E.
  - intros i p j Hi Hj. destruct (Hback _ _ Hi) as [p0 Hi0].
    destruct (Hpt _ _ _ Hi0 Hi) as (_ & [Hp|[_ Hp]]); [|by apply Hal, Hp].
    apply Hal. eapply Hpar; [apply Hi0|]. by rewrite <- Hp.
Qed.

(** ** Wakeups and reparenting *)

(** The effect of [wakeup1] on one entry. *)
Definition woken (c : channel) (p : proc) : proc :=
  if bool_decide (p.(state) = SLEEPING /\ p.(chan) = c) then set_state RUNNABLE p else p.

(** The effect of the loop of [exit] on the parent of one entry. *)
Definition adopted (cur : nat) (ip : option nat) (p : proc) : proc :=
  if decide (p.(parent) = Some cur) then set_parent ip p else p.

(** A zombie child of [cur]. *)
Definition zombie_child (cur : nat) (p : proc) : bool :=
  bool_decide (p.(parent) = Some cur /\ p.(state) = ZOMBIE).

Definition has_zombie_child (cur : nat) (t : list proc) (ps : list nat) : bool :=
  existsb (fun i => match t !! i with Some p => zombie_child cur p | None => false end) ps.

Lemma woken_same c p : same_entry p (woken c p) /\ (woken c p).(parent) = p.(parent).
Proof.
  unfold woken. case_bool_decide as H; [|repeat split; auto].
  destruct H as [H _]. unfold same_entry. simpl. rewrite H. repeat split; done.
Qed.

Lemma woken_zombie c cur p : zombie_child cur (woken c p) = zombie_child cur p.
Proof.
  unfold zombie_child. apply bool_decide_ext.
  unfold woken. case_bool_decide as H; simpl; [|done].
  destruct H as [H _]. rewrite H. split; intros [_ ?]; done.
Qed.

Lemma woken_woken c p : woken c (woken c p) = woken c p.
Proof.
  unfold woken. destruct (bool_decide (state p = SLEEPING /\ chan p = c)) eqn:E; [|by rewrite E].
  rewrite bool_decide_eq_false_2; [done|]. by intros [? _].
Qed.

Lemma woken_adopted c cur ip p : woken c (adopted cur ip p) = adopted cur ip (woken c p).
Proof.
  unfold woken, adopted.
  destruct (bool_decide (state p = SLEEPING /\ chan p = c)) eqn:E;
    destruct (decide (parent p = Some cur)) as [D|D]; cbn [state chan parent set_parent set_state];
    rewrite ?E, ?(decide_True _ _ D), ?(decide_False _ _ D); done.
Qed.

Section reparent.
Context {ext : Type} `{!KernelEnv ext} `{!KernelServices ext}.
Implicit Type st : kst ext.

Lemma wakeup1_ptable c st : ptable (wakeup1 c st) = woken c <$> ptable st.
Proof. done. Qed.

Lemma reparent_frame ps cur st :
  initproc (reparent ps cur st) = initproc st /\ nextpid (reparent ps cur st) = nextpid st /\
  kext (reparent ps cur st) = kext st /\ length (ptable (reparent ps cur st)) = length (ptable st).
Proof.
  revert st; induction ps as [|i ps IH]; intros st; simpl; [done|].
  destruct (ptable st !! i); [|apply IH]. destruct (decide _); [|apply IH].
  edestruct IH as (-> & -> & -> & ->). case_decide; simpl; rewrite ?length_fmap, ?length_alter; done.
Qed.

Lemma existsb_ext_in {A} (f g : A -> bool) l :
  (forall a, a ∈ l -> f a = g a) -> existsb f l = existsb g l.
Proof.
  induction l as [|a l IH]; intros H; simpl; [done|].
  rewrite H, IH by set_solver. done.
Qed.

Lemma elem_of_tail (i a : nat) ps : i <> a -> (i ∈ a :: ps <-> i ∈ ps).
Proof. set_solver. Qed.

(** What the loop of [exit] does to the whole table. *)
Lemma reparent_lookup ps cur st i :
  NoDup ps ->
  ptable (reparent ps cur st) !! i =
    (fun p => (if has_zombie_child cur (ptable st) ps then woken (chan_of (initproc st)) else id)
                (if decide (i ∈ ps) then adopted cur (initproc st) p else p)) <$> (ptable st !! i).
Proof.
  revert st; induction ps as [|a ps IH]; intros st Hnd.
  { simpl. destruct (ptable st !! i); done. }
  apply NoDup_cons in Hnd as [Ha Hnd]. cbn [reparent has_zombie_child existsb].
  fold (has_zombie_child cur (ptable st) ps).
  destruct (ptable st !! a) as [p|] eqn:Hp.
  2: { rewrite IH by done. destruct (ptable st !! i) eqn:Hi; [|done].
       cbn [fmap option_fmap option_map orb]. assert (i <> a) by congruence. by rewrite (decide_ext (i ∈ a :: ps) (i ∈ ps)) by (by apply elem_of_tail). }
  destruct (decide (parent p = Some cur)) as [Hpar|Hpar].
  2: { replace (zombie_child cur p) with false
         by (symmetry; apply bool_decide_eq_false; naive_solver).
       rewrite IH by done. destruct (ptable st !! i) as [q|] eqn:Hi; [|done].
       cbn [fmap option_fmap option_map orb]. do 2 f_equal.
       destruct (decide (i = a)) as [->|Hia];
         [|by rewrite (decide_ext (i ∈ a :: ps) (i ∈ ps)) by (by apply elem_of_tail)].
       simplify_eq. unfold adopted. rewrite (decide_False (P := parent _ = Some cur)) by done.
       repeat case_decide; done. }
  set (ip := initproc st). set (st1 := upd a (set_parent ip) st).
  assert (H1 : forall j, ptable st1 !! j =
    (fun q => if decide (j = a) then adopted cur ip q else q) <$> (ptable st !! j)).
  { intros j. unfold st1. simpl. destruct (decide (j = a)) as [->|].
    - rewrite list_lookup_alter_eq, Hp. simpl. unfold adopted. by rewrite decide_True.
    - rewrite list_lookup_alter_ne by done. by destruct (ptable st !! j). }
  assert (Hz1 : has_zombie_child cur (ptable st1) ps = has_zombie_child cur (ptable st) ps).
  { apply existsb_ext_in. intros j Hj. rewrite H1. destruct (ptable st !! j); [|done]. simpl.
    rewrite decide_False by (intros ->; done). done. }
  assert (Hz2 : forall c, has_zombie_child cur (ptable (wakeup1 c st1)) ps
                          = has_zombie_child cur (ptable st) ps).
  { intros c. rewrite <- Hz1. apply existsb_ext_in. intros j Hj. rewrite wakeup1_ptable.
    rewrite list_lookup_fmap. destruct (ptable st1 !! j); [|done]. simpl. apply woken_zombie. }
  destruct (decide (state p = ZOMBIE)) as [Hst|Hst].
  - replace (zombie_child cur p) with true by (symmetry; apply bool_decide_eq_true; done).
    rewrite IH by done. rewrite Hz2, wakeup1_ptable, list_lookup_fmap, H1.
    destruct (ptable st !! i) as [q|] eqn:Hi; [|done].
    cbn [fmap option_fmap option_map orb]. f_equal. change (initproc (wakeup1 _ _)) with ip. fold ip.
    assert (Hw : forall q', (if has_zombie_child cur (ptable st) ps then woken (chan_of ip) else id)
                       (woken (chan_of ip) q') = woken (chan_of ip) q').
    { intros q'. case (has_zombie_child cur (ptable st) ps); [apply woken_woken|done]. }
    destruct (decide (i = a)) as [->|Hia].
    + rewrite decide_False by done. rewrite Hw, decide_True by set_solver. done.
    + destruct (decide (i ∈ ps)).
      * rewrite <- woken_adopted, Hw, decide_True by set_solver. done.
      * rewrite Hw, decide_False by set_solver. done.
  - replace (zombie_child cur p) with false
      by (symmetry; apply bool_decide_eq_false; naive_solver).
    rewrite IH by done. rewrite Hz1, H1.
    destruct (ptable st !! i) as [q|] eqn:Hi; [|done].
    cbn [fmap option_fmap option_map orb]. do 2 f_equal. change (initproc st1) with ip.
    destruct (decide (i = a)) as [->|Hia].
    + rewrite decide_False, decide_True by set_solver. done.
    + by rewrite (decide_ext (i ∈ a :: ps) (i ∈ ps)) by (by apply elem_of_tail).
Qed.

End reparent.

(** ** Effect of the handlers on the table *)

Section effects.
Context {ext : Type} `{!KernelEnv ext} `{!KernelServices ext}.
Implicit Type st : kst ext.

(** The entry [allocproc] hands out, before its kernel stack is known. *)
Definition embryo (n : Z) (p : proc) : proc :=
  set_tickets 1 (set_pid n (set_state EMBRYO p)).

(** The entry with its kernel stack laid out. *)
Definition with_stack (ks : Z) (p : proc) : proc :=
  set_ctx (mkContext 0 0 0 0 forkret_addr) (set_kret trapret_addr (set_kstack ks p)).

Lemma find_unused_Some st i :
  find_unused st = Some i <->
  exists p, ptable st !! i = Some p /\ p.(state) = UNUSED /\
    forall j q, ptable st !! j = Some q -> (j < i)%nat -> q.(state) <> UNUSED.
Proof.
  unfold find_unused. rewrite fmap_Some. split.
  - intros ([j q] & H & ->). apply list_find_Some in H as (H1 & H2 & H3).
    exists q. split_and!; [done..|]. intros j' q' Hj' Hlt. by eapply H3.
  - intros (p & H1 & H2 & H3). exists (i, p). split; [|done]. apply list_find_Some.
    split_and!; [done..|]. intros j y Hy Hj. by eapply H3.
Qed.

Lemma find_unused_None st :
  find_unused st = None <-> Forall (fun p => p.(state) <> UNUSED) (ptable st).
Proof. unfold find_unused. rewrite fmap_None. apply list_find_None. Qed.

(** The three ways [allocproc] returns. *)
Lemma allocproc_cases st r st' :
  allocproc st = Done (r, st') ->
  (r = None /\ find_unused st = None /\ exists e, st' = set_ext e st) \/
  exists i p e ks, find_unused st = Some i /\ ptable st !! i = Some p /\
    let t x := set_ext e (set_nextpid (s32 (nextpid st + 1)) (set_ptable (<[i := x]> (ptable st)) st)) in
    (r = None /\ ks = 0 /\ st' = t (set_state UNUSED (set_kstack ks (embryo (nextpid st) p))) \/
     r = Some i /\ ks <> 0 /\ st' = t (with_stack ks (embryo (nextpid st) p))).
Proof.
  unfold allocproc. intros H. apply obind_Done in H as (st1 & H1 & H).
  apply with_ext_o_Done in H1 as (e & _ & ->).
  change (find_unused (set_ext e st)) with (find_unused st) in H.
  destruct (find_unused st) as [i|] eqn:Hf.
  - right. apply find_unused_Some in Hf as (p & Hp & _ & _). exists i, p.
    invert_done. rewrite with_ext_v_eq in *. cbn beta iota zeta in *.
    destruct (_ =? _) eqn:Hk; bool_to_prop; invert_done; norm_kst;
      eexists _, _; (split_and!; [done..|]); [left|right]; (split_and!; [done..|]);
      rewrite (upd_insert _ _ _ _ Hp); reflexivity.
  - left. invert_done. split_and!; [done..|]. eexists; reflexivity.
Qed.

(** Copying the descriptors changes only the new entry's files. *)
Lemma dup_files_frame ids src np st p :
  ptable st !! np = Some p ->
  exists e fs, dup_files ids src np st
               = set_ext e (set_ptable (<[np := set_ofile fs p]> (ptable st)) st).
Proof.
  revert st p; induction ids as [|i ids IH]; intros st p Hp; cbn [dup_files].
  - exists (kext st), (ofile p). rewrite list_insert_id by (rewrite Hp; by destruct p).
    by destruct st.
  - destruct (_ =? _); [by apply IH|]. rewrite with_ext_v_eq. cbn beta iota.
    rewrite upd_set_ext, (upd_insert _ _ _ _ Hp).
    edestruct IH as (e & fs & ->).
    { apply list_lookup_insert_eq. by eapply lookup_lt_Some. }
    exists e, fs. unfold set_ext, set_ptable. cbn. rewrite list_insert_insert_eq. done.
Qed.

(** The entry of a new child of [cur], whose entry is [cp]: a copy of the
    parent that returns 0 from [fork]. *)
Definition child (cur : nat) (cp : proc) (pd d : Z) (fs : list Z) (p : proc) : proc :=
  set_state RUNNABLE (set_name (safestrcpy cp.(name) 16) (set_cwd d (set_ofile fs
    (set_tf (mkTf 0 cp.(tf).(tf_esp) cp.(tf).(tf_eip) cp.(tf).(tf_eflags) cp.(tf).(tf_cs)
                  cp.(tf).(tf_ds) cp.(tf).(tf_es) cp.(tf).(tf_ss))
      (set_tickets cp.(tickets) (set_parent (Some cur) (set_sz cp.(sz) (set_pgdir pd p)))))))).

(** The table with entry [i] replaced and one pid handed out. *)
Definition with_new (e : ext) (i : nat) (x : proc) st : kst ext :=
  set_ext e (set_nextpid (s32 (nextpid st + 1)) (set_ptable (<[i := x]> (ptable st)) st)).

Lemma upd_with_new e i x f st :
  (i < length (ptable st))%nat -> upd i f (with_new e i x st) = with_new e i (f x) st.
Proof.
  intros H. unfold with_new, upd, set_ext, set_nextpid, set_ptable. cbn.
  by rewrite alter_insert_eq.
Qed.

Lemma set_ext_with_new e e' i x st : set_ext e (with_new e' i x st) = with_new e i x st.
Proof. done. Qed.

(** The ways [fork] returns: no free entry, no kernel stack, no memory for the
    child's pages, and a child. *)
Lemma fork_cases st st0 cur cp r st' :
  curproc st = Done (cur, st0) -> ptable st !! cur = Some cp -> cp.(state) <> UNUSED ->
  fork st = Done (r, st') ->
  (r = -1 /\ find_unused st = None /\ exists e, st' = set_ext e st) \/
  exists i p e, find_unused st = Some i /\ ptable st !! i = Some p /\
    let new := embryo (nextpid st) p in
    (r = -1 /\ st' = with_new e i (set_state UNUSED (set_kstack 0 new)) st \/
     r = -1 /\ (exists ks, ks <> 0 /\
       st' = with_new e i (set_state UNUSED (set_kstack 0 (set_pgdir 0 (with_stack ks new)))) st) \/
     r = nextpid st /\ exists ks pd d fs, ks <> 0 /\ pd <> 0 /\
       st' = with_new e i (child cur cp pd d fs (with_stack ks new)) st).
Proof.
  intros Hc Hcp Hu H. unfold fork in H. rewrite Hc in H. cbn [obind] in H.
  apply curproc_Done in Hc as (e0 & ->).
  apply obind_Done in H as ([onp st1] & H1 & H). cbn beta iota in H.
  apply allocproc_cases in H1 as [(-> & Hf & e & ->)|(i & p & e & ks & Hf & Hp & Hcase)].
  { invert_done. left. split_and!; [done..|]. by eexists. }
  cbv zeta in Hcase. change (find_unused (set_ext e0 st)) with (find_unused st) in Hf.
  change (ptable (set_ext e0 st)) with (ptable st) in *.
  change (nextpid (set_ext e0 st)) with (nextpid st) in *.
  right. exists i, p.
  assert (Hlt : (i < length (ptable st))%nat) by (by eapply lookup_lt_Some).
  assert (Hne : i <> cur).
  { intros ->. apply find_unused_Some in Hf as (p' & ? & ? & _). simplify_eq. }
  destruct Hcase as [(-> & -> & ->)|(-> & Hks & ->)].
  { invert_done. exists e. split_and!; [done..|]. cbv zeta. by left. }
  set (new := embryo (nextpid st) p) in *.
  change (set_ext e _) with (with_new e i (with_stack ks new) st) in H.
  apply obind_Done in H as (cp' & Hcp' & H). apply entry_Done in Hcp'.
  change (ptable (with_new e i (with_stack ks new) st))
    with (<[i := with_stack ks new]> (ptable st)) in Hcp'.
  rewrite list_lookup_insert_ne in Hcp' by done. simplify_eq.
  rewrite with_ext_v_eq in H. cbn beta iota zeta in H.
  rewrite set_ext_with_new, upd_with_new in H by done.
  match type of H with context [set_pgdir ?a _] => set (pd := a) in H; clearbody pd end.
  destruct (pd =? 0) eqn:Hpd; bool_to_prop.
  - invert_done. rewrite with_ext_set_ext, set_ext_with_new, !upd_with_new by done.
    eexists. split_and!; [done..|]. cbv zeta. right. left. split; [done|].
    exists ks. split; [done|]. reflexivity.
  - rewrite !upd_with_new in H by done.
    match type of H with context [dup_files _ _ _ (with_new ?e ?i ?x ?s)] =>
      edestruct (dup_files_frame (seq 0 NOFILE) cur i (with_new e i x s) x) as (e2 & fs & Hd) end.
    { by apply list_lookup_insert_eq. }
    rewrite Hd in H. clear Hd.
    match type of H with context [set_ext ?a (set_ptable (<[?i := ?x]> (ptable (with_new ?b ?i ?y ?s))) _)] =>
      replace (set_ext a (set_ptable (<[i := x]> (ptable (with_new b i y s))) (with_new b i y s)))
        with (with_new a i x s) in H
        by (unfold with_new, set_ext, set_nextpid, set_ptable; cbn; by rewrite list_insert_insert_eq) end.
    rewrite with_ext_v_eq in H. cbn beta iota zeta in H.
    rewrite set_ext_with_new, !upd_with_new in H by done.
    invert_done. rewrite set_ext_with_new, upd_with_new, set_ext_with_new by done.
    match goal with Hl : ptable (with_new _ _ _ _) !! i = Some _ |- _ =>
      cbn [ptable with_new set_ext set_nextpid set_ptable] in Hl;
      rewrite list_lookup_insert_eq in Hl by done; injection Hl as <- end.
    eexists. split_and!; [done..|]. cbv zeta. right. right. split; [done|].
    eexists ks, pd, _, fs. split_and!; [done..|]. reflexivity.
Qed.

End effects.

(** ** Every step keeps the invariant *)

Section preservation.
Context {ext : Type} `{!KernelEnv ext} `{!KernelServices ext}.
Implicit Type st : kst ext.

Lemma kinv_frame st st' :
  ptable st' = ptable st -> nextpid st' = nextpid st -> initproc st' = initproc st ->
  kinv st -> kinv st'.
Proof. unfold kinv. intros -> -> ->. done. Qed.

Lemma kinv_set_ext e st : kinv st -> kinv (set_ext e st).
Proof. by apply kinv_frame. Qed.

(** An assignment that keeps the pid and the parent and does not kill. *)
Lemma kinv_upd st i p f :
  kinv st -> ptable st !! i = Some p ->
  (f p).(pid) = p.(pid) -> (f p).(parent) = p.(parent) ->
  (p.(state) <> UNUSED -> 1 <= (f p).(tickets)) ->
  ((f p).(state) = UNUSED <-> p.(state) = UNUSED) ->
  (alive p.(state) = true -> alive (f p).(state) = true) ->
  kinv (upd i f st).
Proof.
  intros (Hok & Hnp & Hip) Hi Hpid Hpar Ht Hs' Hal.
  rewrite (upd_insert _ _ _ _ Hi). unfold kinv. cbn.
  assert (Hlt : (i < length (ptable st))%nat) by (by eapply lookup_lt_Some).
  assert (Hkeep : forall j, alive_at (ptable st) j -> alive_at (<[i := f p]> (ptable st)) j).
  { intros j Hj. apply alive_at_insert; [done..|]. intros ->.
    destruct Hj as (q & Hq & Ha). simplify_eq. auto. }
  split_and!; [|done|eauto].
  destruct Hok as [Hl Hnd Hp Hus Hun Hpr]. split.
  - by rewrite length_insert.
  - intros a b q r Ha Hb Hz E.
    apply list_lookup_insert_Some in Ha as [(<- & <- & _)|(Hai & Ha)],
      Hb as [(<- & <- & _)|(Hbi & Hb)]; [done| | |by eapply Hnd];
      (eapply Hnd; [eassumption..|lia|lia]).
  - intros a q Ha. apply list_lookup_insert_Some in Ha as [(<- & <- & _)|(_ & Ha)]; [|eauto].
    rewrite Hpid. eauto.
  - intros a q Ha. apply list_lookup_insert_Some in Ha as [(<- & <- & _)|(_ & Ha)]; [|eauto].
    intros Hs. rewrite Hpid. split; [|apply Ht; by rewrite <- Hs'].
    eapply Hus; eauto. by rewrite <- Hs'.
  - intros a q Ha. apply list_lookup_insert_Some in Ha as [(<- & <- & _)|(_ & Ha)]; [|eauto].
    intros Hs. rewrite Hpar. eapply Hun; eauto. by apply Hs'.
  - intros a q j Ha Hj. apply Hkeep.
    apply list_lookup_insert_Some in Ha as [(<- & <- & _)|(_ & Ha)]; [|eauto].
    rewrite Hpar in Hj. eauto.
Qed.

(** Handing out a pid and filling a free entry. *)
Lemma kinv_with_new st e i p x :
  kinv st -> find_unused st = Some i -> ptable st !! i = Some p -> nextpid st < INT_MAX ->
  x.(pid) = nextpid st ->
  (x.(state) <> UNUSED -> 1 <= x.(tickets)) ->
  (x.(state) = UNUSED -> x.(parent) = None) ->
  (forall j, x.(parent) = Some j -> alive_at (ptable st) j) ->
  kinv (with_new e i x st).
Proof.
  intros (Hok & Hnp & Hip) Hf Hi Hmax Hpid Ht Hun Hpar.
  apply find_unused_Some in Hf as (p' & Hp' & Hs & _). simplify_eq.
  assert (Hdead : forall j, alive_at (ptable st) j -> j <> i).
  { intros j (q & Hq & Ha) ->. simplify_eq. by rewrite Hs in Ha. }
  unfold kinv, with_new, INT_MAX in *. cbn. rewrite s32_small by lia. split_and!; [|lia|].
  - eapply table_ok_update; [done|done|lia|right; right; lia| |done| |by rewrite Hs].
    + intros Hx. split; [lia|auto].
    + intros j Hj. split; [auto|]. auto.
  - intros ip Hj. apply alive_at_insert_ne; [auto|]. intros ->. by eapply Hdead; eauto.
Qed.

Lemma free_parent st i p :
  kinv st -> find_unused st = Some i -> ptable st !! i = Some p -> p.(parent) = None.
Proof.
  intros (Hok & _) Hf Hp. apply find_unused_Some in Hf as (q & Hq & Hs & _).
  rewrite Hp in Hq. injection Hq as <-. by eapply tok_unused.
Qed.

Lemma kinv_woken c st : kinv st -> kinv (wakeup1 c st).
Proof.
  intros (Hok & Hnp & Hip). unfold kinv. rewrite wakeup1_ptable. cbn.
  assert (Hal : forall j, alive_at (ptable st) j -> alive_at (woken c <$> ptable st) j).
  { intros j (q & Hq & Ha). exists (woken c q). rewrite list_lookup_fmap, Hq. split; [done|].
    destruct (woken_same c q) as ((_ & _ & _ & ->) & _). done. }
  split_and!; [|done|eauto].
  eapply table_ok_pointwise; [done|by rewrite length_fmap|].
  intros i p p' Hp Hp'. rewrite list_lookup_fmap, Hp in Hp'. simplify_eq/=.
  destruct (woken_same c p). auto.
Qed.

Lemma kinv_wakeup c st st' : kinv st -> wakeup c st = Done st' -> kinv st'.
Proof.
  intros Hk H. unfold wakeup in H. invert_done.
  apply kinv_set_ext, kinv_woken, kinv_set_ext, Hk.
Qed.

Lemma kinv_userinit st st' :
  kinv st -> initproc st = None -> nextpid st < INT_MAX -> userinit st = Done st' -> kinv st'.
Proof.
  intros Hk Hnone Hmax H. unfold userinit in H.
  apply obind_Done in H as ([op st1] & H1 & H). cbn beta iota in H.
  apply allocproc_cases in H1 as [(-> & _ & e & ->)|(i & p & e & ks & Hf & Hp & Hcase)].
  { rewrite with_ext_v_eq in H. done. }
  cbv zeta in Hcase.
  destruct Hcase as [(-> & -> & _)|(-> & Hks & ->)].
  { rewrite with_ext_v_eq in H. done. }
  change (set_ext e _) with (with_new e i (with_stack ks (embryo (nextpid st) p)) st) in H.
  set (new := embryo (nextpid st) p) in *.
  rewrite with_ext_v_eq in H. cbn [obind deref] in H. cbn beta iota zeta in H.
  destruct (_ =? 0); [done|].
  assert (Hlt : (i < length (ptable st))%nat) by (by eapply lookup_lt_Some).
  norm_kst. invert_done. norm_kst. rewrite !upd_with_new by done.
  match goal with |- kinv (set_ext ?e2 (set_initproc _ (with_new ?e1 _ ?x _))) =>
    assert (Hn : kinv (with_new e2 i x st)) end.
  { eapply kinv_with_new; [done..|]. cbn.
    intros j Hj. by rewrite (free_parent _ _ _ Hk Hf Hp) in Hj. }
  destruct Hn as (Hok & Hnp & _). split_and!; [done..|].
  intros ip [= <-]. eexists. split; [by apply list_lookup_insert_eq|done].
Qed.

Lemma kinv_fork st st0 cur r st' :
  kinv st -> curproc st = Done (cur, st0) -> runs cur st -> nextpid st < INT_MAX ->
  fork st = Done (r, st') -> kinv st'.
Proof.
  intros Hk Hc (cp & Hcp & Hrun) Hmax H.
  eapply fork_cases in H; [|done..|by rewrite Hrun].
  destruct H as [(_ & _ & e & ->)|(i & p & e & Hf & Hp & H)]; [by apply kinv_set_ext|].
  pose proof (free_parent _ _ _ Hk Hf Hp) as Hnp. cbv zeta in H.
  destruct H as [(_ & ->)|[(_ & ks & _ & ->)|(_ & ks & pd & d & fs & _ & _ & ->)]];
    (eapply kinv_with_new; [done..| | |]); cbn; rewrite ?Hnp; try done.
  - intros _. destruct Hk as (Hok & _). by destruct (tok_used _ _ Hok _ _ Hcp); [rewrite Hrun|].
  - intros j [= <-]. exists cp. by rewrite Hrun.
Qed.

(** What [exit] does to every other entry: the parent is woken, children are
    given to init, and init is woken when one of them is a zombie. *)
Definition after_exit (cur : nat) (cp : proc) (ip : option nat) (z : bool) (p : proc) : proc :=
  (if z then woken (chan_of ip) else id) (adopted cur ip (woken (chan_of cp.(parent)) p)).

Lemma after_exit_same cur cp ip z p : same_entry p (after_exit cur cp ip z p).
Proof.
  unfold after_exit. set (q := woken (chan_of (parent cp)) p).
  destruct (woken_same (chan_of (parent cp)) p) as ((E1 & E2 & E3 & E4) & _). fold q in E1, E2, E3, E4.
  assert (H : same_entry p (adopted cur ip q)).
  { unfold adopted. case_decide; unfold same_entry; cbn; rewrite E1, E2, E3, E4; done. }
  destruct z; [|done].
  destruct (woken_same (chan_of ip) (adopted cur ip q)) as ((F1 & F2 & F3 & F4) & _).
  unfold same_entry. rewrite F1, F2, F3, F4. apply H.
Qed.

Lemma after_exit_parent cur cp ip z p :
  (after_exit cur cp ip z p).(parent) = if decide (p.(parent) = Some cur) then ip else p.(parent).
Proof.
  unfold after_exit. set (q := woken (chan_of (parent cp)) p).
  assert (Eq : parent q = parent p) by apply woken_same.
  transitivity (parent (adopted cur ip q)).
  { destruct z; [|done]. apply woken_same. }
  unfold adopted. rewrite Eq. case_decide; [done|by rewrite Eq].
Qed.

Lemma has_zombie_child_woken cur c t ps :
  has_zombie_child cur (woken c <$> t) ps = has_zombie_child cur t ps.
Proof.
  apply existsb_ext_in. intros j _. rewrite list_lookup_fmap. destruct (t !! j); [|done].
  apply woken_zombie.
Qed.

Lemma exit_body_table ps st cur cp :
  NoDup ps -> (forall i p, ptable st !! i = Some p -> i ∈ ps) ->
  let st' := upd cur (set_state ZOMBIE) (reparent ps cur (wakeup1 (chan_of cp.(parent)) st)) in
  initproc st' = initproc st /\ nextpid st' = nextpid st /\
  length (ptable st') = length (ptable st) /\
  forall i, ptable st' !! i =
    (fun p => let q := after_exit cur cp (initproc st) (has_zombie_child cur (ptable st) ps) p in
              if decide (i = cur) then set_state ZOMBIE q else q) <$> (ptable st !! i).
Proof.
  intros Hnd Hin. cbv zeta. set (st1 := wakeup1 _ st).
  destruct (reparent_frame ps cur st1) as (Ei & En & _ & El).
  split_and!; [done|done| |].
  { cbn. rewrite length_alter, El. unfold st1. by rewrite wakeup1_ptable, length_fmap. }
  intros i. transitivity ((fun q => if decide (i = cur) then set_state ZOMBIE q else q)
                          <$> ptable (reparent ps cur st1) !! i).
  { cbn. destruct (decide (i = cur)) as [->|].
    - by rewrite list_lookup_alter_eq.
    - rewrite list_lookup_alter_ne by done. by destruct (ptable (reparent ps cur st1) !! i). }
  rewrite reparent_lookup by done. unfold st1.
  rewrite wakeup1_ptable, has_zombie_child_woken, list_lookup_fmap.
  destruct (ptable st !! i) as [p|] eqn:Hi; [|done]. simpl.
  rewrite (decide_True (P := i ∈ ps)); [done|]. by eapply Hin.
Qed.

Lemma exit_locked_Done st st' cur cp :
  ptable st !! cur = Some cp -> exit_locked cur st = Done st' ->
  exists e, st' = upd cur (set_state ZOMBIE)
    (reparent (seq 0 NPROC) cur (wakeup1 (chan_of cp.(parent)) (set_ext e st))).
Proof.
  intros Hcp H. unfold exit_locked in H.
  apply obind_Done in H as (st1 & H1 & H). apply with_ext_o_Done in H1 as (e & _ & ->).
  apply obind_Done in H as (cp' & Hcp' & H). apply entry_Done in Hcp'.
  rewrite (proj1 (proj_set_ext _ _)), Hcp in Hcp'.
  exists e. assert (E : cp' = cp) by congruence. rewrite <- E. apply Done_inj in H. symmetry. exact H.
Qed.

Lemma exit_locked_table st st' cur cp :
  length (ptable st) = NPROC -> ptable st !! cur = Some cp -> exit_locked cur st = Done st' ->
  initproc st' = initproc st /\ nextpid st' = nextpid st /\
  length (ptable st') = length (ptable st) /\
  forall i, ptable st' !! i =
    (fun p => let q := after_exit cur cp (initproc st)
                         (has_zombie_child cur (ptable st) (seq 0 NPROC)) p in
              if decide (i = cur) then set_state ZOMBIE q else q) <$> (ptable st !! i).
Proof.
  intros Hlen Hcp H. apply (exit_locked_Done _ _ _ _ Hcp) in H as (e & ->).
  apply (exit_body_table (seq 0 NPROC) (set_ext e st) cur cp); [apply NoDup_seq|].
  intros i p Hi. apply elem_of_seq. apply lookup_lt_Some in Hi. cbn in Hi. rewrite <- Hlen. lia.
Qed.

Lemma kinv_exit st st' cur :
  kinv st -> runs cur st -> initproc st <> Some cur -> exit_locked cur st = Done st' -> kinv st'.
Proof.
  intros (Hok & Hnp & Hip) (cp & Hcp & Hrun) Hinit H.
  destruct (exit_locked_table st st' cur cp (tok_length _ _ Hok) Hcp H) as (Ei & En & El & Hl).
  set (F := after_exit cur cp (initproc st) (has_zombie_child cur (ptable st) (seq 0 NPROC))) in *.
  set (t1 := F <$> ptable st).
  assert (Ht1 : forall i, t1 !! i = F <$> (ptable st !! i)) by (intros; apply list_lookup_fmap).
  assert (Hok1 : table_ok t1 (nextpid st)).
  { eapply table_ok_pointwise; [done|apply length_fmap|]. intros i p p' Hp Hp'.
    rewrite Ht1, Hp in Hp'. injection Hp' as <-. split; [apply after_exit_same|].
    unfold F. rewrite after_exit_parent. destruct (decide (parent p = Some cur)) as [D|D]; [right|by left].
    rewrite D. split; [done|]. auto. }
  assert (Et : ptable st' = <[cur := set_state ZOMBIE (F cp)]> t1).
  { apply list_eq. intros i. rewrite Hl. destruct (decide (i = cur)) as [->|].
    - rewrite Hcp, list_lookup_insert_eq; [done|]. unfold t1. rewrite length_fmap. by eapply lookup_lt_Some.
    - rewrite list_lookup_insert_ne, Ht1 by done. by destruct (ptable st !! i). }
  unfold kinv. rewrite Et, Ei, En. split_and!; [|done|].
  - apply (table_ok_die _ _ _ (F cp)); [done| | |by left|by left| |done].
    + by rewrite Ht1, Hcp.
    + intros a q Hq. rewrite Ht1 in Hq. apply fmap_Some in Hq as (p & Hp & ->).
      unfold F. rewrite after_exit_parent. by destruct (decide (parent p = Some cur)).
    + intros _. apply (tok_used _ _ Hok1 cur (F cp)); [by rewrite Ht1, Hcp|].
      destruct (after_exit_same cur cp (initproc st) (has_zombie_child cur (ptable st) (seq 0 NPROC)) cp)
        as (_ & _ & E & _). fold F in E. by rewrite E, Hrun.
  - intros ip Hj. apply alive_at_insert_ne; [|congruence].
    destruct (Hip _ Hj) as (r & Hr & Ha). exists (F r). rewrite Ht1, Hr. split; [done|].
    destruct (after_exit_same cur cp (initproc st) (has_zombie_child cur (ptable st) (seq 0 NPROC)) r)
      as (_ & _ & _ & E). fold F in E. by rewrite E.
Qed.

Lemma wait_scan_inl ps k cur hk i :
  wait_scan ps k cur hk = inl i ->
  exists j p, i = (k + j)%nat /\ ps !! j = Some p /\ p.(parent) = Some cur /\ p.(state) = ZOMBIE.
Proof.
  revert k hk; induction ps as [|p ps IH]; intros k hk H; simpl in H; [done|].
  assert (Hrec : forall hk', wait_scan ps (S k) cur hk' = inl i ->
    exists j q, i = (k + j)%nat /\ (p :: ps) !! j = Some q /\ q.(parent) = Some cur /\ q.(state) = ZOMBIE).
  { intros hk' H'. destruct (IH _ _ H') as (j & q & -> & ? & ?). exists (S j), q. split; [lia|done]. }
  destruct (decide (parent p = Some cur)); [|eauto].
  destruct (decide (state p = ZOMBIE)); [|eauto].
  injection H as <-. exists 0%nat, p. split; [lia|done].
Qed.

(** The entry of a reaped child. *)
Definition reaped (p : proc) : proc :=
  set_state UNUSED (set_killed 0 (set_name EmptyString (set_parent None (set_pid 0 (set_kstack 0 p))))).

Lemma reap_Done i st r st' p :
  ptable st !! i = Some p -> reap i st = Done (r, st') ->
  r = p.(pid) /\ exists e, st' = set_ext e (set_ptable (<[i := reaped p]> (ptable st)) st).
Proof.
  intros Hp H. unfold reap in H. apply obind_Done in H as (p' & Hp' & H).
  apply entry_Done in Hp'. rewrite Hp in Hp'. injection Hp' as <-.
  norm_kst. invert_done. norm_kst. split; [done|].
  rewrite (upd_insert _ _ _ _ Hp). eexists. reflexivity.
Qed.

Lemma kinv_reap st st' cur i r :
  kinv st -> wait_scan (ptable st) 0 cur false = inl i -> reap i st = Done (r, st') -> kinv st'.
Proof.
  intros (Hok & Hnp & Hip) Hs H.
  apply wait_scan_inl in Hs as (j & p & -> & Hp & Hpar & Hst). simpl in H.
  apply (reap_Done _ _ _ _ _ Hp) in H as (_ & e & ->).
  unfold kinv. cbn. split_and!; [|done|].
  - apply (table_ok_die _ _ _ p); [done..| |by right|by right|done|done].
    intros a q Ha Hq. destruct (tok_parent _ _ Hok _ _ _ Ha Hq) as (x & Hx & Hax).
    rewrite Hp in Hx. injection Hx as <-. by rewrite Hst in Hax.
  - intros ip Hj. apply alive_at_insert_ne; [auto|]. intros <-.
    destruct (Hip _ Hj) as (x & Hx & Hax). rewrite Hp in Hx. injection Hx as <-. by rewrite Hst in Hax.
Qed.

Lemma kinv_kill n st r st' : kinv st -> kill n st = Done (r, st') -> kinv st'.
Proof.
  intros Hk H. unfold kill in H. apply obind_Done in H as (st1 & H1 & H).
  apply with_ext_o_Done in H1 as (e & _ & ->).
  change (ptable (set_ext e st)) with (ptable st) in H.
  destruct (list_find _ _) as [[i p]|] eqn:Hf; [|invert_done; by apply kinv_set_ext, kinv_set_ext].
  apply list_find_Some in Hf as (Hp & _ & _).
  assert (Hk' : kinv (set_ext e st)) by (by apply kinv_set_ext).
  assert (Ht : p.(state) <> UNUSED -> 1 <= p.(tickets)).
  { intros Hs. destruct Hk as (Hok & _). by destruct (tok_used _ _ Hok _ _ Hp Hs). }
  cbv zeta in H.
  destruct (decide (state p = SLEEPING)) as [D|D]; invert_done; apply kinv_set_ext.
  - rewrite upd_upd. eapply kinv_upd; [done..| |]; cbn; rewrite D; done.
  - apply (kinv_upd _ _ p); try done.
Qed.

Lemma kinv_settickets n st r st' :
  kinv st -> 1 <= n -> settickets n st = Done (r, st') -> kinv st'.
Proof.
  intros Hk Hn H. unfold settickets in H. apply obind_Done in H as (st1 & H1 & H).
  apply with_ext_o_Done in H1 as (e & _ & ->).
  apply obind_Done in H as ([cur st1] & H1 & H). cbn beta iota in H.
  apply curproc_Done in H1 as (e1 & ->). rewrite set_ext_set_ext in H.
  apply obind_Done in H as (cp & _ & H). cbv zeta in H.
  destruct (list_find _ _) as [[i p]|] eqn:Hf; [|invert_done; by apply kinv_set_ext, kinv_set_ext].
  apply list_find_Some in Hf as (Hp & _ & _). invert_done.
  apply kinv_set_ext. eapply kinv_upd; [by apply kinv_set_ext|done..].
Qed.

Lemma kinv_step st st' : kinv st -> kstep st st' -> kinv st'.
Proof.
  intros Hk H.
  destruct H as [| | | |cur c s (p & Hp & Hr)|cur s (p & Hp & Hr)| | | |c p pr s Hp Hr|].
  - by eapply kinv_userinit.
  - by eapply kinv_fork.
  - by eapply kinv_exit.
  - by eapply kinv_reap.
  - rewrite upd_upd. eapply kinv_upd; [done..| | |]; cbn; rewrite Hr; try done.
    intros _. destruct Hk as (Hok & _). destruct (tok_used _ _ Hok _ _ Hp); [by rewrite Hr|done].
  - eapply kinv_upd; [done..| | |]; cbn; rewrite Hr; try done.
    intros _. destruct Hk as (Hok & _). destruct (tok_used _ _ Hok _ _ Hp); [by rewrite Hr|done].
  - by eapply kinv_wakeup.
  - by eapply kinv_kill.
  - by eapply kinv_settickets.
  - assert (kinv (set_cproc c (Some p) s)) by (by eapply kinv_frame).
    eapply kinv_upd; [done..| | |]; cbn; rewrite Hr; try done.
    intros _. destruct Hk as (Hok & _). destruct (tok_used _ _ Hok _ _ Hp); [by rewrite Hr|done].
  - by eapply kinv_frame.
Qed.

Lemma kinv_init st : kinit st -> kinv st.
Proof.
  intros (Ht & Hn & Hi). unfold kinv. rewrite Ht, Hn, Hi. split_and!; [|lia|done].
  assert (Hz : forall i p, replicate NPROC zero_proc !! i = Some p -> p = zero_proc)
    by (intros i p H; by apply lookup_replicate in H as [-> _]).
  split; [done|..]; intros; repeat match goal with H : replicate _ _ !! _ = Some _ |- _ =>
    apply Hz in H; subst end; done.
Qed.

End preservation.
