(* ===== verification/ProcSim.v ===== *)
(** * A concrete machine for the process code

    An instance of the environment of [Proc.v]: one CPU, spinlocks as the set
    of held locks, a bump allocator for physical pages, files and inodes that
    are never exhausted, and processes that use one clock tick and yield.  It
    shows that the laws of [KernelSpec] hold of a machine and is the setting of
    the concrete runs of the development. *)

From Stdlib Require Import ZArith Lia String.
From stdpp Require Import base tactics list list_numbers numbers sets.
From S2P Require Import Prelude Lcg Lottery Proc.

Local Open Scope Z_scope.
Local Open Scope ostep_scope.

Record uni := mkUni {
  u_held : list klock; u_ncli : Z; u_intena : Z; u_if : Z; u_free : Z }.

Definition uni_pushcli (e : uni) : uni :=
  mkUni e.(u_held) (e.(u_ncli) + 1)
        (if e.(u_ncli) =? 0 then e.(u_if) else e.(u_intena)) 0 e.(u_free).

Definition uni_popcli (e : uni) : uni :=
  mkUni e.(u_held) (e.(u_ncli) - 1) e.(u_intena)
        (if e.(u_ncli) - 1 =? 0 then e.(u_intena) else e.(u_if)) e.(u_free).

Definition uni_holding (l : klock) (e : uni) : bool := bool_decide (l ∈ e.(u_held)).

Definition uni_acquire (l : klock) (e : uni) : outcome string uni :=
  let e := uni_pushcli e in
  if uni_holding l e then Fail "acquire"%string
  else Done (mkUni (l :: e.(u_held)) e.(u_ncli) e.(u_intena) e.(u_if) e.(u_free)).

Definition uni_release (l : klock) (e : uni) : outcome string uni :=
  if uni_holding l e
  then Done (uni_popcli (mkUni (filter (fun k => k <> l) e.(u_held)) e.(u_ncli) e.(u_intena)
                               e.(u_if) e.(u_free)))
  else Fail "release"%string.

(** A page, or 0 when none is left. *)
Definition uni_alloc (e : uni) : Z * uni :=
  if e.(u_free) =? 0 then (0, e)
  else (4096 * e.(u_free), mkUni e.(u_held) e.(u_ncli) e.(u_intena) e.(u_if) (e.(u_free) - 1)).

#[export] Instance uni_env : KernelEnv uni := {|
  FL_IF := 512; PGSIZE := 4096; SEG_UCODE := 3; SEG_UDATA := 4; DPL_USER := 3;
  forkret_addr := 1000; trapret_addr := 2000;
  readeflags := u_if; lapicid := fun _ => 0; ncli := u_ncli; intena := u_intena;
  set_intena := fun i e => mkUni e.(u_held) e.(u_ncli) i e.(u_if) e.(u_free);
  pushcli := uni_pushcli; popcli := fun e => Done (uni_popcli e);
  sti := fun e => mkUni e.(u_held) e.(u_ncli) e.(u_intena) 512 e.(u_free);
  initlock := fun l e => mkUni (filter (fun k => k <> l) e.(u_held)) e.(u_ncli) e.(u_intena) e.(u_if) e.(u_free);
  acquire := uni_acquire; release := uni_release; holding := uni_holding;
  kalloc := uni_alloc; kfree := fun _ e => e;
  setupkvm := uni_alloc; inituvm := fun _ e => e; copyuvm := fun _ _ => uni_alloc;
  freevm := fun _ e => e;
  allocuvm := fun _ _ n e => (n, e); deallocuvm := fun _ _ n e => (n, e);
  switchuvm := fun _ e => e; switchkvm := fun e => e;
  filedup := fun f e => (f, e); idup := fun i e => (i, e); namei := fun _ e => (1, e);
  safestrcpy := fun s _ => s; getcallerpcs := fun _ _ => [] |}.

(** A process runs for one tick and yields; [sched] returns when the process
    has been switched in again. *)
#[export] Instance uni_services : KernelServices uni := {|
  fileclose := fun _ st => Done st; begin_op := fun st => Done st;
  iput := fun _ st => Done st; end_op := fun st => Done st;
  iinit := fun st => Done st; initlog := fun st => Done st;
  swtch_sched := fun p st => Done (upd p (set_state RUNNING) st);
  swtch_proc := fun p st =>
    Done (upd p (set_state RUNNABLE)
           (mkK st.(ptable) st.(cpus) st.(ncpu) st.(initproc) st.(nextpid) st.(val)
                (u32 (st.(gticks) + 1)) st.(first) st.(kext))) |}.

Lemma uni_alloc_quiet e : quiet e (snd (uni_alloc e)).
Proof. unfold uni_alloc. by destruct (u_free e =? 0). Qed.

#[export] Instance uni_spec : KernelSpec uni.
Proof.
  split; try done; cbn.
  - intros e. eexists. split; [done|]. split; [by split|]. cbn. split; [lia|].
    unfold intr_off. cbn. intros H. rewrite Z.add_simpl_r. by destruct (u_ncli e =? 0).
  - intros l e H. unfold uni_acquire. change (uni_holding l (uni_pushcli e)) with (uni_holding l e).
    rewrite H. eexists. split_and!; [done|apply bool_decide_eq_true; cbn; set_solver|done| |done|done].
    intros l' Hl. apply bool_decide_ext. cbn. set_solver.
  - intros l e H. unfold uni_acquire. change (uni_holding l (uni_pushcli e)) with (uni_holding l e).
    by rewrite H.
  - intros l e H. unfold uni_release. rewrite H. eexists. split_and!; [done| |done| |done|].
    + apply bool_decide_eq_false. cbn. rewrite list_elem_of_filter. naive_solver.
    + intros l' Hl. apply bool_decide_ext. cbn. rewrite list_elem_of_filter. naive_solver.
    + unfold intr_off. cbn. intros Hn Hi. apply Z.eqb_neq in Hn. by rewrite Hn.
  - intros l e H. unfold uni_release. by rewrite H.
  - apply uni_alloc_quiet.
  - intros _ _. apply uni_alloc_quiet.
Qed.

(** A machine that has just booted, and one that runs a few processes:
    entries given by their state, pid, tickets and parent. *)
Definition uni_ext : uni := mkUni [] 0 512 512 100.

Definition boot : kst uni :=
  mkK (replicate NPROC zero_proc) [mkCpu 0 None] 1 None 1 1 0 1 uni_ext.

Definition slot (s : procstate) (n t : Z) (par : option nat) : proc :=
  set_state s (set_pid n (set_tickets t (set_parent par (set_kstack 8 (set_cwd 1 zero_proc))))).

Definition machine (l : list proc) (cur : option nat) (v : Z) : kst uni :=
  mkK (l ++ replicate (NPROC - length l) zero_proc) [mkCpu 0 cur] 1 (Some 0%nat) 10 v 0 0 uni_ext.
