(* ===== verification/ProcTheory.v ===== *)
(** * Correctness of the process handlers

    Theorems about the handlers of [Proc.v]: the table invariant of every
    reachable kernel state, what [fork], [exit], [wait], [sleep], [kill] and
    [settickets] promise, and which processes a scheduling round runs. *)

From Stdlib Require Import ZArith Lia String.
From stdpp Require Import base tactics list list_numbers numbers relations sets.
From S2P Require Import Prelude Lcg Lottery Proc ProcInv ProcSim.

Local Open Scope Z_scope.
Local Open Scope ostep_scope.

(** ** Handlers that return *)

Section total.
Context {ext : Type} `{!KernelEnv ext} `{!KernelServices ext} `{!KernelSpec ext}.
Implicit Type st : kst ext.

(** Process [cur] is the one running on this CPU. *)
Definition on_cpu (cur : nat) st : Prop :=
  exists c k, list_find (fun k => k.(apicid) = lapicid st.(kext)) (take st.(ncpu) st.(cpus)) = Some (c, k) /\
    k.(cproc) = Some cur.

Lemma quiet_refl (e : ext) : quiet e e.
Proof. by split. Qed.

Lemma quiet_trans (e1 e2 e3 : ext) : quiet e1 e2 -> quiet e2 e3 -> quiet e1 e3.
Proof. intros [H1 H2] [H3 H4]. split; [congruence|]. intros l. by rewrite H4. Qed.

Lemma mycpu_total cur st c k :
  Z.land (readeflags (kext st)) FL_IF = 0 ->
  list_find (fun k => k.(apicid) = lapicid st.(kext)) (take st.(ncpu) st.(cpus)) = Some (c, k) ->
  k.(cproc) = Some cur -> mycpu st = Done c /\ cpus st !! c = Some k.
Proof.
  intros Hi Hf Hk. unfold mycpu. rewrite Hi, Hf. split; [done|].
  apply list_find_Some in Hf as (Hc & _). apply lookup_take_Some in Hc. apply Hc.
Qed.

Lemma curproc_total cur st :
  on_cpu cur st -> exists e, curproc st = Done (cur, set_ext e st) /\ quiet (kext st) e /\
    ncli e = ncli (kext st) /\ (intr_off (kext st) -> intr_off e).
Proof.
  intros (c & k & Hf & Hk). unfold curproc, myproc.
  destruct (mycpu_total cur (with_ext pushcli st) c k) as [-> Hc]; [apply pushcli_off| |done|].
  { cbn. by rewrite pushcli_lapicid. }
  destruct (popcli_pushcli (kext st)) as (e & He & Hq & Hn & Hi). exists e.
  cbn [obind]. rewrite Hc. cbn. unfold with_ext_o. cbn. rewrite He. cbn. rewrite Hk. done.
Qed.

(** A critical section. *)
Lemma acquire_total l st :
  holding l (kext st) = false ->
  exists e, with_ext_o (acquire l) st = Done (set_ext e st) /\ holding l e = true /\
    lapicid e = lapicid (kext st) /\ (forall l', l' <> l -> holding l' e = holding l' (kext st)) /\
    ncli e = ncli (kext st) + 1 /\ intr_off e.
Proof.
  intros H. destruct (acquire_free l _ H) as (e & He & Hr). exists e.
  split; [|done]. unfold with_ext_o. by rewrite He.
Qed.

Lemma release_total l st e0 :
  holding l e0 = false -> holding l (kext st) = true -> lapicid (kext st) = lapicid e0 ->
  (forall l', l' <> l -> holding l' (kext st) = holding l' e0) ->
  exists e, with_ext_o (release l) st = Done (set_ext e st) /\ quiet e0 e.
Proof.
  intros H0 H Hc Ho. destruct (release_held l _ H) as (e & He & Hf & Hc' & Ho' & _). exists e.
  split; [unfold with_ext_o; by rewrite He|]. split; [congruence|].
  intros l'. destruct (decide (l' = l)) as [->|]; [congruence|]. rewrite Ho', Ho; done.
Qed.

Lemma dup_files_quiet ids src np st : quiet (kext st) (kext (dup_files ids src np st)).
Proof.
  revert st; induction ids as [|i ids IH]; intros st; cbn [dup_files]; [apply quiet_refl|].
  destruct (_ =? _); [apply IH|]. rewrite with_ext_v_eq. cbn beta iota.
  eapply quiet_trans; [|apply IH]. apply filedup_quiet.
Qed.

Lemma allocproc_total st :
  holding ptable_lock (kext st) = false ->
  exists r st', allocproc st = Done (r, st') /\ quiet (kext st) (kext st').
Proof.
  intros Hh. unfold allocproc.
  destruct (acquire_total ptable_lock st Hh) as (e1 & -> & Hh1 & Hc1 & Ho1 & _). cbn [obind].
  destruct (find_unused _) as [p|].
  - cbv zeta. match goal with |- context [with_ext_o (release _) ?s] =>
      destruct (release_total ptable_lock s (kext st)) as (e2 & -> & Hq); [done..|] end.
    cbn [obind]. rewrite with_ext_v_eq. cbn beta iota.
    assert (Hk := quiet_trans _ _ _ Hq (kalloc_quiet e2)).
    destruct (_ =? 0); eexists _, _; (split; [reflexivity|exact Hk]).
  - destruct (release_total ptable_lock (set_ext e1 st) (kext st)) as (e2 & -> & Hq); [done..|].
    eexists _, _. split; [reflexivity|exact Hq].
Qed.

Lemma fork_total cur st cp :
  on_cpu cur st -> holding ptable_lock (kext st) = false -> ptable st !! cur = Some cp ->
  cp.(state) <> UNUSED ->
  exists r st', fork st = Done (r, st') /\ quiet (kext st) (kext st').
Proof.
  intros Hc Hh Hcp Hs. unfold fork.
  destruct (curproc_total _ _ Hc) as (e & -> & Hq & _). cbn [obind].
  destruct (allocproc_total (set_ext e st)) as (op & st1 & E & Hq1).
  { cbn. by rewrite (proj2 Hq). }
  rewrite E. cbn [obind]. assert (Hq' := quiet_trans _ _ _ Hq Hq1).
  destruct op as [np|]; [|by eexists _, _].
  assert (Hnp : is_Some (ptable st1 !! np) /\ ptable st1 !! cur = Some cp).
  { apply allocproc_cases in E as [(? & _)|(i & p & e' & ks & Hf & Hp & Hcase)]; [done|].
    cbv zeta in Hcase. destruct Hcase as [(? & _)|([= ->] & _ & ->)]; [done|]. cbn in Hp |- *.
    split; [eexists; apply list_lookup_insert_eq; by eapply lookup_lt_Some|].
    rewrite list_lookup_insert_ne; [done|]. intros ->.
    apply find_unused_Some in Hf as (p' & ? & ? & _). cbn in *. congruence. }
  destruct Hnp as ((pn & Hpn) & Hcur). unfold entry at 1. rewrite Hcur. cbn [obind deref].
  rewrite with_ext_v_eq. cbn beta iota zeta.
  assert (Hq2 := quiet_trans _ _ _ Hq' (copyuvm_quiet (pgdir cp) (sz cp) (kext st1))).
  destruct (_ =? 0).
  - unfold entry. cbn [ptable upd set_ptable set_ext]. rewrite list_lookup_alter_eq, Hpn. cbn [fmap option_fmap option_map deref obind].
    eexists _, _. split; [reflexivity|]. cbn. eapply quiet_trans; [exact Hq2|apply kfree_quiet].
  - match goal with |- context [dup_files ?a ?b ?c ?d] =>
      assert (Hq3 := dup_files_quiet a b c d); set (st2 := d) in *;
      destruct (dup_files_frame a b c st2 (default pn (ptable st2 !! c))) as (e3 & fs & Ed) end.
    { unfold st2. cbn. rewrite !list_lookup_alter_eq, Hpn. done. }
    rewrite Ed in *. clear Ed. rewrite with_ext_v_eq. cbn beta iota.
    assert (Hq4 := quiet_trans _ _ _ Hq2 (quiet_trans _ _ _ Hq3 (idup_quiet (cwd cp) _))).
    unfold entry. cbn [ptable upd set_ptable set_ext].
    rewrite !list_lookup_alter_eq, list_lookup_insert_eq.
    2: { unfold st2. cbn. rewrite !length_alter. by eapply lookup_lt_Some. }
    cbn [fmap option_fmap option_map deref obind].
    match goal with |- context [with_ext_o (acquire _) ?s] =>
      destruct (acquire_total ptable_lock s) as (e5 & -> & Hh5 & Hc5 & Ho5 & _) end.
    { cbn. by rewrite (proj2 Hq4). }
    cbn [obind]. match goal with |- context [with_ext_o (release _) ?s] =>
      destruct (release_total ptable_lock s (kext st)) as (e6 & -> & Hq6) end.
    { done. } { done. } { etransitivity; [exact Hc5|apply Hq4]. }
    { intros l' Hl. etransitivity; [by apply Ho5|apply Hq4]. }
    eexists _, _. split; [reflexivity|exact Hq6].
Qed.

End total.

(** ** The table invariant *)

(** C1: in every kernel state reached from a booting kernel by [userinit],
    [fork], [exit], [wait], [sleep], [yield], [wakeup], [kill], [settickets]
    and switches to processes, in any order and any interleaving, no two
    entries share a nonzero pid and pids stay below [nextpid], every used
    entry has a positive pid and at least one ticket, free entries have no
    parent, the parent of every process is a live process, and so is init. *)
Theorem kernel_invariant {ext} `{!KernelEnv ext} `{!KernelServices ext} (st : kst ext) :
  reachable kinit kstep st -> kinv st.
Proof. apply reachable_inv; [apply kinv_init | apply kinv_step]. Qed.

(** The state after [userinit] on the booted machine. *)
Definition booted : kst uni := match userinit boot with Done st => st | _ => boot end.

Lemma kernel_invariant_witness : reachable kinit kstep booted /\ kinv booted.
Proof.
  assert (H : reachable kinit kstep booted).
  { apply (reachable_step _ _ boot); [apply reachable_init; done|].
    apply ks_userinit; [done|done|vm_compute; reflexivity]. }
  split; [exact H | exact (kernel_invariant booted H)].
Defined.

(** ** fork *)

Section fork.
Context {ext : Type} `{!KernelEnv ext} `{!KernelServices ext} `{!KernelSpec ext}.
Implicit Type st : kst ext.

Lemma with_new_others e i x st j : j <> i -> ptable (with_new e i x st) !! j = ptable st !! j.
Proof. intros. unfold with_new. cbn. by rewrite list_lookup_insert_ne. Qed.

Lemma with_new_self e i x st p : ptable st !! i = Some p -> ptable (with_new e i x st) !! i = Some x.
Proof. intros. unfold with_new. cbn. apply list_lookup_insert_eq. by eapply lookup_lt_Some. Qed.

(** C3: [fork], called by the running process with the table unlocked, always
    returns and leaves every lock as it found it and every existing process as
    it was.  Either it returns -1 and there is no new process, or it returns a
    positive pid that no entry had, and the first free entry holds a runnable
    copy of the caller with that pid, the caller as parent, the caller's
    tickets, size and registers, and 0 as result of its own [fork]. *)
Theorem fork_spec cur cp st :
  kinv st -> on_cpu cur st -> holding ptable_lock (kext st) = false ->
  ptable st !! cur = Some cp -> cp.(state) = RUNNING -> nextpid st < INT_MAX ->
  exists r st', fork st = Done (r, st') /\ quiet (kext st) (kext st') /\ initproc st' = initproc st /\
    (forall j q, ptable st !! j = Some q -> q.(state) <> UNUSED -> ptable st' !! j = Some q) /\
    (r = -1 /\
       (forall j q, ptable st' !! j = Some q -> q.(state) <> UNUSED -> ptable st !! j = Some q) \/
     0 < r /\ (forall j q, ptable st !! j = Some q -> q.(pid) <> r) /\
       exists i n, find_unused st = Some i /\ ptable st' !! i = Some n /\
         (forall j, j <> i -> ptable st' !! j = ptable st !! j) /\
         n.(pid) = r /\ n.(state) = RUNNABLE /\ n.(parent) = Some cur /\
         n.(tickets) = cp.(tickets) /\ n.(sz) = cp.(sz) /\
         n.(tf).(tf_eax) = 0 /\ n.(tf).(tf_eip) = cp.(tf).(tf_eip) /\ n.(tf).(tf_esp) = cp.(tf).(tf_esp)).
Proof.
  intros Hk Hc Hh Hcp Hrun Hmax.
  destruct (fork_total cur st cp) as (r & st' & Hf & Hq); [done..|by rewrite Hrun|].
  destruct (curproc_total _ _ Hc) as (e0 & Hcur & _).
  exists r, st'. split_and!; [done..| | |].
  all: apply (fork_cases _ _ _ cp _ _ Hcur) in Hf; [|done|by rewrite Hrun].
  all: destruct Hf as [(-> & _ & e & ->)|(i & p & e & Hf & Hp & H)]; [by auto|]; cbv zeta in H.
  - destruct H as [(_ & ->)|[(_ & ks & _ & ->)|(_ & ks & pd & d & fs & _ & _ & ->)]]; done.
  - intros j q Hj Hs. assert (j <> i).
    { intros ->. apply find_unused_Some in Hf as (p' & ? & ? & _). congruence. }
    destruct H as [(_ & ->)|[(_ & ks & _ & ->)|(_ & ks & pd & d & fs & _ & _ & ->)]];
      by rewrite with_new_others.
  - destruct Hk as (Hok & Hnp & _).
    destruct H as [(-> & ->)|[(-> & ks & _ & ->)|(-> & ks & pd & d & fs & _ & _ & ->)]].
    1, 2: left; split; [done|]; intros j q Hj Hs; (destruct (decide (j = i)) as [->|];
      [rewrite (with_new_self _ _ _ _ _ Hp) in Hj; by injection Hj as <- | by rewrite with_new_others in Hj]).
    right. split; [done|]. split.
    { intros j q Hj. pose proof (tok_pid _ _ Hok _ _ Hj). lia. }
    eexists i, _. split; [done|]. split; [by eapply with_new_self|].
    split; [intros; by apply with_new_others|]. done.
Qed.

End fork.

(** Init (pid 1) and a process with pid 3 and 5 tickets that runs. *)
Definition two_procs : kst uni :=
  machine [slot SLEEPING 1 1 None; slot RUNNING 3 5 (Some 0%nat)] (Some 1%nat) 1.

(** The invariant of a concrete table, by evaluation. *)
Definition table_okb (t : list proc) (np : Z) : bool :=
  (length t =? NPROC)%nat &&
  forallb (fun p => (0 <=? p.(pid)) && (p.(pid) <? np) &&
    (bool_decide (p.(state) = UNUSED) || ((0 <? p.(pid)) && (1 <=? p.(tickets)))) &&
    (negb (bool_decide (p.(state) = UNUSED)) || bool_decide (p.(parent) = None)) &&
    match p.(parent) with
    | None => true
    | Some j => match t !! j with Some q => alive q.(state) | None => false end
    end) t &&
  bool_decide (NoDup (filter (fun n => n <> 0) (pid <$> t))).

Lemma NoDup_nonzero_lookup (l : list Z) i j a :
  NoDup (filter (fun n => n <> 0) l) -> l !! i = Some a -> l !! j = Some a -> a <> 0 -> i = j.
Proof.
  revert i j; induction l as [|b l IH]; intros i j Hnd Hi Hj Ha; [done|].
  rewrite filter_cons in Hnd.
  assert (Hin : forall k, l !! k = Some a -> a ∈ filter (fun n => n <> 0) l)
    by (intros k Hk; apply list_elem_of_filter; split; [done|by eapply list_elem_of_lookup_2]).
  destruct i as [|i], j as [|j]; cbn in Hi, Hj; [done| | |].
  - injection Hi as ->. rewrite decide_True in Hnd by done. apply NoDup_cons in Hnd as [Hn _].
    exfalso. eauto.
  - injection Hj as ->. rewrite decide_True in Hnd by done. apply NoDup_cons in Hnd as [Hn _].
    exfalso. eauto.
  - f_equal. destruct (decide (b <> 0)); [apply NoDup_cons in Hnd as [_ Hnd]|]; eauto.
Qed.

Lemma table_okb_sound t np : table_okb t np = true -> table_ok t np.
Proof.
  unfold table_okb. rewrite !andb_true_iff, Nat.eqb_eq, forallb_forall, bool_decide_eq_true.
  intros ((Hlen & Hall) & Hnd).
  assert (Hin : forall i p, t !! i = Some p -> p ∈ t) by (intros; by eapply list_elem_of_lookup_2).
  assert (Hp := fun i p Hi => Hall p (proj1 (list_elem_of_In _ _) (Hin i p Hi))).
  cbv beta in Hp. setoid_rewrite andb_true_iff in Hp.
  split; [done|..].
  - intros i j p q Hi Hj Hz E. eapply (NoDup_nonzero_lookup (pid <$> t)); [done| | |done];
      rewrite list_lookup_fmap, ?Hi, ?Hj; cbn; congruence.
  - intros i p Hi. destruct (Hp i p Hi) as (H & _). bool_to_prop. lia.
  - intros i p Hi Hs. destruct (Hp i p Hi) as (H & _). bool_to_prop.
    rewrite (bool_decide_eq_false_2 _ Hs) in *. cbn in *. bool_to_prop. done.
  - intros i p Hi Hs. destruct (Hp i p Hi) as (H & _). bool_to_prop.
    rewrite (bool_decide_eq_true_2 _ Hs) in *. cbn in *. bool_to_prop. done.
  - intros i p j Hi Hj. destruct (Hp i p Hi) as (_ & H). rewrite Hj in H.
    destruct (t !! j) as [q|] eqn:Hq; [|done]. by exists q.
Qed.

Lemma two_procs_kinv : kinv two_procs.
Proof.
  split; [by apply table_okb_sound|]. split; [done|]. intros ip [= <-].
  eexists. split; reflexivity.
Qed.

Lemma fork_spec_witness :
  kinv two_procs /\ exists r st', fork two_procs = Done (r, st') /\ quiet (kext two_procs) (kext st').
Proof.
  split; [exact two_procs_kinv|].
  edestruct (fork_spec 1 (slot RUNNING 3 5 (Some 0%nat)) two_procs two_procs_kinv)
    as (r & st' & H & Hq & _); [exists 0%nat, (mkCpu 0 (Some 1%nat)); done|done..|].
  exists r, st'. split; [exact H | exact Hq].
Defined.

(** ** exit and wait *)

Section exit_wait.
Context {ext : Type} `{!KernelEnv ext} `{!KernelServices ext} `{!KernelSpec ext}.
Implicit Type st : kst ext.

Lemma kext_upd i f st : kext (upd i f st) = kext st.
Proof. done. Qed.

Lemma exit_locked_total cur st cp :
  holding ptable_lock (kext st) = false -> ptable st !! cur = Some cp ->
  exists st', exit_locked cur st = Done st' /\ holding ptable_lock (kext st') = true.
Proof.
  intros Hh Hcp. unfold exit_locked.
  destruct (acquire_total ptable_lock st Hh) as (e & -> & He & _). cbn [obind].
  unfold entry. change (ptable (set_ext e st)) with (ptable st). rewrite Hcp. cbn [obind deref].
  eexists. split; [reflexivity|].
  destruct (reparent_frame (seq 0 NPROC) cur (wakeup1 (chan_of (parent cp)) (set_ext e st)))
    as (_ & _ & Ek & _).
  by rewrite kext_upd, Ek.
Qed.

Lemma woken_target c p : p.(state) = SLEEPING -> p.(chan) = c -> (woken c p).(state) = RUNNABLE.
Proof. intros H1 H2. unfold woken. by rewrite bool_decide_eq_true_2. Qed.

Lemma woken_runnable c p : p.(state) = RUNNABLE -> (woken c p).(state) = RUNNABLE.
Proof. intros H. unfold woken. case_bool_decide; [done|by rewrite H]. Qed.

Lemma adopted_state cur ip p :
  (adopted cur ip p).(state) = p.(state) /\ (adopted cur ip p).(chan) = p.(chan).
Proof. unfold adopted. by case_decide. Qed.

Lemma has_zombie_child_true cur t ps i p :
  i ∈ ps -> t !! i = Some p -> p.(parent) = Some cur -> p.(state) = ZOMBIE ->
  has_zombie_child cur t ps = true.
Proof.
  intros Hi Hp H1 H2. apply existsb_exists. exists i. split; [by apply list_elem_of_In|].
  rewrite Hp. by apply bool_decide_eq_true_2.
Qed.

Lemma after_exit_wakes_parent cur cp ip z p :
  p.(state) = SLEEPING -> p.(chan) = chan_of cp.(parent) ->
  (after_exit cur cp ip z p).(state) = RUNNABLE.
Proof.
  intros H1 H2. assert (H : state (adopted cur ip (woken (chan_of (parent cp)) p)) = RUNNABLE)
    by (rewrite (proj1 (adopted_state _ _ _)); by apply woken_target).
  unfold after_exit. destruct z; [by apply woken_runnable|done].
Qed.

Lemma after_exit_wakes_init cur cp ip p :
  p.(state) = SLEEPING -> p.(chan) = chan_of ip ->
  (after_exit cur cp ip true p).(state) = RUNNABLE.
Proof.
  intros H1 H2. unfold after_exit. set (q := woken (chan_of (parent cp)) p).
  destruct (adopted_state cur ip q) as [E1 E2].
  destruct (bool_decide (state p = SLEEPING /\ chan p = chan_of (parent cp))) eqn:E.
  - apply woken_runnable. rewrite E1. unfold q, woken. by rewrite E.
  - assert (Eq : q = p) by (unfold q, woken; by rewrite E).
    apply woken_target; [rewrite E1, Eq|rewrite E2, Eq]; done.
Qed.

(** C6: the part of [exit] under the table lock always completes, keeping the
    lock for [sched]: the exiting process is a zombie with its pid, no process
    has it as parent any more, each of its children has become a child of init,
    a parent that sleeps in [wait] is runnable, and so is init when it sleeps
    in [wait] and inherits a zombie.  No other process changes state. *)
Theorem exit_spec cur cp st :
  kinv st -> holding ptable_lock (kext st) = false ->
  ptable st !! cur = Some cp -> cp.(state) = RUNNING -> initproc st <> Some cur ->
  exists st' zp, exit_locked cur st = Done st' /\ holding ptable_lock (kext st') = true /\
    ptable st' !! cur = Some zp /\ zp.(state) = ZOMBIE /\ zp.(pid) = cp.(pid) /\
    (forall j q, ptable st' !! j = Some q -> q.(parent) <> Some cur) /\
    (forall j p, ptable st !! j = Some p -> j <> cur ->
       exists q, ptable st' !! j = Some q /\ q.(pid) = p.(pid) /\
         q.(parent) = (if decide (p.(parent) = Some cur) then initproc st else p.(parent)) /\
         (p.(state) <> SLEEPING -> q.(state) = p.(state)) /\
         (cp.(parent) = Some j -> p.(state) = SLEEPING -> p.(chan) = CProc j ->
            q.(state) = RUNNABLE) /\
         (initproc st = Some j -> p.(state) = SLEEPING -> p.(chan) = CProc j ->
            (exists i z, ptable st !! i = Some z /\ z.(parent) = Some cur /\ z.(state) = ZOMBIE) ->
            q.(state) = RUNNABLE)).
Proof.
  intros (Hok & Hnp & Hip) Hh Hcp Hrun Hinit.
  destruct (exit_locked_total cur st cp Hh Hcp) as (st' & He & Hh').
  destruct (exit_locked_table st st' cur cp (tok_length _ _ Hok) Hcp He) as (_ & _ & _ & Hl).
  set (z := has_zombie_child cur (ptable st) (seq 0 NPROC)) in *.
  set (F := after_exit cur cp (initproc st) z) in *.
  exists st', (set_state ZOMBIE (F cp)). split_and!; [done|done| |done| | |].
  - rewrite Hl, Hcp. cbn. by rewrite decide_True.
  - apply after_exit_same.
  - intros j q Hq. rewrite Hl in Hq. apply fmap_Some in Hq as (p & Hp & ->).
    assert (Hpar : parent (F p) <> Some cur)
      by (unfold F; rewrite after_exit_parent; by case_decide).
    by case_decide.
  - intros j p Hj Hne. exists (F p). split_and!.
    + rewrite Hl, Hj. cbn. by rewrite decide_False.
    + apply after_exit_same.
    + apply after_exit_parent.
    + intros Hs. assert (Hw : forall c q, q.(state) <> SLEEPING -> woken c q = q)
        by (intros c q Hq; unfold woken; rewrite bool_decide_eq_false_2; naive_solver).
      unfold F, after_exit. rewrite (Hw _ p Hs). destruct (adopted_state cur (initproc st) p) as [E _].
      destruct z; [rewrite Hw by (by rewrite E)|]; done.
    + intros Hpar Hs Hc. apply after_exit_wakes_parent; [done|]. by rewrite Hpar.
    + intros Hi Hs Hc (i & q & Hq & Hqp & Hqz).
      assert (Ez : z = true).
      { eapply (has_zombie_child_true _ _ _ i); [|done..]. apply elem_of_seq.
        apply lookup_lt_Some in Hq. rewrite (tok_length _ _ Hok) in Hq. lia. }
      unfold F. rewrite Ez. apply after_exit_wakes_init; [done|]. by rewrite Hi.
Qed.

(** One scan of [wait] finds a zombie child whenever there is one, and tells
    whether there are children otherwise. *)
Lemma wait_scan_inr ps k cur hk b :
  wait_scan ps k cur hk = inr b ->
  (forall j p, ps !! j = Some p -> p.(parent) = Some cur -> p.(state) <> ZOMBIE) /\
  (b = false <-> hk = false /\ forall j p, ps !! j = Some p -> p.(parent) <> Some cur).
Proof.
  revert k hk; induction ps as [|p ps IH]; intros k hk H; simpl in H.
  { injection H as <-. naive_solver. }
  destruct (decide (parent p = Some cur)) as [D|D].
  - destruct (decide (state p = ZOMBIE)) as [D'|D']; [done|].
    apply IH in H as [H1 H2]. split.
    + intros [|j] q Hq; [by injection Hq as <-|eauto].
    + rewrite H2. split; [by intros []|]. intros [_ H]. exfalso. by apply (H 0%nat p).
  - apply IH in H as [H1 H2]. split.
    + intros [|j] q Hq; [by injection Hq as <-|eauto].
    + rewrite H2. split; intros [Hk H]; (split; [done|]).
      * intros [|j] q Hq; [by injection Hq as <-|eauto].
      * intros j q Hq. by apply (H (S j)).
Qed.

Lemma reap_total i st p e0 :
  ptable st !! i = Some p -> holding ptable_lock (kext st) = true -> holding ptable_lock e0 = false ->
  lapicid (kext st) = lapicid e0 -> (forall l, l <> ptable_lock -> holding l (kext st) = holding l e0) ->
  exists st', reap i st = Done (p.(pid), st') /\ quiet e0 (kext st').
Proof.
  intros Hp Hh H0 Hc Ho. unfold reap, entry. rewrite Hp. cbn [obind deref].
  destruct (kfree_quiet (kstack p) (kext st)) as [K1 K2].
  destruct (freevm_quiet (pgdir p) (kfree (kstack p) (kext st))) as [F1 F2].
  cbv zeta. match goal with |- context [with_ext_o (release _) ?s] =>
    destruct (release_total ptable_lock s e0) as (e & -> & Hq) end.
  { done. } { cbn. by rewrite F2, K2. } { cbn. by rewrite F1, K1. }
  { intros l Hl. cbn. rewrite F2, K2. auto. }
  eexists. split; [reflexivity|exact Hq].
Qed.

(** The cases of [wait]. *)
Lemma wait_cases cur cp st fuel :
  on_cpu cur st -> holding ptable_lock (kext st) = false -> ptable st !! cur = Some cp ->
  (exists i p st', ptable st !! i = Some p /\ p.(parent) = Some cur /\ p.(state) = ZOMBIE /\
     wait (S fuel) st = Some (Done (p.(pid), st')) /\ quiet (kext st) (kext st') /\
     ptable st' = <[i := reaped p]> (ptable st)) \/
  (forall j p, ptable st !! j = Some p -> p.(parent) = Some cur -> p.(state) <> ZOMBIE) /\
  (((forall j p, ptable st !! j = Some p -> p.(parent) <> Some cur) \/ cp.(killed) <> 0) /\
     (exists st', wait (S fuel) st = Some (Done (-1, st')) /\ quiet (kext st) (kext st') /\
        ptable st' = ptable st) \/
   (exists j p, ptable st !! j = Some p /\ p.(parent) = Some cur) /\ cp.(killed) = 0 /\
     exists e, holding ptable_lock e = true /\
       wait (S fuel) st =
       match sleep (CProc cur) (Some ptable_lock) (set_ext e st) with
       | Done st' => wait_loop fuel cur st'
       | Fail m => Some (Fail m)
       | Crash w => Some (Crash w)
       end).
Proof.
  intros Hc Hh Hcp. unfold wait.
  destruct (curproc_total _ _ Hc) as (e & -> & Hq & _). cbn [obind].
  destruct (acquire_total ptable_lock (set_ext e st)) as (e1 & -> & Hh1 & Hc1 & Ho1 & _).
  { cbn. by rewrite (proj2 Hq). }
  cbn [obind]. rewrite set_ext_set_ext. cbn [wait_loop].
  change (ptable (set_ext e1 st)) with (ptable st).
  assert (Hcc : lapicid e1 = lapicid (kext st)) by (by rewrite Hc1, <- (proj1 Hq)).
  assert (Hoo : forall l, l <> ptable_lock -> holding l e1 = holding l (kext st))
    by (intros l Hl; rewrite Ho1 by done; apply Hq).
  destruct (wait_scan _ _ _ _) as [i|hk] eqn:Hs.
  - left. apply wait_scan_inl in Hs as (j & p & -> & Hp & Hpar & Hz). cbn [Nat.add].
    destruct (reap_total j (set_ext e1 st) p (kext st)) as (st' & Hr & Hq'); [done..|].
    exists j, p, st'. rewrite Hr. split_and!; [done..|].
    apply (reap_Done j (set_ext e1 st) _ _ _ Hp) in Hr as (_ & e2 & ->). reflexivity.
  - right. apply wait_scan_inr in Hs as [Hnz Hb]. split; [done|].
    unfold entry. change (ptable (set_ext e1 st)) with (ptable st). rewrite Hcp. cbn [deref].
    destruct (negb hk || negb (killed cp =? 0)) eqn:Ht.
    + left. split.
      { apply orb_true_iff in Ht as [Ht|Ht]; bool_to_prop; [left|by right]. by apply Hb. }
      destruct (release_total ptable_lock (set_ext e1 st) (kext st)) as (e2 & -> & Hq2); [done..|].
      eexists. split_and!; [reflexivity|exact Hq2|done].
    + right. bool_to_prop. subst hk. split_and!; [|done|by exists e1].
      destruct (decide (Exists (fun p => p.(parent) = Some cur) (ptable st))) as [D|D].
      * apply Exists_exists in D as (p & Hin & Hp). apply list_elem_of_lookup in Hin as (j & Hj). eauto.
      * exfalso. assert (true = false); [|done]. apply Hb. split; [done|]. intros j p Hj Hp.
        apply D, Exists_exists. exists p. split; [by eapply list_elem_of_lookup_2|done].
Qed.

(** C7: [wait] by a process with the table unlocked.  With a zombie child it
    returns that child's pid and frees the child's entry, with the lock
    released; with no child, or when it has been killed and no child is a
    zombie, it returns -1 and changes nothing; otherwise it sleeps on its own
    entry with the table lock and scans again. *)
Theorem wait_spec cur cp st fuel :
  on_cpu cur st -> holding ptable_lock (kext st) = false -> ptable st !! cur = Some cp ->
  (exists i p st', ptable st !! i = Some p /\ p.(parent) = Some cur /\ p.(state) = ZOMBIE /\
     wait (S fuel) st = Some (Done (p.(pid), st')) /\ quiet (kext st) (kext st') /\
     ptable st' = <[i := reaped p]> (ptable st)) \/
  (forall j p, ptable st !! j = Some p -> p.(parent) = Some cur -> p.(state) <> ZOMBIE) /\
  (((forall j p, ptable st !! j = Some p -> p.(parent) <> Some cur) \/ cp.(killed) <> 0) /\
     (exists st', wait (S fuel) st = Some (Done (-1, st')) /\ quiet (kext st) (kext st') /\
        ptable st' = ptable st) \/
   (exists j p, ptable st !! j = Some p /\ p.(parent) = Some cur) /\ cp.(killed) = 0 /\
     exists e, holding ptable_lock e = true /\
       wait (S fuel) st =
       match sleep (CProc cur) (Some ptable_lock) (set_ext e st) with
       | Done st' => wait_loop fuel cur st'
       | Fail m => Some (Fail m)
       | Crash w => Some (Crash w)
       end).
Proof. apply wait_cases. Qed.

End exit_wait.

(** Init waits for its children; process 2 runs, is the parent of a zombie and
    of a process that sleeps, and is a child of init. *)
Definition family : kst uni :=
  machine [set_chan (CProc 0) (slot SLEEPING 1 1 None); slot RUNNING 2 5 (Some 0%nat);
           slot ZOMBIE 3 2 (Some 1%nat); set_chan (CAddr 77) (slot SLEEPING 4 3 (Some 1%nat))]
          (Some 1%nat) 1.

Lemma family_kinv : kinv family.
Proof.
  split; [by apply table_okb_sound|]. split; [done|]. intros ip [= <-].
  eexists. split; reflexivity.
Qed.

Lemma exit_spec_witness :
  kinv family /\ exists st' zp, exit_locked 1 family = Done st' /\
    ptable st' !! 1%nat = Some zp /\ zp.(state) = ZOMBIE /\ zp.(pid) = 2.
Proof.
  split; [exact family_kinv|].
  edestruct (exit_spec 1 (slot RUNNING 2 5 (Some 0%nat)) family family_kinv)
    as (st' & zp & H1 & _ & H2 & H3 & H4 & _); [reflexivity..|done|].
  exists st', zp. split; [exact H1|]. split; [exact H2|]. split; [exact H3 | exact H4].
Defined.

Lemma wait_spec_witness :
  on_cpu 1 family /\ exists i p st', ptable family !! i = Some p /\
    wait 1 family = Some (Done (p.(pid), st')) /\ quiet (kext family) (kext st').
Proof.
  assert (Hc : on_cpu 1 family) by (exists 0%nat, (mkCpu 0 (Some 1%nat)); done).
  split; [exact Hc|].
  destruct (wait_spec 1 (slot RUNNING 2 5 (Some 0%nat)) family 0 Hc eq_refl eq_refl)
    as [(i & p & st' & H1 & _ & _ & H2 & H3 & _)|[Hno _]].
  - exists i, p, st'. split; [exact H1|]. split; [exact H2 | exact H3].
  - exfalso. by apply (Hno 2%nat (slot ZOMBIE 3 2 (Some 1%nat))).
Defined.

(** ** sleep, kill and settickets *)

Section others.
Context {ext : Type} `{!KernelEnv ext} `{!KernelServices ext} `{!KernelSpec ext}.
Implicit Type st : kst ext.

Lemma on_cpu_frame cur st st' :
  cpus st' = cpus st -> ncpu st' = ncpu st -> lapicid (kext st') = lapicid (kext st) ->
  on_cpu cur st -> on_cpu cur st'.
Proof. intros E1 E2 E3 (c & k & H & Hk). exists c, k. by rewrite E1, E2, E3. Qed.

(** [sched] by a process that has left the state [RUNNING] and holds only the
    table lock reaches the context switch. *)
Lemma sched_switch cur st p :
  on_cpu cur st -> ptable st !! cur = Some p -> p.(state) <> RUNNING ->
  holding ptable_lock (kext st) = true -> ncli (kext st) = 1 -> intr_off (kext st) ->
  exists e, quiet (kext st) e /\
    sched st = (let* st' := swtch_sched cur (set_ext e st) in
                let* _ := mycpu st' in Done (with_ext (set_intena (intena e)) st')).
Proof.
  intros Hc Hp Hs Hh Hn Hi. unfold sched.
  destruct (curproc_total _ _ Hc) as (e & -> & Hq & Hn' & Hi'). exists e. split; [done|].
  cbn [obind]. cbn [kext set_ext]. rewrite (proj2 Hq), Hh. cbn [negb].
  assert (Hc' : on_cpu cur (set_ext e st)) by (eapply on_cpu_frame; [..|done]; [done|done|apply Hq]).
  destruct Hc' as (c & k & Hf & Hk).
  destruct (mycpu_total cur (set_ext e st) c k (Hi' Hi) Hf Hk) as [-> _]. cbn [obind].
  rewrite Hn', Hn. cbn [Z.eqb Pos.eqb negb]. unfold entry.
  change (ptable (set_ext e st)) with (ptable st). rewrite Hp. cbn [deref obind].
  rewrite decide_False by done. rewrite (Hi' Hi : Z.land _ _ = 0). reflexivity.
Qed.

(** C8: [sleep(chan, lk)] by a process that holds exactly [lk] loses no wakeup.
    [lk] is given up by [release lk] in a state in which [ptable.lock] was taken
    before, while [lk] was still held, and [ptable.lock] is held from there on to
    the context switch.  At the switch the process is recorded as sleeping on
    [chan], and the first [wakeup] on [chan] that then gets the lock makes it
    runnable.  After the switch back the channel is cleared, and [ptable.lock] is
    given up before [lk] is taken again. *)
Theorem sleep_spec cur p c l st :
  on_cpu cur st -> ptable st !! cur = Some p -> holding l (kext st) = true ->
  ncli (kext st) = 1 -> intr_off (kext st) ->
  (l <> ptable_lock -> holding ptable_lock (kext st) = false) ->
  exists e0 e2 e3, curproc st = Done (cur, set_ext e0 st) /\
    (if decide (l = ptable_lock) then e2 = e0
     else exists e1, acquire ptable_lock e0 = Done e1 /\ holding l e1 = true /\ holding ptable_lock e1 = true /\
            release l e1 = Done e2 /\ holding l e2 = false) /\
    holding ptable_lock e2 = true /\ quiet e2 e3 /\
    let asleep := set_state SLEEPING (set_chan c p) in
    let s e := set_ext e (set_ptable (<[cur := asleep]> (ptable st)) st) in
    ptable (wakeup1 c (s e3)) !! cur = Some (set_state RUNNABLE asleep) /\
    sched (s e2) = (let* s' := swtch_sched cur (s e3) in
                    let* _ := mycpu s' in Done (with_ext (set_intena (intena e3)) s')) /\
    sleep c (Some l) st =
      (let* s' := sched (s e2) in
       let s2 := upd cur (set_chan CNull) s' in
       if decide (l = ptable_lock) then Done s2
       else let* s3 := with_ext_o (release ptable_lock) s2 in with_ext_o (acquire l) s3).
Proof.
  intros Hc Hp Hl Hn Hi Hfree.
  destruct (curproc_total _ _ Hc) as (e0 & He & Hq & Hn' & Hi').
  assert (Hlocks : exists e2,
    (if decide (l = ptable_lock) then e2 = e0
     else exists e1, acquire ptable_lock e0 = Done e1 /\ holding l e1 = true /\ holding ptable_lock e1 = true /\
            release l e1 = Done e2 /\ holding l e2 = false) /\
    holding ptable_lock e2 = true /\ lapicid e2 = lapicid (kext st) /\ ncli e2 = 1 /\ intr_off e2).
  { destruct (decide (l = ptable_lock)) as [->|Hne].
    - exists e0. split_and!; [done|by rewrite (proj2 Hq)|apply Hq|lia|auto].
    - destruct (acquire_free ptable_lock e0) as (e1 & He1 & Hh1 & Hc1 & Ho1 & Hn1 & Hi1); [rewrite (proj2 Hq); auto|].
      assert (Hl1 : holding l e1 = true) by (rewrite Ho1, (proj2 Hq); done).
      destruct (release_held l e1 Hl1) as (e2 & He2 & Hf2 & Hc2 & Ho2 & Hn2 & Hi2).
      exists e2. split; [by exists e1|]. split_and!; [by rewrite Ho2|rewrite Hc2, Hc1; apply Hq|lia|apply Hi2; [lia|done]]. }
  destruct Hlocks as (e2 & Hlk & Hh2 & Hc2 & Hn2 & Hi2).
  set (asleep := set_state SLEEPING (set_chan c p)).
  set (s := fun e => set_ext e (set_ptable (<[cur := asleep]> (ptable st)) st)).
  assert (Hlen : (cur < length (ptable st))%nat) by (by eapply lookup_lt_Some).
  destruct (sched_switch cur (s e2) asleep) as (e3 & Hq3 & Es); try done.
  { by eapply (on_cpu_frame _ st). } { by apply list_lookup_insert_eq. }
  exists e0, e2, e3. split; [exact He|]. split; [exact Hlk|]. split; [exact Hh2|]. split; [exact Hq3|]. cbv zeta. split; [|split; [exact Es|]].
  { rewrite wakeup1_ptable. cbn [ptable set_ext set_ptable]. rewrite list_lookup_fmap, list_lookup_insert_eq by done. cbn. unfold woken.
    by rewrite bool_decide_eq_true_2. }
  unfold curproc in He. apply obind_Done in He as ([op st1] & Em & He). apply obind_Done in He as (q & Hop & [= -> ->]).
  destruct op as [q|]; [|done]. cbn in Hop. injection Hop as ->. unfold sleep. rewrite Em. cbn [obind].
  fold (s e2). assert (Eu : forall e, upd cur (set_state SLEEPING) (upd cur (set_chan c) (set_ext e st)) = s e)
    by (intros e; by rewrite upd_upd, upd_set_ext, (upd_insert _ _ _ _ Hp)).
  destruct (decide (l = ptable_lock)) as [->|Hne].
  - subst e2. cbn [obind]. by rewrite Eu.
  - destruct Hlk as (e1 & He1 & _ & _ & He2 & _). unfold with_ext_o at 1. cbn [kext set_ext]. rewrite He1. cbn [obind]. rewrite set_ext_set_ext.
    unfold with_ext_o at 1. cbn [kext set_ext]. rewrite He2. cbn [obind]. by rewrite set_ext_set_ext, Eu.
Qed.

(** [kill] with the table unlocked always returns, with the locks as they
    were.  If an entry has the pid, it returns 0, that entry alone is marked
    killed and made runnable if it was sleeping; otherwise it returns -1 and
    nothing changes. *)
Theorem kill_spec target st :
  holding ptable_lock (kext st) = false ->
  exists r st', kill target st = Done (r, st') /\ quiet (kext st) (kext st') /\
    (r = 0 /\ (exists i p, ptable st !! i = Some p /\ p.(pid) = target /\
       ptable st' = <[i := set_killed 1 (if decide (p.(state) = SLEEPING)
                                          then set_state RUNNABLE p else p)]> (ptable st)) \/
     r = -1 /\ (forall i p, ptable st !! i = Some p -> p.(pid) <> target) /\ ptable st' = ptable st).
Proof.
  intros Hh. unfold kill.
  destruct (acquire_total ptable_lock st Hh) as (e1 & -> & Hh1 & Hc1 & Ho1 & _). cbn [obind].
  change (ptable (set_ext e1 st)) with (ptable st).
  destruct (list_find _ _) as [[i p]|] eqn:Hf.
  - apply list_find_Some in Hf as (Hp & Hpid & _). cbv zeta.
    set (q := set_killed 1 (if decide (p.(state) = SLEEPING) then set_state RUNNABLE p else p)).
    match goal with |- context [with_ext_o (release _) ?s] =>
      assert (Es : s = set_ext e1 (set_ptable (<[i := q]> (ptable st)) st)) end.
    { unfold q. destruct (decide (state p = SLEEPING));
        rewrite ?upd_upd, upd_set_ext, (upd_insert _ _ _ _ Hp); reflexivity. }
    rewrite Es. clear Es. set (s := set_ext e1 _).
    destruct (release_total ptable_lock s (kext st)) as (e2 & -> & Hq); [done..|].
    exists 0. eexists. split_and!; [reflexivity|exact Hq|]. left. split; [done|].
    exists i, p. done.
  - apply list_find_None in Hf. rewrite Forall_lookup in Hf.
    destruct (release_total ptable_lock (set_ext e1 st) (kext st)) as (e2 & -> & Hq); [done..|].
    exists (-1). eexists. split_and!; [reflexivity|exact Hq|]. right. done.
Qed.

Lemma list_find_pid t np i p :
  table_ok t np -> t !! i = Some p -> p.(state) <> UNUSED ->
  list_find (fun q => q.(pid) = p.(pid)) t = Some (i, p).
Proof.
  intros Hok Hp Hs. apply list_find_Some. split_and!; [done..|].
  intros j q Hq Hlt E. destruct (tok_used _ _ Hok _ _ Hp Hs).
  assert (j = i); [|lia]. eapply (tok_nodup _ _ Hok); [done..|lia|done].
Qed.

Lemma settickets_total n cur cp st :
  kinv st -> on_cpu cur st -> holding ptable_lock (kext st) = false ->
  ptable st !! cur = Some cp -> cp.(state) = RUNNING ->
  exists st', settickets n st = Done (0, st') /\ quiet (kext st) (kext st') /\
    ptable st' = <[cur := set_tickets n cp]> (ptable st).
Proof.
  intros (Hok & _) Hc Hh Hcp Hrun. unfold settickets.
  destruct (acquire_total ptable_lock st Hh) as (e1 & -> & Hh1 & Hc1 & Ho1 & _). cbn [obind].
  destruct (curproc_total cur (set_ext e1 st)) as (e2 & -> & Hq2 & _).
  { by eapply (on_cpu_frame _ st). }
  rewrite set_ext_set_ext. cbn [obind]. unfold entry.
  change (ptable (set_ext e2 st)) with (ptable st). rewrite Hcp. cbn [deref obind].
  rewrite (list_find_pid _ _ _ _ Hok Hcp) by (by rewrite Hrun). cbv zeta.
  rewrite upd_set_ext, (upd_insert _ _ _ _ Hcp). set (s := set_ext e2 _).
  destruct (release_total ptable_lock s (kext st)) as (e3 & -> & Hq).
  { done. } { unfold s; cbn; by rewrite (proj2 Hq2). } { unfold s; cbn. by rewrite (proj1 Hq2). }
  { intros l Hl. unfold s; cbn. rewrite (proj2 Hq2). auto. }
  eexists. split_and!; [reflexivity|exact Hq|done].
Qed.

End others.

(** The machine inside a critical section of [tickslock]. *)
Definition ticking : kst uni :=
  set_ext (mkUni [tickslock] 1 512 0 100) two_procs.

Lemma sleep_spec_witness :
  exists s, holding tickslock (kext s) = false /\ ptable s !! 1%nat = Some (set_state SLEEPING (set_chan (CAddr 5) (slot RUNNING 3 5 (Some 0%nat)))) /\
    sleep (CAddr 5) (Some tickslock) ticking =
      (let* s' := sched s in
       let* s3 := with_ext_o (release ptable_lock) (upd 1 (set_chan CNull) s') in with_ext_o (acquire tickslock) s3).
Proof.
  edestruct (sleep_spec 1 (slot RUNNING 3 5 (Some 0%nat)) (CAddr 5) tickslock ticking)
    as (e0 & e2 & e3 & _ & (e1 & _ & _ & _ & _ & Hf) & _ & _ & _ & _ & E); [exists 0%nat, (mkCpu 0 (Some 1%nat)); done|done..|].
  eexists. split; [|split; [|exact E]]; [exact Hf|reflexivity].
Defined.

Lemma kill_spec_witness :
  holding ptable_lock (kext family) = false /\
  exists r st', kill 4 family = Done (r, st') /\ quiet (kext family) (kext st').
Proof.
  split; [reflexivity|]. destruct (kill_spec 4 family) as (r & st' & H & Hq & _); [reflexivity|].
  exists r, st'. split; [exact H | exact Hq].
Defined.

(** ** The scheduler *)

(** The tickets an entry takes part with, and those of the entries before
    [i]. *)
Definition stake (p : proc) : Z := if decide (p.(state) = RUNNABLE) then p.(tickets) else 0.

Definition stakes (t : list proc) (i : nat) : Z := foldr (fun p acc => stake p + acc) 0 (take i t).

Lemma stakes_0 t : stakes t 0 = 0.
Proof. done. Qed.

Lemma foldr_stake_app l1 l2 :
  foldr (fun p acc => stake p + acc) 0 (l1 ++ l2)
  = foldr (fun p acc => stake p + acc) 0 l1 + foldr (fun p acc => stake p + acc) 0 l2.
Proof. induction l1 as [|p l1 IH]; cbn; [done|]. rewrite IH. lia. Qed.

Lemma stakes_S t i p : t !! i = Some p -> stakes t (S i) = stakes t i + stake p.
Proof.
  intros H. unfold stakes. rewrite (take_S_r _ _ _ H), foldr_stake_app. cbn. lia.
Qed.

(** Every runnable entry has a ticket and the tickets fit in an [int]. *)
Definition tickets_ok (t : list proc) : Prop :=
  Forall (fun p => p.(state) = RUNNABLE -> 1 <= p.(tickets)) t /\ stakes t (length t) <= INT_MAX.

Lemma stake_nonneg t p i : tickets_ok t -> t !! i = Some p -> 0 <= stake p.
Proof.
  intros [H _] Hi. rewrite Forall_lookup in H. specialize (H _ _ Hi). unfold stake.
  case_decide; [|done]. specialize (H ltac:(done)). lia.
Qed.

Lemma stakes_mono t i j : tickets_ok t -> (i <= j <= length t)%nat -> stakes t i <= stakes t j.
Proof.
  intros Hok [Hij Hj]. induction j as [|j IH]; [by replace i with 0%nat by lia|].
  destruct (decide (i = S j)) as [->|]; [done|].
  destruct (lookup_lt_is_Some_2 t j) as [p Hp]; [lia|].
  rewrite (stakes_S _ _ _ Hp). pose proof (stake_nonneg _ _ _ Hok Hp). specialize (IH ltac:(lia) ltac:(lia)). lia.
Qed.

Lemma stakes_range t i : tickets_ok t -> (i <= length t)%nat -> 0 <= stakes t i <= INT_MAX.
Proof.
  intros Hok Hi. pose proof (stakes_mono t 0 i Hok). pose proof (stakes_mono t i (length t) Hok).
  rewrite stakes_0 in *. destruct Hok. lia.
Qed.

(** The winning ticket belongs to one entry. *)
Lemma stakes_find t w :
  0 <= w < stakes t (length t) ->
  exists i p, t !! i = Some p /\ stakes t i <= w < stakes t (S i).
Proof.
  intros [H0 Hw]. assert (Hn : forall n, (n <= length t)%nat -> w < stakes t n ->
    exists i p, t !! i = Some p /\ stakes t i <= w < stakes t (S i)); [|eauto].
  induction n as [|n IH]; intros Hn Hlt; [rewrite stakes_0 in Hlt; lia|].
  destruct (decide (w < stakes t n)); [apply IH; [lia|done]|].
  destruct (lookup_lt_is_Some_2 t n) as [p Hp]; [lia|]. exists n, p. split; [done|lia].
Qed.

Section scheduler.
Context {ext : Type} `{!KernelEnv ext} `{!KernelServices ext}.
Implicit Type st : kst ext.

Lemma total_tickets_stakes st :
  tickets_ok (ptable st) -> total_tickets st = stakes (ptable st) (length (ptable st)).
Proof.
  intros Hok. unfold total_tickets. unfold stakes at 1. rewrite firstn_all.
  assert (H : forall l1 l2, ptable st = l1 ++ l2 ->
    fold_left (fun acc p => if decide (p.(state) = RUNNABLE) then s32 (acc + p.(tickets)) else acc)
      l2 (stakes (ptable st) (length l1))
    = stakes (ptable st) (length l1) + foldr (fun p acc => stake p + acc) 0 l2).
  { intros l1 l2; revert l1; induction l2 as [|p l2 IH]; intros l1 E; cbn; [lia|].
    assert (Hp : ptable st !! length l1 = Some p) by (rewrite E; by apply list_lookup_middle).
    specialize (IH (l1 ++ [p])). rewrite length_app in IH. cbn in IH.
    rewrite Nat.add_1_r, (stakes_S _ _ _ Hp) in IH.
    assert (Hr := stakes_range (ptable st) (S (length l1)) Hok ltac:(rewrite E, length_app; cbn; lia)).
    rewrite (stakes_S _ _ _ Hp) in Hr. unfold stake, INT_MAX in *.
    destruct (decide (state p = RUNNABLE)).
    - rewrite s32_small by (pose proof (stakes_range (ptable st) (length l1) Hok ltac:(rewrite E, length_app; lia)); lia).
      rewrite IH by (rewrite E, <- app_assoc; done). lia.
    - rewrite Z.add_0_r in IH. rewrite IH by (rewrite E, <- app_assoc; done). lia. }
  specialize (H [] (ptable st) eq_refl). rewrite stakes_0 in H. cbn [length] in H. rewrite H. lia.
Qed.

(** The loop skips the entries whose cumulated tickets do not exceed the
    winner. *)
Lemma sched_scan_skip m a c w st rest :
  tickets_ok (ptable st) -> (a + m <= length (ptable st))%nat ->
  stakes (ptable st) (a + m) <= w ->
  sched_scan (seq a m ++ rest) c w (stakes (ptable st) a) st
  = sched_scan rest c w (stakes (ptable st) (a + m)) st.
Proof.
  intros Hok. revert a; induction m as [|m IH]; intros a Ha Hw; [by rewrite Nat.add_0_r|].
  cbn [seq app sched_scan]. destruct (lookup_lt_is_Some_2 (ptable st) a) as [p Hp]; [lia|].
  unfold entry. rewrite Hp. cbn [deref obind].
  assert (Hm := stakes_mono (ptable st) (S a) (a + S m) Hok ltac:(lia)).
  assert (Hr := stakes_range (ptable st) (S a) Hok ltac:(lia)).
  assert (Hs := stakes_S _ _ _ Hp). unfold INT_MAX in Hr.
  replace (a + S m)%nat with (S a + m)%nat in * by lia.
  specialize (IH (S a) ltac:(lia) Hw). rewrite Hs in IH, Hr, Hm. unfold stake in *.
  destruct (decide (state p = RUNNABLE)) as [D|D].
  - rewrite decide_False by (by intros ?). rewrite s32_small by lia.
    rewrite (proj2 (Z.leb_le _ _)) by lia. exact IH.
  - rewrite decide_True by done. rewrite Z.add_0_r in IH. exact IH.
Qed.

(** The scan up to and with the winner. *)
Lemma scan_winner c w st :
  tickets_ok (ptable st) -> length (ptable st) = NPROC ->
  total_tickets st = stakes (ptable st) NPROC /\
  (0 <= w < total_tickets st ->
     exists i p, ptable st !! i = Some p /\ p.(state) = RUNNABLE /\
       stakes (ptable st) i <= w < stakes (ptable st) i + p.(tickets) /\
       (forall j q, ptable st !! j = Some q -> q.(state) = RUNNABLE ->
          stakes (ptable st) j <= w < stakes (ptable st) j + q.(tickets) -> j = i) /\
       sched_scan (seq 0 NPROC) c w 0 st =
         (let* st' := run_proc c i st in
          sched_scan (seq (S i) (NPROC - S i)) c w (stakes (ptable st) (S i)) st')) /\
  (total_tickets st <= w -> sched_scan (seq 0 NPROC) c w 0 st = Done st).
Proof.
  intros Hok Hlen. rewrite (total_tickets_stakes st Hok), Hlen. split; [done|]. split.
  - intros Hw. destruct (stakes_find (ptable st) w) as (i & p & Hp & Hi); [by rewrite Hlen|].
    assert (Hlt := lookup_lt_Some _ _ _ Hp). rewrite (stakes_S _ _ _ Hp) in Hi. unfold stake in Hi.
    destruct (decide (state p = RUNNABLE)) as [D|D]; [|lia].
    exists i, p. split_and!; [done|done|lia|lia| |].
    + intros j q Hq Hs Hj. assert (Hjl := lookup_lt_Some _ _ _ Hq).
      assert (Ej := stakes_S _ _ _ Hq). assert (Ei := stakes_S _ _ _ Hp). unfold stake in Ej, Ei.
      rewrite decide_True in Ej by done. rewrite decide_True in Ei by done.
      destruct (lt_eq_lt_dec j i) as [[L|E]|L]; [|done|].
      * pose proof (stakes_mono (ptable st) (S j) i Hok ltac:(lia)). lia.
      * pose proof (stakes_mono (ptable st) (S i) j Hok ltac:(lia)). lia.
    + rewrite Hlen in Hlt.
      replace (seq 0 NPROC) with (seq 0 i ++ seq i (NPROC - i))
        by (etransitivity; [symmetry; exact (seq_app i (NPROC - i) 0) | f_equal; lia]).
      change 0 with (stakes (ptable st) 0) at 1. rewrite (sched_scan_skip i 0) by (first [exact Hok | cbn [Nat.add]; lia]).
      replace (NPROC - i)%nat with (S (NPROC - S i)) by lia. cbn [seq sched_scan Nat.add].
      unfold entry. rewrite Hp. cbn [deref obind]. rewrite decide_False by (by intros ?).
      assert (Hr := stakes_range (ptable st) (S i) Hok ltac:(lia)).
      rewrite (stakes_S _ _ _ Hp) in Hr |- *. unfold stake in *.
      rewrite !(decide_True (P := state p = RUNNABLE)) in * by done.
      unfold INT_MAX in Hr. rewrite s32_small by lia. rewrite (proj2 (Z.leb_gt _ _)) by lia. done.
  - intros Hw. change 0 with (stakes (ptable st) 0) at 1.
    replace (seq 0 NPROC) with (seq 0 NPROC ++ []) by apply app_nil_r.
    rewrite (sched_scan_skip NPROC 0) by (first [exact Hok | cbn [Nat.add]; lia]). done.
Qed.

(** C4: given a table of [NPROC] entries whose runnable entries hold at least
    one ticket each, with a sum that fits in an [int], the scheduling loop
    first runs the one entry whose interval of cumulated tickets contains the
    winning number, whatever the number is below the sum of the tickets; a
    number equal to or above the sum runs nobody. *)
Theorem scheduler_winner c w st :
  tickets_ok (ptable st) -> length (ptable st) = NPROC ->
  total_tickets st = stakes (ptable st) NPROC /\
  (0 <= w < total_tickets st ->
     exists i p, ptable st !! i = Some p /\ p.(state) = RUNNABLE /\
       stakes (ptable st) i <= w < stakes (ptable st) i + p.(tickets) /\
       (forall j q, ptable st !! j = Some q -> q.(state) = RUNNABLE ->
          stakes (ptable st) j <= w < stakes (ptable st) j + q.(tickets) -> j = i) /\
       sched_scan (seq 0 NPROC) c w 0 st =
         (let* st' := run_proc c i st in
          sched_scan (seq (S i) (NPROC - S i)) c w (stakes (ptable st) (S i)) st')) /\
  (total_tickets st <= w -> sched_scan (seq 0 NPROC) c w 0 st = Done st).
Proof. apply scan_winner. Qed.

End scheduler.

(** Three runnable processes with 2, 1 and 1 tickets. *)
Definition three : kst uni :=
  machine [slot RUNNABLE 1 2 (Some 0%nat); slot RUNNABLE 2 1 (Some 0%nat); slot RUNNABLE 3 1 (Some 0%nat)]
          None 1.

Lemma three_tickets : tickets_ok (ptable three).
Proof.
  split; [|by vm_compute].
  apply Forall_forall. intros p Hp. unfold three, machine in Hp. cbn [ptable] in Hp.
  apply elem_of_app in Hp as [Hp|Hp].
  - rewrite !elem_of_cons in Hp. destruct Hp as [->|[->|[->|Hp]]]; [done..|]. by apply elem_of_nil in Hp.
  - apply elem_of_replicate in Hp as [-> _]. done.
Qed.

Lemma scheduler_winner_witness :
  total_tickets three = 4 /\
  exists i p, ptable three !! i = Some p /\ p.(state) = RUNNABLE /\
    stakes (ptable three) i <= 2 < stakes (ptable three) i + p.(tickets).
Proof.
  destruct (scheduler_winner 0 2 three three_tickets eq_refl) as (_ & H & _).
  split; [vm_compute; reflexivity|].
  destruct H as (i & p & H1 & H2 & H3 & _); [vm_compute; split; congruence|].
  exists i, p. split; [exact H1|]. split; [exact H2 | exact H3].
Defined.

Section defects.
Context {ext : Type} `{!KernelEnv ext} `{!KernelServices ext} `{!KernelSpec ext}.
Implicit Type st : kst ext.

(** The entries of [ps] that are runnable when their turn comes, all of them run. *)
Fixpoint run_rest (ps : list nat) (c : nat) st : outcome string (kst ext) :=
  match ps with
  | [] => Done st
  | p :: ps =>
      let* pr := entry p st in
      if decide (pr.(state) <> RUNNABLE) then run_rest ps c st
      else let* st := run_proc c p st in run_rest ps c st
  end.

(** Behind the winner the counter stays above the winning number. *)
Lemma scan_rest (P : kst ext -> Prop) (T : Z) c w :
  (forall s p s', P s -> run_proc c p s = Done s' -> P s') ->
  (forall s i p, P s -> ptable s !! i = Some p -> p.(state) = RUNNABLE -> 0 <= p.(tickets) <= T) ->
  forall ps counter st, P st -> 0 <= w < counter -> 0 <= T -> counter + T * Z.of_nat (length ps) <= INT_MAX ->
  sched_scan ps c w counter st = run_rest ps c st.
Proof.
  intros Hrun Ht. induction ps as [|p ps IH]; intros counter st HP Hw HT Hm; [done|]. cbn [sched_scan run_rest length] in *.
  unfold entry. destruct (ptable st !! p) as [pr|] eqn:Ep; [|done]. cbn [deref obind].
  destruct (decide (state pr <> RUNNABLE)) as [Hs|Hs]; [apply IH; (done || lia)|].
  assert (Hr : state pr = RUNNABLE) by (destruct (decide (state pr = RUNNABLE)); [done|by destruct Hs]).
  pose proof (Ht st p pr HP Ep Hr) as Htk. unfold INT_MAX in *. rewrite s32_small by nia. rewrite (proj2 (Z.leb_gt _ _)) by lia.
  destruct (run_proc c p st) as [st'|e|e] eqn:E; [|done..]. cbn [obind]. apply IH; [by eapply Hrun|lia|done|nia].
Qed.

Lemma stakes_le T (t : list proc) n : (forall i p, t !! i = Some p -> p.(state) = RUNNABLE -> 0 <= p.(tickets) <= T) -> 0 <= T ->
  (n <= length t)%nat -> stakes t n <= T * Z.of_nat n.
Proof.
  intros Ht HT. induction n as [|n IH]; intros Hn; [change (stakes t 0) with 0; lia|]. destruct (lookup_lt_is_Some_2 t n) as [p Hp]; [lia|].
  rewrite (stakes_S _ _ _ Hp). unfold stake. specialize (IH ltac:(lia)). destruct (decide (state p = RUNNABLE)) as [E|]; [|nia].
  pose proof (Ht _ _ Hp E). nia.
Qed.


End defects.


(** One round on a machine with three runnable processes of 2, 1 and 1 tickets, whose
    winner is the first: all three run. *)
Example round_runs_all :
  take 3 (ticks <$> ptable three) = [0; 0; 0] /\ stakes (ptable three) 1 = 2 /\
  match sched_scan (seq 0 NPROC) 0 0 0 three with Done st' => take 3 (ticks <$> ptable st') = [1; 1; 1] | _ => False end.
Proof. vm_compute. split_and!; reflexivity. Qed.
