(* ===== verification/Syscall.v ===== *)
(** * System calls

    [projects/scheduling-xv6-lottery/src/syscall.c] and [sysproc.c]: fetching
    and checking the arguments a user program left on its stack, the handlers
    of the process system calls and the dispatcher.  User memory is read
    through the class [UserMem]; the handlers of the file system calls, which
    are not in the repository, are the class [FileSyscalls]. *)

From Stdlib Require Import ZArith Lia String.
From stdpp Require Import base tactics list list_numbers numbers sets.
From S2P Require Import Prelude Lcg Lottery Proc ProcInv ProcSim ProcTheory.

Local Open Scope Z_scope.
Local Open Scope ostep_scope.

(** The byte at a user address, through the page table of a process. *)
Class UserMem (ext : Type) := ubyte : Z -> Z -> ext -> Z.

(** Handlers of [sysfile.c], by system call number. *)
Class FileSyscalls (ext : Type) := file_syscall : Z -> kst ext -> outcome string (Z * kst ext).

Section syscall.
Context {ext : Type} `{!KernelEnv ext} `{!KernelServices ext} `{!UserMem ext} `{!FileSyscalls ext}.
Implicit Type st : kst ext.

(** ** Arguments *)

(** [*(int* )addr] in the address space of a process. *)
Definition load_int (pd addr : Z) (e : ext) : Z :=
  s32 (ubyte pd addr e + 256 * ubyte pd (addr + 1) e + 65536 * ubyte pd (addr + 2) e
       + 16777216 * ubyte pd (addr + 3) e).

(** A result of -1 is [None]; otherwise the value stored through the pointer. *)
Definition fetchint (addr : Z) st : outcome string (option Z * kst ext) :=
  let* '(p, st) := curproc st in
  let* cp := entry p st in
  if (cp.(sz) <=? addr) || (cp.(sz) <? u32 (addr + 4)) then Done (None, st)
  else Done (Some (load_int cp.(pgdir) addr st.(kext)), st).

(** [for(s = *pp; s < ep; s++)]: the offset of the first zero byte among the
    [n] bytes from [addr] on. *)
Fixpoint scan_nul (n : nat) (pd addr : Z) (e : ext) (off : Z) : option Z :=
  match n with
  | O => None
  | S n => if ubyte pd (addr + off) e =? 0 then Some off else scan_nul n pd addr e (off + 1)
  end.

(** The string pointer and its length. *)
Definition fetchstr (addr : Z) st : outcome string (option (Z * Z) * kst ext) :=
  let* '(p, st) := curproc st in
  let* cp := entry p st in
  if cp.(sz) <=? addr then Done (None, st)
  else match scan_nul (Z.to_nat (cp.(sz) - addr)) cp.(pgdir) addr st.(kext) 0 with
       | Some n => Done (Some (addr, n), st)
       | None => Done (None, st)
       end.

Definition argint (n : Z) st : outcome string (option Z * kst ext) :=
  let* '(p, st) := curproc st in
  let* cp := entry p st in
  fetchint (u32 (cp.(tf).(tf_esp) + 4 + 4 * n)) st.

Definition argptr (n size : Z) st : outcome string (option Z * kst ext) :=
  let* '(p, st) := curproc st in
  let* '(oi, st) := argint n st in
  match oi with
  | None => Done (None, st)
  | Some i =>
      let* cp := entry p st in
      if (size <? 0) || (cp.(sz) <=? u32 i) || (cp.(sz) <? u32 (u32 i + size))
      then Done (None, st) else Done (Some (u32 i), st)
  end.

Definition argstr (n : Z) st : outcome string (option (Z * Z) * kst ext) :=
  let* '(oi, st) := argint n st in
  match oi with
  | None => Done (None, st)
  | Some addr => fetchstr (u32 addr) st
  end.

(** ** Handlers *)

(** A handler that loops has fuel; [None] is out of fuel. *)
Definition handler : Type := kst ext -> option (outcome string (Z * kst ext)).

Definition sys_fork : handler := fun st => Some (fork st).

Definition sys_exit : handler := fun st => Some (let* st := exit st in Done (0, st)).

Definition sys_wait (fuel : nat) : handler := wait fuel.

Definition sys_kill : handler := fun st => Some (
  let* '(oi, st) := argint 0 st in
  match oi with None => Done (-1, st) | Some pid => kill pid st end).

Definition sys_getpid : handler := fun st => Some (
  let* '(p, st) := curproc st in
  let* cp := entry p st in Done (cp.(pid), st)).

Definition sys_sbrk : handler := fun st => Some (
  let* '(oi, st) := argint 0 st in
  match oi with
  | None => Done (-1, st)
  | Some n =>
      let* '(p, st) := curproc st in
      let* cp := entry p st in
      let* '(r, st) := growproc n st in
      if r <? 0 then Done (-1, st) else Done (s32 cp.(sz), st)
  end).

(** The address of the global [ticks], the channel of [sys_sleep]. *)
Definition ticks_chan : channel := CAddr 0.

(** [while(ticks - ticks0 < n)]: the comparison is between unsigned numbers. *)
Fixpoint sleep_loop (fuel : nat) (ticks0 n : Z) st : option (outcome string (Z * kst ext)) :=
  if negb (u32 (st.(gticks) - ticks0) <? u32 n) then
    Some (let* st := with_ext_o (release tickslock) st in Done (0, st))
  else
    match fuel with
    | O => None
    | S fuel =>
        match (let* '(p, st) := curproc st in
               let* cp := entry p st in
               if negb (cp.(killed) =? 0)
               then let* st := with_ext_o (release tickslock) st in Done (true, st)
               else let* st := sleep ticks_chan (Some tickslock) st in Done (false, st)) with
        | Done (true, st) => Some (Done (-1, st))
        | Done (false, st) => sleep_loop fuel ticks0 n st
        | Fail e => Some (Fail e)
        | Crash w => Some (Crash w)
        end
    end.

Definition sys_sleep (fuel : nat) : handler := fun st =>
  match argint 0 st with
  | Done (None, st) => Some (Done (-1, st))
  | Done (Some n, st) =>
      match with_ext_o (acquire tickslock) st with
      | Done st => sleep_loop fuel st.(gticks) n st
      | Fail e => Some (Fail e)
      | Crash w => Some (Crash w)
      end
  | Fail e => Some (Fail e)
  | Crash w => Some (Crash w)
  end.

Definition sys_uptime : handler := fun st => Some (
  let* st := with_ext_o (acquire tickslock) st in
  let xticks := st.(gticks) in
  let* st := with_ext_o (release tickslock) st in Done (s32 xticks, st)).

Definition sys_settickets : handler := fun st => Some (
  let* '(oi, st) := argint 0 st in
  match oi with
  | None => Done (-1, st)
  | Some n => if n <? 1 then Done (-1, st) else settickets n st
  end).

(** [sizeof(struct pstat)]: four arrays of [NPROC] integers. *)
Definition pstat_size : Z := 4 * 4 * Z.of_nat NPROC.

(** The handler of [getpinfo]; the record is what it leaves in user memory. *)
Definition sys_getpinfo st : outcome string (option (Z * pstat) * Z * kst ext) :=
  let* '(op, st) := argptr 0 pstat_size st in
  match op with
  | None => Done (None, -1, st)
  | Some a => let* '(ps, r, st) := getpinfo st in Done (Some (a, ps), r, st)
  end.

(** ** Dispatch *)

(** The table of handlers: [None] is a null entry. *)
Definition syscalls (fuel : nat) (num : Z) : option handler :=
  if num =? 1 then Some sys_fork else if num =? 2 then Some sys_exit
  else if num =? 3 then Some (sys_wait fuel) else if num =? 6 then Some sys_kill
  else if num =? 11 then Some sys_getpid else if num =? 12 then Some sys_sbrk
  else if num =? 13 then Some (sys_sleep fuel) else if num =? 14 then Some sys_uptime
  else if num =? 22 then Some sys_settickets
  else if num =? 23 then Some (fun st => Some (let* '(_, r, st) := sys_getpinfo st in Done (r, st)))
  else if (1 <=? num) && (num <=? 23) then Some (fun st => Some (file_syscall num st))
  else None.

(** [curproc->tf->eax = r]. *)
Definition set_eax (r : Z) (p : proc) : proc :=
  let t := p.(tf) in
  set_tf (mkTf r t.(tf_esp) t.(tf_eip) t.(tf_eflags) t.(tf_cs) t.(tf_ds) t.(tf_es) t.(tf_ss)) p.

Definition syscall (fuel : nat) st : option (outcome string (kst ext)) :=
  match (let* '(p, st) := curproc st in let* cp := entry p st in Done (p, cp, st)) with
  | Done (p, cp, st) =>
      let num := s32 cp.(tf).(tf_eax) in
      match (if (0 <? num) && (num <? 24) then syscalls fuel num else None) with
      | Some h =>
          match h st with
          | Some r => Some (let* '(r, st) := r in Done (upd p (set_eax (u32 r)) st))
          | None => None
          end
      | None => Some (Done (upd p (set_eax (u32 (-1))) st))
      end
  | Fail e => Some (Fail e)
  | Crash w => Some (Crash w)
  end.

(** ** The program [ps] *)

(** The loop of [ps.c]: pid, tickets and ticks of the entries in use. *)
Definition ps_lines (p : pstat) : list (Z * Z * Z) :=
  omap (fun i =>
    if default 0 (p.(inuse) !! i) =? 0 then None
    else Some (default 0 (p.(ppid) !! i), default 0 (p.(ptickets) !! i), default 0 (p.(pticks) !! i))) (seq 0 NPROC).

(** [main] of [ps.c], up to [exit]: the message, or the lines. *)
Definition ps_main st : outcome string ((string + list (Z * Z * Z)) * kst ext) :=
  let* '(p, r, st) := sys_getpinfo st in
  match p with
  | Some (_, p) => Done ((if r <? 0 then inl "getpinfo() error."%string else inr (ps_lines p)), st)
  | None => Done (inl "getpinfo() error."%string, st)
  end.

End syscall.

(** ** Correctness *)

(** Looking up the current process does not touch user memory. *)
Class UserMemSpec (ext : Type) `{!KernelEnv ext} `{!UserMem ext} : Prop :=
  ubyte_popcli : forall pd a e e', popcli (pushcli e) = Done e' -> ubyte pd a e' = ubyte pd a e.

Section args.
Context {ext : Type} `{!KernelEnv ext} `{!KernelServices ext} `{!UserMem ext} `{!FileSyscalls ext}.
Context `{!KernelSpec ext} `{!UserMemSpec ext}.
Implicit Type st : kst ext.

(** User memory as it was: what the argument functions keep. *)
Definition same_user (e e' : ext) : Prop :=
  quiet e e' /\ forall pd a, ubyte pd a e' = ubyte pd a e.

Lemma same_user_refl (e : ext) : same_user e e.
Proof. split; [apply quiet_refl|done]. Qed.

Lemma same_user_trans (e1 e2 e3 : ext) : same_user e1 e2 -> same_user e2 e3 -> same_user e1 e3.
Proof. intros [H1 H2] [H3 H4]. split; [by eapply quiet_trans|]. intros. by rewrite H4. Qed.

Lemma curproc_user cur st :
  on_cpu cur st -> exists e, curproc st = Done (cur, set_ext e st) /\ same_user (kext st) e.
Proof.
  intros Hc. destruct (curproc_total cur st Hc) as (e & He & Hq & _). exists e. split; [done|].
  split; [done|]. intros pd a. unfold curproc, myproc in He.
  apply obind_Done in He as ([op st2] & H & H2). apply obind_Done in H2 as (q & _ & H2).
  apply Done_inj, (f_equal (fun x => kext (snd x))) in H2. cbn in H2.
  apply obind_Done in H as (c & _ & H). apply obind_Done in H as (cp & _ & H).
  apply obind_Done in H as (st3 & H & [= _ E2]).
  apply with_ext_o_Done in H as (e3 & H3 & E). rewrite <- E2, E in H2. cbn in H2. subst e3.
  by apply ubyte_popcli.
Qed.

Lemma on_cpu_user cur st e : on_cpu cur st -> same_user (kext st) e -> on_cpu cur (set_ext e st).
Proof. intros Hc [Hq _]. eapply on_cpu_frame; [..|done]; [done|done|apply Hq]. Qed.

Lemma load_int_user pd a (e e' : ext) : same_user e e' -> load_int pd a e' = load_int pd a e.
Proof. intros [_ H]. unfold load_int. by rewrite !H. Qed.

(** A process may use the addresses below its size, which stays below the
    kernel's half of the address space. *)
Definition size_ok (p : proc) : Prop := 0 <= p.(sz) <= 2147483648.

Lemma fetchint_eq cur cp st addr :
  on_cpu cur st -> ptable st !! cur = Some cp -> size_ok cp -> 0 <= addr < 4294967296 ->
  exists e, same_user (kext st) e /\
    fetchint addr st =
      Done (if addr + 4 <=? cp.(sz) then Some (load_int cp.(pgdir) addr (kext st)) else None, set_ext e st).
Proof.
  intros Hc Hcp Hs Ha. unfold fetchint.
  destruct (curproc_user _ _ Hc) as (e & -> & Hu). exists e. split; [done|]. cbn [obind].
  unfold entry. change (ptable (set_ext e st)) with (ptable st). rewrite Hcp. cbn [deref obind].
  cbn [kext set_ext]. rewrite (load_int_user _ _ _ _ Hu). unfold size_ok in Hs.
  destruct (Z.leb_spec (sz cp) addr).
  { rewrite (proj2 (Z.leb_gt _ _)) by lia. done. }
  rewrite u32_small by lia. cbn [orb].
  destruct (Z.ltb_spec (sz cp) (addr + 4)), (Z.leb_spec (addr + 4) (sz cp)); done || lia.
Qed.

Lemma argint_eq n cur cp st :
  on_cpu cur st -> ptable st !! cur = Some cp -> size_ok cp ->
  exists e, same_user (kext st) e /\
    let a := u32 (cp.(tf).(tf_esp) + 4 + 4 * n) in
    argint n st = Done (if a + 4 <=? cp.(sz) then Some (load_int cp.(pgdir) a (kext st)) else None, set_ext e st).
Proof.
  intros Hc Hcp Hs. unfold argint.
  destruct (curproc_user _ _ Hc) as (e & -> & Hu). cbn [obind].
  unfold entry. change (ptable (set_ext e st)) with (ptable st). rewrite Hcp. cbn [deref obind].
  destruct (fetchint_eq cur cp (set_ext e st) (u32 (cp.(tf).(tf_esp) + 4 + 4 * n))) as (e1 & Hu1 & ->);
    [by apply on_cpu_user|done|done|apply u32_range|].
  exists e1. split; [by eapply same_user_trans|]. cbv zeta. rewrite set_ext_set_ext. cbn [kext set_ext].
  by rewrite (load_int_user _ _ _ _ Hu).
Qed.

(** What [argptr] returns, in every case. *)
Lemma argptr_exact n size cur cp st :
  on_cpu cur st -> ptable st !! cur = Some cp -> size_ok cp -> -2147483648 <= size < 2147483648 ->
  let a := u32 (cp.(tf).(tf_esp) + 4 + 4 * n) in
  let ptr := u32 (load_int cp.(pgdir) a (kext st)) in
  exists r e, argptr n size st = Done (r, set_ext e st) /\ same_user (kext st) e /\
    (r = None \/ r = Some ptr) /\
    (r = Some ptr <-> a + 4 <= cp.(sz) /\ 0 <= size /\ ptr < cp.(sz) /\ ptr + size <= cp.(sz)).
Proof.
  intros Hc Hcp Hs Hsize a ptr. unfold argptr.
  destruct (curproc_user _ _ Hc) as (e & -> & Hu). cbn [obind].
  destruct (argint_eq n cur cp (set_ext e st)) as (e1 & Hu1 & ->); [by apply on_cpu_user|done|done|].
  cbv zeta. fold a. rewrite set_ext_set_ext. cbn [obind kext set_ext].
  rewrite (load_int_user _ _ _ _ Hu).
  assert (Hu2 := same_user_trans _ _ _ Hu Hu1).
  assert (Hptr := u32_range (load_int (pgdir cp) a (kext st))). fold ptr in Hptr.
  unfold size_ok in Hs.
  destruct (Z.leb_spec (a + 4) (sz cp)).
  2: { exists None, e1. split_and!; [done|done|by left|]. split; [done|lia]. }
  unfold entry. change (ptable (set_ext e1 st)) with (ptable st). rewrite Hcp. cbn [deref obind]. fold ptr.
  destruct (Z.ltb_spec size 0); cbn [orb].
  { exists None, e1. split_and!; [done|done|by left|]. split; [done|lia]. }
  destruct (Z.leb_spec (sz cp) ptr); cbn [orb].
  { exists None, e1. split_and!; [done|done|by left|]. split; [done|lia]. }
  rewrite u32_small by lia. destruct (Z.ltb_spec (sz cp) (ptr + size)).
  { exists None, e1. split_and!; [done|done|by left|]. split; [done|lia]. }
  exists (Some ptr), e1. split_and!; [done|done|by right|]. split; [lia|done].
Qed.

(** C9: [argptr(n, pp, size)] succeeds exactly when the argument word lies in
    the caller's memory and the block of [size] bytes it points to does, and
    then yields that pointer: no pointer to kernel memory is ever accepted, no
    valid one refused, and the wrap-around of the unsigned additions cannot be
    exploited. *)
Theorem argptr_spec n size cur cp st :
  on_cpu cur st -> ptable st !! cur = Some cp -> size_ok cp -> -2147483648 <= size < 2147483648 ->
  let a := u32 (cp.(tf).(tf_esp) + 4 + 4 * n) in
  let ptr := u32 (load_int cp.(pgdir) a (kext st)) in
  exists r e, argptr n size st = Done (r, set_ext e st) /\ same_user (kext st) e /\
    (r = None \/ r = Some ptr) /\
    (r = Some ptr <-> a + 4 <= cp.(sz) /\ 0 <= size /\ ptr < cp.(sz) /\ ptr + size <= cp.(sz)).
Proof. apply argptr_exact. Qed.

Lemma scan_nul_spec n pd addr (e : ext) off :
  match scan_nul n pd addr e off with
  | Some k => off <= k < off + Z.of_nat n /\ ubyte pd (addr + k) e = 0 /\
              forall i, off <= i < k -> ubyte pd (addr + i) e <> 0
  | None => forall i, off <= i < off + Z.of_nat n -> ubyte pd (addr + i) e <> 0
  end.
Proof.
  revert off; induction n as [|n IH]; intros off; cbn [scan_nul]; [intros i Hi; lia|].
  destruct (ubyte pd (addr + off) e =? 0) eqn:Hz; bool_to_prop.
  - split_and!; [lia|lia|done|]. intros i Hi. lia.
  - specialize (IH (off + 1)). destruct (scan_nul _ _ _ _ _) as [k|].
    + destruct IH as (H1 & H2 & H3). split_and!; [lia|lia|done|].
      intros i Hi. destruct (decide (i = off)) as [->|]; [done|]. apply H3. lia.
    + intros i Hi. destruct (decide (i = off)) as [->|]; [done|]. apply IH. lia.
Qed.

(** [argstr] accepts a string exactly when the argument word and a zero
    byte from the pointer on lie in the caller's memory, and then the length it
    returns is that of the string: the bytes before are nonzero, the byte after
    is the zero, all below the process size. *)
Theorem argstr_spec n cur cp st :
  on_cpu cur st -> ptable st !! cur = Some cp -> size_ok cp ->
  let a := u32 (cp.(tf).(tf_esp) + 4 + 4 * n) in
  let ptr := u32 (load_int cp.(pgdir) a (kext st)) in
  let byte k := ubyte cp.(pgdir) (ptr + k) (kext st) in
  exists r e, argstr n st = Done (r, set_ext e st) /\ same_user (kext st) e /\
    match r with
    | Some (s, len) => a + 4 <= cp.(sz) /\ s = ptr /\ 0 <= len /\ ptr + len < cp.(sz) /\
        byte len = 0 /\ forall k, 0 <= k < len -> byte k <> 0
    | None => cp.(sz) < a + 4 \/ forall k, 0 <= k -> ptr + k < cp.(sz) -> byte k <> 0
    end.
Proof.
  intros Hc Hcp Hs a ptr byte. unfold argstr.
  destruct (argint_eq n cur cp st) as (e1 & Hu1 & ->); [done..|]. cbv zeta. fold a. cbn [obind].
  destruct (Z.leb_spec (a + 4) (sz cp)).
  2: { exists None, e1. split_and!; [done|done|]. left. lia. }
  unfold fetchstr. fold ptr.
  destruct (curproc_user cur (set_ext e1 st)) as (e2 & -> & Hu2); [by apply on_cpu_user|].
  assert (Hu := same_user_trans _ _ _ Hu1 Hu2). cbn [obind].
  unfold entry. rewrite set_ext_set_ext. change (ptable (set_ext e2 st)) with (ptable st).
  rewrite Hcp. cbn [deref obind]. assert (Hptr := u32_range (load_int (pgdir cp) a (kext st))). fold ptr in Hptr.
  destruct (Z.leb_spec (sz cp) ptr).
  { exists None, e2. split_and!; [done|done|]. right. intros k ? ?. lia. }
  cbn [kext set_ext].
  pose proof (scan_nul_spec (Z.to_nat (sz cp - ptr)) (pgdir cp) ptr e2 0) as Hn.
  destruct (scan_nul _ _ _ _ _) as [k|].
  - destruct Hn as (Hk & Hz & Hnz). exists (Some (ptr, k)), e2. unfold byte.
    split_and!; [done|done|lia|done|lia|lia|by rewrite <- (proj2 Hu)|].
    intros i Hi. rewrite <- (proj2 Hu). apply Hnz. lia.
  - exists None, e2. split_and!; [done|done|]. right. intros k H1 H2. unfold byte.
    rewrite <- (proj2 Hu). apply Hn. lia.
Qed.

(** The [settickets] system call refuses an argument outside the caller's
    memory and a number below 1, changing nothing; every other number becomes
    the ticket count of the calling process. *)
Lemma sys_settickets_spec cur cp st :
  kinv st -> on_cpu cur st -> holding ptable_lock (kext st) = false ->
  ptable st !! cur = Some cp -> cp.(state) = RUNNING -> size_ok cp ->
  let a := u32 (cp.(tf).(tf_esp) + 4) in
  let n := load_int cp.(pgdir) a (kext st) in
  exists r st', sys_settickets st = Some (Done (r, st')) /\ quiet (kext st) (kext st') /\
    if (a + 4 <=? cp.(sz)) && (1 <=? n)
    then r = 0 /\ ptable st' = <[cur := set_tickets n cp]> (ptable st)
    else r = -1 /\ ptable st' = ptable st.
Proof.
  intros Hk Hc Hh Hcp Hrun Hs a n. unfold sys_settickets.
  destruct (argint_eq 0 cur cp st) as (e1 & Hu1 & ->); [done..|]. cbv zeta. cbn [obind].
  rewrite Z.mul_0_r, Z.add_0_r. fold a. fold n.
  destruct (a + 4 <=? sz cp); cbn [andb].
  2: { eexists _, _. split; [reflexivity|]. split; [apply Hu1|done]. }
  destruct (Z.ltb_spec n 1), (Z.leb_spec 1 n); try lia.
  { eexists _, _. split; [reflexivity|]. split; [apply Hu1|done]. }
  destruct Hu1 as [Hq _].
  assert (Hgen : forall s, kinv s -> on_cpu cur s -> holding ptable_lock (kext s) = false ->
    ptable s !! cur = Some cp -> exists st', settickets n s = Done (0, st') /\ quiet (kext s) (kext st') /\
      ptable st' = <[cur := set_tickets n cp]> (ptable s)).
  { intros s Hks Hcs Hhs Hps. eapply settickets_total; eauto. }
  destruct (Hgen (set_ext e1 st)) as (st' & -> & Hq' & Ht).
  - by apply kinv_set_ext.
  - eapply on_cpu_frame; [..|done]; [done|done|apply Hq].
  - cbn. by rewrite (proj2 Hq).
  - done.
  - eexists _, _. split; [reflexivity|]. split; [by eapply quiet_trans|done].
Qed.

(** The line of an entry in [ps]. *)
Definition ps_line (p : proc) : option (Z * Z * Z) :=
  if decide (p.(state) = UNUSED) then None else Some (p.(pid), p.(tickets), p.(ticks)).

(** A loop over the positions of a list. *)
Lemma omap_positions {A B} (f : A -> option B) (g : nat -> option B) (l : list A) : forall n,
  (forall i a, l !! i = Some a -> g (n + i)%nat = f a) -> omap g (seq n (length l)) = omap f l.
Proof.
  induction l as [|a l IH]; intros n Hg; [done|]. cbn [length seq omap list_omap].
  rewrite <- (Nat.add_0_r n) at 1. rewrite (Hg 0%nat a eq_refl). rewrite (IH (S n)); [done|].
  intros i b Hi. rewrite <- (Hg (S i) b Hi). f_equal. lia.
Qed.

(** [ps] shows the entries in use, in the order of the table, and changes nothing; or, when its stack
    does not hold an address in its memory, it prints the error. *)
Lemma ps_shows cur cp st :
  on_cpu cur st -> ptable st !! cur = Some cp -> size_ok cp -> length (ptable st) = NPROC ->
  holding ptable_lock (kext st) = false ->
  exists out e, ps_main st = Done (out, set_ext e st) /\
    (out = inl "getpinfo() error."%string \/ out = inr (omap ps_line (ptable st))).
Proof.
  intros Hc Hcp Hs Hl Hh. unfold ps_main, sys_getpinfo.
  destruct (argptr_exact 0 pstat_size cur cp st) as (r & e & -> & Hu & _); [done|done|done|done|].
  assert (He : holding ptable_lock e = false) by (destruct Hu as [[_ Hq] _]; by rewrite Hq).
  cbn [obind]. destruct r as [a|]; [|exists (inl "getpinfo() error."%string), e; split; [done|by left]].
  unfold getpinfo. destruct (acquire_total ptable_lock (set_ext e st)) as (e1 & -> & Hh1 & Hc1 & Ho1 & _); [exact He|].
  cbn [obind]. destruct (release_total ptable_lock (set_ext e1 (set_ext e st)) e) as (e2 & -> & _); [exact He|done|done|done|].
  cbn [obind]. eexists (inr _), e2. split; [reflexivity|]. right. f_equal. unfold ps_lines. rewrite <- Hl.
  apply omap_positions. intros i p Hi. cbn [inuse ppid ptickets pticks Nat.add ptable set_ext]. rewrite !list_lookup_fmap.
  change (ptable (set_ext e1 (set_ext e st))) with (ptable st). rewrite Hi. cbn. unfold ps_line. by destruct (decide _).
Qed.

End args.

(** *** A concrete call *)

(** User memory of the machine: the stack at 100 holds the argument 9, and at
    address 9 there is the string A. *)
#[export] Instance uni_mem : UserMem uni :=
  fun _ a _ => if a =? 104 then 9 else if a =? 9 then 65 else 0.

#[export] Instance uni_mem_spec : UserMemSpec uni.
Proof. done. Qed.

#[export] Instance uni_files : FileSyscalls uni := fun _ st => Done (0, st).

(** A process of one page that calls with [eax] as system call number. *)
Definition caller (eax : Z) : proc :=
  set_sz 4096 (set_tf (mkTf eax 100 0 0 0 0 0 0) (slot RUNNING 3 5 (Some 0%nat))).

Definition calling (eax : Z) : kst uni :=
  machine [slot SLEEPING 1 1 None; caller eax] (Some 1%nat) 1.

Lemma calling_on_cpu eax : on_cpu 1 (calling eax).
Proof. exists 0%nat, (mkCpu 0 (Some 1%nat)). done. Qed.

Lemma calling_kinv : kinv (calling 22).
Proof.
  split; [by apply table_okb_sound|]. split; [done|]. intros ip [= <-].
  eexists. split; reflexivity.
Qed.

Lemma argptr_spec_witness :
  exists r e, argptr 0 16 (calling 22) = Done (r, set_ext e (calling 22)) /\ (r = None \/ r = Some 9).
Proof.
  destruct (argptr_spec 0 16 1 (caller 22) (calling 22) (calling_on_cpu 22) eq_refl)
    as (r & e & H1 & _ & H2 & _); [split; vm_compute; congruence|lia|].
  exists r, e. split; [exact H1|exact H2].
Defined.

Lemma argstr_spec_witness :
  exists r e, argstr 0 (calling 22) = Done (r, set_ext e (calling 22)) /\
    same_user (kext (calling 22)) e.
Proof.
  destruct (argstr_spec 0 1 (caller 22) (calling 22) (calling_on_cpu 22) eq_refl)
    as (r & e & H1 & H2 & _); [split; vm_compute; congruence|].
  exists r, e. split; [exact H1|exact H2].
Defined.

Lemma sys_settickets_spec_witness :
  kinv (calling 22) /\ exists r st', sys_settickets (calling 22) = Some (Done (r, st')) /\
    r = 0 /\ ptable st' = <[1%nat := set_tickets 9 (caller 22)]> (ptable (calling 22)).
Proof.
  split; [exact calling_kinv|].
  destruct (sys_settickets_spec 1 (caller 22) (calling 22) calling_kinv (calling_on_cpu 22))
    as (r & st' & H1 & _ & H2); [reflexivity..|split; vm_compute; congruence|].
  exists r, st'. split; [exact H1|]. exact H2.
Defined.

(** A call of [settickets(9)] through the dispatcher. *)
Example syscall_settickets :
  match syscall 1 (calling 22) with
  | Some (Done st) => (fun p => (tf_eax (tf p), tickets p)) <$> ptable st !! 1%nat = Some (0, 9)
  | _ => False
  end.
Proof. vm_compute. reflexivity. Qed.

(** ** The dispatcher *)

(** C15: a system call number outside 1..23 sets the result register of the
    caller to -1 and changes nothing else of any process; a number in the range
    runs the handler of the table and stores its result. *)
Theorem syscall_dispatch {ext} `{!KernelEnv ext} `{!KernelServices ext} `{!UserMem ext}
    `{!FileSyscalls ext} `{!KernelSpec ext} fuel cur cp (st : kst ext) :
  on_cpu cur st -> ptable st !! cur = Some cp ->
  let num := s32 cp.(tf).(tf_eax) in
  exists e, quiet (kext st) e /\
  (~ (1 <= num <= 23) ->
     syscall fuel st = Some (Done (set_ext e (set_ptable (<[cur := set_eax 4294967295 cp]> (ptable st)) st)))) /\
  (1 <= num <= 23 -> exists h, syscalls fuel num = Some h /\
     forall r st', h (set_ext e st) = Some (Done (r, st')) ->
       syscall fuel st = Some (Done (upd cur (set_eax (u32 r)) st'))).
Proof.
  intros Hc Hcp num. unfold syscall.
  destruct (curproc_total _ _ Hc) as (e & -> & Hq & _). exists e. split; [done|]. cbn [obind].
  unfold entry. change (ptable (set_ext e st)) with (ptable st). rewrite Hcp. cbn [deref obind]. fold num.
  split.
  - intros Hr. destruct ((0 <? num) && (num <? 24)) eqn:E; [bool_to_prop; lia|].
    rewrite upd_set_ext, (upd_insert _ _ _ _ Hcp). done.
  - intros Hr. destruct ((0 <? num) && (num <? 24)) eqn:E.
    2: { apply andb_false_iff in E as [E|E]; bool_to_prop; lia. }
    destruct (syscalls fuel num) as [h|] eqn:Hh.
    + exists h. split; [done|]. intros r st' ->. done.
    + exfalso. unfold syscalls in Hh.
      repeat match type of Hh with (if ?b then _ else _) = None => destruct b eqn:?; [done|] end.
      match goal with H : _ && _ = false |- _ => apply andb_false_iff in H as [H|H]; bool_to_prop; lia end.
Qed.

Lemma syscall_dispatch_witness :
  exists e, quiet (kext (calling 77)) e /\
    syscall 1 (calling 77) = Some (Done (set_ext e (set_ptable
      (<[1%nat := set_eax 4294967295 (caller 77)]> (ptable (calling 77))) (calling 77)))).
Proof.
  destruct (syscall_dispatch 1 1 (caller 77) (calling 77) (calling_on_cpu 77) eq_refl) as (e & Hq & H & _).
  exists e. split; [exact Hq|]. apply H. vm_compute. intros [_ ?]. congruence.
Defined.
