(* ===== verification/FsImage.v ===== *)
(** * xv6 file system images

    The on-disk structures of [projects/filesystems-check/fs.h] as they are
    read from an image mapped into memory.  An image gives the byte at every
    offset; reading outside its [IMG_SIZE] bytes is a memory fault. *)

From Stdlib Require Import ZArith Lia String.
From stdpp Require Import base tactics list list_numbers numbers sets.
From S2P Require Import Prelude.

Local Open Scope Z_scope.
Local Open Scope ostep_scope.

Definition ROOTINO : Z := 1.

Definition BSIZE : Z := 512.

Definition FSSIZE : Z := 1000.

Definition IMG_SIZE : Z := FSSIZE * BSIZE.

Definition NDIRECT : nat := 12.

Definition NINDIRECT : nat := 128.

Definition T_DIR : Z := 1.

Definition T_FILE : Z := 2.

Definition T_DEV : Z := 3.

Definition image : Type := Z -> Z.

(** A block of memory of the image is read: [memmove(p, imgp + off, n)]. *)
Definition in_image (off n : Z) : bool := (0 <=? off) && (off + n <=? IMG_SIZE).

Definition touch (off n : Z) : outcome string unit :=
  if in_image off n then Done tt else Crash "segmentation fault"%string.

Definition rd8 (img : image) (off : Z) : Z := u8 (img off).

Definition rd16 (img : image) (off : Z) : Z := rd8 img off + 256 * rd8 img (off + 1).

Definition rd32 (img : image) (off : Z) : Z := rd16 img off + 65536 * rd16 img (off + 2).

Record superblock := mkSb {
  sb_size : Z; sb_nblocks : Z; sb_ninodes : Z; sb_nlog : Z;
  sb_logstart : Z; sb_inodestart : Z; sb_bmapstart : Z }.

Definition superblock_at (img : image) (off : Z) : superblock :=
  mkSb (rd32 img off) (rd32 img (off + 4)) (rd32 img (off + 8)) (rd32 img (off + 12))
       (rd32 img (off + 16)) (rd32 img (off + 20)) (rd32 img (off + 24)).

Record dinode := mkDinode {
  di_type : Z; di_major : Z; di_minor : Z; di_nlink : Z; di_size : Z; di_addrs : list Z }.

Definition words_at (img : image) (off : Z) (n : nat) : list Z :=
  (fun k => rd32 img (off + 4 * Z.of_nat k)) <$> seq 0 n.

(** [struct dinode]: four shorts, the size and 13 addresses, 64 bytes. *)
Definition dinode_at (img : image) (off : Z) : dinode :=
  mkDinode (s16 (rd16 img off)) (s16 (rd16 img (off + 2))) (s16 (rd16 img (off + 4)))
           (s16 (rd16 img (off + 6))) (rd32 img (off + 8)) (words_at img (off + 12) (S NDIRECT)).

Definition set_nlink (n : Z) (d : dinode) : dinode :=
  mkDinode d.(di_type) d.(di_major) d.(di_minor) n d.(di_size) d.(di_addrs).

(** [struct dirent]: an inode number and 14 bytes of name, 16 bytes. *)
Record dirent := mkDirent { de_inum : Z; de_name : list Z }.

Definition dirent_at (img : image) (off : Z) : dirent :=
  mkDirent (rd16 img off) ((fun k => rd8 img (off + 2 + Z.of_nat k)) <$> seq 0 14).

(** [strcmp(de.name, ".") == 0] and [strcmp(de.name, "..") == 0]: the
    comparison stops at the first difference or the first zero byte. *)
Definition is_dot (l : list Z) : bool :=
  match l with a :: b :: _ => (a =? 46) && (b =? 0) | _ => false end.

Definition is_dotdot (l : list Z) : bool :=
  match l with a :: b :: c :: _ => (a =? 46) && (b =? 46) && (c =? 0) | _ => false end.

(** Bit [a] of a bitmap. *)
Definition getbit (bm : list Z) (a : Z) : bool := Z.testbit (default 0 (bm !! Z.to_nat (a / 8))) (a mod 8).

(** [bm[a / 8] |= 1 << a % 8]. *)
Definition setbit (bm : list Z) (a : Z) : list Z :=
  alter (fun x => u8 (Z.lor x (Z.shiftl 1 (a mod 8)))) (Z.to_nat (a / 8)) bm.

(** ** Lemmas *)

Lemma rd8_range img off : 0 <= rd8 img off < 256.
Proof. apply u8_range. Qed.

Lemma rd16_range img off : 0 <= rd16 img off < 65536.
Proof. unfold rd16. pose proof (rd8_range img off). pose proof (rd8_range img (off + 1)). lia. Qed.

Lemma rd32_range img off : 0 <= rd32 img off < 4294967296.
Proof. unfold rd32. pose proof (rd16_range img off). pose proof (rd16_range img (off + 2)). lia. Qed.

Lemma words_at_range img off n a : a ∈ words_at img off n -> 0 <= a < 4294967296.
Proof. intros H. apply list_elem_of_fmap in H as (k & -> & _). apply rd32_range. Qed.

Lemma touch_Done off n : touch off n = Done tt <-> 0 <= off /\ off + n <= IMG_SIZE.
Proof. unfold touch, in_image. destruct (Z.leb_spec 0 off), (Z.leb_spec (off + n) IMG_SIZE); cbn; naive_solver lia. Qed.

Definition bytes (l : list Z) : Prop := Forall (fun x => 0 <= x < 256) l.

Lemma length_setbit bm a : length (setbit bm a) = length bm.
Proof. apply length_alter. Qed.

Lemma u8_testbit x k : 0 <= k < 8 -> Z.testbit (u8 x) k = Z.testbit x k.
Proof. intros. unfold u8, wrapu. rewrite Z.mod_pow2_bits_low; [done|lia]. Qed.

Lemma getbit_setbit bm a b :
  0 <= a -> 0 <= b -> a / 8 < Z.of_nat (length bm) ->
  getbit (setbit bm a) b = bool_decide (a = b) || getbit bm b.
Proof.
  intros Ha Hb Hlt. unfold getbit, setbit.
  assert (Hm := Z.mod_pos_bound a 8 ltac:(lia)). assert (Hm' := Z.mod_pos_bound b 8 ltac:(lia)).
  assert (0 <= a / 8) by (apply Z.div_pos; lia). assert (0 <= b / 8) by (apply Z.div_pos; lia).
  destruct (decide (a / 8 = b / 8)) as [E|E].
  - rewrite E, list_lookup_alter_eq. destruct (lookup_lt_is_Some_2 bm (Z.to_nat (b / 8))) as [x ->]; [lia|].
    cbn. rewrite u8_testbit, Z.lor_spec, Z.shiftl_spec by lia.
    case_bool_decide as D.
    + subst. rewrite Z.sub_diag. cbn. apply orb_true_r.
    + cbn. assert (a mod 8 <> b mod 8) by (intros ?; apply D; rewrite (Z.div_mod a 8), (Z.div_mod b 8); lia).
      replace (Z.testbit 1 (b mod 8 - a mod 8)) with false; [apply orb_false_r|].
      symmetry. destruct (decide (b mod 8 < a mod 8)); [apply Z.testbit_neg_r; lia|].
      apply Z.bits_above_log2; cbn; lia.
  - rewrite list_lookup_alter_ne by lia. rewrite bool_decide_eq_false_2; [done|]. congruence.
Qed.

Lemma setbit_bytes bm a : bytes bm -> bytes (setbit bm a).
Proof.
  intros H. unfold setbit. destruct (bm !! Z.to_nat (a / 8)) as [x|] eqn:E.
  - unfold bytes in *. rewrite Forall_lookup in H |- *. intros i y Hy.
    destruct (decide (i = Z.to_nat (a / 8))) as [->|].
    + rewrite list_lookup_alter_eq, E in Hy. injection Hy as <-. apply u8_range.
    + rewrite list_lookup_alter_ne in Hy by done. eauto.
  - replace (alter _ _ bm) with bm; [done|]. symmetry. apply list_eq. intros i.
    destruct (decide (i = Z.to_nat (a / 8))) as [->|].
    + by rewrite list_lookup_alter_eq, E.
    + by rewrite list_lookup_alter_ne.
Qed.

(** Two bytes with the same bits are equal. *)
Lemma byte_eq x y : 0 <= x < 256 -> 0 <= y < 256 ->
  (forall k, 0 <= k < 8 -> Z.testbit x k = Z.testbit y k) -> x = y.
Proof.
  intros Hx Hy H. apply Z.bits_inj'. intros k Hk.
  destruct (decide (k < 8)); [apply H; lia|].
  assert (Hh : forall z, 0 <= z < 256 -> Z.testbit z k = false).
  { intros z Hz. destruct (decide (z = 0)) as [->|]; [apply Z.testbit_0_l|].
    apply Z.bits_above_log2; [lia|]. apply (Z.lt_le_trans _ 8); [|lia]. apply Z.log2_lt_pow2; lia. }
  by rewrite !Hh.
Qed.
