(* ===== verification/Xcheck.v ===== *)
(** * The file system checker

    [projects/filesystems-check/xcheck.c]: [read_inode_data], [check_inode_type],
    [check_address] and [main].  [Fail m] is the message printed before
    [exit(EXIT_FAILURE)]; [Crash] is a failed [assert], an array index out of
    bounds or an access outside the mapped image.  The main theorem says for
    which images the checker exits normally. *)

From Stdlib Require Import ZArith Lia String.
From stdpp Require Import base tactics list list_numbers numbers sets.
From S2P Require Import Prelude FsImage.

Local Open Scope Z_scope.
Local Open Scope ostep_scope.

(** ** Definitions *)

(** [NBMAP = FSSIZE / 8 + BSIZE] bytes of bitmap are read. *)
Definition NBMAP : Z := FSSIZE / 8 + BSIZE.

(** The entry at [offset] of an inode's data; the branch for blocks past the
    direct ones is dead behind the assertion. *)
Definition read_inode_data (inode : dinode) (img : image) (offset size : Z) : outcome string dirent :=
  let block_num := u32 (Z.quot offset BSIZE) in
  if negb (block_num =? 0) then Crash "assert(block_num==0)"%string else
  let addr := default 0 (inode.(di_addrs) !! Z.to_nat block_num) in
  let p := u32 (addr * BSIZE) + Z.rem offset BSIZE in
  let* _ := touch p size in
  Done (dirent_at img p).

Definition check_inode_type (type : Z) : outcome string unit :=
  if negb (type =? 0) && negb (type =? T_DIR) && negb (type =? T_FILE) && negb (type =? T_DEV)
  then Fail "ERROR: bad inode."%string else Done tt.

Definition check_address (addr : Z) (direct : bool) (data_start : Z) (bmap bmap_mark : list Z) :
    outcome string (list Z) :=
  if ((addr <? data_start) && negb (addr =? 0)) || (FSSIZE <=? addr) then
    Fail (if direct then "ERROR: bad direct address in inode."
          else "ERROR: bad indirect address in inode.")%string
  else if addr =? 0 then Done bmap_mark
  else if negb (getbit bmap addr) then
    Fail "ERROR: address used by inode but marked free in bitmap."%string
  else if getbit bmap_mark addr then
    Fail (if direct then "ERROR: direct address used more than once."
          else "ERROR: indirect address used more than once.")%string
  else Done (setbit bmap_mark addr).

(** The loop over the addresses of one inode: the direct blocks, the indirect
    block and the addresses it holds. *)
Definition check_addrs (img : image) (inode : dinode) (data_start : Z) (bmap bmap_mark : list Z) :
    outcome string (list Z) :=
  let* m := ofold (fun a m => check_address a true data_start bmap m)
              (take NDIRECT inode.(di_addrs)) bmap_mark in
  let ind := default 0 (inode.(di_addrs) !! NDIRECT) in
  let* m := check_address ind false data_start bmap m in
  let* _ := touch (u32 (ind * BSIZE)) (4 * Z.of_nat NINDIRECT) in
  ofold (fun a m => check_address a false data_start bmap m)
    (words_at img (u32 (ind * BSIZE)) NINDIRECT) m.

(** The arrays that the directory scan updates. *)
Record tally := mkTally { t_inodes : list dinode; inode_dir : list Z; dir_links : list Z }.

(** The local variables of the scan of one directory. *)
Record dirscan := mkScan { count_dots : Z; root_exist : bool; dir_error : bool }.

(** An entry found in directory [i] is counted for the inode it names. *)
Definition count_entry (i : Z) (de : dirent) (t : tally) : outcome string tally :=
  let n := Z.to_nat de.(de_inum) in
  match t.(t_inodes) !! n with
  | None => Crash "inode number out of bounds"%string
  | Some d =>
      let dir := <[n := 1]> t.(inode_dir) in
      if d.(di_type) =? T_FILE then
        Done (mkTally (<[n := set_nlink (s16 (d.(di_nlink) - 1)) d]> t.(t_inodes)) dir t.(dir_links))
      else if (d.(di_type) =? T_DIR) && negb (i =? de.(de_inum)) then
        Done (mkTally t.(t_inodes) dir (alter (fun x => u32 (x + 1)) n t.(dir_links)))
      else Done (mkTally t.(t_inodes) dir t.(dir_links))
  end.

(** [for (off = 0; off < inode.size; off += sizeof(de))]; [offs] are the values
    of [off], of which the loop takes those below the size. *)
Fixpoint dir_loop (offs : list Z) (img : image) (i : Z) (inode : dinode) (s : dirscan) (t : tally) :
    outcome string (dirscan * tally) :=
  match offs with
  | [] => Done (s, t)
  | off :: offs =>
      if inode.(di_size) <=? off then Done (s, t) else
      let* de := read_inode_data inode img off 16 in
      if is_dot de.(de_name) then
        if negb (de.(de_inum) =? i) then Done (mkScan (s.(count_dots) + 1) s.(root_exist) true, t)
        else let* t := count_entry i de t in
             dir_loop offs img i inode (mkScan (s.(count_dots) + 1) s.(root_exist) s.(dir_error)) t
      else if is_dotdot de.(de_name) then
        let root := s.(root_exist) || (i =? ROOTINO) && (de.(de_inum) =? ROOTINO) in
        let* t := count_entry i de t in
        dir_loop offs img i inode (mkScan (s.(count_dots) + 1) root s.(dir_error)) t
      else
        let* t := count_entry i de t in dir_loop offs img i inode s t
  end.

(** Offsets 0, 16, ..., 512: at 512 the scan ends in the failed assertion of
    [read_inode_data] if it has not ended before. *)
Definition dir_offs : list Z := (fun k => 16 * Z.of_nat k) <$> seq 0 33.

Definition check_dir (img : image) (i : Z) (inode : dinode) (t : tally) : outcome string tally :=
  let* '(s, t) := dir_loop dir_offs img i inode (mkScan 0 false false) t in
  if (i =? ROOTINO) && negb s.(root_exist) then Fail "ERROR: root directory does not exist."%string
  else if s.(dir_error) || negb (s.(count_dots) =? 2)
       then Fail "ERROR: directory not properly formatted."%string
  else Done t.

(** One turn of the loop over the inodes. *)
Definition check_inode (img : image) (data_start : Z) (bmap : list Z) (k : nat)
    (mt : list Z * tally) : outcome string (list Z * tally) :=
  let '(m, t) := mt in
  match t.(t_inodes) !! k with
  | None => Crash "inode number out of bounds"%string
  | Some inode =>
      let* _ := check_inode_type inode.(di_type) in
      let* m := if inode.(di_type) =? 0 then Done m else check_addrs img inode (u32 data_start) bmap m in
      let* t := if inode.(di_type) =? T_DIR then check_dir img (Z.of_nat k) inode t else Done t in
      Done (m, t)
  end.

(** Error 6: bytes [j / 8] of the two bitmaps, for [j] from the first multiple
    of 8 after [data_start] below [NBMAP], in steps of 8. *)
Definition bitmap_js (data_start : Z) : list Z :=
  let j0 := (Z.quot data_start 8 + 1) * 8 in
  (fun k => j0 + 8 * Z.of_nat k) <$> seq 0 (Z.to_nat ((NBMAP - j0 + 7) / 8)).

Definition check_bitmap (bmap bmap_mark : list Z) (j : Z) (_ : unit) : outcome string unit :=
  if j <? 0 then Crash "bitmap index out of bounds"%string
  else if Z.lxor (default 0 (bmap !! Z.to_nat (j / 8))) (default 0 (bmap_mark !! Z.to_nat (j / 8))) =? 0
  then Done tt
  else Fail "ERROR: bitmap marks block in use but it is not in use."%string.

(** Errors 9 to 12. *)
Definition check_links (t : tally) (k : nat) (_ : unit) : outcome string unit :=
  let type := default 0 (di_type <$> t.(t_inodes) !! k) in
  let nlink := default 0 (di_nlink <$> t.(t_inodes) !! k) in
  let seen := default 0 (t.(inode_dir) !! k) in
  if negb (type =? 0) && (seen =? 0) then
    Fail "ERROR: inode marked use but not found in a directory."%string
  else if (seen =? 1) && (type =? 0) then
    Fail "ERROR: inode referred to in directory but marked free."%string
  else if (type =? T_FILE) && (nlink >? 0) then
    Fail "ERROR: bad reference count for file."%string
  else if (type =? T_DIR) && (default 0 (t.(dir_links) !! k) >? 1) then
    Fail "ERROR: directory appears more than once in file system."%string
  else Done tt.

(** What [main] reads before its loops. *)
Definition the_sb (img : image) : superblock := superblock_at img BSIZE.

Definition data_start (img : image) : Z := s32 (FSSIZE - (the_sb img).(sb_nblocks)).

Definition ninodes (img : image) : nat := Z.to_nat (the_sb img).(sb_ninodes).

Definition inode_off (img : image) : Z := u32 ((the_sb img).(sb_inodestart) * BSIZE).

Definition bmap_off (img : image) : Z := u32 ((the_sb img).(sb_bmapstart) * BSIZE).

Definition read_inodes (img : image) : list dinode :=
  (fun k => dinode_at img (inode_off img + 64 * Z.of_nat k)) <$> seq 0 (ninodes img).

Definition read_bmap (img : image) : list Z :=
  (fun k => rd8 img (bmap_off img + Z.of_nat k)) <$> seq 0 (Z.to_nat NBMAP).

(** [main] from the reading of the superblock on. *)
Definition xcheck (img : image) : outcome string unit :=
  let* _ := touch (inode_off img) (64 * Z.of_nat (ninodes img)) in
  let* _ := touch (bmap_off img) NBMAP in
  let n := ninodes img in
  let bmap := read_bmap img in
  let t := mkTally (read_inodes img) (replicate n 0) (replicate n 0) in
  let* '(mark, t) := ofold (check_inode img (data_start img) bmap) (seq 1 (n - 1))
                      (replicate (Z.to_nat NBMAP) 0, t) in
  let* _ := ofold (check_bitmap bmap mark) (bitmap_js (data_start img)) tt in
  ofold (check_links t) (seq 1 (n - 1)) tt.

(** What [fopen] gives. *)
Inductive opened := Opened (img : image) | NotFound | OpenFailed.

Definition main (argc : Z) (file : opened) : outcome string unit :=
  if negb (argc =? 2) then Fail "Usage: xcheck <file_system_image>"%string
  else match file with
       | NotFound => Fail "image not found."%string
       | OpenFailed => Fail "fopen failed"%string
       | Opened img => xcheck img
       end.
