(* ===== verification/XcheckSpec.v ===== *)
(** * What the file system checker accepts

    A declarative description of the images [xcheck] accepts and the proof that
    it is exact. *)

From Stdlib Require Import ZArith Lia String.
From stdpp Require Import base tactics list list_numbers numbers sets.
From S2P Require Import Prelude FsImage Xcheck.

Local Open Scope Z_scope.
Local Open Scope ostep_scope.

(** ** Specification *)

Definition nz (l : list Z) : list Z := filter (fun a => a <> 0) l.

(** All the addresses an inode holds, the indirect ones included. *)
Definition inode_blocks (img : image) (d : dinode) : list Z :=
  let ind := default 0 (d.(di_addrs) !! NDIRECT) in
  take NDIRECT d.(di_addrs) ++ ind :: words_at img (u32 (ind * BSIZE)) NINDIRECT.

Definition blocks_of (img : image) (d : dinode) : list Z :=
  if d.(di_type) =? 0 then [] else nz (inode_blocks img d).

(** The entries of a directory, which lie in its first block. *)
Definition dir_count (d : dinode) : nat := Z.to_nat ((d.(di_size) + 15) / 16).

Definition entry_at (img : image) (d : dinode) (k : nat) : dirent :=
  dirent_at img (u32 (default 0 (d.(di_addrs) !! 0%nat) * BSIZE) + 16 * Z.of_nat k).

Definition entries (img : image) (d : dinode) : list dirent :=
  if d.(di_type) =? T_DIR then entry_at img d <$> seq 0 (dir_count d) else [].

Definition is_dots (e : dirent) : bool := is_dot e.(de_name) || is_dotdot e.(de_name).

Definition dots (es : list dirent) : list dirent := filter (fun e => is_dots e = true) es.

Record dir_ok (img : image) (n : nat) (k : nat) (d : dinode) : Prop := {
  dok_size : d.(di_size) <= BSIZE;
  dok_inum : Forall (fun e => e.(de_inum) < Z.of_nat n) (entries img d);
  dok_self : Forall (fun e => is_dot e.(de_name) = true -> e.(de_inum) = Z.of_nat k) (entries img d);
  dok_dots : length (dots (entries img d)) = 2%nat;
  dok_root : Z.of_nat k = ROOTINO ->
    Exists (fun e => is_dotdot e.(de_name) = true /\ e.(de_inum) = ROOTINO) (entries img d) }.

Section spec.
Variable img : image.

Definition nth_inode (k : nat) : dinode := dinode_at img (inode_off img + 64 * Z.of_nat k).

Definition the_blocks (ks : list nat) : list Z := ks ≫= fun k => blocks_of img (nth_inode k).

(** References: a directory and an entry of it. *)
Definition refs (ks : list nat) : list (nat * dirent) :=
  ks ≫= fun k => pair k <$> entries img (nth_inode k).

Definition refs_to (j : nat) (rs : list (nat * dirent)) : list (nat * dirent) :=
  filter (fun r => Z.to_nat r.2.(de_inum) = j) rs.

(** References from other directories. *)
Definition links_to (j : nat) (rs : list (nat * dirent)) : list (nat * dirent) :=
  filter (fun r => r.1 <> j) (refs_to j rs).

(** An address in use: a data block that the bitmap marks in use. *)
Definition block_ok (a : Z) : Prop :=
  u32 (data_start img) <= a < FSSIZE /\ getbit (read_bmap img) a = true.

Record inode_ok (k : nat) : Prop := {
  iok_type : (nth_inode k).(di_type) ∈ [0; T_DIR; T_FILE; T_DEV];
  iok_blocks : Forall block_ok (blocks_of img (nth_inode k));
  iok_dir : (nth_inode k).(di_type) = T_DIR -> dir_ok img (ninodes img) k (nth_inode k) }.

(** The first bit of the bitmap that is compared, and the end of the range. *)
Definition first_bit : Z := (Z.quot (data_start img) 8 + 1) * 8.

Definition last_bit : Z := 640.

Record link_ok (rs : list (nat * dirent)) (k : nat) : Prop := {
  lok_found : (nth_inode k).(di_type) <> 0 <-> refs_to k rs <> [];
  lok_file : (nth_inode k).(di_type) = T_FILE ->
    s16 ((nth_inode k).(di_nlink) - Z.of_nat (length (refs_to k rs))) <= 0;
  lok_dir : (nth_inode k).(di_type) = T_DIR -> u32 (Z.of_nat (length (links_to k rs))) <= 1 }.

(** The inodes that are checked. *)
Definition inums : list nat := seq 1 (ninodes img - 1).

Record consistent : Prop := {
  con_inodes : 0 <= inode_off img /\ inode_off img + 64 * Z.of_nat (ninodes img) <= IMG_SIZE;
  con_bmap : 0 <= bmap_off img /\ bmap_off img + NBMAP <= IMG_SIZE;
  con_each : Forall inode_ok inums;
  con_nodup : NoDup (the_blocks inums);
  con_start : 0 <= first_bit;
  con_bitmap : forall a, first_bit <= a < last_bit ->
    getbit (read_bmap img) a = true <-> a ∈ the_blocks inums;
  con_links : Forall (link_ok (refs inums)) inums }.

End spec.

(** ** Addresses *)

Lemma nz_app l1 l2 : nz (l1 ++ l2) = nz l1 ++ nz l2.
Proof. apply list.filter_app. Qed.

Lemma nz_elem a l : a ∈ nz l <-> a <> 0 /\ a ∈ l.
Proof. unfold nz. by rewrite list_elem_of_filter. Qed.

Definition marks (l : list Z) (m : list Z) : list Z := foldl setbit m l.

Lemma length_marks l m : length (marks l m) = length m.
Proof. unfold marks. revert m; induction l as [|a l IH]; intros m; cbn; [done|]. by rewrite IH, length_setbit. Qed.

Lemma marks_bytes l m : bytes m -> bytes (marks l m).
Proof. unfold marks. revert m; induction l as [|a l IH]; intros m H; cbn; [done|]. by apply IH, setbit_bytes. Qed.

Lemma marks_app l1 l2 m : marks (l1 ++ l2) m = marks l2 (marks l1 m).
Proof. apply foldl_app. Qed.

(** A mark bitmap can hold every block number. *)
Definition wide (m : list Z) : Prop := length m = Z.to_nat NBMAP.

Lemma wide_bound m a : wide m -> 0 <= a < FSSIZE -> a / 8 < Z.of_nat (length m).
Proof.
  unfold wide. intros -> [Ha Hb]. unfold NBMAP, FSSIZE, BSIZE in *.
  assert (a / 8 <= 999 / 8) by (apply Z.div_le_mono; lia). change (999 / 8) with 124 in *.
  change (1000 / 8) with 125. lia.
Qed.

Lemma getbit_marks l m b :
  wide m -> Forall (fun a => 0 <= a < FSSIZE) l -> 0 <= b ->
  getbit (marks l m) b = bool_decide (b ∈ l) || getbit m b.
Proof.
  revert m; induction l as [|a l IH]; intros m Hw Hl Hb; cbn.
  { by rewrite bool_decide_eq_false_2 by apply not_elem_of_nil. }
  apply Forall_cons in Hl as [Ha Hl]. fold (marks l (setbit m a)).
  rewrite IH by (unfold wide in *; rewrite ?length_setbit; done).
  rewrite getbit_setbit by (lia || by apply wide_bound).
  rewrite orb_assoc. f_equal.
  destruct (decide (b = a)) as [->|Hne].
  - rewrite (bool_decide_eq_true_2 (a ∈ a :: l)) by set_solver.
    rewrite (bool_decide_eq_true_2 (a = a)) by done. apply orb_true_r.
  - rewrite (bool_decide_eq_false_2 (a = b)) by done. rewrite orb_false_r.
    apply bool_decide_ext. set_solver.
Qed.

Section addresses.
Variables (img : image).

Lemma check_address_Done a d m m' :
  0 <= a ->
  check_address a d (u32 (data_start img)) (read_bmap img) m = Done m' <->
  Forall (block_ok img) (nz [a]) /\ Forall (fun a => getbit m a = false) (nz [a]) /\ m' = marks (nz [a]) m.
Proof.
  intros Ha. unfold check_address, nz, block_ok. rewrite filter_cons, filter_nil.
  destruct (Z.eqb_spec a 0) as [->|Hz].
  { rewrite decide_False by naive_solver. cbn. rewrite andb_false_r. cbn.
    split; [intros [= <-]|intros (_ & _ & ->)]; auto. }
  rewrite decide_True by done. rewrite !Forall_singleton. cbn. rewrite andb_true_r.
  destruct (Z.ltb_spec a (u32 (data_start img))); cbn; [naive_solver lia|].
  destruct (Z.leb_spec FSSIZE a); cbn; [naive_solver lia|].
  destruct (getbit (read_bmap img) a); cbn; [|naive_solver].
  destruct (getbit m a); [naive_solver|]. naive_solver.
Qed.

Lemma check_list_Done l d m m' :
  wide m -> Forall (fun a => 0 <= a) l ->
  ofold (fun a m => check_address a d (u32 (data_start img)) (read_bmap img) m) l m = Done m' <->
  Forall (block_ok img) (nz l) /\ NoDup (nz l) /\ Forall (fun a => getbit m a = false) (nz l) /\
  m' = marks (nz l) m.
Proof.
  revert m; induction l as [|a l IH]; intros m Hw Hl; cbn [ofold].
  { change (nz []) with (@nil Z). cbn. split; [intros [= <-]; repeat split; constructor|naive_solver]. }
  apply Forall_cons in Hl as [Ha Hl]. rewrite obind_Done.
  assert (E : nz (a :: l) = nz [a] ++ nz l) by apply (nz_app [a] l). rewrite E, !Forall_app, marks_app, NoDup_app.
  setoid_rewrite check_address_Done; [|done].
  assert (Hsub : NoDup (nz [a])) by (unfold nz; rewrite filter_cons, filter_nil; case_decide; auto using NoDup_nil_2, NoDup_singleton).
  assert (Hbit : Forall (block_ok img) (nz [a]) ->
    Forall (fun b => getbit (marks (nz [a]) m) b = false) (nz l) <->
    (forall x, x ∈ nz [a] -> x ∉ nz l) /\ Forall (fun b => getbit m b = false) (nz l)).
  { intros Hok. assert (Hb : forall b, b ∈ nz l -> getbit (marks (nz [a]) m) b = bool_decide (b ∈ nz [a]) || getbit m b).
    { intros b Hb. apply getbit_marks; [done| |].
      - eapply Forall_impl; [apply Forall_and; split; [exact Hok|]|].
        + apply Forall_forall. intros x Hx. apply nz_elem in Hx as [_ ->%list_elem_of_singleton]. exact Ha.
        + cbn. unfold block_ok. intros x [[? _] ?]. lia.
      - apply nz_elem in Hb as [_ Hb]. rewrite Forall_forall in Hl. auto. }
    rewrite !Forall_forall. split.
    - intros H. split; intros x Hx.
      + intros Hx'. specialize (H x Hx'). rewrite Hb in H by done. by rewrite bool_decide_eq_true_2 in H.
      + specialize (H x Hx). rewrite Hb in H by done. by apply orb_false_iff in H as [_ ?].
    - intros [H1 H2] x Hx. rewrite Hb, H2 by done. rewrite bool_decide_eq_false_2; [done|]. intros ?. by apply (H1 x). }
  split.
  - intros (m1 & (H1 & H2 & ->) & H3). apply IH in H3 as (H4 & H5 & H6 & ->);
      [|unfold wide; by rewrite length_marks|done].
    apply Hbit in H6 as [H6 H7]; [|done]. auto 10.
  - intros ((H1 & H4) & (_ & H6 & H5) & (H2 & H7) & ->). eexists. split; [done|].
    apply IH; [unfold wide; by rewrite length_marks|done|]. repeat split; [done..|]. by apply Hbit.
Qed.

Lemma touch_block a : 0 <= a < FSSIZE -> touch (u32 (a * BSIZE)) (4 * Z.of_nat NINDIRECT) = Done tt.
Proof.
  unfold FSSIZE, BSIZE. intros Ha. rewrite u32_small by lia. apply touch_Done.
  unfold IMG_SIZE, FSSIZE, BSIZE, NINDIRECT. lia.
Qed.

(** The addresses of an inode of the image. *)
Definition addrs_ok (d : dinode) : Prop :=
  length d.(di_addrs) = S NDIRECT /\ Forall (fun a => 0 <= a) d.(di_addrs).

Lemma ind_small d m m' dd :
  addrs_ok d -> check_address (default 0 (d.(di_addrs) !! NDIRECT)) dd (u32 (data_start img)) (read_bmap img) m = Done m' ->
  0 <= default 0 (d.(di_addrs) !! NDIRECT) < FSSIZE.
Proof.
  intros [Hl Ha] H. destruct (lookup_lt_is_Some_2 (di_addrs d) NDIRECT) as [x Hx]; [rewrite Hl; unfold NDIRECT; lia|].
  rewrite Hx in *. cbn in *. rewrite Forall_lookup in Ha. specialize (Ha _ _ Hx).
  unfold check_address in H. split; [done|]. destruct (Z.leb_spec FSSIZE x); [|done].
  rewrite orb_true_r in H. done.
Qed.

(** The loop over the addresses of an inode accepts exactly addresses that are
    0 or valid, unmarked and distinct, and marks them. *)
Lemma check_addrs_Done d m m' :
  wide m -> addrs_ok d ->
  check_addrs img d (u32 (data_start img)) (read_bmap img) m = Done m' <->
  Forall (block_ok img) (nz (inode_blocks img d)) /\ NoDup (nz (inode_blocks img d)) /\
  Forall (fun a => getbit m a = false) (nz (inode_blocks img d)) /\ m' = marks (nz (inode_blocks img d)) m.
Proof.
  intros Hw Hd. pose proof Hd as [Hlen Hnn]. unfold check_addrs.
  set (ind := default 0 (di_addrs d !! NDIRECT)).
  assert (Hind : 0 <= ind).
  { unfold ind. destruct (di_addrs d !! NDIRECT) eqn:E; [|done]. rewrite Forall_lookup in Hnn. eauto. }
  assert (Hall : Forall (fun a => 0 <= a) (inode_blocks img d)).
  { unfold inode_blocks. apply Forall_app. split; [by apply Forall_take|]. apply Forall_cons. split; [done|].
    apply Forall_forall. intros x Hx%words_at_range. lia. }
  rewrite <- (check_list_Done (inode_blocks img d) false) by done.
  assert (Hflag : forall l m m', Forall (fun a => 0 <= a) l -> wide m ->
    ofold (fun a m => check_address a true (u32 (data_start img)) (read_bmap img) m) l m = Done m' <->
    ofold (fun a m => check_address a false (u32 (data_start img)) (read_bmap img) m) l m = Done m').
  { intros l m0 m1 Hl Hm0. by rewrite !check_list_Done. }
  unfold inode_blocks at 1. fold ind. rewrite ofold_app. cbn [ofold].
  rewrite !obind_Done. split.
  - intros (m1 & H1 & H2). exists m1. split; [apply Hflag; [by apply Forall_take|done|done]|].
    apply obind_Done in H2 as (m2 & H2 & H3). apply obind_Done in H3 as (u & _ & H3).
    apply obind_Done. eauto.
  - intros (m1 & H1 & H2). exists m1. split; [apply Hflag; [by apply Forall_take|done|done]|].
    apply obind_Done in H2 as (m2 & H2 & H3). apply obind_Done. exists m2. split; [done|].
    apply obind_Done. exists tt. split; [|done]. apply touch_block. by eapply ind_small.
Qed.

End addresses.

(** ** Directories *)

Lemma s16_s16 x y : s16 (s16 x - y) = s16 (x - y).
Proof.
  unfold s16, wraps. change (2 ^ (16 - 1)) with 32768. change (2 ^ 16) with 65536.
  f_equal. replace ((x + 32768) mod 65536 - 32768 - y + 32768) with ((x + 32768) mod 65536 - y) by lia.
  rewrite Zminus_mod_idemp_l. f_equal. lia.
Qed.

Lemma s16_id x : -32768 <= x < 32768 -> s16 x = x.
Proof. apply s16_small. Qed.

(** The arrays after the references [rs] have been counted. *)
Record tallied (img : image) (rs : list (nat * dirent)) (t : tally) : Prop := {
  tal_len : length (inode_dir t) = ninodes img;
  tal_len2 : length (dir_links t) = ninodes img;
  tal_len3 : length (t_inodes t) = ninodes img;
  tal_dir j : (j < ninodes img)%nat ->
    inode_dir t !! j = Some (if decide (refs_to j rs = []) then 0 else 1);
  tal_links j : (j < ninodes img)%nat ->
    dir_links t !! j = Some (if (nth_inode img j).(di_type) =? T_DIR
                             then u32 (Z.of_nat (length (links_to j rs))) else 0);
  tal_inodes j : (j < ninodes img)%nat ->
    t_inodes t !! j = Some (if (nth_inode img j).(di_type) =? T_FILE
       then set_nlink (s16 ((nth_inode img j).(di_nlink) - Z.of_nat (length (refs_to j rs)))) (nth_inode img j)
       else nth_inode img j) }.

Lemma refs_to_snoc j rs r :
  refs_to j (rs ++ [r]) = refs_to j rs ++ (if decide (Z.to_nat r.2.(de_inum) = j) then [r] else []).
Proof. unfold refs_to. rewrite list.filter_app, filter_cons, filter_nil. done. Qed.

Lemma links_to_snoc j rs r :
  links_to j (rs ++ [r]) = links_to j rs ++
    (if decide (Z.to_nat r.2.(de_inum) = j /\ r.1 <> j) then [r] else []).
Proof.
  unfold links_to. rewrite refs_to_snoc, list.filter_app. f_equal.
  destruct (decide (Z.to_nat (de_inum r.2) = j)).
  - rewrite filter_cons, filter_nil. apply decide_ext. naive_solver.
  - rewrite decide_False by naive_solver. done.
Qed.

Lemma di_nlink_range img off : -32768 <= di_nlink (dinode_at img off) < 32768.
Proof. apply (wraps_range 16). lia. Qed.

Lemma set_nlink_id d : set_nlink (di_nlink d) d = d.
Proof. by destruct d. Qed.

Lemma tallied_init img :
  tallied img [] (mkTally (read_inodes img) (replicate (ninodes img) 0) (replicate (ninodes img) 0)).
Proof.
  unfold read_inodes. split; cbn; rewrite ?length_replicate, ?length_fmap, ?length_seq; [done..| | |].
  - intros j Hj. by rewrite lookup_replicate_2.
  - intros j Hj. rewrite lookup_replicate_2 by done. by destruct (_ =? _).
  - intros j Hj. rewrite list_lookup_fmap, lookup_seq_lt by done. cbn [fmap option_fmap option_map].
    f_equal. fold (nth_inode img (0 + j)). cbn [Nat.add]. destruct (_ =? T_FILE); [|done]. rewrite Z.sub_0_r.
    rewrite s16_id by apply di_nlink_range. symmetry. apply set_nlink_id.
Qed.

(** Counting an entry needs an inode number in range, and then counts it. *)
Lemma count_entry_Done img rs t k e t' :
  tallied img rs t -> 0 <= e.(de_inum) ->
  count_entry (Z.of_nat k) e t = Done t' ->
  e.(de_inum) < Z.of_nat (ninodes img) /\ tallied img (rs ++ [(k, e)]) t'.
Proof.
  intros [L1 L2 L3 Hd Hl Hi] He H. unfold count_entry in H.
  set (n := Z.to_nat (de_inum e)) in *.
  destruct (t_inodes t !! n) as [d|] eqn:Hn; [|done].
  assert (Hlt : (n < ninodes img)%nat) by (rewrite <- L3; by eapply lookup_lt_Some).
  split; [unfold n in Hlt; lia|].
  rewrite (Hi n Hlt) in Hn. apply (inj Some) in Hn as Hdn.
  assert (Htype : di_type d = di_type (nth_inode img n)) by (rewrite <- Hdn; by destruct (_ =? T_FILE)).
  assert (Hcmp : (Z.of_nat k =? de_inum e) = bool_decide (k = n)).
  { destruct (Z.eqb_spec (Z.of_nat k) (de_inum e)); symmetry; [apply bool_decide_eq_true_2|apply bool_decide_eq_false_2]; unfold n; lia. }
  rewrite Htype, Hcmp in H.
  assert (Hdir : forall j, (j < ninodes img)%nat ->
    <[n:=1]> (inode_dir t) !! j = Some (if decide (refs_to j (rs ++ [(k, e)]) = []) then 0 else 1)).
  { intros j Hj. rewrite refs_to_snoc. cbn [fst snd]. fold n. destruct (decide (n = j)) as [->|Hne].
    - rewrite list_lookup_insert_eq by lia. rewrite decide_False; [done|]. intros ?%app_nil. naive_solver.
    - rewrite list_lookup_insert_ne, app_nil_r by done. auto. }
  assert (Hrest : forall j, (j < ninodes img)%nat -> n <> j \/ di_type (nth_inode img j) <> T_FILE ->
    t_inodes t !! j = Some (if (nth_inode img j).(di_type) =? T_FILE
       then set_nlink (s16 ((nth_inode img j).(di_nlink) - Z.of_nat (length (refs_to j (rs ++ [(k, e)]))))) (nth_inode img j)
       else nth_inode img j)).
  { intros j Hj [Hne|Hne].
    - rewrite refs_to_snoc. cbn [fst snd]. fold n. rewrite decide_False, app_nil_r by done. auto.
    - rewrite Hi by done. apply Z.eqb_neq in Hne. by rewrite Hne. }
  assert (Hlinks : forall j, (j < ninodes img)%nat -> ~ (n = j /\ k <> j) \/ di_type (nth_inode img j) <> T_DIR ->
    dir_links t !! j = Some (if (nth_inode img j).(di_type) =? T_DIR
                             then u32 (Z.of_nat (length (links_to j (rs ++ [(k, e)])))) else 0)).
  { intros j Hj [Hne|Hne].
    - rewrite links_to_snoc. cbn [fst snd]. fold n. rewrite decide_False, app_nil_r by done. auto.
    - rewrite Hl by done. apply Z.eqb_neq in Hne. by rewrite Hne. }
  destruct (Z.eqb_spec (di_type (nth_inode img n)) T_FILE) as [Hf|Hf].
  - injection H as <-. split; cbn [t_inodes inode_dir dir_links]; rewrite ?length_insert; [done..| |].
    + intros j Hj. apply Hlinks; [done|]. destruct (decide (n = j)) as [<-|]; [right; rewrite Hf; done|left; naive_solver].
    + intros j Hj. destruct (decide (n = j)) as [<-|]; [|rewrite list_lookup_insert_ne by done; auto].
      rewrite list_lookup_insert_eq by lia. rewrite <- Hdn, Hf.
      change (T_FILE =? T_FILE) with true. cbn iota. unfold set_nlink. cbn [di_nlink di_type di_major di_minor di_size di_addrs].
      rewrite s16_s16, Hf.
      rewrite refs_to_snoc, length_app. cbn [fst snd]. fold n. rewrite decide_True by done. cbn [length].
      rewrite Nat2Z.inj_add, Z.sub_add_distr. done.
  - destruct (Z.eqb_spec (di_type (nth_inode img n)) T_DIR) as [Hdt|Hdt]; cbn [andb] in H.
    + destruct (bool_decide (k = n)) eqn:Hkn; bool_to_prop; cbn [negb] in H; injection H as <-.
      * split; cbn [t_inodes inode_dir dir_links]; rewrite ?length_insert; [done..| |].
        -- intros j Hj. apply Hlinks; [done|]. left. naive_solver.
        -- intros j Hj. apply Hrest; [done|]. destruct (decide (n = j)) as [<-|]; auto.
      * split; cbn [t_inodes inode_dir dir_links]; rewrite ?length_insert, ?length_alter; [done..| |].
        -- intros j Hj. destruct (decide (n = j)) as [<-|Hne].
           ++ rewrite list_lookup_alter_eq, (Hl n Hj), Hdt. cbn [fmap option_fmap option_map].
              rewrite links_to_snoc. cbn [fst snd]. fold n. rewrite (decide_True (P := n = n /\ k <> n)) by done.
              rewrite length_app. cbn. f_equal. unfold u32, wrapu. rewrite Z.add_mod_idemp_l by lia. f_equal. lia.
           ++ rewrite list_lookup_alter_ne by done. apply Hlinks; [done|]. left. naive_solver.
        -- intros j Hj. apply Hrest; [done|]. destruct (decide (n = j)) as [<-|]; auto.
    + injection H as <-. split; cbn [t_inodes inode_dir dir_links]; rewrite ?length_insert; [done..| |].
      * intros j Hj. apply Hlinks; [done|]. destruct (decide (n = j)) as [<-|]; [by right|left; naive_solver].
      * intros j Hj. apply Hrest; [done|]. destruct (decide (n = j)) as [<-|]; auto.
Qed.

Lemma count_entry_total img rs t k e :
  tallied img rs t -> 0 <= e.(de_inum) < Z.of_nat (ninodes img) ->
  exists t', count_entry k e t = Done t'.
Proof.
  intros Ht He. unfold count_entry.
  rewrite (tal_inodes _ _ _ Ht) by lia. cbv zeta.
  match goal with |- context [if di_type ?d =? T_FILE then Done _ else _] => generalize d end. intros d.
  destruct (di_type d =? T_FILE); [eauto|]. destruct (_ && _); eauto.
Qed.

(** Counting all the entries of a directory. *)
Lemma count_entries_Done img rs t k es t' :
  tallied img rs t -> Forall (fun e => 0 <= e.(de_inum)) es ->
  ofold (count_entry (Z.of_nat k)) es t = Done t' ->
  Forall (fun e => e.(de_inum) < Z.of_nat (ninodes img)) es /\ tallied img (rs ++ (pair k <$> es)) t'.
Proof.
  revert rs t; induction es as [|e es IH]; intros rs t Ht Hes H; cbn [ofold] in H.
  - injection H as <-. split; [constructor|]. by rewrite app_nil_r.
  - apply Forall_cons in Hes as [He Hes]. apply obind_Done in H as (t1 & H1 & H).
    destruct (count_entry_Done _ _ _ _ _ _ Ht He H1) as [Hlt Ht1].
    destruct (IH _ _ Ht1 Hes H) as [Hall Ht2]. split; [by constructor|].
    by rewrite <- app_assoc in Ht2.
Qed.

Lemma count_entries_total img rs t k es :
  tallied img rs t -> Forall (fun e => 0 <= e.(de_inum) < Z.of_nat (ninodes img)) es ->
  exists t', ofold (count_entry (Z.of_nat k)) es t = Done t'.
Proof.
  revert rs t; induction es as [|e es IH]; intros rs t Ht Hes; cbn [ofold]; [eauto|].
  apply Forall_cons in Hes as [He Hes]. destruct (count_entry_total _ _ _ (Z.of_nat k) _ Ht He) as (t1 & E).
  rewrite E. cbn [obind]. destruct (count_entry_Done _ _ _ _ _ _ Ht (proj1 He) E) as [_ Ht1]. eauto.
Qed.

Lemma entry_at_inum img d k : 0 <= (entry_at img d k).(de_inum).
Proof. apply rd16_range. Qed.

Lemma read_inode_data_eq img d k :
  0 <= default 0 (d.(di_addrs) !! 0%nat) < FSSIZE -> (k <= 32)%nat ->
  read_inode_data d img (16 * Z.of_nat k) 16 =
    if decide (k = 32%nat) then Crash "assert(block_num==0)"%string else Done (entry_at img d k).
Proof.
  intros Ha Hk. unfold read_inode_data. rewrite Z.quot_div_nonneg, Z.rem_mod_nonneg by (unfold BSIZE; lia).
  unfold FSSIZE in Ha. case_decide as D.
  - subst k. done.
  - unfold BSIZE. rewrite (Z.div_small (16 * Z.of_nat k)), (Z.mod_small (16 * Z.of_nat k)) by lia.
    change (negb (u32 0 =? 0)) with false. cbn iota. change (Z.to_nat (u32 0)) with 0%nat.
    cbv zeta. rewrite (proj2 (touch_Done _ _)); [done|].
    rewrite u32_small by lia. unfold IMG_SIZE, FSSIZE, BSIZE. lia.
Qed.

(** The values of the scan's variables after the entries [es]. *)
Definition scanned (i : Z) (es : list dirent) (s : dirscan) : dirscan :=
  mkScan (s.(count_dots) + Z.of_nat (length (dots es)))
         (s.(root_exist) || existsb (fun e => is_dotdot e.(de_name) && ((i =? ROOTINO) && (e.(de_inum) =? ROOTINO))) es)
         s.(dir_error).

Lemma dot_not_dotdot l : is_dot l = true -> is_dotdot l = false.
Proof.
  destruct l as [|a [|b [|c l]]]; cbn; try done. intros H. bool_to_prop. subst.
  by rewrite andb_false_r.
Qed.

Lemma scanned_cons i e es s :
  scanned i (e :: es) s =
  scanned i es (mkScan (if is_dots e then s.(count_dots) + 1 else s.(count_dots))
    (s.(root_exist) || is_dotdot e.(de_name) && ((i =? ROOTINO) && (e.(de_inum) =? ROOTINO))) s.(dir_error)).
Proof.
  unfold scanned, dots. cbn [existsb count_dots root_exist dir_error]. rewrite filter_cons, orb_assoc. f_equal.
  destruct (decide (is_dots e = true)) as [->|Hn]; [cbn [length]; lia|].
  apply not_true_is_false in Hn. by rewrite Hn.
Qed.

(** The scan of a directory from entry [k] on: it ends without finding a bad
    dot exactly when the directory fits in a block, its dot entries name the
    directory itself and every inode number is in range. *)
Lemma dir_loop_Done img i d m k s t s' t' :
  0 <= default 0 (d.(di_addrs) !! 0%nat) < FSSIZE -> 0 <= d.(di_size) ->
  (k + m = 33)%nat -> (k <= 32)%nat -> s.(dir_error) = false ->
  let es := entry_at img d <$> seq k (dir_count d - k) in
  dir_loop ((fun k => 16 * Z.of_nat k) <$> seq k m) img i d s t = Done (s', t') /\ s'.(dir_error) = false <->
  d.(di_size) <= BSIZE /\ Forall (fun e => is_dot e.(de_name) = true -> e.(de_inum) = i) es /\
  ofold (count_entry i) es t = Done t' /\ s' = scanned i es s.
Proof.
  intros Ha Hsz. revert k s t; induction m as [|m IH]; intros k s t Hkm Hk Hs; [lia|].
  cbn [seq fmap list_fmap dir_loop]. cbv zeta.
  assert (Hcnt : d.(di_size) <= 16 * Z.of_nat k <-> (dir_count d <= k)%nat).
  { unfold dir_count. pose proof (Z.div_mod (di_size d + 15) 16 ltac:(lia)).
    pose proof (Z.mod_pos_bound (di_size d + 15) 16 ltac:(lia)). lia. }
  destruct (Z.leb_spec (di_size d) (16 * Z.of_nat k)) as [Hle|Hgt].
  { replace (dir_count d - k)%nat with 0%nat by lia. cbn.
    assert (Hid : scanned i [] s = s) by (destruct s; unfold scanned; cbn; f_equal; [lia|apply orb_false_r]).
    rewrite Hid. unfold BSIZE. split.
    - intros [[= <- <-] _]. split_and!; [lia|constructor|done|done].
    - intros (_ & _ & [= <-] & ->). done. }
  rewrite read_inode_data_eq by done. destruct (decide (k = 32%nat)) as [->|Hne].
  { cbn. unfold BSIZE. split; [by intros [? _]|]. intros [? _]. lia. }
  cbn [obind]. set (e := entry_at img d k).
  replace (dir_count d - k)%nat with (S (dir_count d - S k)) by lia.
  cbn [seq fmap list_fmap ofold]. fold e. rewrite scanned_cons, Forall_cons.
  set (es := entry_at img d <$> seq (S k) (dir_count d - S k)).
  assert (Hrest : forall s1, s1.(dir_error) = false -> forall t1 : outcome string tally,
    ((let* t := t1 in dir_loop ((fun k => 16 * Z.of_nat k) <$> seq (S k) m) img i d s1 t) = Done (s', t')
      /\ dir_error s' = false) <->
    di_size d <= BSIZE /\ Forall (fun e => is_dot e.(de_name) = true -> e.(de_inum) = i) es /\
    obind t1 (ofold (count_entry i) es) = Done t' /\ s' = scanned i es s1).
  { intros s1 Hs1 [t1| |]; cbn [obind]; [|naive_solver..]. apply IH; [lia|lia|done]. }
  destruct (is_dot (de_name e)) eqn:Hdot.
  - unfold is_dots. rewrite Hdot, (dot_not_dotdot _ Hdot). cbn [orb andb]. rewrite orb_false_r.
    destruct (Z.eqb_spec (de_inum e) i) as [Hi|Hi]; cbn [negb].
    + rewrite Hrest by done. split; [intros (? & ? & ? & ?)|intros (? & [_ ?] & ? & ?)]; split_and!; done.
    + split; [by intros [[= <- <-] ?]|]. intros (_ & [Hc _] & _). by destruct Hi, Hc.
  - unfold is_dots. rewrite Hdot. cbn [orb]. destruct (is_dotdot (de_name e)) eqn:Hdd; cbn [andb].
    + rewrite Hrest by done. split; [intros (? & ? & ? & ?)|intros (? & [_ ?] & ? & ?)]; split_and!; done.
    + rewrite Hrest, orb_false_r by done. destruct s as [a b c]. cbn [count_dots root_exist dir_error].
      split; [intros (? & ? & ? & ?)|intros (? & [_ ?] & ? & ?)]; split_and!; done.
Qed.

Lemma existsb_root k es :
  existsb (fun e => is_dotdot e.(de_name) && ((Z.of_nat k =? ROOTINO) && (e.(de_inum) =? ROOTINO))) es = true <->
  Z.of_nat k = ROOTINO /\ Exists (fun e => is_dotdot e.(de_name) = true /\ e.(de_inum) = ROOTINO) es.
Proof.
  rewrite existsb_exists, Exists_exists. split.
  - intros (e & Hin & H). bool_to_prop. split; [done|]. exists e. split; [by apply list_elem_of_In|done].
  - intros (Hk & e & Hin & Hd & He). exists e. split; [by apply list_elem_of_In|].
    rewrite Hd, Hk, He. done.
Qed.

(** [check_dir] as its three conditions. *)
Lemma check_dir_eq img i d t t' :
  check_dir img i d t = Done t' <->
  exists s, (dir_loop dir_offs img i d (mkScan 0 false false) t = Done (s, t') /\ s.(dir_error) = false) /\
    (i = ROOTINO -> s.(root_exist) = true) /\ s.(count_dots) = 2.
Proof.
  unfold check_dir. generalize dir_offs. intros offs. rewrite obind_Done. split.
  - intros ([s t1] & H1 & H). exists s.
    destruct ((i =? ROOTINO) && negb (root_exist s)) eqn:Hr; [done|].
    destruct (dir_error s || negb (count_dots s =? 2)) eqn:He; [done|]. injection H as <-.
    bool_to_prop. split_and!; [done..| |done].
    intros Hk. apply Z.eqb_eq in Hk. rewrite Hk in Hr. by apply negb_false_iff in Hr.
  - intros (s & (H1 & He) & Hr & Hc). exists (s, t'). split; [done|]. rewrite He, Hc. cbn.
    destruct (Z.eqb_spec i ROOTINO) as [E|E]; [|done]. by rewrite (Hr E).
Qed.

Lemma dir_scan_Done img i d s t s' t' :
  0 <= default 0 (d.(di_addrs) !! 0%nat) < FSSIZE -> 0 <= d.(di_size) -> d.(di_type) = T_DIR ->
  s.(dir_error) = false ->
  dir_loop dir_offs img i d s t = Done (s', t') /\ s'.(dir_error) = false <->
  d.(di_size) <= BSIZE /\ Forall (fun e => is_dot e.(de_name) = true -> e.(de_inum) = i) (entries img d) /\
  ofold (count_entry i) (entries img d) t = Done t' /\ s' = scanned i (entries img d) s.
Proof.
  intros Ha Hsz Hd Hs.
  assert (Hes : entries img d = entry_at img d <$> seq 0 (dir_count d - 0))
    by (unfold entries; rewrite Hd, Nat.sub_0_r; done).
  rewrite Hes. apply (dir_loop_Done img i d 33 0); [done|done|done|lia|done].
Qed.

Lemma entries_nonneg img d : Forall (fun e => 0 <= de_inum e) (entries img d).
Proof.
  unfold entries. destruct (_ =? _); [|constructor].
  apply Forall_fmap, Forall_forall. intros x _. apply entry_at_inum.
Qed.

(** A directory is accepted exactly when it is well formed. *)
Lemma check_dir_Done img rs t k d t' :
  0 <= default 0 (d.(di_addrs) !! 0%nat) < FSSIZE -> 0 <= d.(di_size) -> d.(di_type) = T_DIR ->
  tallied img rs t ->
  check_dir img (Z.of_nat k) d t = Done t' ->
  dir_ok img (ninodes img) k d /\ tallied img (rs ++ (pair k <$> entries img d)) t'.
Proof.
  intros Ha Hsz Hd Ht H. apply check_dir_eq in H as (s & H & Hr & Hc).
  apply dir_scan_Done in H as (Hs & Hself & Hcount & ->); [|done..].
  destruct (count_entries_Done _ _ _ _ _ _ Ht (entries_nonneg _ _) Hcount) as [Hin Ht1]. split; [|done].
  split; [done|done|done| |].
  - unfold scanned in Hc. cbn [count_dots] in Hc. lia.
  - intros Hk. specialize (Hr Hk). apply (existsb_root k) in Hr. apply Hr.
Qed.

Lemma check_dir_total img rs t k d :
  0 <= default 0 (d.(di_addrs) !! 0%nat) < FSSIZE -> 0 <= d.(di_size) -> d.(di_type) = T_DIR ->
  tallied img rs t -> dir_ok img (ninodes img) k d ->
  exists t', check_dir img (Z.of_nat k) d t = Done t'.
Proof.
  intros Ha Hsz Hd Ht [Hs Hin Hself Hdots Hroot].
  destruct (count_entries_total img rs t k (entries img d) Ht) as (t' & Hc).
  { rewrite Forall_forall in Hin |- *. intros e He. split; [|auto].
    pose proof (entries_nonneg img d) as Hn. rewrite Forall_forall in Hn. auto. }
  exists t'. apply check_dir_eq. eexists. split; [apply dir_scan_Done; [done..|]; split_and!; done|].
  unfold scanned. cbn [count_dots root_exist dir_error orb]. split; [|lia].
  intros E. apply (existsb_root k). auto.
Qed.

(** ** One inode *)

Section loop.
Variable img : image.

Lemma nth_addrs_ok k : addrs_ok (nth_inode img k).
Proof.
  split; [done|]. apply Forall_forall. intros x Hx.
  change (di_addrs (nth_inode img k)) with (words_at img (inode_off img + 64 * Z.of_nat k + 12) (S NDIRECT)) in Hx.
  apply words_at_range in Hx. lia.
Qed.

Lemma inode_blocks_small d :
  addrs_ok d -> Forall (block_ok img) (nz (inode_blocks img d)) -> 0 <= default 0 (d.(di_addrs) !! 0%nat) < FSSIZE.
Proof.
  intros [Hl Ha] Hok. destruct (lookup_lt_is_Some_2 (di_addrs d) 0) as [x Hx]; [rewrite Hl; lia|].
  rewrite Hx. cbn. rewrite Forall_lookup in Ha. specialize (Ha _ _ Hx).
  destruct (decide (x = 0)) as [->|Hz]; [done|].
  rewrite Forall_forall in Hok. destruct (Hok x) as [? _]; [|lia].
  apply nz_elem. split; [done|]. unfold inode_blocks. apply elem_of_app. left.
  apply list_elem_of_lookup. exists 0%nat. by rewrite lookup_take_lt by (unfold NDIRECT; lia).
Qed.

Lemma check_inode_type_Done ty : check_inode_type ty = Done tt <-> ty ∈ [0; T_DIR; T_FILE; T_DEV].
Proof.
  unfold check_inode_type, T_DIR, T_FILE, T_DEV. rewrite !elem_of_cons, elem_of_nil.
  destruct (Z.eqb_spec ty 0), (Z.eqb_spec ty 1), (Z.eqb_spec ty 2), (Z.eqb_spec ty 3); cbn; naive_solver.
Qed.

(** The state of the loop after the inodes [ks]. *)
Definition loop_inv (ks : list nat) (mt : list Z * tally) : Prop :=
  mt.1 = marks (the_blocks img ks) (replicate (Z.to_nat NBMAP) 0) /\ tallied img (refs img ks) mt.2 /\
  Forall (block_ok img) (the_blocks img ks).

Lemma block_ok_range l : Forall (block_ok img) l -> Forall (fun a => 0 <= a < FSSIZE) l.
Proof.
  intros H. eapply Forall_impl; [exact H|]. intros a [? _]. pose proof (u32_range (data_start img)). lia.
Qed.

Lemma getbit_zero n a : getbit (replicate n 0) a = false.
Proof.
  unfold getbit. destruct (replicate n 0 !! _) as [x|] eqn:E; cbn; [|apply Z.testbit_0_l].
  apply lookup_replicate in E as [-> _]. apply Z.testbit_0_l.
Qed.

Lemma the_blocks_snoc ks k : the_blocks img (ks ++ [k]) = the_blocks img ks ++ blocks_of img (nth_inode img k).
Proof. unfold the_blocks. rewrite bind_app. cbn. by rewrite app_nil_r. Qed.

Lemma refs_snoc ks k : refs img (ks ++ [k]) = refs img ks ++ (pair k <$> entries img (nth_inode img k)).
Proof. unfold refs. rewrite bind_app. cbn. by rewrite app_nil_r. Qed.

(** Which addresses are fresh. *)
Lemma fresh_blocks ks l :
  Forall (block_ok img) (the_blocks img ks) -> Forall (block_ok img) l ->
  Forall (fun a => getbit (marks (the_blocks img ks) (replicate (Z.to_nat NBMAP) 0)) a = false) l <->
  (forall a, a ∈ the_blocks img ks -> a ∉ l).
Proof.
  intros Hb Hl. assert (Hg : forall a, a ∈ l ->
    getbit (marks (the_blocks img ks) (replicate (Z.to_nat NBMAP) 0)) a = bool_decide (a ∈ the_blocks img ks)).
  { intros a Ha. rewrite getbit_marks, getbit_zero, orb_false_r; [done|..].
    - unfold wide. by rewrite length_replicate.
    - by apply block_ok_range.
    - apply block_ok_range in Hl. rewrite Forall_forall in Hl. by apply Hl. }
  rewrite Forall_forall. split.
  - intros H a Ha Hal. specialize (H a Hal). rewrite Hg in H by done. by apply bool_decide_eq_false in H.
  - intros H a Ha. rewrite Hg by done. apply bool_decide_eq_false_2. intros ?. by apply (H a).
Qed.

Lemma blocks_of_nlink n d : blocks_of img (set_nlink n d) = blocks_of img d.
Proof. done. Qed.

(** Reading inode [k] in the loop gives the inode of the image, up to a link
    count that the scan does not look at. *)
Lemma tallied_inode rs t k :
  tallied img rs t -> (k < ninodes img)%nat ->
  exists d, t_inodes t !! k = Some d /\ di_type d = di_type (nth_inode img k) /\
    di_addrs d = di_addrs (nth_inode img k) /\ di_size d = di_size (nth_inode img k) /\
    blocks_of img d = blocks_of img (nth_inode img k) /\
    (di_type d = T_DIR -> d = nth_inode img k).
Proof.
  intros Ht Hk. rewrite (tal_inodes _ _ _ Ht k Hk).
  destruct (Z.eqb_spec (di_type (nth_inode img k)) T_FILE) as [E|E]; eexists; (split_and!; [done..|]).
  - cbn [di_type set_nlink]. rewrite E. done.
  - done.
Qed.

Lemma check_inode_Done ks k mt mt' :
  loop_inv ks mt -> (k < ninodes img)%nat ->
  check_inode img (data_start img) (read_bmap img) k mt = Done mt' ->
  inode_ok img k /\ NoDup (blocks_of img (nth_inode img k)) /\
  (forall a, a ∈ the_blocks img ks -> a ∉ blocks_of img (nth_inode img k)) /\ loop_inv (ks ++ [k]) mt'.
Proof.
  destruct mt as [m t]. intros (Hm & Ht & Hb) Hk H. cbn [fst snd] in *. unfold check_inode in H.
  destruct (tallied_inode _ _ k Ht Hk) as (d & Hd & Ety & Ead & Esz & Ebl & Edir). rewrite Hd in H.
  apply obind_Done in H as ([] & Hty & H). apply check_inode_type_Done in Hty.
  apply obind_Done in H as (m1 & Hm1 & H). apply obind_Done in H as (t1 & Ht1 & [= <-]).
  assert (Hao : addrs_ok d) by (unfold addrs_ok; rewrite Ead; apply nth_addrs_ok).
  assert (Hwide : wide m) by (rewrite Hm; unfold wide; by rewrite length_marks, length_replicate).
  assert (Haddr : Forall (block_ok img) (blocks_of img d) /\ NoDup (blocks_of img d) /\
    Forall (fun a => getbit m a = false) (blocks_of img d) /\ m1 = marks (blocks_of img d) m).
  { unfold blocks_of. destruct (di_type d =? 0).
    - injection Hm1 as <-. split_and!; [constructor|constructor|constructor|done].
    - by apply check_addrs_Done in Hm1. }
  rewrite Ebl in Haddr. destruct Haddr as (Hok & Hnd & Hfr & ->). rewrite Hm in Hfr.
  rewrite fresh_blocks in Hfr by done.
  assert (Hdir : (di_type (nth_inode img k) = T_DIR -> dir_ok img (ninodes img) k (nth_inode img k)) /\
    tallied img (refs img (ks ++ [k])) t1).
  { rewrite refs_snoc. rewrite Ety in Ht1. destruct (Z.eqb_spec (di_type (nth_inode img k)) T_DIR) as [E|E].
    - rewrite (Edir ltac:(congruence)) in Ht1. apply (check_dir_Done _ (refs img ks)) in Ht1 as [? ?]; [auto| | |done|done].
      + apply inode_blocks_small; [apply nth_addrs_ok|]. unfold blocks_of in Hok. rewrite E in Hok. exact Hok.
      + apply rd32_range.
    - injection Ht1 as <-. unfold entries. rewrite (proj2 (Z.eqb_neq _ _) E). cbn [fmap list_fmap]. rewrite app_nil_r. done. }
  destruct Hdir as [Hdir Htal]. split_and!; [|done|done|].
  - split; [by rewrite <- Ety|done|done].
  - split_and!; cbn [fst snd]; [|done|].
    + by rewrite the_blocks_snoc, marks_app, Hm.
    + rewrite the_blocks_snoc. by apply Forall_app.
Qed.

Lemma check_inode_total ks k mt :
  loop_inv ks mt -> (k < ninodes img)%nat -> inode_ok img k -> NoDup (blocks_of img (nth_inode img k)) ->
  (forall a, a ∈ the_blocks img ks -> a ∉ blocks_of img (nth_inode img k)) ->
  exists mt', check_inode img (data_start img) (read_bmap img) k mt = Done mt'.
Proof.
  destruct mt as [m t]. intros (Hm & Ht & Hb) Hk [Hty Hok Hdir] Hnd Hfr. cbn [fst snd] in *. unfold check_inode.
  destruct (tallied_inode _ _ k Ht Hk) as (d & Hd & Ety & Ead & Esz & Ebl & Edir). rewrite Hd.
  rewrite (proj2 (check_inode_type_Done (di_type d))) by (by rewrite Ety). cbn [obind].
  assert (Hao : addrs_ok d) by (unfold addrs_ok; rewrite Ead; apply nth_addrs_ok).
  assert (Hwide : wide m) by (rewrite Hm; unfold wide; by rewrite length_marks, length_replicate).
  rewrite <- fresh_blocks, <- Hm in Hfr by done. rewrite <- Ebl in Hfr, Hok, Hnd.
  assert (Haddr : exists m1, (if di_type d =? 0 then Done m
     else check_addrs img d (u32 (data_start img)) (read_bmap img) m) = Done m1).
  { unfold blocks_of in *. destruct (di_type d =? 0); [eauto|]. eexists. by apply check_addrs_Done. }
  destruct Haddr as (m1 & ->). cbn [obind].
  assert (Hd1 : exists t1, (if di_type d =? T_DIR then check_dir img (Z.of_nat k) d t else Done t) = Done t1).
  { destruct (Z.eqb_spec (di_type d) T_DIR) as [E|E]; [|eauto].
    unfold blocks_of in Hok. rewrite E in Hok. pose proof (Edir E) as Ed. subst d.
    apply (check_dir_total _ (refs img ks)); [by apply inode_blocks_small|apply rd32_range|done|done|auto]. }
  destruct Hd1 as (t1 & ->). cbn [obind]. eauto.
Qed.

(** The loop over the inodes. *)
Lemma check_inodes_Done ks pre mt mt' :
  loop_inv pre mt -> Forall (fun k => (k < ninodes img)%nat) ks -> NoDup (the_blocks img pre) ->
  ofold (check_inode img (data_start img) (read_bmap img)) ks mt = Done mt' ->
  Forall (inode_ok img) ks /\ NoDup (the_blocks img (pre ++ ks)) /\ loop_inv (pre ++ ks) mt'.
Proof.
  revert pre mt; induction ks as [|k ks IH]; intros pre mt Hinv Hks Hnd H; cbn [ofold] in H.
  - injection H as <-. rewrite app_nil_r. split_and!; [constructor|done|done].
  - apply Forall_cons in Hks as [Hk Hks]. apply obind_Done in H as (mt1 & H1 & H).
    destruct (check_inode_Done _ _ _ _ Hinv Hk H1) as (Hok & Hndk & Hdis & Hinv1).
    assert (Hnd1 : NoDup (the_blocks img (pre ++ [k]))) by (rewrite the_blocks_snoc; by apply NoDup_app).
    destruct (IH _ _ Hinv1 Hks Hnd1 H) as (Hall & Hnd2 & Hinv2). rewrite <- app_assoc in Hnd2, Hinv2.
    split_and!; [by constructor|done|done].
Qed.

Lemma check_inodes_total ks pre mt :
  loop_inv pre mt -> Forall (fun k => (k < ninodes img)%nat) ks ->
  Forall (inode_ok img) ks -> NoDup (the_blocks img (pre ++ ks)) ->
  exists mt', ofold (check_inode img (data_start img) (read_bmap img)) ks mt = Done mt'.
Proof.
  revert pre mt; induction ks as [|k ks IH]; intros pre mt Hinv Hks Hok Hnd; cbn [ofold]; [eauto|].
  apply Forall_cons in Hks as [Hk Hks], Hok as [Hokk Hok].
  replace (pre ++ k :: ks) with ((pre ++ [k]) ++ ks) in Hnd by (by rewrite <- app_assoc).
  pose proof Hnd as Hnd1. unfold the_blocks in Hnd1. rewrite bind_app in Hnd1. fold (the_blocks img (pre ++ [k])) in Hnd1.
  apply NoDup_app in Hnd1 as (Hnd1 & _ & _). rewrite the_blocks_snoc in Hnd1.
  apply NoDup_app in Hnd1 as (_ & Hdis & Hndk).
  destruct (check_inode_total pre k mt Hinv Hk Hokk Hndk Hdis) as (mt1 & H1). rewrite H1. cbn [obind].
  destruct (check_inode_Done _ _ _ _ Hinv Hk H1) as (_ & _ & _ & Hinv1). by eapply IH.
Qed.

(** ** The bitmap and the links *)

Lemma ofold_unit_Done {A} (f : A -> unit -> outcome string unit) l :
  ofold f l tt = Done tt <-> Forall (fun a => f a tt = Done tt) l.
Proof.
  induction l as [|a l IH]; cbn [ofold]; [split; [constructor|done]|].
  rewrite obind_Done, Forall_cons, <- IH. split; [intros ([] & ? & ?)|intros []]; eauto.
Qed.

Lemma check_bitmap_Done bm mk j :
  check_bitmap bm mk j tt = Done tt <->
  0 <= j /\ default 0 (bm !! Z.to_nat (j / 8)) = default 0 (mk !! Z.to_nat (j / 8)).
Proof.
  unfold check_bitmap. destruct (Z.ltb_spec j 0); [split; [done|lia]|].
  destruct (Z.eqb_spec (Z.lxor (default 0 (bm !! Z.to_nat (j / 8))) (default 0 (mk !! Z.to_nat (j / 8)))) 0) as [E|E].
  - apply Z.lxor_eq in E. split; done.
  - split; [done|]. intros [_ Heq]. exfalso. apply E. rewrite Heq. apply Z.lxor_nilpotent.
Qed.

Lemma read_bmap_bytes : bytes (read_bmap img) /\ wide (read_bmap img).
Proof.
  split.
  - apply Forall_forall. intros x Hx. apply list_elem_of_fmap in Hx as (k & -> & _). apply rd8_range.
  - unfold wide, read_bmap. by rewrite length_fmap, length_seq.
Qed.

Lemma in_bitmap_js j :
  j ∈ bitmap_js (data_start img) <-> exists k, 0 <= k /\ j = first_bit img + 8 * k /\ j < NBMAP.
Proof.
  unfold bitmap_js. fold (first_bit img). set (j0 := first_bit img). rewrite list_elem_of_fmap. split.
  - intros (k & -> & Hk). apply elem_of_seq in Hk. exists (Z.of_nat k). split_and!; [lia|lia|].
    pose proof (Z.div_mod (NBMAP - j0 + 7) 8 ltac:(lia)). pose proof (Z.mod_pos_bound (NBMAP - j0 + 7) 8 ltac:(lia)). lia.
  - intros (k & Hk & -> & Hlt). exists (Z.to_nat k). split; [lia|]. apply elem_of_seq.
    pose proof (Z.div_mod (NBMAP - j0 + 7) 8 ltac:(lia)). pose proof (Z.mod_pos_bound (NBMAP - j0 + 7) 8 ltac:(lia)). lia.
Qed.

(** Comparing the bytes compares the bits of the range. *)
Lemma check_bitmap_loop mk :
  wide mk -> bytes mk ->
  ofold (check_bitmap (read_bmap img) mk) (bitmap_js (data_start img)) tt = Done tt <->
  0 <= first_bit img /\ forall a, first_bit img <= a < last_bit -> getbit (read_bmap img) a = getbit mk a.
Proof.
  intros Hw Hby. destruct read_bmap_bytes as [Hb1 Hw1].
  rewrite ofold_unit_Done, Forall_forall. setoid_rewrite check_bitmap_Done. setoid_rewrite in_bitmap_js.
  assert (Hmod : first_bit img mod 8 = 0) by (unfold first_bit; apply Z.mod_mul; lia).
  assert (Hdef : forall bm k, bytes bm -> 0 <= default 0 (bm !! k) < 256).
  { intros bm k H. destruct (bm !! k) eqn:E; cbn; [|lia]. unfold bytes in H. rewrite Forall_lookup in H. eauto. }
  change NBMAP with 637. unfold last_bit. split.
  - intros H. assert (H0 : 0 <= first_bit img).
    { destruct (decide (first_bit img < 637)); [|lia]. apply (H (first_bit img)). exists 0. lia. }
    split; [done|]. intros a Ha. unfold getbit. f_equal.
    pose proof (Z.div_mod a 8 ltac:(lia)). pose proof (Z.mod_pos_bound a 8 ltac:(lia)).
    pose proof (Z.div_mod (first_bit img) 8 ltac:(lia)).
    destruct (H (8 * (a / 8))) as [_ E].
    { exists (a / 8 - first_bit img / 8). lia. }
    rewrite Z.mul_comm, Z.div_mul in E by lia. exact E.
  - intros [H0 H] j (k & Hk & -> & Hlt). split; [lia|].
    pose proof (Z.div_mod (first_bit img) 8 ltac:(lia)).
    assert (Ej : (first_bit img + 8 * k) / 8 = first_bit img / 8 + k).
    { rewrite Z.mul_comm, Z.div_add by lia. done. }
    rewrite Ej. apply byte_eq; [by apply Hdef|by apply Hdef|]. intros i Hi.
    assert (Hq : (8 * (first_bit img / 8 + k) + i) / 8 = first_bit img / 8 + k).
    { rewrite Z.add_comm, Z.mul_comm, Z.div_add, (Z.div_small i) by lia. lia. }
    assert (Hr : (8 * (first_bit img / 8 + k) + i) mod 8 = i).
    { rewrite Z.add_comm, Z.mul_comm, Z.mod_add, Z.mod_small by lia. lia. }
    specialize (H (8 * (first_bit img / 8 + k) + i) ltac:(lia)).
    unfold getbit in H. rewrite Hq, Hr in H. exact H.
Qed.

Lemma check_links_Done rs t k :
  tallied img rs t -> (k < ninodes img)%nat ->
  check_links t k tt = Done tt <-> link_ok img rs k.
Proof.
  intros Ht Hk. unfold check_links.
  rewrite (tal_inodes _ _ _ Ht k Hk), (tal_dir _ _ _ Ht k Hk), (tal_links _ _ _ Ht k Hk).
  set (d := nth_inode img k). cbn [fmap option_fmap option_map default].
  assert (Ety : di_type (if di_type d =? T_FILE then
      set_nlink (s16 (di_nlink d - Z.of_nat (length (refs_to k rs)))) d else d) = di_type d)
    by (by destruct (_ =? T_FILE)).
  cbv zeta. unfold id. rewrite Ety.
  assert (Hnil : refs_to k rs = [] \/ refs_to k rs <> []) by (destruct (refs_to k rs); auto).
  assert (Hsplit : link_ok img rs k <->
    (di_type d <> 0 <-> refs_to k rs <> []) /\
    (di_type d = T_FILE -> s16 (di_nlink d - Z.of_nat (length (refs_to k rs))) <= 0) /\
    (di_type d = T_DIR -> u32 (Z.of_nat (length (links_to k rs))) <= 1))
    by (split; [by intros []|intros (? & ? & ?); by split]).
  rewrite Hsplit. clear Hsplit Ety.
  destruct (decide (refs_to k rs = [])) as [Hr|Hr].
  - change (0 =? 0) with true. change (0 =? 1) with false. cbn [andb]. rewrite andb_true_r.
    destruct (Z.eqb_spec (di_type d) 0) as [E|E]; cbn [negb].
    + rewrite E. cbn. split; [|done]. intros _. split_and!; [naive_solver|done|done].
    + split; [done|]. naive_solver.
  - change (1 =? 0) with false. change (1 =? 1) with true. rewrite andb_false_r. cbn [andb].
    destruct (Z.eqb_spec (di_type d) 0) as [E|E]; [split; [done|naive_solver]|].
    destruct (Z.eqb_spec (di_type d) T_FILE) as [Ef|Ef]; cbn [andb].
    + unfold set_nlink. cbn [di_nlink]. destruct (Z.gtb_spec (s16 (di_nlink d - Z.of_nat (length (refs_to k rs)))) 0).
      * split; [done|]. intros (_ & H1 & _). specialize (H1 Ef). lia.
      * rewrite Ef. cbn. split; [|done]. intros _. split_and!; [naive_solver|done|done].
    + destruct (Z.eqb_spec (di_type d) T_DIR) as [Ed|Ed]; cbn [andb].
      * destruct (Z.gtb_spec (u32 (Z.of_nat (length (links_to k rs)))) 1).
        -- split; [done|]. intros (_ & _ & H1). specialize (H1 Ed). lia.
        -- split; [|done]. intros _. split_and!; [naive_solver|done|done].
      * split; [|done]. intros _. split_and!; [naive_solver|done|done].
Qed.

Lemma inums_lt : Forall (fun k => (k < ninodes img)%nat) (inums img).
Proof. apply Forall_forall. intros k Hk. apply elem_of_seq in Hk. lia. Qed.

End loop.

(** ** The checker *)

(** C2: the checker exits normally on an image exactly when the image is
    consistent: the tables lie in the image; every inode has a known type and
    its nonzero addresses, indirect ones included, are data blocks that the
    bitmap marks used, all distinct over the whole file system; every directory
    fits in one block, names itself by its dot entry, has two dot entries and,
    for the root, is its own parent; the bitmap agrees with the addresses in
    the compared range; an inode is in use exactly when an entry names it, no
    file has more links than entries, and no directory has two entries outside
    itself. *)
Theorem xcheck_correct img : xcheck img = Done tt <-> consistent img.
Proof.
  unfold xcheck.
  set (t0 := mkTally (read_inodes img) (replicate (ninodes img) 0) (replicate (ninodes img) 0)).
  assert (H0 : loop_inv img [] (replicate (Z.to_nat NBMAP) 0, t0)).
  { split_and!; [done|apply tallied_init|constructor]. }
  assert (Hmk : forall mk, mk = marks (the_blocks img (inums img)) (replicate (Z.to_nat NBMAP) 0) ->
    wide mk /\ bytes mk).
  { intros mk ->. unfold wide. rewrite length_marks, length_replicate. split; [done|]. apply marks_bytes.
    apply Forall_replicate. lia. }
  assert (Hbit : Forall (block_ok img) (the_blocks img (inums img)) -> forall a, 0 <= a ->
    getbit (marks (the_blocks img (inums img)) (replicate (Z.to_nat NBMAP) 0)) a
    = bool_decide (a ∈ the_blocks img (inums img))).
  { intros Hok a Ha. rewrite getbit_marks, getbit_zero, orb_false_r; [done|..|done].
    - unfold wide. by rewrite length_replicate.
    - by apply (block_ok_range img). }
  split.
  - intros H. apply obind_Done in H as ([] & T1 & H). apply obind_Done in H as ([] & T2 & H).
    apply touch_Done in T1, T2. cbv zeta in H.
    apply obind_Done in H as ([mk t] & Hl & H). cbn beta iota in H.
    destruct (check_inodes_Done img (inums img) [] _ _ H0 (inums_lt img) (NoDup_nil_2) Hl) as (Hok & Hnd & Hm & Ht & Hb).
    cbn [app fst snd] in *. apply obind_Done in H as ([] & Hbm & Hln).
    destruct (Hmk _ Hm) as [Hw Hby]. apply check_bitmap_loop in Hbm as [Hst Hbm]; [|done..].
    split; [done..| |].
    + intros a Ha. rewrite Hbm, Hm, Hbit, bool_decide_eq_true by (done || lia). done.
    + apply ofold_unit_Done in Hln. fold (inums img) in Hln. rewrite Forall_forall in Hln |- *. intros k Hk.
      eapply check_links_Done; [done| |by apply Hln].
      pose proof (inums_lt img) as Hlt. rewrite Forall_forall in Hlt. auto.
  - intros [T1 T2 Hok Hnd Hst Hbm Hln].
    rewrite (proj2 (touch_Done _ _) T1), (proj2 (touch_Done _ _) T2). cbn [obind]. cbv zeta.
    destruct (check_inodes_total img (inums img) [] _ H0 (inums_lt img) Hok Hnd) as ([mk t] & Hl).
    fold (inums img). rewrite Hl. cbn [obind].
    destruct (check_inodes_Done img (inums img) [] _ _ H0 (inums_lt img) (NoDup_nil_2) Hl) as (_ & _ & Hm & Ht & Hb).
    cbn [app fst snd] in *. destruct (Hmk _ Hm) as [Hw Hby].
    rewrite (proj2 (check_bitmap_loop img mk Hw Hby)).
    + cbn [obind]. apply ofold_unit_Done. rewrite Forall_forall in Hln |- *. intros k Hk.
      eapply check_links_Done; [done| |by apply Hln].
      pose proof (inums_lt img) as Hlt. rewrite Forall_forall in Hlt. auto.
    + split; [done|]. intros a Ha. rewrite Hm, Hbit by (done || lia).
      apply eq_bool_prop_intro. specialize (Hbm a Ha).
      rewrite !Is_true_true, bool_decide_eq_true. exact Hbm.
Qed.

(** ** Concrete images *)

(** Byte [off] of the words, shorts and bytes written at given offsets. *)
Definition bytes32 (off v : Z) : list (Z * Z) :=
  [(off, v mod 256); (off + 1, v / 256 mod 256); (off + 2, v / 65536 mod 256); (off + 3, v / 16777216)].

Definition bytes16 (off v : Z) : list (Z * Z) := [(off, v mod 256); (off + 1, v / 256)].

Definition image_of (l : list (Z * Z)) : image :=
  fun o => match List.find (fun p => fst p =? o) l with Some p => snd p | None => 0 end.

(** An inode with its type, link count, size and first address. *)
Definition put_inode (k ty nlink size addr : Z) : list (Z * Z) :=
  let o := 32 * 512 + 64 * k in
  bytes16 o ty ++ bytes16 (o + 6) nlink ++ bytes32 (o + 8) size ++ bytes32 (o + 12) addr.

(** Entry [k] of the directory in block [b]. *)
Definition put_entry (b k inum : Z) (nm : list Z) : list (Z * Z) :=
  let o := b * 512 + 16 * k in bytes16 o inum ++ imap (fun i c => (o + 2 + Z.of_nat i, c)) nm.

(** 941 data blocks from block 59 on, inodes in block 32, bitmap in block 58;
    the root directory in block 59 names file 2 [n] times; the file has no
    block and the given link count; [extra] is appended. *)
Definition small_fs (nlink : Z) (n : nat) (extra : list (Z * Z)) : image :=
  image_of (bytes32 (512 + 4) 941 ++ bytes32 (512 + 8) 3 ++ bytes32 (512 + 20) 32 ++ bytes32 (512 + 24) 58 ++
    put_inode 1 1 1 (32 + 16 * Z.of_nat n) 59 ++ put_inode 2 2 nlink 0 0 ++
    put_entry 59 0 1 [46] ++ put_entry 59 1 1 [46; 46] ++
    (seq 2 n ≫= fun k => put_entry 59 (Z.of_nat k) 2 [97]) ++ [(58 * 512 + 7, 8)] ++ extra).

Example small_fs_accepted : main 2 (Opened (small_fs 1 1 [])) = Done tt.
Proof. vm_compute. reflexivity. Qed.

Example small_fs_lost :
  main 2 (Opened (small_fs 1 0 [])) = Fail "ERROR: inode marked use but not found in a directory."%string.
Proof. vm_compute. reflexivity. Qed.

(** Two inconsistencies that pass the check.  The comparison of the bitmaps
    stops at block 639 although the file system has 1000 blocks, since the loop
    bound counts bytes and the loop variable bits: an image whose bitmap marks
    block 700 in use while no inode uses it is accepted.  And a link count that
    is too small is not reported: a file with link count 1 that three entries
    name is accepted. *)
Lemma xcheck_misses :
  (let img := small_fs 1 1 [(58 * 512 + 87, 16)] in
   xcheck img = Done tt /\ getbit (read_bmap img) 700 = true /\
   bool_decide (700 ∈ the_blocks img (inums img)) = false) /\
  (let img := small_fs 1 3 [] in
   xcheck img = Done tt /\ di_nlink (nth_inode img 2) = 1 /\
   length (refs_to 2 (refs img (inums img))) = 3%nat).
Proof. vm_compute. split_and!; reflexivity. Qed.
