(* ===== verification/XcheckContest.v ===== *)
(** * The extended checkers

    [projects/filesystems-check/xcheck_contest_1.c] (the parent of every
    directory must name it) and [xcheck_contest_2.c] (no directory may be
    unreachable from the root). *)

From Stdlib Require Import ZArith Lia String.
From stdpp Require Import base tactics list list_numbers numbers sets.
From S2P Require Import Prelude FsImage Xcheck XcheckSpec.

Local Open Scope Z_scope.
Local Open Scope ostep_scope.

(** ** Parents *)

Definition MAX_CHILDS : nat := 10.

(** [Dir_map]: the children recorded for a directory, [child_num] of them. *)
Definition dir_map : Type := list Z.

(** [maps[i].child_inum[maps[i].child_num++] = inum]. *)
Definition add_child (i : nat) (inum : Z) (maps : list dir_map) : outcome string (list dir_map) :=
  match maps !! i with
  | None => Crash "inode number out of bounds"%string
  | Some l => if (length l <? MAX_CHILDS)%nat then Done (<[i := l ++ [inum]]> maps)
              else Crash "child_inum out of bounds"%string
  end.

(** The part of the loop body after the dot entries: the entry is counted, and
    recorded as a child if it is another directory. *)
Definition count_child (i : nat) (de : dirent) (t : tally) (maps : list dir_map) :
    outcome string (tally * list dir_map) :=
  let ty := default 0 (di_type <$> t.(t_inodes) !! Z.to_nat de.(de_inum)) in
  let* t := count_entry (Z.of_nat i) de t in
  if (ty =? T_DIR) && negb (Z.of_nat i =? de.(de_inum)) then
    let* maps := add_child i de.(de_inum) maps in Done (t, maps)
  else Done (t, maps).

(** Contest 1 at the entry [..] of a directory other than the root's own: the
    parent must have recorded the directory as a child. *)
Definition check_parent (i : nat) (de : dirent) (t : tally) (maps : list dir_map) : outcome string unit :=
  match maps !! Z.to_nat de.(de_inum) with
  | None => Crash "inode number out of bounds"%string
  | Some l => if existsb (fun c => c =? Z.of_nat i) l then Done tt
              else Fail "ERROR: parent directory mismatch."%string
  end.

(** ** The way to the root *)

(** [for (off = 0; off < inode.size; off += sizeof(de))] with the entry read. *)
Fixpoint for_dir (offs : list Z) (img : image) (d : dinode)
    (body : dirent -> option (outcome string unit)) : option (outcome string unit) :=
  match offs with
  | [] => Some (Done tt)
  | off :: offs =>
      if d.(di_size) <=? off then Some (Done tt) else
      match read_inode_data d img off 16 with
      | Done de => match body de with
                   | Some (Done _) => for_dir offs img d body
                   | r => r
                   end
      | Fail e => Some (Fail e)
      | Crash w => Some (Crash w)
      end
  end.

(** The recursion from a directory to its parents; [None] when the fuel runs
    out. *)
Fixpoint trace_parent (fuel : nat) (img : image) (inodes : list dinode) (parent_inum leaf : Z) :
    option (outcome string unit) :=
  match fuel with
  | O => None
  | S fuel =>
      match inodes !! Z.to_nat parent_inum with
      | None => Some (Crash "inode number out of bounds"%string)
      | Some inode =>
          for_dir dir_offs img inode (fun de =>
            if is_dot de.(de_name) && (de.(de_inum) =? leaf)
            then Some (Fail "ERROR: inaccessible directory exists."%string)
            else if is_dotdot de.(de_name) && negb (de.(de_inum) =? ROOTINO)
                 then trace_parent fuel img inodes de.(de_inum) leaf
                 else Some (Done tt))
      end
  end.

(** What contest 2 does at an entry [..] other than the root's own: a parent
    that does not name the directory is only reported on the standard error,
    and the way to the root is traced.  [depth] is the number of nested calls
    the stack has room for. *)
Definition check_parent2 (depth : nat) (img : image) (i : nat) (de : dirent) (t : tally)
    (maps : list dir_map) : outcome string unit :=
  match maps !! Z.to_nat de.(de_inum) with
  | None => Crash "inode number out of bounds"%string
  | Some _ =>
      match trace_parent depth img t.(t_inodes) de.(de_inum) (Z.of_nat i) with
      | Some r => r
      | None => Crash "stack overflow"%string
      end
  end.

(** ** The checkers *)

Section contest.
Variable parent_check : nat -> dirent -> tally -> list dir_map -> outcome string unit.

Fixpoint dir_loop1 (offs : list Z) (img : image) (i : nat) (inode : dinode) (s : dirscan) (t : tally)
    (maps : list dir_map) : outcome string (dirscan * tally * list dir_map) :=
  match offs with
  | [] => Done (s, t, maps)
  | off :: offs =>
      if inode.(di_size) <=? off then Done (s, t, maps) else
      let* de := read_inode_data inode img off 16 in
      if is_dot de.(de_name) then
        if negb (de.(de_inum) =? Z.of_nat i)
        then Done (mkScan (s.(count_dots) + 1) s.(root_exist) true, t, maps)
        else let* '(t, maps) := count_child i de t maps in
             dir_loop1 offs img i inode (mkScan (s.(count_dots) + 1) s.(root_exist) s.(dir_error)) t maps
      else if is_dotdot de.(de_name) then
        let own := (Z.of_nat i =? ROOTINO) && (de.(de_inum) =? ROOTINO) in
        let* _ := if own then Done tt else parent_check i de t maps in
        let* '(t, maps) := count_child i de t maps in
        dir_loop1 offs img i inode (mkScan (s.(count_dots) + 1) (s.(root_exist) || own) s.(dir_error)) t maps
      else
        let* '(t, maps) := count_child i de t maps in dir_loop1 offs img i inode s t maps
  end.

Definition check_dir1 (img : image) (i : nat) (inode : dinode) (t : tally) (maps : list dir_map) :
    outcome string (tally * list dir_map) :=
  let* '(s, t, maps) := dir_loop1 dir_offs img i inode (mkScan 0 false false) t maps in
  if (Z.of_nat i =? ROOTINO) && negb s.(root_exist) then Fail "ERROR: root directory does not exist."%string
  else if s.(dir_error) || negb (s.(count_dots) =? 2)
       then Fail "ERROR: directory not properly formatted."%string
  else Done (t, maps).

Definition check_inode1 (img : image) (data_start : Z) (bmap : list Z) (k : nat)
    (mt : list Z * tally * list dir_map) : outcome string (list Z * tally * list dir_map) :=
  let '(m, t, maps) := mt in
  match t.(t_inodes) !! k with
  | None => Crash "inode number out of bounds"%string
  | Some inode =>
      let* _ := check_inode_type inode.(di_type) in
      let* m := if inode.(di_type) =? 0 then Done m else check_addrs img inode (u32 data_start) bmap m in
      let* '(t, maps) := if inode.(di_type) =? T_DIR then check_dir1 img k inode t maps
                         else Done (t, maps) in
      Done (m, t, maps)
  end.

Definition xcheck_with (img : image) : outcome string unit :=
  let* _ := touch (inode_off img) (64 * Z.of_nat (ninodes img)) in
  let* _ := touch (bmap_off img) NBMAP in
  let n := ninodes img in
  let bmap := read_bmap img in
  let t := mkTally (read_inodes img) (replicate n 0) (replicate n 0) in
  let* '(mark, t, _) := ofold (check_inode1 img (data_start img) bmap) (seq 1 (n - 1))
                         (replicate (Z.to_nat NBMAP) 0, t, replicate n []) in
  let* _ := ofold (check_bitmap bmap mark) (bitmap_js (data_start img)) tt in
  ofold (check_links t) (seq 1 (n - 1)) tt.

End contest.

(** [main] of contest 1 and of contest 2, from the reading of the superblock
    on. *)
Definition xcheck1 (img : image) : outcome string unit := xcheck_with check_parent img.

Definition xcheck2 (depth : nat) (img : image) : outcome string unit :=
  xcheck_with (check_parent2 depth img) img.

(** ** The contests are stronger checks *)

(** An entry [..] is the root's own or has the property [good]. *)
Definition parent_ok (good : nat -> dirent -> Prop) (i : nat) (e : dirent) : Prop :=
  is_dotdot e.(de_name) = true ->
  Z.of_nat i = ROOTINO /\ e.(de_inum) = ROOTINO \/ good i e.

(** The directory the entry names has an entry for the directory it is in. *)
Definition named_by_parent (img : image) (i : nat) (e : dirent) : Prop :=
  exists e', e' ∈ entries img (nth_inode img (Z.to_nat e.(de_inum))) /\ e'.(de_inum) = Z.of_nat i.

(** From the directory the entry names the way up ends at the root without
    passing the directory it is in. *)
Definition leads_to_root (depth : nat) (img : image) (i : nat) (e : dirent) : Prop :=
  trace_parent depth img (read_inodes img) e.(de_inum) (Z.of_nat i) = Some (Done tt).

(** Recorded children are entries of the directory. *)
Definition recorded (img : image) (maps : list dir_map) : Prop :=
  forall p l c, maps !! p = Some l -> c ∈ l ->
    exists e, e ∈ entries img (nth_inode img p) /\ e.(de_inum) = c.

Lemma count_child_Done img i de t maps t' maps' :
  recorded img maps -> de ∈ entries img (nth_inode img i) ->
  count_child i de t maps = Done (t', maps') ->
  count_entry (Z.of_nat i) de t = Done t' /\ recorded img maps'.
Proof.
  intros Hrec Hin H. unfold count_child in H. cbv zeta in H. apply obind_Done in H as (t1 & H1 & H).
  destruct (_ && _); [|injection H as -> ->; done].
  apply obind_Done in H as (m1 & Hm & H). injection H as -> ->. split; [done|].
  unfold add_child in Hm. destruct (maps !! i) as [l|] eqn:Hi; [|done].
  destruct (_ <? _)%nat; [|done]. injection Hm as <-.
  intros p l' c Hp Hc. apply list_lookup_insert_Some in Hp as [(<- & <- & _)|(_ & Hp)]; [|by eapply Hrec].
  apply elem_of_app in Hc as [Hc| ->%list_elem_of_singleton]; [by eapply Hrec|]. by exists de.
Qed.

Lemma check_parent_Done img i de t maps u :
  recorded img maps -> check_parent i de t maps = Done u -> named_by_parent img i de.
Proof.
  intros Hrec H. unfold check_parent in H. destruct (maps !! _) as [l|] eqn:Hl; [|done].
  destruct (existsb _ l) eqn:He; [|done]. apply existsb_exists in He as (c & Hc & E).
  apply Z.eqb_eq in E as ->. eapply Hrec; [done|by apply list_elem_of_In].
Qed.

Lemma entry_at_in img d k :
  d.(di_type) = T_DIR -> (k < dir_count d)%nat -> entry_at img d k ∈ entries img d.
Proof.
  intros Hd Hk. unfold entries. rewrite Hd. cbn [Z.eqb]. change (T_DIR =? T_DIR) with true. cbn iota.
  apply list_elem_of_fmap. exists k. split; [done|]. apply elem_of_seq. lia.
Qed.

Lemma dir_count_lt d k : 16 * Z.of_nat k < d.(di_size) <-> (k < dir_count d)%nat.
Proof.
  unfold dir_count. pose proof (Z.div_mod (di_size d + 15) 16 ltac:(lia)).
  pose proof (Z.mod_pos_bound (di_size d + 15) 16 ltac:(lia)). lia.
Qed.

Section simulation.
Variable img : image.
Variable parent_check : nat -> dirent -> tally -> list dir_map -> outcome string unit.
Variable good : nat -> dirent -> Prop.

(** The arrays hold the count of some references. *)
Definition counted (t : tally) : Prop := exists rs, tallied img rs t.

Hypothesis Hgood : forall i de t maps,
  recorded img maps -> counted t -> 0 <= de.(de_inum) -> parent_check i de t maps = Done tt -> good i de.

Lemma counted_step i de t t' :
  counted t -> 0 <= de.(de_inum) -> count_entry (Z.of_nat i) de t = Done t' -> counted t'.
Proof. intros (rs & H) He Hc. destruct (count_entry_Done _ _ _ _ _ _ H He Hc). by eexists. Qed.

(** The scan of contest 1 does what the scan of [xcheck] does, keeps the record
    of children and has checked every parent entry. *)
Lemma dir_loop1_sim i m : forall k s t maps s' t' maps',
  let d := nth_inode img i in
  0 <= default 0 (d.(di_addrs) !! 0%nat) < FSSIZE -> d.(di_type) = T_DIR ->
  (k + m = 33)%nat -> (k <= 32)%nat -> recorded img maps -> counted t ->
  dir_loop1 parent_check ((fun k => 16 * Z.of_nat k) <$> seq k m) img i d s t maps = Done (s', t', maps') ->
  dir_loop ((fun k => 16 * Z.of_nat k) <$> seq k m) img (Z.of_nat i) d s t = Done (s', t') /\
  recorded img maps' /\
  (s'.(dir_error) = false -> forall j, (k <= j < dir_count d)%nat -> parent_ok good i (entry_at img d j)).
Proof.
  induction m as [|m IH]; intros k s t maps s' t' maps' d Ha Hd Hkm Hk Hrec Htal H; [lia|].
  cbn [seq fmap list_fmap dir_loop dir_loop1] in H |- *.
  pose proof (dir_count_lt d k) as Hcnt.
  destruct (Z.leb_spec (di_size d) (16 * Z.of_nat k)) as [Hle|Hgt].
  { injection H as -> -> ->. split_and!; [done|done|]. intros _ j Hj. lia. }
  rewrite read_inode_data_eq in H |- * by done.
  destruct (decide (k = 32%nat)) as [->|Hne]; [done|]. cbn [obind] in H |- *.
  set (e := entry_at img d k) in *.
  assert (Hin : e ∈ entries img d) by (apply entry_at_in; [done|by apply Hcnt]).
  assert (Hrest : forall s1 t1 maps1, recorded img maps1 -> counted t1 ->
    dir_loop1 parent_check ((fun k => 16 * Z.of_nat k) <$> seq (S k) m) img i d s1 t1 maps1 = Done (s', t', maps') ->
    parent_ok good i e ->
    dir_loop ((fun k => 16 * Z.of_nat k) <$> seq (S k) m) img (Z.of_nat i) d s1 t1 = Done (s', t') /\
    recorded img maps' /\
    (s'.(dir_error) = false -> forall j, (k <= j < dir_count d)%nat -> parent_ok good i (entry_at img d j))).
  { intros s1 t1 maps1 Hr1 Htal1 Hl He. destruct (IH (S k) s1 t1 maps1 s' t' maps' Ha Hd ltac:(lia) ltac:(lia) Hr1 Htal1 Hl)
      as (H1 & H2 & H3). split_and!; [done|done|]. intros Herr j Hj.
    destruct (decide (j = k)) as [->|]; [done|]. apply H3; [done|]. destruct Hj as [? Hj]. split; [lia|exact Hj]. }
  destruct (is_dot (de_name e)) eqn:Hdot.
  - destruct (Z.eqb_spec (de_inum e) (Z.of_nat i)) as [Hi|Hi]; cbn [negb] in H |- *.
    + apply obind_Done in H as ([t1 m1] & H1 & H). apply (count_child_Done img) in H1 as [H1 Hr1]; [|done..]. pose proof (counted_step i e t t1 Htal (entry_at_inum _ _ _) H1) as Ht1. rewrite H1.
      cbn [obind]. apply (Hrest _ _ m1); [done|done|done|]. unfold parent_ok. by rewrite (dot_not_dotdot _ Hdot).
    + injection H as <- -> ->. split_and!; done.
  - destruct (is_dotdot (de_name e)) eqn:Hdd.
    + apply obind_Done in H as (u & Hp & H). apply obind_Done in H as ([t1 m1] & H1 & H).
      apply (count_child_Done img) in H1 as [H1 Hr1]; [|done..]. pose proof (counted_step i e t t1 Htal (entry_at_inum _ _ _) H1) as Ht1. rewrite H1. cbn [obind].
      apply (Hrest _ _ m1); [done|done|done|]. intros _.
      destruct ((Z.of_nat i =? ROOTINO) && (de_inum e =? ROOTINO)) eqn:Hown; [bool_to_prop; by left|right].
      destruct u. eapply Hgood; [exact Hrec|exact Htal|apply entry_at_inum|exact Hp].
    + apply obind_Done in H as ([t1 m1] & H1 & H). apply (count_child_Done img) in H1 as [H1 Hr1]; [|done..]. pose proof (counted_step i e t t1 Htal (entry_at_inum _ _ _) H1) as Ht1. rewrite H1.
      cbn [obind]. apply (Hrest _ _ m1); [done|done|done|]. unfold parent_ok. by rewrite Hdd.
Qed.

Lemma check_dir1_eq i d t maps t' maps' :
  check_dir1 parent_check img i d t maps = Done (t', maps') ->
  exists s, dir_loop1 parent_check dir_offs img i d (mkScan 0 false false) t maps = Done (s, t', maps') /\
    s.(dir_error) = false /\ (Z.of_nat i = ROOTINO -> s.(root_exist) = true) /\ s.(count_dots) = 2.
Proof.
  unfold check_dir1. generalize dir_offs. intros offs H. apply obind_Done in H as ([[s t1] m1] & H1 & H).
  exists s. cbn beta iota in H.
  destruct ((Z.of_nat i =? ROOTINO) && negb (root_exist s)) eqn:Hroot; [done|].
  destruct (dir_error s || negb (count_dots s =? 2)) eqn:Herr; [done|]. injection H as -> ->.
  apply orb_false_iff in Herr as [Herr Hc]. split_and!; [done|done| |by bool_to_prop].
  intros E. apply Z.eqb_eq in E. rewrite E in Hroot. by apply negb_false_iff in Hroot.
Qed.

Lemma dir_scan1_sim i s t maps s' t' maps' :
  let d := nth_inode img i in
  0 <= default 0 (d.(di_addrs) !! 0%nat) < FSSIZE -> d.(di_type) = T_DIR -> recorded img maps -> counted t ->
  dir_loop1 parent_check dir_offs img i d s t maps = Done (s', t', maps') ->
  dir_loop dir_offs img (Z.of_nat i) d s t = Done (s', t') /\ recorded img maps' /\
  (s'.(dir_error) = false -> forall j, (0 <= j < dir_count d)%nat -> parent_ok good i (entry_at img d j)).
Proof.
  intros d Ha Hd Hrec Ht. apply (dir_loop1_sim i 33 0); [done|done|done|lia|done|done].
Qed.

Lemma check_dir1_Done i t maps t' maps' :
  let d := nth_inode img i in
  0 <= default 0 (d.(di_addrs) !! 0%nat) < FSSIZE -> d.(di_type) = T_DIR -> recorded img maps -> counted t ->
  check_dir1 parent_check img i d t maps = Done (t', maps') ->
  check_dir img (Z.of_nat i) d t = Done t' /\ recorded img maps' /\
  Forall (parent_ok good i) (entries img d).
Proof.
  intros d Ha Hd Hrec Ht H. apply check_dir1_eq in H as (s & H1 & Herr & Hroot & Hc).
  apply dir_scan1_sim in H1 as (H1 & Hr & Hp); [|done..]. split_and!; [|done|].
  - apply check_dir_eq. exists s. done.
  - unfold entries. rewrite Hd. change (T_DIR =? T_DIR) with true. cbn iota. apply Forall_forall.
    intros e He. apply list_elem_of_fmap in He as (j & -> & Hj). apply elem_of_seq in Hj as [_ Hj].
    apply Hp; [done|]. split; [lia|exact Hj].
Qed.

(** One inode: the loop body of contest 1 simulates that of [xcheck]. *)
Lemma check_inode1_sim ks k m t maps mt' maps' :
  loop_inv img ks (m, t) -> (k < ninodes img)%nat -> recorded img maps ->
  check_inode1 parent_check img (data_start img) (read_bmap img) k (m, t, maps) = Done (mt', maps') ->
  check_inode img (data_start img) (read_bmap img) k (m, t) = Done mt' /\ recorded img maps' /\
  Forall (parent_ok good k) (entries img (nth_inode img k)).
Proof.
  intros Hinv Hk Hrec H. pose proof Hinv as (Hm & Ht & Hb). cbn [fst snd] in *.
  unfold check_inode1 in H. unfold check_inode.
  destruct (tallied_inode img _ _ k Ht Hk) as (d & Hd & Ety & Ead & Esz & Ebl & Edir). rewrite Hd in *.
  apply obind_Done in H as ([] & Hty & H). rewrite Hty. cbn [obind].
  apply obind_Done in H as (m1 & Hm1 & H). rewrite Hm1. cbn [obind].
  apply obind_Done in H as ([t1 maps1] & H1 & H). injection H as <- <-.
  destruct (Z.eqb_spec (di_type d) T_DIR) as [E|E].
  - pose proof (Edir E) as Ed. subst d. assert (Ha : 0 <= default 0 (di_addrs (nth_inode img k) !! 0%nat) < FSSIZE).
    { rewrite E in Hm1. cbn in Hm1.
      apply check_addrs_Done in Hm1 as (Hok & _); [|rewrite Hm; unfold wide; by rewrite length_marks, length_replicate|apply nth_addrs_ok].
      apply (inode_blocks_small img); [apply nth_addrs_ok|done]. }
    apply check_dir1_Done in H1 as (H1 & Hr & Hp); [|done|done|done|by exists (refs img ks)]. rewrite H1. done.
  - injection H1 as <- <-. cbn [obind]. split_and!; [done|done|].
    unfold entries. rewrite <- Ety, (proj2 (Z.eqb_neq _ _) E). constructor.
Qed.

Lemma check_inodes1_sim ks : forall pre m t maps mt' maps',
  loop_inv img pre (m, t) -> Forall (fun k => (k < ninodes img)%nat) ks -> recorded img maps ->
  ofold (check_inode1 parent_check img (data_start img) (read_bmap img)) ks (m, t, maps) = Done (mt', maps') ->
  ofold (check_inode img (data_start img) (read_bmap img)) ks (m, t) = Done mt' /\
  Forall (fun k => Forall (parent_ok good k) (entries img (nth_inode img k))) ks.
Proof.
  induction ks as [|k ks IH]; intros pre m t maps mt' maps' Hinv Hks Hrec H; cbn [ofold] in *.
  - injection H as <- <-. split; [done|constructor].
  - apply Forall_cons in Hks as [Hk Hks]. apply obind_Done in H as ([mt1 maps1] & H1 & H).
    destruct (check_inode1_sim pre _ _ _ _ _ _ Hinv Hk Hrec H1) as (E & Hr1 & Hp). rewrite E. cbn [obind].
    destruct (check_inode_Done img pre k _ _ Hinv Hk E) as (_ & _ & _ & Hinv1).
    destruct mt1 as [m1 t1]. destruct (IH _ _ _ _ _ _ Hinv1 Hks Hr1 H) as [E2 Hp2].
    split; [done|by constructor].
Qed.

Lemma xcheck_with_sound :
  xcheck_with parent_check img = Done tt ->
  xcheck img = Done tt /\
  forall k e, k ∈ inums img -> e ∈ entries img (nth_inode img k) -> parent_ok good k e.
Proof.
  intros H. unfold xcheck_with in H. unfold xcheck.
  apply obind_Done in H as ([] & -> & H). apply obind_Done in H as ([] & -> & H). cbn [obind]. cbv zeta in H |- *.
  apply obind_Done in H as ([[mk t] maps] & Hl & H). cbn beta iota in H.
  apply (check_inodes1_sim (inums img) []) in Hl as [Hl Hp].
  - fold (inums img). rewrite Hl. cbn [obind]. split; [exact H|]. intros k e Hk He.
    rewrite Forall_forall in Hp. specialize (Hp k Hk). rewrite Forall_forall in Hp. auto.
  - split_and!; [done|apply tallied_init|constructor].
  - apply inums_lt.
  - intros p l c Hp Hc. apply lookup_replicate in Hp as [-> _]. by apply elem_of_nil in Hc.
Qed.

End simulation.

(** C10: the checker of contest 1 accepts only images that [xcheck] accepts, and
    in every image it accepts, each directory other than the root is named by
    an entry of the directory its own entry [..] names. *)
Theorem xcheck1_sound img :
  xcheck1 img = Done tt ->
  xcheck img = Done tt /\
  forall k e, k ∈ inums img -> e ∈ entries img (nth_inode img k) -> parent_ok (named_by_parent img) k e.
Proof. apply xcheck_with_sound. intros i de t maps Hrec _ _ H. by eapply check_parent_Done. Qed.

(** Tracing looks at sizes and addresses only. *)
Lemma for_dir_ext img d d' body body' offs :
  di_size d = di_size d' -> di_addrs d = di_addrs d' -> (forall e, body e = body' e) ->
  for_dir offs img d body = for_dir offs img d' body'.
Proof.
  intros Es Ea Hb. induction offs as [|off offs IH]; cbn [for_dir]; [done|].
  unfold read_inode_data. rewrite Es, Ea, IH. case_match; [done|].
  match goal with |- match ?m with _ => _ end = _ => destruct m end; [|done..]. by rewrite Hb.
Qed.

Lemma trace_parent_ext img l l' fuel : forall j leaf,
  (forall i, (fun d => (di_size d, di_addrs d)) <$> l !! i = (fun d => (di_size d, di_addrs d)) <$> l' !! i) ->
  trace_parent fuel img l j leaf = trace_parent fuel img l' j leaf.
Proof.
  induction fuel as [|fuel IH]; intros j leaf H; [done|]. cbn [trace_parent].
  pose proof (H (Z.to_nat j)) as Hj.
  destruct (l !! Z.to_nat j) as [d|], (l' !! Z.to_nat j) as [d'|]; [|done..].
  injection Hj as Es Ea. apply for_dir_ext; [done|done|]. intros e.
  destruct (_ && _); [done|]. destruct (_ && _); [by apply IH|done].
Qed.

Lemma tallied_same_shape img rs t i :
  tallied img rs t ->
  (fun d => (di_size d, di_addrs d)) <$> t_inodes t !! i
  = (fun d => (di_size d, di_addrs d)) <$> read_inodes img !! i.
Proof.
  intros Ht. unfold read_inodes. rewrite list_lookup_fmap. destruct (decide (i < ninodes img)%nat) as [Hi|Hi].
  - rewrite (tal_inodes _ _ _ Ht i Hi), lookup_seq_lt by done. cbn [fmap option_fmap option_map].
    f_equal. by destruct (di_type (nth_inode img i) =? T_FILE).
  - rewrite lookup_seq_ge by lia. rewrite lookup_ge_None_2; [done|]. rewrite (tal_len3 _ _ _ Ht). lia.
Qed.

(** The checker of contest 2 accepts only images that [xcheck] accepts, and
    in every image it accepts, from the parent of each directory other than the
    root the parent entries lead to the root without passing the directory
    itself. *)
Theorem xcheck2_sound depth img :
  xcheck2 depth img = Done tt ->
  xcheck img = Done tt /\
  forall k e, k ∈ inums img -> e ∈ entries img (nth_inode img k) -> parent_ok (leads_to_root depth img) k e.
Proof.
  apply xcheck_with_sound. intros i de t maps _ (rs & Ht) _ H. unfold check_parent2 in H.
  destruct (maps !! _); [|done]. unfold leads_to_root.
  rewrite (trace_parent_ext img _ (t_inodes t)) by (intros j; symmetry; by eapply tallied_same_shape).
  destruct (trace_parent depth img (t_inodes t) _ _); [|done]. by rewrite H.
Qed.

(** An image whose root holds one directory, inode 2, in block 60; its entry
    [..] names inode [up] and it has [n] inodes. *)
Definition sub_fs (up : Z) : image :=
  image_of (bytes32 (512 + 4) 941 ++ bytes32 (512 + 8) 3 ++ bytes32 (512 + 20) 32 ++ bytes32 (512 + 24) 58 ++
    put_inode 1 1 1 48 59 ++ put_inode 2 1 1 32 60 ++
    put_entry 59 0 1 [46] ++ put_entry 59 1 1 [46; 46] ++ put_entry 59 2 2 [100] ++
    put_entry 60 0 2 [46] ++ put_entry 60 1 up [46; 46] ++ [(58 * 512 + 7, 24)]).

Lemma xcheck1_sound_witness :
  xcheck1 (sub_fs 1) = Done tt /\ xcheck (sub_fs 1) = Done tt.
Proof.
  assert (H : xcheck1 (sub_fs 1) = Done tt) by (vm_compute; reflexivity).
  split; [exact H|]. exact (proj1 (xcheck1_sound (sub_fs 1) H)).
Defined.

Lemma xcheck2_sound_witness :
  xcheck2 5 (sub_fs 1) = Done tt /\ xcheck (sub_fs 1) = Done tt.
Proof.
  assert (H : xcheck2 5 (sub_fs 1) = Done tt) by (vm_compute; reflexivity).
  split; [exact H|]. exact (proj1 (xcheck2_sound 5 (sub_fs 1) H)).
Defined.

Example xcheck1_mismatch :
  xcheck1 (sub_fs 2) = Fail "ERROR: parent directory mismatch."%string /\ xcheck (sub_fs 2) = Done tt.
Proof. vm_compute. split; reflexivity. Qed.

(** ** Tracing the way to the root *)

(** The loop of [trace_parent] over the entries of a directory. *)
Fixpoint for_entries (es : list dirent) (body : dirent -> option (outcome string unit)) :
    option (outcome string unit) :=
  match es with
  | [] => Some (Done tt)
  | e :: es => match body e with Some (Done _) => for_entries es body | r => r end
  end.

Lemma for_dir_entries img d body m : forall k,
  0 <= default 0 (d.(di_addrs) !! 0%nat) < FSSIZE -> d.(di_size) <= BSIZE ->
  (k + m = 33)%nat -> (k <= 32)%nat ->
  for_dir ((fun k => 16 * Z.of_nat k) <$> seq k m) img d body
  = for_entries (entry_at img d <$> seq k (dir_count d - k)) body.
Proof.
  induction m as [|m IH]; intros k Ha Hs Hkm Hk; [lia|]. cbn [seq fmap list_fmap for_dir].
  pose proof (dir_count_lt d k) as Hcnt. unfold BSIZE in Hs.
  destruct (Z.leb_spec (di_size d) (16 * Z.of_nat k)).
  { replace (dir_count d - k)%nat with 0%nat by lia. done. }
  rewrite read_inode_data_eq by done. rewrite decide_False by lia.
  replace (dir_count d - k)%nat with (S (dir_count d - S k)) by lia. cbn [seq fmap list_fmap for_entries].
  rewrite IH by lia || done. done.
Qed.

Lemma for_dir_all img d body :
  0 <= default 0 (d.(di_addrs) !! 0%nat) < FSSIZE -> d.(di_size) <= BSIZE -> d.(di_type) = T_DIR ->
  for_dir dir_offs img d body = for_entries (entries img d) body.
Proof.
  intros Ha Hs Hd. unfold dir_offs. rewrite for_dir_entries by lia || done.
  unfold entries. rewrite Hd, Nat.sub_0_r. done.
Qed.

(** Directory [j], with its entry [.] and with parent [p]. *)
Record dir_with_parent (img : image) (inodes : list dinode) (j p : Z) : Prop := {
  dwp_inode : exists d, inodes !! Z.to_nat j = Some d /\ d.(di_type) = T_DIR /\ d.(di_size) <= BSIZE /\
    0 <= default 0 (d.(di_addrs) !! 0%nat) < FSSIZE /\
    Exists (fun e => is_dot e.(de_name) = true) (entries img d) /\
    Forall (fun e => is_dot e.(de_name) = true -> e.(de_inum) = j) (entries img d) /\
    Exists (fun e => is_dotdot e.(de_name) = true) (entries img d) /\
    Forall (fun e => is_dotdot e.(de_name) = true -> e.(de_inum) = p) (entries img d) }.

(** [chain p js]: from [p] the parents are [js], and the parent of the last one
    is the root. *)
Inductive chain (img : image) (inodes : list dinode) : list Z -> Prop :=
| chain_last j : dir_with_parent img inodes j ROOTINO -> chain img inodes [j]
| chain_step j p js : dir_with_parent img inodes j p -> p <> ROOTINO ->
    chain img inodes (p :: js) -> chain img inodes (j :: p :: js).

Lemma for_entries_result es (body : dirent -> option (outcome string unit)) (bad : dirent -> Prop)
    {Hdec : forall e, Decision (bad e)} m :
  Forall (fun e => body e = Some (if decide (bad e) then Fail m else Done tt)) es ->
  for_entries es body = Some (if decide (Exists bad es) then Fail m else Done tt).
Proof.
  induction es as [|e es IH]; intros H; cbn [for_entries].
  - rewrite decide_False by (by intros ?%Exists_nil). done.
  - apply Forall_cons in H as [-> H]. destruct (decide (bad e)) as [Hb|Hb].
    + rewrite decide_True by (by constructor). done.
    + rewrite IH by done. f_equal. apply decide_ext. rewrite Exists_cons. naive_solver.
Qed.

Lemma trace_parent_S fuel img inodes j leaf :
  trace_parent (S fuel) img inodes j leaf =
  match inodes !! Z.to_nat j with
  | None => Some (Crash "inode number out of bounds"%string)
  | Some inode =>
      for_dir dir_offs img inode (fun de =>
        if is_dot de.(de_name) && (de.(de_inum) =? leaf)
        then Some (Fail "ERROR: inaccessible directory exists."%string)
        else if is_dotdot de.(de_name) && negb (de.(de_inum) =? ROOTINO)
             then trace_parent fuel img inodes de.(de_inum) leaf
             else Some (Done tt))
  end.
Proof. done. Qed.

(** For a directory from which the parent entries lead to the root,
    [trace_parent] returns, with as many nested calls as there are directories
    on the way, and reports an inaccessible directory exactly when the
    directory it started for lies on its own way to the root. *)
Lemma trace_chain img inodes js j leaf :
  chain img inodes (j :: js) ->
  trace_parent (S (length js)) img inodes j leaf =
  Some (if decide (leaf ∈ j :: js) then Fail "ERROR: inaccessible directory exists."%string else Done tt).
Proof.
  revert j; induction js as [|p js IH]; intros j H; rewrite trace_parent_S; cbn [length].
  - inversion H as [? Hw|]; subst. destruct Hw as [(d & -> & Hd & Hs & Ha & Hdot & Hself & Hdd & Hpar)].
    rewrite for_dir_all by done.
    rewrite (for_entries_result _ _ (fun e => is_dot e.(de_name) = true /\ leaf = j) "ERROR: inaccessible directory exists."%string).
    + f_equal. apply decide_ext. rewrite list_elem_of_singleton, Exists_exists.
      rewrite Exists_exists in Hdot. destruct Hdot as (e1 & ? & ?). split; [intros (e & _ & _ & ?); done|]. eauto.
    + apply Forall_forall. intros e He. rewrite Forall_forall in Hself, Hpar.
      destruct (is_dot (de_name e)) eqn:E1; cbn [andb].
      * rewrite (Hself e He E1). destruct (Z.eqb_spec j leaf).
        -- rewrite decide_True by done. done.
        -- rewrite (dot_not_dotdot _ E1). rewrite decide_False by (intros [_ ?]; congruence). done.
      * rewrite decide_False by (intros [? _]; congruence). destruct (is_dotdot (de_name e)) eqn:E2; [|done].
        rewrite (Hpar e He E2). done.
  - inversion H as [|? ? ? Hw Hp Hc]; subst. destruct Hw as [(d & -> & Hd & Hs & Ha & Hdot & Hself & Hdd & Hpar)].
    rewrite for_dir_all by done.
    rewrite (for_entries_result _ _ (fun e => is_dot e.(de_name) = true /\ leaf = j \/
      is_dotdot e.(de_name) = true /\ leaf ∈ p :: js) "ERROR: inaccessible directory exists."%string).
    + f_equal. apply decide_ext. rewrite Exists_exists, (elem_of_cons (p :: js) leaf j).
      rewrite Exists_exists in Hdot, Hdd. destruct Hdot as (e1 & ? & ?), Hdd as (e2 & ? & ?).
      split; [intros (e & _ & [[_ ?]|[_ ?]]); auto|]. intros [?|?]; [exists e1; auto|exists e2; auto].
    + apply Forall_forall. intros e He. rewrite Forall_forall in Hself, Hpar.
      destruct (is_dot (de_name e)) eqn:E1; cbn [andb].
      * rewrite (Hself e He E1), (dot_not_dotdot _ E1). destruct (Z.eqb_spec j leaf); cbn [andb].
        -- rewrite decide_True by auto. done.
        -- rewrite decide_False by (intros [[_ ?]|[? _]]; congruence). done.
      * destruct (is_dotdot (de_name e)) eqn:E2; cbn [andb].
        -- rewrite (Hpar e He E2), (proj2 (Z.eqb_neq _ _) Hp). cbn [negb]. rewrite (IH p Hc). f_equal.
           apply decide_ext. split; [auto|]. intros [[? _]|[_ ?]]; [congruence|done].
        -- rewrite decide_False by (intros [[? _]|[? _]]; congruence). done.
Qed.

(** The directory of the image, by evaluation. *)
Ltac sub_dir img :=
  split; eexists; split_and!;
  [ vm_compute; reflexivity | reflexivity | vm_compute; discriminate | vm_compute; congruence
  | vm_compute; reflexivity
  | apply Exists_exists; exists (entry_at img (nth_inode img 2) 0); (split; [|vm_compute; reflexivity]);
    apply (entry_at_in img (nth_inode img 2) 0); [vm_compute; reflexivity|vm_compute; lia]
  | vm_compute; repeat constructor; intros ?; congruence
  | apply Exists_exists; exists (entry_at img (nth_inode img 2) 1); (split; [|vm_compute; reflexivity]);
    apply (entry_at_in img (nth_inode img 2) 1); [vm_compute; reflexivity|vm_compute; lia]
  | vm_compute; repeat constructor; intros ?; congruence ].

Lemma sub_fs_chain : chain (sub_fs 1) (read_inodes (sub_fs 1)) [2].
Proof. apply chain_last. sub_dir (sub_fs 1). Qed.

Lemma sub_fs_circle : dir_with_parent (sub_fs 2) (read_inodes (sub_fs 2)) 2 2.
Proof. sub_dir (sub_fs 2). Qed.

(** When the parent entries lead into a circle that does not contain the
    directory it started for, [trace_parent] never returns: no number of
    nested calls is enough. *)
Lemma trace_circle img inodes (succ : Z -> Z) (S : list Z) leaf :
  (forall j, j ∈ S -> dir_with_parent img inodes j (succ j) /\ succ j ∈ S /\ succ j <> ROOTINO /\ j <> leaf) ->
  forall fuel j, j ∈ S -> trace_parent fuel img inodes j leaf = None.
Proof.
  intros HS fuel. induction fuel as [|fuel IH]; intros j Hj; [done|]. rewrite trace_parent_S.
  destruct (HS j Hj) as ([(d & -> & Hd & Hs & Ha & Hdot & Hself & Hdd & Hpar)] & Hin & Hroot & Hleaf).
  rewrite for_dir_all by done. clear Hdot.
  induction (entries img d) as [|e es IHes]; [by apply Exists_nil in Hdd|].
  apply Forall_cons in Hself as [Hse Hself], Hpar as [Hpe Hpar]. cbn [for_entries].
  destruct (is_dot (de_name e)) eqn:E1; cbn [andb].
  - rewrite (Hse eq_refl), (proj2 (Z.eqb_neq _ _) Hleaf), (dot_not_dotdot _ E1). cbn [andb].
    apply IHes; [done| |done]. apply Exists_cons in Hdd as [Hdd|?]; [|done].
    by rewrite (dot_not_dotdot _ E1) in Hdd.
  - destruct (is_dotdot (de_name e)) eqn:E2; cbn [andb].
    + rewrite (Hpe eq_refl), (proj2 (Z.eqb_neq _ _) Hroot). cbn [negb]. by rewrite IH.
    + apply IHes; [done| |done]. apply Exists_cons in Hdd as [Hdd|?]; [congruence|done].
Qed.

(** C13: when [trace_parent] returns.  From a directory whose parent entries
    lead to the root it returns, with as many nested calls as there are
    directories on the way, and reports an inaccessible directory exactly when
    the directory it started for lies on its own way.  When the parent entries
    lead into a circle without the directory it started for, no number of nested
    calls is enough. *)
Theorem trace_parent_termination img inodes leaf :
  (forall j js, chain img inodes (j :: js) ->
     trace_parent (S (length js)) img inodes j leaf =
     Some (if decide (leaf ∈ j :: js) then Fail "ERROR: inaccessible directory exists."%string else Done tt)) /\
  (forall (succ : Z -> Z) (circle : list Z),
     (forall j, j ∈ circle -> dir_with_parent img inodes j (succ j) /\ succ j ∈ circle /\ succ j <> ROOTINO /\ j <> leaf) ->
     forall fuel j, j ∈ circle -> trace_parent fuel img inodes j leaf = None).
Proof. split; [intros j js; apply trace_chain|intros succ circle; apply trace_circle]. Qed.

(** A directory below the root, and one that is its own parent. *)
Lemma trace_parent_termination_witness :
  trace_parent 1 (sub_fs 1) (read_inodes (sub_fs 1)) 2 7 = Some (Done tt) /\
  trace_parent 1000 (sub_fs 2) (read_inodes (sub_fs 2)) 2 3 = None.
Proof.
  split.
  - destruct (trace_parent_termination (sub_fs 1) (read_inodes (sub_fs 1)) 7) as [H _]. exact (H 2 [] sub_fs_chain).
  - destruct (trace_parent_termination (sub_fs 2) (read_inodes (sub_fs 2)) 3) as [_ H].
    apply (H (fun j => j) [2]); [|set_solver].
    intros j ->%list_elem_of_singleton. split; [exact sub_fs_circle|]. split; [set_solver|]. done.
Defined.
