(* ===== verification/XcheckRepair.v ===== *)
(** * Repairing lost inodes

    The repair routines of [projects/filesystems-check/xcheck_contest_3.c]:
    [check_address] with its record of the last block met, [xint], [rsect],
    [wsect], [iappend], [mov_lost_found], the loop of [main] that links every
    lost inode into the directory [lost_found], and the write-back of that
    directory's inode. *)

From Stdlib Require Import ZArith Lia String.
From stdpp Require Import base tactics list list_numbers numbers sets.
From S2P Require Import Prelude FsImage Xcheck XcheckSpec.

Local Open Scope Z_scope.
Local Open Scope ostep_scope.

(** ** Definitions *)

(** The state of the checks of contest 3, which report errors and go on: the
    marks, the static variable [data_end_block] and the messages. *)
Record cst := mkCst { c_mark : list Z; data_end_block : Z; c_msgs : list string }.

Definition say (b : bool) (m : string) (l : list string) : list string := if b then l ++ [m] else l.

Definition check_address3 (addr : Z) (direct : bool) (data_start : Z) (bmap : list Z) (s : cst) :
    outcome string cst :=
  let msgs := say (((addr <? data_start) && negb (addr =? 0)) || (FSSIZE <=? addr))
                (if direct then "ERROR: bad direct address in inode."
                 else "ERROR: bad indirect address in inode.")%string s.(c_msgs) in
  if addr =? 0 then Done (mkCst s.(c_mark) s.(data_end_block) msgs)
  else if NBMAP <=? addr / 8 then Crash "bitmap index out of bounds"%string
  else
    let msgs := say (negb (getbit bmap addr))
                  "ERROR: address used by inode but marked free in bitmap."%string msgs in
    let msgs := say (getbit s.(c_mark) addr)
                  (if direct then "ERROR: direct address used more than once."
                   else "ERROR: indirect address used more than once.")%string msgs in
    Done (mkCst (setbit s.(c_mark) addr) addr msgs).

(** [xint]: the four bytes of a number, stored in order and read back. *)
Definition xint (x : Z) : Z :=
  u8 x + 256 * u8 (Z.shiftr x 8) + 65536 * u8 (Z.shiftr x 16) + 16777216 * u8 (Z.shiftr x 24).

(** Bytes written over an image. *)
Definition write_at (img : image) (off : Z) (bs : list Z) : image :=
  fun o => if (off <=? o) && (o <? off + Z.of_nat (length bs))
           then default 0 (bs !! Z.to_nat (o - off)) else img o.

Definition rsect (img : image) (sec : Z) (n : nat) : outcome string (list Z) :=
  let* _ := touch (u32 (sec * BSIZE)) (Z.of_nat n) in
  Done ((fun k => rd8 img (u32 (sec * BSIZE) + Z.of_nat k)) <$> seq 0 n).

Definition wsect (img : image) (buf : list Z) (sec : Z) : outcome string image :=
  let* _ := touch (u32 (sec * BSIZE)) (Z.of_nat (length buf)) in
  Done (write_at img (u32 (sec * BSIZE)) buf).

(** The words of a block and the bytes of a list of words. *)
Definition le32 (v : Z) : list Z := [v mod 256; v / 256 mod 256; v / 65536 mod 256; v / 16777216].

(** The block that holds byte [off], allocated if needed: [iappend] up to the
    assignment of [x]. *)
Definition iappend_block (din : dinode) (img : image) (deb fbn : Z) :
    outcome string (dinode * image * Z * Z) :=
  let set_addr k v d := mkDinode d.(di_type) d.(di_major) d.(di_minor) d.(di_nlink) d.(di_size)
                          (<[k := v]> d.(di_addrs)) in
  let addr k d := default 0 (d.(di_addrs) !! k) in
  if fbn <? Z.of_nat NDIRECT then
    let k := Z.to_nat fbn in
    if xint (addr k din) =? 0
    then Done (set_addr k (xint deb) din, img, u32 (deb + 1), xint (xint deb))
    else Done (din, img, deb, xint (addr k din))
  else
    let '(din, deb) := if xint (addr NDIRECT din) =? 0
                       then (set_addr NDIRECT (xint deb) din, u32 (deb + 1)) else (din, deb) in
    let ind := addr NDIRECT din in
    let* _ := touch (u32 (ind * BSIZE)) (4 * Z.of_nat NINDIRECT) in
    let words := words_at img (u32 (ind * BSIZE)) NINDIRECT in
    let k := Z.to_nat (fbn - Z.of_nat NDIRECT) in
    if default 0 (words !! k) =? 0 then
      let words := <[k := xint deb]> words in
      let* img := wsect img (words ≫= le32) ind in
      Done (din, img, u32 (deb + 1), xint (xint deb))
    else Done (din, img, deb, xint (default 0 (words !! k))).

(** [while(n > 0)]: every turn writes at least one of the bytes [p] left. *)
Fixpoint iappend_loop (fuel : nat) (din : dinode) (img : image) (deb off : Z) (p : list Z) :
    outcome string (dinode * image * Z * Z) :=
  match p, fuel with
  | [], _ => Done (din, img, deb, off)
  | _, O => Crash "fuel"%string
  | _, S fuel =>
      let fbn := off / BSIZE in
      if Z.of_nat (NDIRECT + NINDIRECT) <=? fbn then Crash "assert(fbn < MAXFILE)"%string else
      let* '(din, img, deb, x) := iappend_block din img deb fbn in
      let n1 := Z.to_nat (Z.min (Z.of_nat (length p)) ((fbn + 1) * BSIZE - off)) in
      let* buf := rsect img x (Z.to_nat BSIZE) in
      let at_ := Z.to_nat (off - fbn * BSIZE) in
      let buf := take at_ buf ++ take n1 p ++ drop (at_ + n1) buf in
      let* img := wsect img buf x in
      iappend_loop fuel din img deb (off + Z.of_nat n1) (drop n1 p)
  end.

Definition set_size (n : Z) (d : dinode) : dinode :=
  mkDinode d.(di_type) d.(di_major) d.(di_minor) d.(di_nlink) n d.(di_addrs).

(** The inodes, the image and [data_end_block] after [p] has been appended to
    the file of inode [dir]. *)
Definition iappend (inodes : list dinode) (img : image) (deb : Z) (dir : nat) (p : list Z) :
    outcome string (list dinode * image * Z) :=
  match inodes !! dir with
  | None => Crash "inode number out of bounds"%string
  | Some din =>
      let* '(din, img, deb, off) := iappend_loop (length p) din img deb din.(di_size) p in
      Done (<[dir := set_size (xint off) din]> inodes, img, deb)
  end.

(** The name lost_inodes, padded with zeros by [strncpy]. *)
Definition lost_name : list Z := [108; 111; 115; 116; 95; 105; 110; 111; 100; 101; 115; 0; 0; 0].

(** The bytes of a directory entry. *)
Definition dirent_bytes (e : dirent) : list Z := [e.(de_inum) mod 256; e.(de_inum) / 256] ++ e.(de_name).

Definition mov_lost_found (img : image) (inodes : list dinode) (deb : Z) (inum : Z) (dir : nat) :
    outcome string (list dinode * image * Z) :=
  iappend inodes img deb dir (dirent_bytes (mkDirent (u16 inum) lost_name)).

(** The loop of [main] with [repair] set: error 9 for each inode [j]. *)
Definition repair_lost (t_dir : list Z) (dir : nat) (j : nat)
    (s : list dinode * image * Z) : outcome string (list dinode * image * Z) :=
  let '(inodes, img, deb) := s in
  let type := default 0 (di_type <$> inodes !! j) in
  if negb (type =? 0) && (default 0 (t_dir !! j) =? 0)
  then mov_lost_found img inodes deb (Z.of_nat j) dir
  else Done s.

(** The bytes of an inode, and its write-back into the image. *)
Definition le16 (v : Z) : list Z := [u16 v mod 256; u16 v / 256].

Definition dinode_bytes (d : dinode) : list Z :=
  le16 d.(di_type) ++ le16 d.(di_major) ++ le16 d.(di_minor) ++ le16 d.(di_nlink) ++
  le32 d.(di_size) ++ (d.(di_addrs) ≫= le32).

Definition write_back (img : image) (start : Z) (inodes : list dinode) (dir : nat) :
    outcome string image :=
  match inodes !! dir with
  | None => Crash "inode number out of bounds"%string
  | Some d =>
      let off := u32 (start * BSIZE) + 64 * Z.of_nat dir in
      let* _ := touch off 64 in Done (write_at img off (dinode_bytes d))
  end.

(** ** Appending to a block in place *)

Lemma xint_id x : 0 <= x < 4294967296 -> xint x = x.
Proof.
  intros Hx. unfold xint, u8, wrapu. rewrite !Z.shiftr_div_pow2 by lia.
  change (2 ^ 8) with 256. change (2 ^ 16) with 65536. change (2 ^ 24) with 16777216.
  rewrite (Z.mod_small (x / 16777216)) by (split; [apply Z.div_pos; lia|apply Z.div_lt_upper_bound; lia]).
  pose proof (Z.div_mod x 256 ltac:(lia)). pose proof (Z.div_mod (x / 256) 256 ltac:(lia)).
  pose proof (Z.div_mod (x / 65536) 256 ltac:(lia)).
  assert (E1 : x / 256 / 256 = x / 65536) by (rewrite Z.div_div by lia; done).
  assert (E2 : x / 65536 / 256 = x / 16777216) by (rewrite Z.div_div by lia; done).
  lia.
Qed.

Lemma write_at_out img off bs o :
  ~ (off <= o < off + Z.of_nat (length bs)) -> write_at img off bs o = img o.
Proof.
  intros H. unfold write_at. destruct (Z.leb_spec off o), (Z.ltb_spec o (off + Z.of_nat (length bs))); cbn; done || lia.
Qed.

Lemma write_at_in img off bs k b :
  bs !! k = Some b -> write_at img off bs (off + Z.of_nat k) = b.
Proof.
  intros H. pose proof (lookup_lt_Some _ _ _ H). unfold write_at.
  rewrite (proj2 (Z.leb_le _ _)), (proj2 (Z.ltb_lt _ _)) by lia. cbn.
  replace (Z.to_nat (off + Z.of_nat k - off)) with k by lia. by rewrite H.
Qed.

(** A block read, overwritten from byte [a] on and written back. *)
Lemma block_splice img sec a p o :
  0 <= sec < FSSIZE -> (a + length p <= 512)%nat -> bytes p ->
  let base := sec * BSIZE in
  let buf := (fun k => rd8 img (base + Z.of_nat k)) <$> seq 0 512 in
  rd8 (write_at img base (take a buf ++ p ++ drop (a + length p) buf)) o =
  rd8 (write_at img (base + Z.of_nat a) p) o.
Proof.
  intros Hsec Ha Hp base buf. assert (Hlen : length buf = 512%nat) by (unfold buf; by rewrite length_fmap, length_seq).
  assert (Hbl : forall k, (k < 512)%nat -> buf !! k = Some (rd8 img (base + Z.of_nat k))).
  { intros k Hk. unfold buf. rewrite list_lookup_fmap, lookup_seq_lt by done. done. }
  assert (Hlen2 : length (take a buf ++ p ++ drop (a + length p) buf) = 512%nat)
    by (rewrite !length_app, length_take, length_drop, Hlen; lia).
  destruct (decide (base <= o < base + 512)) as [Hin|Hout].
  2: { unfold rd8. rewrite !write_at_out; [done|lia|rewrite Hlen2; lia]. }
  set (k := Z.to_nat (o - base)). assert (Ek : o = base + Z.of_nat k) by (unfold k; lia).
  assert (Hk : (k < 512)%nat) by (unfold k; lia).
  assert (Hu : forall x, 0 <= x < 256 -> u8 x = x) by (intros; by apply u8_small).
  destruct (decide (k < a)%nat).
  { unfold rd8. rewrite (write_at_out _ (base + Z.of_nat a)) by lia. rewrite Ek.
    erewrite write_at_in; [rewrite Hu; [reflexivity|apply rd8_range]|].
    rewrite lookup_app_l by (rewrite length_take; lia). rewrite lookup_take_lt by lia. by apply Hbl. }
  destruct (decide (k < a + length p)%nat).
  { destruct (lookup_lt_is_Some_2 p (k - a)) as [b Hb]; [lia|].
    unfold rd8. rewrite Ek. rewrite (write_at_in img base _ k b).
    - replace (base + Z.of_nat k) with (base + Z.of_nat a + Z.of_nat (k - a)) by lia. by rewrite (write_at_in _ _ _ _ b).
    - rewrite lookup_app_r by (rewrite length_take; lia). rewrite length_take, Nat.min_l by lia.
      rewrite lookup_app_l by lia. done. }
  unfold rd8. rewrite (write_at_out _ (base + Z.of_nat a)) by lia. rewrite Ek.
  erewrite write_at_in; [rewrite Hu; [reflexivity|apply rd8_range]|].
  rewrite lookup_app_r by (rewrite length_take; lia). rewrite length_take, Nat.min_l by lia.
  rewrite lookup_app_r by lia. rewrite lookup_drop.
  replace (a + length p + (k - a - length p))%nat with k by lia. by apply Hbl.
Qed.

Lemma iappend_loop_S fuel din img deb off p :
  p <> [] ->
  iappend_loop (S fuel) din img deb off p =
  (let fbn := off / BSIZE in
   if Z.of_nat (NDIRECT + NINDIRECT) <=? fbn then Crash "assert(fbn < MAXFILE)"%string else
   let* '(din, img, deb, x) := iappend_block din img deb fbn in
   let n1 := Z.to_nat (Z.min (Z.of_nat (length p)) ((fbn + 1) * BSIZE - off)) in
   let* buf := rsect img x (Z.to_nat BSIZE) in
   let at_ := Z.to_nat (off - fbn * BSIZE) in
   let buf := take at_ buf ++ take n1 p ++ drop (at_ + n1) buf in
   let* img := wsect img buf x in
   iappend_loop fuel din img deb (off + Z.of_nat n1) (drop n1 p)).
Proof. by destruct p. Qed.

Lemma iappend_fits inodes img deb dir d p a :
  inodes !! dir = Some d -> bytes p -> p <> [] ->
  0 <= d.(di_size) -> d.(di_size) / BSIZE < Z.of_nat NDIRECT ->
  d.(di_addrs) !! Z.to_nat (d.(di_size) / BSIZE) = Some a -> 0 < a < FSSIZE ->
  d.(di_size) mod BSIZE + Z.of_nat (length p) <= BSIZE ->
  exists img', iappend inodes img deb dir p
    = Done (<[dir := set_size (d.(di_size) + Z.of_nat (length p)) d]> inodes, img', deb) /\
    forall o, rd8 img' o = rd8 (write_at img (a * BSIZE + d.(di_size) mod BSIZE) p) o.
Proof.
  intros Hd Hby Hne Hs Hf Ha Har Hfit. unfold iappend. rewrite Hd.
  destruct (length p) as [|n] eqn:El; [by destruct p|]. rewrite iappend_loop_S by done. rewrite <- El in *.
  set (off := di_size d) in *. set (fbn := off / BSIZE) in *.
  assert (Hmod : off = BSIZE * fbn + off mod BSIZE) by (apply Z.div_mod; unfold BSIZE; lia).
  assert (Hmb : 0 <= off mod BSIZE < BSIZE) by (apply Z.mod_pos_bound; unfold BSIZE; lia).
  assert (Hfb : 0 <= fbn) by (apply Z.div_pos; unfold BSIZE; lia).
  cbv zeta. fold fbn.
  unfold NDIRECT, NINDIRECT, FSSIZE, BSIZE in *.
  rewrite (proj2 (Z.leb_gt _ _)) by lia. unfold iappend_block. unfold NDIRECT.
  rewrite (proj2 (Z.ltb_lt _ _)) by lia. cbv zeta. rewrite Ha. change (default 0 (Some a)) with a.
  rewrite (xint_id a) by lia. rewrite (proj2 (Z.eqb_neq a 0)) by lia. cbn [obind].
  rewrite Z.min_l by lia. rewrite Nat2Z.id. unfold id.
  unfold rsect. rewrite u32_small by (unfold BSIZE; lia). change (Z.to_nat 512) with 512%nat.
  rewrite (proj2 (touch_Done _ _)) by (unfold IMG_SIZE, FSSIZE, BSIZE; lia). cbn [obind].
  unfold BSIZE. set (buf := (fun k => rd8 img (a * 512 + Z.of_nat k)) <$> seq 0 512).
  assert (Hat : Z.to_nat (off - fbn * 512) = Z.to_nat (off mod 512)) by (f_equal; lia).
  rewrite Hat. rewrite (take_ge p) by lia.
  assert (Hbl : length buf = 512%nat) by (unfold buf; by rewrite length_fmap, length_seq).
  assert (Hl2 : length (take (Z.to_nat (off mod 512)) buf ++ p ++ drop (Z.to_nat (off mod 512) + length p) buf) = 512%nat)
    by (rewrite !length_app, length_take, length_drop, Hbl; lia).
  unfold wsect. rewrite u32_small by (unfold BSIZE; lia). rewrite Hl2.
  rewrite (proj2 (touch_Done _ _)) by (unfold IMG_SIZE, FSSIZE, BSIZE; lia). cbn [obind].
  rewrite (drop_ge p) by lia.
  assert (Hend : forall f dd im de oo, iappend_loop f dd im de oo [] = Done (dd, im, de, oo)) by (by intros []).
  rewrite Hend. cbn [obind].
  eexists. split.
  - rewrite (xint_id (off + Z.of_nat (length p))); [reflexivity|]. lia.
  - intros o. etransitivity; [apply (block_splice img a (Z.to_nat (off mod 512)) p o); [unfold FSSIZE; lia|lia|done]|].
    unfold BSIZE. rewrite Z2Nat.id by lia. done.
Qed.

(** Appending bytes that fit in the last, already allocated direct block
    of a file: the bytes are written after the old contents, no other byte of
    the image changes, the size grows by their number and no block is
    allocated. *)
Lemma iappend_in_place inodes img deb dir d p a :
  inodes !! dir = Some d -> bytes p -> p <> [] ->
  0 <= d.(di_size) -> d.(di_size) / BSIZE < Z.of_nat NDIRECT ->
  d.(di_addrs) !! Z.to_nat (d.(di_size) / BSIZE) = Some a -> 0 < a < FSSIZE ->
  d.(di_size) mod BSIZE + Z.of_nat (length p) <= BSIZE ->
  exists img', iappend inodes img deb dir p
    = Done (<[dir := set_size (d.(di_size) + Z.of_nat (length p)) d]> inodes, img', deb) /\
    forall o, rd8 img' o = rd8 (write_at img (a * BSIZE + d.(di_size) mod BSIZE) p) o.
Proof. apply iappend_fits. Qed.

(** An entry depends on its 16 bytes only. *)
Lemma dirent_at_ext img img' o o' :
  (forall k, (k < 16)%nat -> rd8 img' (o' + Z.of_nat k) = rd8 img (o + Z.of_nat k)) ->
  dirent_at img' o' = dirent_at img o.
Proof.
  intros H. unfold dirent_at. f_equal.
  - unfold rd16. pose proof (H 0%nat ltac:(lia)) as H0. pose proof (H 1%nat ltac:(lia)) as H1.
    change (Z.of_nat 0) with 0 in H0. change (Z.of_nat 1) with 1 in H1.
    rewrite !Z.add_0_r in H0. by rewrite H0, H1.
  - apply list_fmap_ext. intros i k Hk. apply lookup_seq in Hk as [-> Hk].
    specialize (H (2 + i)%nat ltac:(lia)). cbn [Nat.add].
    replace (o' + 2 + Z.of_nat i) with (o' + Z.of_nat (2 + i)) by lia.
    replace (o + 2 + Z.of_nat i) with (o + Z.of_nat (2 + i)) by lia. exact H.
Qed.

(** Writing an entry and reading it back. *)
Lemma dirent_roundtrip img o e :
  0 <= e.(de_inum) < 65536 -> length e.(de_name) = 14%nat -> bytes e.(de_name) ->
  dirent_at (write_at img o (dirent_bytes e)) o = e.
Proof.
  intros Hi Hl Hb. destruct e as [inum nm]. cbn [de_inum de_name] in *. unfold dirent_at, rd16, rd8.
  assert (E0 : write_at img o (dirent_bytes (mkDirent inum nm)) o = inum mod 256).
  { rewrite <- (Z.add_0_r o) at 2. by apply (write_at_in _ _ _ 0). }
  assert (E1 : write_at img o (dirent_bytes (mkDirent inum nm)) (o + 1) = inum / 256).
  { by apply (write_at_in _ _ _ 1). }
  rewrite E0, E1.
  rewrite (u8_small (inum mod 256)) by (apply Z.mod_pos_bound; lia).
  rewrite (u8_small (inum / 256)) by (split; [apply Z.div_pos; lia|apply Z.div_lt_upper_bound; lia]).
  f_equal.
  - pose proof (Z.div_mod inum 256 ltac:(lia)). lia.
  - apply list_eq. intros i. rewrite list_lookup_fmap.
    destruct (decide (i < 14)%nat) as [Hlt|Hge].
    + rewrite lookup_seq_lt by done. destruct (lookup_lt_is_Some_2 nm i) as [b Hbi]; [lia|]. cbn [fmap option_fmap option_map].
      rewrite Hbi. f_equal. replace (o + 2 + Z.of_nat (0 + i)) with (o + Z.of_nat (2 + i)) by lia.
      rewrite (write_at_in _ _ _ _ b) by (cbn; done). apply u8_small.
      unfold bytes in Hb. rewrite Forall_lookup in Hb. eauto.
    + rewrite lookup_seq_ge by lia. cbn. symmetry. apply lookup_ge_None. lia.
Qed.

Lemma dirent_bytes_ok e :
  0 <= e.(de_inum) < 65536 -> length e.(de_name) = 14%nat -> bytes e.(de_name) ->
  bytes (dirent_bytes e) /\ length (dirent_bytes e) = 16%nat.
Proof.
  intros Hi Hl Hb. split; [|unfold dirent_bytes; rewrite length_app, Hl; done].
  unfold bytes, dirent_bytes. apply Forall_app. split; [|done].
  pose proof (Z.mod_pos_bound (de_inum e) 256 ltac:(lia)).
  assert (0 <= de_inum e / 256 < 256) by (split; [apply Z.div_pos; lia|apply Z.div_lt_upper_bound; lia]).
  repeat constructor; lia.
Qed.

(** C14: linking a lost inode into a directory whose block has room for another
    entry appends one entry, with the inode's number and the name lost_inodes,
    to the directory; the entries that were there stay. *)
Theorem lost_inode_linked inodes img deb dir d k a j :
  inodes !! dir = Some d -> d.(di_type) = T_DIR -> d.(di_size) = 16 * Z.of_nat k -> (k < 32)%nat ->
  d.(di_addrs) !! 0%nat = Some a -> 0 < a < FSSIZE -> 0 <= j < 65536 ->
  exists img' d', mov_lost_found img inodes deb j dir = Done (<[dir := d']> inodes, img', deb) /\
    entries img' d' = entries img d ++ [mkDirent j lost_name] /\ d'.(di_size) = d.(di_size) + 16.
Proof.
  intros Hd Hty Hs Hk Ha Har Hj. unfold mov_lost_found. rewrite u16_small by lia.
  set (e := mkDirent j lost_name).
  assert (Hnm : length (de_name e) = 14%nat /\ bytes (de_name e)) by (split; [done|]; repeat constructor; cbn; lia).
  destruct Hnm as [Hnl Hnb]. destruct (dirent_bytes_ok e Hj Hnl Hnb) as [Hby Hlen].
  unfold FSSIZE in Har.
  assert (Hq : di_size d / BSIZE = 0) by (rewrite Hs; apply Z.div_small; unfold BSIZE; lia).
  assert (Hr : di_size d mod BSIZE = 16 * Z.of_nat k) by (rewrite Hs; apply Z.mod_small; unfold BSIZE; lia).
  destruct (iappend_fits inodes img deb dir d (dirent_bytes e) a) as (img' & Hi & Himg); try done.
  { lia. } { rewrite Hq. unfold NDIRECT. lia. } { by rewrite Hq. } { rewrite Hr, Hlen. unfold BSIZE. lia. }
  exists img'. eexists. split; [exact Hi|]. rewrite Hlen. split; [|done].
  rewrite Hr in Himg. unfold entries. cbn [di_type set_size]. rewrite Hty. change (T_DIR =? T_DIR) with true. cbn iota.
  assert (Hc1 : dir_count d = k) by (unfold dir_count; rewrite Hs; replace (16 * Z.of_nat k + 15) with (15 + Z.of_nat k * 16) by lia;
    rewrite Z.div_add by lia; change (15 / 16) with 0; lia).
  assert (Hc2 : dir_count (set_size (di_size d + Z.of_nat 16) d) = S k).
  { unfold dir_count. cbn [di_size set_size]. rewrite Hs.
    replace (16 * Z.of_nat k + Z.of_nat 16 + 15) with (15 + (Z.of_nat k + 1) * 16) by lia.
    rewrite Z.div_add by lia. change (15 / 16) with 0. lia. }
  rewrite Hc1, Hc2, seq_S, fmap_app. f_equal.
  - apply list_fmap_ext. intros i x Hx. apply lookup_seq in Hx as [-> Hx]. unfold entry_at. cbn [di_addrs set_size].
    rewrite Ha.
    change (default 0 (Some a)) with a. rewrite u32_small by (unfold BSIZE; lia). apply dirent_at_ext. intros q Hq'.
    rewrite Himg. unfold rd8. rewrite write_at_out; [done|]. rewrite Hlen. lia.
  - cbn [fmap list_fmap]. f_equal. unfold entry_at. cbn [di_addrs set_size]. rewrite Ha.
    change (default 0 (Some a)) with a. rewrite u32_small by (unfold BSIZE; lia).
    etransitivity; [|apply (dirent_roundtrip img (a * BSIZE + 16 * Z.of_nat k) e Hj Hnl Hnb)].
    cbn [Nat.add]. apply dirent_at_ext. intros q Hq'. apply Himg.
Qed.

(** A directory in block 60 with [k] entries' worth of bytes. *)
Definition lost_dir (k : Z) : dinode := mkDinode 1 0 0 1 (16 * k) [60; 0; 0; 0; 0; 0; 0; 0; 0; 0; 0; 0; 0].

(** An image whose block 60 starts with an entry for inode [n]. *)
Definition sub_image (n : Z) : image := image_of (put_entry 60 0 n [46]).

Lemma lost_inode_linked_witness :
  exists img' d', mov_lost_found (sub_image 5) [lost_dir 2] 61 7 0 = Done ([d'], img', 61) /\
    length (entries img' d') = 3%nat.
Proof.
  destruct (lost_inode_linked [lost_dir 2] (sub_image 5) 61 0 (lost_dir 2) 2 60 7) as (img' & d' & H & He & _);
    try done; try lia.
  exists img', d'. split; [exact H|]. rewrite He. reflexivity.
Defined.

(** The block [iappend] allocates is not free.  [data_end_block] is the
    last block [check_address] met, not the one after it: when the block of the
    directory is full, the next entry goes to a block in use.  Here the last
    block met is the directory's own block 60: it becomes the second block of
    the directory too, and the new entry overwrites the entry [.]. *)
Lemma iappend_reuses_block :
  match check_address3 60 true 59 (setbit (replicate 637 0) 60) (mkCst (replicate 637 0) 0 []) with
  | Done s =>
      getbit s.(c_mark) 60 = true /\ s.(c_msgs) = [] /\
      match mov_lost_found (sub_image 2) [lost_dir 32] s.(data_end_block) 7 0 with
      | Done ([d], img, deb) =>
          di_addrs d !! 1%nat = Some 60 /\ di_addrs d !! 0%nat = Some 60 /\ deb = 61 /\
          de_inum (entry_at (sub_image 2) (lost_dir 32) 0) = 2 /\ de_inum (entry_at img d 0) = 7
      | _ => False
      end
  | _ => False
  end.
Proof. vm_compute. split_and!; reflexivity. Qed.
