(* ===== verification/Xcheck3.v ===== *)
(** * Contest 3 of the checker

    [main] of [projects/filesystems-check/xcheck_contest_3.c].  It prints its
    errors and goes on, links the inodes it finds lost into the directory
    [lost_found] and writes a repaired image.  The repair itself is in
    [XcheckRepair]; here are the scan, the arguments and how the whole compares
    with contest 1. *)

From Stdlib Require Import ZArith Lia String.
From stdpp Require Import base tactics list list_numbers numbers sets.
From S2P Require Import Prelude FsImage Xcheck XcheckSpec XcheckContest XcheckRepair.

Local Open Scope Z_scope.
Local Open Scope ostep_scope.

(** ** Definitions *)

Definition check_inode_type3 (type : Z) (s : cst) : cst :=
  mkCst s.(c_mark) s.(data_end_block)
    (say (negb (type =? 0) && negb (type =? T_DIR) && negb (type =? T_FILE) && negb (type =? T_DEV)) "ERROR: bad inode."%string s.(c_msgs)).

(** The loop over the addresses of one inode. *)
Definition check_addrs3 (img : image) (inode : dinode) (data_start : Z) (bmap : list Z) (s : cst) : outcome string cst :=
  let* s := ofold (fun a s => check_address3 a true data_start bmap s) (take NDIRECT inode.(di_addrs)) s in
  let ind := default 0 (inode.(di_addrs) !! NDIRECT) in
  let* s := check_address3 ind false data_start bmap s in
  let* _ := touch (u32 (ind * BSIZE)) (4 * Z.of_nat NINDIRECT) in
  ofold (fun a s => check_address3 a false data_start bmap s) (words_at img (u32 (ind * BSIZE)) NINDIRECT) s.

(** The call [trace_parent(inodes, imgp, de.inum, i)] has its first two arguments
    the wrong way round: the image is read as an array of inodes, from its first
    block on, and the array of inodes as an image. *)
Definition inodes_bytes (inodes : list dinode) : image := fun o => default 0 ((inodes ≫= dinode_bytes) !! Z.to_nat o).

Definition read_inode_data3 (inode : dinode) (inodes : list dinode) (offset size : Z) : outcome string dirent :=
  let block_num := u32 (Z.quot offset BSIZE) in
  if negb (block_num =? 0) then Crash "assert(block_num==0)"%string else
  let addr := default 0 (inode.(di_addrs) !! Z.to_nat block_num) in
  let p := u32 (addr * BSIZE) + Z.rem offset BSIZE in
  if (0 <=? p) && (p + size <=? 64 * Z.of_nat (length inodes)) then Done (dirent_at (inodes_bytes inodes) p)
  else Crash "past the array of the inodes"%string.

(** The loop over the entries of a directory, with the messages. *)
Fixpoint for_dir3 (offs : list Z) (inodes : list dinode) (d : dinode)
    (body : dirent -> list string -> option (outcome string (list string))) (msgs : list string) : option (outcome string (list string)) :=
  match offs with
  | [] => Some (Done msgs)
  | off :: offs =>
      if d.(di_size) <=? off then Some (Done msgs) else
      match read_inode_data3 d inodes off 16 with
      | Done de => match body de msgs with
                   | Some (Done msgs) => for_dir3 offs inodes d body msgs
                   | r => r
                   end
      | Fail e => Some (Fail e)
      | Crash w => Some (Crash w)
      end
  end.

Fixpoint trace_parent3 (fuel : nat) (img : image) (inodes : list dinode) (parent_inum leaf : Z) (msgs : list string) :
    option (outcome string (list string)) :=
  match fuel with
  | O => None
  | S fuel =>
      match touch (64 * parent_inum) 64 with
      | Done _ =>
          for_dir3 dir_offs inodes (dinode_at img (64 * parent_inum)) (fun de msgs =>
            let msgs := say (is_dot de.(de_name) && (de.(de_inum) =? leaf)) "ERROR: inaccessible directory exists."%string msgs in
            if is_dotdot de.(de_name) then trace_parent3 fuel img inodes de.(de_inum) leaf msgs else Some (Done msgs)) msgs
      | Fail e => Some (Fail e)
      | Crash w => Some (Crash w)
      end
  end.

(** At an entry [..] other than the root's own; [depth] is the number of nested
    calls the stack has room for. *)
Definition check_parent3 (depth : nat) (img : image) (i : nat) (de : dirent) (t : tally) (maps : list dir_map) (msgs : list string) :
    outcome string (list string) :=
  match maps !! Z.to_nat de.(de_inum) with
  | None => Crash "inode number out of bounds"%string
  | Some l =>
      let msgs := say (negb (existsb (fun c => c =? Z.of_nat i) l)) "ERROR: parent directory mismatch."%string msgs in
      match trace_parent3 depth img t.(t_inodes) de.(de_inum) (Z.of_nat i) msgs with
      | Some r => r
      | None => Crash "stack overflow"%string
      end
  end.

(** [strncmp(de.name, "lost_found", strlen("lost_found")) == 0] *)
Definition lost_found : list Z := [108; 111; 115; 116; 95; 102; 111; 117; 110; 100].

Definition is_lost_found (name : list Z) : bool := bool_decide (take 10 name = lost_found).

(** The variables of the scan: the tallies, the children, [lost_found_dir_inum]
    and the messages. *)
Record scan := mkScan3 { s_tally : tally; s_maps : list dir_map; s_lost : Z; s_msgs : list string }.

(** The end of the loop body: the entry is counted, a child recorded and the
    directory [lost_found] noticed. *)
Definition count_child3 (i : nat) (de : dirent) (z : scan) : outcome string scan :=
  let ty := default 0 (di_type <$> z.(s_tally).(t_inodes) !! Z.to_nat de.(de_inum)) in
  let* '(t, maps) := count_child i de z.(s_tally) z.(s_maps) in
  let dir := (ty =? T_DIR) && negb (Z.of_nat i =? de.(de_inum)) in
  Done (mkScan3 t maps (if dir && is_lost_found de.(de_name) then de.(de_inum) else z.(s_lost)) z.(s_msgs)).

Fixpoint dir_loop3 (depth : nat) (offs : list Z) (img : image) (i : nat) (inode : dinode) (s : dirscan) (z : scan) :
    outcome string (dirscan * scan) :=
  match offs with
  | [] => Done (s, z)
  | off :: offs =>
      if inode.(di_size) <=? off then Done (s, z) else
      let* de := read_inode_data inode img off 16 in
      if is_dot de.(de_name) then
        if negb (de.(de_inum) =? Z.of_nat i) then Done (mkScan (s.(count_dots) + 1) s.(root_exist) true, z)
        else let* z := count_child3 i de z in
             dir_loop3 depth offs img i inode (mkScan (s.(count_dots) + 1) s.(root_exist) s.(dir_error)) z
      else if is_dotdot de.(de_name) then
        let own := (Z.of_nat i =? ROOTINO) && (de.(de_inum) =? ROOTINO) in
        let* msgs := if own then Done z.(s_msgs) else check_parent3 depth img i de z.(s_tally) z.(s_maps) z.(s_msgs) in
        let* z := count_child3 i de (mkScan3 z.(s_tally) z.(s_maps) z.(s_lost) msgs) in
        dir_loop3 depth offs img i inode (mkScan (s.(count_dots) + 1) (s.(root_exist) || own) s.(dir_error)) z
      else
        let* z := count_child3 i de z in dir_loop3 depth offs img i inode s z
  end.

Definition check_dir3 (depth : nat) (img : image) (i : nat) (inode : dinode) (z : scan) : outcome string scan :=
  let* '(s, z) := dir_loop3 depth dir_offs img i inode (mkScan 0 false false) z in
  let msgs := say ((Z.of_nat i =? ROOTINO) && negb s.(root_exist)) "ERROR: root directory does not exist."%string z.(s_msgs) in
  let msgs := say (s.(dir_error) || negb (s.(count_dots) =? 2)) "ERROR: directory not properly formatted."%string msgs in
  Done (mkScan3 z.(s_tally) z.(s_maps) z.(s_lost) msgs).

(** One turn of the loop over the inodes; the messages are those of the scan. *)
Definition check_inode3 (depth : nat) (img : image) (data_start : Z) (bmap : list Z) (k : nat) (st : cst * scan) :
    outcome string (cst * scan) :=
  let '(c, z) := st in
  match z.(s_tally).(t_inodes) !! k with
  | None => Crash "inode number out of bounds"%string
  | Some inode =>
      let c := check_inode_type3 inode.(di_type) (mkCst c.(c_mark) c.(data_end_block) z.(s_msgs)) in
      let* c := if inode.(di_type) =? 0 then Done c else check_addrs3 img inode (u32 data_start) bmap c in
      let z := mkScan3 z.(s_tally) z.(s_maps) z.(s_lost) c.(c_msgs) in
      let* z := if inode.(di_type) =? T_DIR then check_dir3 depth img k inode z else Done z in
      Done (c, z)
  end.

Definition check_bitmap3 (bmap bmap_mark : list Z) (j : Z) (msgs : list string) : outcome string (list string) :=
  if j <? 0 then Crash "bitmap index out of bounds"%string
  else Done (say (negb (Z.lxor (default 0 (bmap !! Z.to_nat (j / 8))) (default 0 (bmap_mark !! Z.to_nat (j / 8))) =? 0))
               "ERROR: bitmap marks block in use but it is not in use."%string msgs).

(** Errors 9 to 12 for inode [k]; a lost inode is linked. *)
Definition check_links3 (repair : bool) (lost : Z) (seen links : list Z) (k : nat)
    (st : list dinode * image * Z * list string) : outcome string (list dinode * image * Z * list string) :=
  let '(inodes, img, deb, msgs) := st in
  let type l := default 0 (di_type <$> (l : list dinode) !! k) in
  let nlink l := default 0 (di_nlink <$> (l : list dinode) !! k) in
  let s := default 0 (seen !! k) in
  let msgs := say (negb (type inodes =? 0) && (s =? 0)) "ERROR: inode marked use but not found in a directory."%string msgs in
  let* '(inodes, img, deb) := if repair then repair_lost seen (Z.to_nat lost) k (inodes, img, deb) else Done (inodes, img, deb) in
  let msgs := say ((s =? 1) && (type inodes =? 0)) "ERROR: inode referred to in directory but marked free."%string msgs in
  let msgs := say ((type inodes =? T_FILE) && (nlink inodes >? 0)) "ERROR: bad reference count for file."%string msgs in
  let msgs := say ((type inodes =? T_DIR) && (default 0 (links !! k) >? 1)) "ERROR: directory appears more than once in file system."%string msgs in
  Done (inodes, img, deb, msgs).

(** [main] from the reading of the superblock on: the messages and the image that
    is written. *)
Definition xcheck3 (depth : nat) (repair : bool) (img : image) : outcome string (list string * image) :=
  let* _ := touch (inode_off img) (64 * Z.of_nat (ninodes img)) in
  let* _ := touch (bmap_off img) NBMAP in
  let n := ninodes img in
  let bmap := read_bmap img in
  let t := mkTally (read_inodes img) (replicate n 0) (replicate n 0) in
  let* '(c, z) := ofold (check_inode3 depth img (data_start img) bmap) (seq 1 (n - 1))
                    (mkCst (replicate (Z.to_nat NBMAP) 0) 0 [], mkScan3 t (replicate n []) 0 []) in
  let* msgs := ofold (check_bitmap3 bmap c.(c_mark)) (bitmap_js (data_start img)) z.(s_msgs) in
  let* '(inodes, img', _, msgs) := ofold (check_links3 repair z.(s_lost) z.(s_tally).(inode_dir) z.(s_tally).(dir_links)) (seq 1 (n - 1))
                                   (z.(s_tally).(t_inodes), img, c.(data_end_block), msgs) in
  let* img' := if repair then write_back img' (the_sb img).(sb_inodestart) inodes (Z.to_nat z.(s_lost)) else Done img' in
  Done (msgs, img').

(** [main]: [argv1_r] is whether the first argument is [-r].  With one argument
    [argv[2]] is the null pointer, whose length is taken for the name of the new
    file; with none, [argv[1]] is. *)
Definition main3 (depth : nat) (argc : Z) (argv1_r : bool) (file : opened) : outcome string (list string * image) :=
  let usage := say (negb (argc =? 2) && negb (argc =? 3)) "Usage: xcheck (-r) <file_system_image>"%string [] in
  if argc <=? 2 then Crash "null pointer"%string
  else
    let before := say (negb argv1_r) "need -r"%string usage in
    match file with
    | Opened img => let* '(msgs, img) := xcheck3 depth true img in Done (before ++ msgs, img)
    | _ => Crash "null pointer"%string
    end.

(** ** Silent runs

    [sim G ms R o1 o3]: [o1], of contest 1, stops at the first error; [o3], of
    contest 3, collects messages.  They correspond when a silent [o3] means that
    [o1] succeeds, and the other way round under the assumption [G], with results
    related by [R]. *)

Definition sim {A B : Type} (G : Prop) (ms : B -> list string) (R : A -> B -> Prop) (o1 : outcome string A) (o3 : outcome string B) : Prop :=
  (G -> forall a, o1 = Done a -> exists b, o3 = Done b /\ R a b /\ ms b = []) /\
  (forall b, o3 = Done b -> ms b = [] -> exists a, o1 = Done a /\ R a b).

Lemma say_nil b m l : say b m l = [] <-> b = false /\ l = [].
Proof. unfold say. destruct b; [|tauto]. split; [by intros [_ ?]%app_nil|by intros [? _]]. Qed.

Section sim.
Context {G : Prop}.

Lemma sim_ret {A B} (ms : B -> list string) (R : A -> B -> Prop) a b : R a b -> ms b = [] -> sim G ms R (Done a) (Done b).
Proof. intros HR Hm. split; [intros _ ? [= <-]; eauto|intros ? [= <-] _; eauto]. Qed.

Lemma sim_bind {A B A' B'} (ms : B -> list string) (R : A -> B -> Prop) (ms' : B' -> list string) (Q : A' -> B' -> Prop) o1 o3 f g :
  sim G ms R o1 o3 -> (forall a b, R a b -> ms b = [] -> sim G ms' Q (f a) (g b)) ->
  (forall b c, g b = Done c -> ms' c = [] -> ms b = []) ->
  sim G ms' Q (obind o1 f) (obind o3 g).
Proof.
  intros [H1 H2] Hk Hq. split.
  - intros HG a (x & Hx & Ha)%obind_Done. destruct (H1 HG x Hx) as (b & Hb & HR & Hm). rewrite Hb. cbn [obind].
    by apply (Hk x b HR Hm).
  - intros c (b & Hb & Hc)%obind_Done Hm. pose proof (Hq b c Hc Hm) as Hbm. destruct (H2 b Hb Hbm) as (a & Ha & HR). rewrite Ha. cbn [obind].
    by apply (Hk a b HR Hbm).
Qed.

(** The same step on both sides. *)
Lemma sim_same {A A' B'} (ms' : B' -> list string) (Q : A' -> B' -> Prop) (o : outcome string A) f g :
  (forall a, o = Done a -> sim G ms' Q (f a) (g a)) -> sim G ms' Q (obind o f) (obind o g).
Proof.
  intros H. destruct o as [a|e|w]; cbn [obind]; [by apply H|split; [done|done]..].
Qed.

(** An error on the left is a message on the right. *)
Lemma sim_error {A B} (ms : B -> list string) (R : A -> B -> Prop) o1 o3 :
  (forall a, o1 <> Done a) -> (forall b, o3 = Done b -> ms b <> []) -> sim G ms R o1 o3.
Proof. intros H1 H3. split; [intros _ a Ha; by destruct (H1 a)|intros b Hb Hm; by destruct (H3 b)]. Qed.

Lemma sim_ofold {X A B} (ms : B -> list string) (R : A -> B -> Prop) (f : X -> A -> outcome string A) (g : X -> B -> outcome string B) l :
  (forall x b c, g x b = Done c -> ms c = [] -> ms b = []) ->
  (forall x a b, x ∈ l -> R a b -> ms b = [] -> sim G ms R (f x a) (g x b)) ->
  forall a b, R a b -> ms b = [] -> sim G ms R (ofold f l a) (ofold g l b).
Proof.
  intros Hq. induction l as [|x l IH]; intros Hs a b HR Hm; cbn [ofold]; [by apply sim_ret|].
  apply (sim_bind ms R); [apply Hs; [by left|done|done]|intros; apply IH; [intros; apply Hs; [by right|done|done]|done|done]|].
  intros b1 c. clear -Hq. revert b1. induction l as [|y l IH]; intros b1; cbn [ofold]; [by intros [= <-]|].
  intros (b2 & H1 & H2)%obind_Done Hm. apply (Hq y b1 b2 H1). by apply IH.
Qed.

End sim.

(** Messages are never taken back. *)
Lemma ofold_quiet {X B} (ms : B -> list string) (g : X -> B -> outcome string B) l :
  (forall x b c, g x b = Done c -> ms c = [] -> ms b = []) ->
  forall b c, ofold g l b = Done c -> ms c = [] -> ms b = [].
Proof.
  intros Hq. induction l as [|y l IH]; intros b1 c; cbn [ofold]; [by intros [= <-]|].
  intros (b2 & H1 & H2)%obind_Done Hm. apply (Hq y b1 b2 H1). by apply (IH b2 c).
Qed.

(** *** Addresses *)

Lemma address_quiet a direct ds bmap s s' : check_address3 a direct ds bmap s = Done s' -> s'.(c_msgs) = [] -> s.(c_msgs) = [].
Proof.
  unfold check_address3. destruct (a =? 0); [intros [= <-]; by intros [_ ?]%say_nil|]. destruct (_ <=? _); [done|].
  intros [= <-]. cbn [c_msgs]. by intros [_ [_ [_ ?]%say_nil]%say_nil]%say_nil.
Qed.

Lemma sim_address G a direct ds bmap s : 0 <= ds -> s.(c_msgs) = [] ->
  sim G c_msgs (fun m c => c.(c_mark) = m) (check_address a direct ds bmap s.(c_mark)) (check_address3 a direct ds bmap s).
Proof.
  intros Hds Hs. unfold check_address, check_address3.
  destruct (((a <? ds) && negb (a =? 0)) || (FSSIZE <=? a)) eqn:Hbad.
  { apply sim_error; [done|]. rewrite Hs. cbn [say app]. destruct (a =? 0); [by intros ? [= <-]|].
    destruct (NBMAP <=? _); [by intros ? [=]|]. intros ? [= <-]. cbn [c_msgs]. by intros [_ [_ ?]%say_nil]%say_nil. }
  apply orb_false_iff in Hbad as [Hb1 Hb2]. destruct (Z.eqb_spec a 0) as [Ha|Ha]; [by apply sim_ret|].
  rewrite andb_true_r in Hb1. apply Z.ltb_ge in Hb1. apply Z.leb_gt in Hb2. unfold FSSIZE in Hb2.
  assert (Hlt : a / 8 < NBMAP) by (apply Z.div_lt_upper_bound; [lia|]; change NBMAP with 637; lia).
  rewrite (proj2 (Z.leb_gt _ _) Hlt). rewrite Hs. cbn [say].
  destruct (getbit bmap a); cbn [negb].
  2: { apply sim_error; [done|]. intros ? [= <-]. cbn [c_msgs]. by intros [_ ?]%say_nil. }
  destruct (getbit (c_mark s) a).
  - apply sim_error; [done|]. by intros ? [= <-].
  - by apply sim_ret.
Qed.

Lemma addresses_quiet direct ds bmap l s s' :
  ofold (fun a s => check_address3 a direct ds bmap s) l s = Done s' -> s'.(c_msgs) = [] -> s.(c_msgs) = [].
Proof. apply (ofold_quiet c_msgs). intros x b c. apply address_quiet. Qed.

Lemma addrs_quiet img d ds bmap s s' : check_addrs3 img d ds bmap s = Done s' -> s'.(c_msgs) = [] -> s.(c_msgs) = [].
Proof.
  unfold check_addrs3. intros (s1 & H1 & (s2 & H2 & ([] & _ & H3)%obind_Done)%obind_Done)%obind_Done Hm.
  apply (addresses_quiet _ _ _ _ _ _ H1), (address_quiet _ _ _ _ _ _ H2), (addresses_quiet _ _ _ _ _ _ H3), Hm.
Qed.

Lemma sim_addrs G img d ds bmap s : 0 <= ds -> s.(c_msgs) = [] ->
  sim G c_msgs (fun m c => c.(c_mark) = m) (check_addrs img d ds bmap s.(c_mark)) (check_addrs3 img d ds bmap s).
Proof.
  intros Hds Hs. unfold check_addrs, check_addrs3.
  assert (Hfold : forall direct l m c, c.(c_mark) = m -> c.(c_msgs) = [] ->
    sim G c_msgs (fun m c => c.(c_mark) = m) (ofold (fun a m => check_address a direct ds bmap m) l m) (ofold (fun a s => check_address3 a direct ds bmap s) l c)).
  { intros direct l m c Hc Hmc. apply sim_ofold; [intros; by eapply address_quiet| |done|done].
    intros x a b _ <- Hb. by apply sim_address. }
  apply (sim_bind c_msgs (fun m c => c.(c_mark) = m)); [by apply Hfold| |].
  - intros m c <- Hc. apply (sim_bind c_msgs (fun m c => c.(c_mark) = m)); [by apply sim_address| |].
    + intros m1 c1 Hc1 Hm1. apply sim_same. intros _ _. by apply Hfold.
    + intros b c1 ([] & _ & H)%obind_Done Hm. by apply addresses_quiet in H.
  - intros b c (s2 & H2 & ([] & _ & H3)%obind_Done)%obind_Done Hm.
    apply (address_quiet _ _ _ _ _ _ H2), (addresses_quiet _ _ _ _ _ _ H3), Hm.
Qed.

(** *** Parents *)

Lemma for_dir3_quiet inodes d body offs :
  (forall de m m', body de m = Some (Done m') -> m' = [] -> m = []) ->
  forall m m', for_dir3 offs inodes d body m = Some (Done m') -> m' = [] -> m = [].
Proof.
  intros Hq. induction offs as [|off offs IH]; intros m m'; cbn [for_dir3]; [by intros [= <-]|].
  destruct (_ <=? _); [by intros [= <-]|]. destruct (read_inode_data3 d inodes off 16) as [de|e|w]; [|done..].
  destruct (body de m) as [[m1|e|w]|] eqn:Hb; [|done..]. intros H Hm. apply (Hq de m m1 Hb). by apply (IH m1 m').
Qed.

Lemma trace_quiet img inodes leaf fuel : forall j m m', trace_parent3 fuel img inodes j leaf m = Some (Done m') -> m' = [] -> m = [].
Proof.
  induction fuel as [|fuel IH]; intros j m m'; cbn [trace_parent3]; [done|].
  destruct (touch (64 * j) 64) as [u|e|w]; [|done..]. apply for_dir3_quiet. intros de m1 m2.
  destruct (is_dotdot (de_name de)).
  - intros H Hm. apply IH in H; [|done]. by apply say_nil in H as [_ ?].
  - intros [= <-]. by intros [_ ?]%say_nil.
Qed.

Lemma parent_quiet depth img i de t maps m m' : check_parent3 depth img i de t maps m = Done m' -> m' = [] -> m = [].
Proof.
  unfold check_parent3. destruct (maps !! _) as [l|]; [|done]. destruct (trace_parent3 _ _ _ _ _ _) as [r|] eqn:E; [|done].
  intros -> Hm. apply trace_quiet in E; [|done]. by apply say_nil in E as [_ ?].
Qed.

(** What makes [trace_parent] harmless.  It is called with its arguments the wrong way round
    and takes the 64 bytes at [64 * n] of the image for the inode [n]; for the number [n] of every parent
    of a directory, other than that of the root, they hold the size 0.  In an image of [mkfs] this is so for
    the numbers below 8, whose bytes are in the empty first block; at 8 the
    size is the number of inodes of the superblock. *)
Definition boot_zero (img : image) : Prop := forall k e, (k < ninodes img)%nat -> e ∈ entries img (nth_inode img k) -> is_dotdot e.(de_name) = true ->
  (Z.of_nat k =? ROOTINO) && (e.(de_inum) =? ROOTINO) = false -> di_size (dinode_at img (64 * e.(de_inum))) = 0.

(** The first block is enough when there are no directories from number 8 on. *)
Lemma boot_block img : (forall o, 0 <= o < 512 -> rd8 img o = 0) ->
  (forall k e, (k < ninodes img)%nat -> e ∈ entries img (nth_inode img k) -> is_dotdot e.(de_name) = true -> 0 <= e.(de_inum) < 8) -> boot_zero img.
Proof. intros Hb Hp k e Hk He Hd _. pose proof (Hp _ _ Hk He Hd). cbn [dinode_at di_size]. unfold rd32, rd16. rewrite !Hb by lia. done. Qed.

Lemma trace_boot fuel img inodes j leaf m : di_size (dinode_at img (64 * j)) = 0 -> 0 <= j < Z.of_nat (ninodes img) -> 64 * Z.of_nat (ninodes img) <= IMG_SIZE ->
  trace_parent3 (S fuel) img inodes j leaf m = Some (Done m).
Proof.
  intros Hb Hj Hn. cbn [trace_parent3]. rewrite (proj2 (touch_Done _ _)) by lia.
  unfold dir_offs. cbn [seq fmap list_fmap for_dir3]. by rewrite Hb.
Qed.

(** What the scan leaves of an inode as it was. *)
Definition same_shape (d d' : dinode) : Prop := di_type d = di_type d' /\ di_size d = di_size d' /\ di_addrs d = di_addrs d'.

(** What a directory loop reads is an entry. *)
Lemma entry_shape img d d' k de : same_shape d d' -> d.(di_type) = T_DIR -> (k <= 32)%nat -> 16 * Z.of_nat k < d.(di_size) ->
  read_inode_data d img (16 * Z.of_nat k) 16 = Done de -> de ∈ entries img d'.
Proof.
  intros (Ht & Hs & Ha) Hd Hk32 Hk. unfold read_inode_data. destruct (Z.eqb_spec (u32 (Z.quot (16 * Z.of_nat k) BSIZE)) 0) as [E|E]; cbn [negb]; [|done].
  rewrite E. intros (u & _ & [= <-])%obind_Done. unfold entries. rewrite <- Ht, Hd. change (T_DIR =? T_DIR) with true. cbn iota.
  apply list_elem_of_fmap. exists k. split.
  - unfold entry_at. rewrite <- Ha. change (Z.to_nat 0) with 0%nat. f_equal. f_equal. apply Z.rem_small. unfold BSIZE in *. rewrite Z.quot_div_nonneg in E by lia.
    rewrite u32_small in E by (split; [apply Z.div_pos; lia|apply Z.div_lt_upper_bound; lia]). Z.div_mod_to_equations. lia.
  - apply elem_of_seq. unfold dir_count. rewrite <- Hs. split; [lia|]. cbn [Nat.add]. assert (Z.of_nat k + 1 <= (di_size d + 15) / 16) by (apply Z.div_le_lower_bound; lia). lia.
Qed.

Section scan.
Variables (depth : nat) (img : image).

(** The assumption for the way back. *)
Definition harmless : Prop := (0 < depth)%nat /\ boot_zero img /\ 64 * Z.of_nat (ninodes img) <= IMG_SIZE.

Lemma sim_parent i de t maps : 0 <= de.(de_inum) -> length maps = ninodes img -> (boot_zero img -> di_size (dinode_at img (64 * de.(de_inum))) = 0) ->
  sim harmless (fun m => m) (fun _ _ => True) (check_parent i de t maps) (check_parent3 depth img i de t maps []).
Proof.
  intros Hde Hl Hz. unfold check_parent, check_parent3. destruct (maps !! Z.to_nat (de_inum de)) as [l|] eqn:E; [|by split].
  apply lookup_lt_Some in E. assert (E' : (Z.to_nat (de_inum de) < ninodes img)%nat) by (rewrite <- Hl; exact E).
  destruct (existsb _ l); cbn [negb say].
  - split; [|by eauto]. intros (Hd & Hb & Hn) [] _. destruct depth as [|fuel]; [lia|]. rewrite trace_boot by (auto || lia). by exists [].
  - apply sim_error; [done|]. intros m. destruct (trace_parent3 _ _ _ _ _ _) as [r|] eqn:Et; [|by intros [=]].
    intros -> Hm. by apply trace_quiet in Et.
Qed.

(** *** Directories *)

(** The scans agree; [lost_found_dir_inum] is the number of an inode. *)
Definition scan_rel (tm : tally * list dir_map) (z : scan) : Prop :=
  z.(s_tally) = tm.1 /\ z.(s_maps) = tm.2 /\ length z.(s_tally).(t_inodes) = ninodes img /\ length z.(s_maps) = ninodes img /\
  0 <= z.(s_lost) /\ (z.(s_lost) = 0 \/ (Z.to_nat z.(s_lost) < ninodes img)%nat) /\
  (forall k d, z.(s_tally).(t_inodes) !! k = Some d -> same_shape d (nth_inode img k)).

Lemma count_child_lengths i de t maps t' maps' : count_child i de t maps = Done (t', maps') ->
  length (t_inodes t') = length (t_inodes t) /\ length maps' = length maps /\ (Z.to_nat (de_inum de) < length (t_inodes t))%nat /\
  (forall k d, t_inodes t' !! k = Some d -> exists d', t_inodes t !! k = Some d' /\ same_shape d d').
Proof.
  unfold count_child. intros (t1 & H1 & H)%obind_Done. unfold count_entry in H1.
  destruct (t_inodes t !! Z.to_nat (de_inum de)) as [d|] eqn:Ed0; [|done]. pose proof (lookup_lt_Some _ _ _ Ed0) as Ed.
  assert (Ht : length (t_inodes t1) = length (t_inodes t) /\ forall k d, t_inodes t1 !! k = Some d -> exists d', t_inodes t !! k = Some d' /\ same_shape d d').
  { destruct (di_type d =? T_FILE).
    - injection H1 as <-. cbn [t_inodes]. rewrite length_insert. split; [done|]. intros k x Hx.
      destruct (decide (k = Z.to_nat (de_inum de))) as [->|Hk].
      + rewrite list_lookup_insert_eq in Hx by done. injection Hx as <-. by exists d.
      + rewrite list_lookup_insert_ne in Hx by done. by exists x.
    - assert (t_inodes t1 = t_inodes t) as -> by (destruct (_ && _); by injection H1 as <-). split; [done|]. intros k x Hx. by exists x. }
  destruct Ht as [Ht Hsh]. destruct (_ && _); [|injection H as <- <-; done]. apply obind_Done in H as (m1 & Hm & H). injection H as <- <-.
  split_and!; [done| |done|done]. unfold add_child in Hm. destruct (maps !! i); [|done]. destruct (_ <? _)%nat; [|done].
  injection Hm as <-. by rewrite length_insert.
Qed.

Lemma count_quiet i de z z' : count_child3 i de z = Done z' -> z'.(s_msgs) = z.(s_msgs).
Proof. unfold count_child3. intros ([t m] & _ & H)%obind_Done. by injection H as <-. Qed.

Lemma sim_count i de z : 0 <= de.(de_inum) -> scan_rel (z.(s_tally), z.(s_maps)) z -> z.(s_msgs) = [] ->
  sim harmless s_msgs scan_rel (count_child i de z.(s_tally) z.(s_maps)) (count_child3 i de z).
Proof.
  intros Hde (_ & _ & Hl1 & Hl2 & Hl3 & Hl4 & Hl5) Hm. unfold count_child3.
  assert (Hrel : forall t maps, count_child i de (s_tally z) (s_maps z) = Done (t, maps) ->
    forall b, scan_rel (t, maps) (mkScan3 t maps (if (b : bool) then de_inum de else s_lost z) (s_msgs z))).
  { intros t maps H b. apply count_child_lengths in H as (H1 & H2 & H3 & H4). unfold scan_rel.
    cbn [fst snd s_tally s_maps s_lost]. split_and!; [done|done|lia|lia|destruct b; lia| |].
    - destruct b; [right; lia|done].
    - intros k d Hd. destruct (H4 k d Hd) as (d' & Hd' & E1 & E2 & E3). destruct (Hl5 k d' Hd') as (F1 & F2 & F3). split_and!; congruence. }
  destruct (count_child i de (s_tally z) (s_maps z)) as [[t maps]|e|w]; cbn [obind]; [|by split..].
  apply sim_ret; [by apply Hrel|done].
Qed.

Lemma dir_loop3_quiet i d offs : forall s z s' z', dir_loop3 depth offs img i d s z = Done (s', z') -> z'.(s_msgs) = [] -> z.(s_msgs) = [].
Proof.
  induction offs as [|off offs IH]; intros s z s' z'; cbn [dir_loop3]; [by intros [= <- <-]|].
  destruct (_ <=? _); [by intros [= <- <-]|]. intros (de & _ & H)%obind_Done Hm. destruct (is_dot _).
  - destruct (negb _); [by injection H as <- <-|]. apply obind_Done in H as (z1 & H1 & H). apply IH in H; [|done].
    by rewrite (count_quiet _ _ _ _ H1) in H.
  - destruct (is_dotdot _).
    + apply obind_Done in H as (m1 & Hp & H). apply obind_Done in H as (z1 & H1 & H). apply IH in H; [|done].
      rewrite (count_quiet _ _ _ _ H1) in H. cbn in H. destruct (_ && _); [by injection Hp as <-|]. by apply parent_quiet in Hp.
    + apply obind_Done in H as (z1 & H1 & H). apply IH in H; [|done]. by rewrite (count_quiet _ _ _ _ H1) in H.
Qed.

Lemma sim_dir_loop i d offs : (i < ninodes img)%nat -> same_shape d (nth_inode img i) -> di_type d = T_DIR ->
  (forall off, off ∈ offs -> exists k, (k <= 32)%nat /\ off = 16 * Z.of_nat k) -> forall s z, scan_rel (z.(s_tally), z.(s_maps)) z -> z.(s_msgs) = [] ->
  sim harmless (fun sz => sz.2.(s_msgs)) (fun stm sz => stm.1.1 = sz.1 /\ scan_rel (stm.1.2, stm.2) sz.2)
    (dir_loop1 check_parent offs img i d s z.(s_tally) z.(s_maps)) (dir_loop3 depth offs img i d s z).
Proof.
  intros Hil Hsh Hdt. induction offs as [|off offs IH]; intros Hoff s z HR Hm; cbn [dir_loop1 dir_loop3]; [by apply sim_ret|].
  specialize (IH ltac:(intros; apply Hoff; by right)).
  destruct (Z.leb_spec (di_size d) off) as [Hend|Hin]; [by apply sim_ret|]. apply sim_same. intros de Hde.
  assert (Hi : 0 <= de_inum de).
  { unfold read_inode_data in Hde. destruct (negb _); [done|]. apply obind_Done in Hde as (_ & _ & Hde). injection Hde as <-.
    cbn [dirent_at de_inum]. apply rd16_range. }
  assert (Hrest : forall s1 z1, scan_rel (z1.(s_tally), z1.(s_maps)) z1 -> z1.(s_msgs) = [] ->
    sim harmless (fun sz => sz.2.(s_msgs)) (fun stm sz => stm.1.1 = sz.1 /\ scan_rel (stm.1.2, stm.2) sz.2)
      (let* '(t, maps) := count_child i de z1.(s_tally) z1.(s_maps) in dir_loop1 check_parent offs img i d s1 t maps)
      (let* z := count_child3 i de z1 in dir_loop3 depth offs img i d s1 z)).
  { intros s1 z1 HR1 Hm1. apply (sim_bind s_msgs scan_rel); [by apply sim_count| |].
    - intros [t maps] z2 HR2 Hm2. pose proof HR2 as (E1 & E2 & _). cbn [fst snd] in E1, E2. subst t maps. by apply IH.
    - intros z2 [s2 z3] H Hm3. by apply dir_loop3_quiet in H. }
  destruct (is_dot _).
  { destruct (negb _); [by apply sim_ret|]. by apply Hrest. }
  destruct (is_dotdot _) eqn:Edd; [|by apply Hrest].
  apply (sim_bind (fun m => m) (fun _ _ => True)).
  - destruct (_ && _) eqn:Eown; [by apply sim_ret|]. rewrite Hm. apply sim_parent; [done|apply HR|].
    intros Hb. destruct (Hoff off ltac:(by left)) as (k & Hk & ->). apply (Hb i de Hil); [|done|done]. by eapply (entry_shape img d).
  - intros [] m _ ->. by apply (Hrest _ (mkScan3 z.(s_tally) z.(s_maps) z.(s_lost) [])).
  - intros m [s2 z3] (z1 & H1 & H2)%obind_Done Hm3. apply dir_loop3_quiet in H2; [|done]. by rewrite (count_quiet _ _ _ _ H1) in H2.
Qed.

Lemma dir3_quiet i d z z' : check_dir3 depth img i d z = Done z' -> z'.(s_msgs) = [] -> z.(s_msgs) = [].
Proof.
  unfold check_dir3. generalize dir_offs. intros offs ([s z1] & H1 & H)%obind_Done. injection H as <-. cbn [s_msgs].
  intros [_ [_ Hm]%say_nil]%say_nil. by apply dir_loop3_quiet in H1.
Qed.

Lemma sim_dir i d z : (i < ninodes img)%nat -> same_shape d (nth_inode img i) -> di_type d = T_DIR -> scan_rel (z.(s_tally), z.(s_maps)) z -> z.(s_msgs) = [] ->
  sim harmless s_msgs scan_rel (check_dir1 check_parent img i d z.(s_tally) z.(s_maps)) (check_dir3 depth img i d z).
Proof.
  intros Hil Hsh Hdt HR Hm. unfold check_dir1, check_dir3.
  assert (Hoff : forall off, off ∈ dir_offs -> exists k, (k <= 32)%nat /\ off = 16 * Z.of_nat k).
  { intros off (k & -> & Hk)%list_elem_of_fmap. exists k. split; [|done]. apply elem_of_seq in Hk. lia. }
  revert Hoff. generalize dir_offs. intros offs Hoff.
  eapply sim_bind; [by apply sim_dir_loop| |].
  - intros [[s t] maps] [s1 z1] (Es & HR1) Hm1. cbn [fst snd] in *. subst s1. rewrite Hm1.
    destruct (_ && negb _); cbn [say app].
    { apply sim_error; [done|]. intros ? [= <-]. cbn [s_msgs]. by intros [_ ?]%say_nil. }
    destruct (_ || _); cbn [say app]; [apply sim_error; [done|]; by intros ? [= <-]|]. by apply sim_ret.
  - intros [s1 z1] z2 [= <-]. cbn [s_msgs snd]. by intros [_ [_ ?]%say_nil]%say_nil.
Qed.

(** *** Inodes *)

Definition inode_rel (mtm : list Z * tally * list dir_map) (cz : cst * scan) : Prop :=
  cz.1.(c_mark) = mtm.1.1 /\ scan_rel (mtm.1.2, mtm.2) cz.2.

Lemma type_quiet ty c : (check_inode_type3 ty c).(c_msgs) = [] -> c.(c_msgs) = [].
Proof. cbn. by intros [_ ?]%say_nil. Qed.

Lemma inode_quiet ds bmap k cz cz' : check_inode3 depth img ds bmap k cz = Done cz' -> cz'.2.(s_msgs) = [] -> cz.2.(s_msgs) = [].
Proof.
  destruct cz as [c z]. unfold check_inode3. destruct (t_inodes (s_tally z) !! k) as [d|]; [|done].
  intros (c1 & H1 & (z1 & H2 & H)%obind_Done)%obind_Done. injection H as <-. cbn [snd]. intros Hm.
  assert (Hc1 : c1.(c_msgs) = []) by (destruct (_ =? T_DIR); [by apply dir3_quiet in H2|by injection H2 as <-]).
  apply (type_quiet (di_type d) (mkCst (c_mark c) (data_end_block c) (s_msgs z))).
  destruct (_ =? 0); [by injection H1 as <-|by apply addrs_quiet in H1].
Qed.

Lemma sim_inode ds bmap k m c z : inode_rel m (c, z) -> z.(s_msgs) = [] ->
  sim harmless (fun cz => cz.2.(s_msgs)) inode_rel (check_inode1 check_parent img ds bmap k m) (check_inode3 depth img ds bmap k (c, z)).
Proof.
  intros [Hc HR] Hm. destruct m as [[m t] maps]. cbn [fst snd] in *. unfold check_inode1, check_inode3.
  pose proof HR as (E1 & E2 & _). cbn [fst snd] in E1, E2. subst t maps m. destruct (t_inodes (s_tally z) !! k) as [d|] eqn:Ed; [|by split].
  pose proof HR as (_ & _ & Hlen & _ & _ & _ & Hsh). pose proof (Hsh _ _ Ed) as Hd. pose proof (lookup_lt_Some _ _ _ Ed) as Hk. rewrite Hlen in Hk.
  rewrite Hm. unfold check_inode_type, check_inode_type3. cbn [c_mark data_end_block c_msgs].
  destruct (negb (di_type d =? 0) && _ && _ && _) eqn:Ety; cbn [obind say app].
  { apply sim_error; [done|]. intros [c1 z1] (c2 & H1 & (z2 & H2 & H)%obind_Done)%obind_Done. injection H as <- <-. cbn [snd]. intros Hm2.
    assert (Hc2 : c2.(c_msgs) = []) by (destruct (_ =? T_DIR); [by apply dir3_quiet in H2|by injection H2 as <-]).
    destruct (_ =? 0); [by injection H1 as <-|by apply addrs_quiet in H1]. }
  apply (sim_bind c_msgs (fun m c => c.(c_mark) = m)).
  - destruct (_ =? 0); [by apply sim_ret|].
    apply (sim_addrs harmless img d (u32 ds) bmap (mkCst (c_mark c) (data_end_block c) [])); [apply u32_range|done].
  - intros m1 c1 Hc1 Hm1. apply (sim_bind s_msgs scan_rel).
    + rewrite Hm1. destruct (Z.eqb_spec (di_type d) T_DIR) as [Et|]; [by apply (sim_dir k d (mkScan3 z.(s_tally) z.(s_maps) z.(s_lost) []))|].
      apply sim_ret; [|done]. done.
    + intros [t1 maps1] z1 HR1 Hm2. by apply sim_ret.
    + intros z1 [c2 z2] [= <- <-]. done.
  - intros c1 [c2 z2] (z1 & H1 & H)%obind_Done Hm2. injection H as <- <-. cbn [snd] in Hm2.
    destruct (_ =? T_DIR); [by apply dir3_quiet in H1|by injection H1 as <-].
Qed.

End scan.

(** *** The rest *)

Lemma sim_bitmap G bmap mark j : sim G (fun m => m) (fun _ _ => True) (check_bitmap bmap mark j tt) (check_bitmap3 bmap mark j []).
Proof.
  unfold check_bitmap, check_bitmap3. destruct (j <? 0); [by split|]. destruct (_ =? 0); cbn [negb say app].
  - by apply sim_ret.
  - apply sim_error; [done|]. by intros ? [= <-].
Qed.

Lemma bitmap_quiet bmap mark j m m' : check_bitmap3 bmap mark j m = Done m' -> m' = [] -> m = [].
Proof. unfold check_bitmap3. destruct (_ <? _); [done|]. intros [= <-]. by intros [_ ?]%say_nil. Qed.

Lemma links_quiet repair lost seen links k st st' : check_links3 repair lost seen links k st = Done st' -> st'.2 = [] -> st.2 = [].
Proof.
  destruct st as [[[inodes img] deb] msgs]. unfold check_links3. intros ([[i1 m1] d1] & _ & H)%obind_Done. injection H as <-. cbn [snd].
  by intros [_ [_ [_ [_ ?]%say_nil]%say_nil]%say_nil]%say_nil.
Qed.

Lemma sim_links G repair lost t k img deb :
  sim G snd (fun _ b => b.1 = (t.(t_inodes), img, deb)) (check_links t k tt)
    (check_links3 repair lost t.(inode_dir) t.(dir_links) k (t.(t_inodes), img, deb, [])).
Proof.
  unfold check_links, check_links3.
  destruct (negb (default 0 (di_type <$> t_inodes t !! k) =? 0) && (default 0 (inode_dir t !! k) =? 0)) eqn:E9.
  { apply sim_error; [done|]. intros b ([[i1 m1] d1] & _ & H)%obind_Done. injection H as <-. cbn [snd say app].
    by intros [_ [_ [_ ?]%say_nil]%say_nil]%say_nil. }
  assert (E : (if repair then repair_lost (inode_dir t) (Z.to_nat lost) k (t_inodes t, img, deb) else Done (t_inodes t, img, deb))
    = Done (t_inodes t, img, deb)) by (destruct repair; [unfold repair_lost; by rewrite E9|done]).
  rewrite E. cbn [obind say]. clear E E9.
  match goal with |- sim _ _ _ (if ?b then _ else _) _ => destruct b end; cbn [say app].
  { apply sim_error; [done|]. intros b [= <-]. cbn [snd]. by intros [_ [_ ?]%say_nil]%say_nil. }
  match goal with |- sim _ _ _ (if ?b then _ else _) _ => destruct b end; cbn [say app].
  { apply sim_error; [done|]. intros b [= <-]. cbn [snd]. by intros [_ ?]%say_nil. }
  match goal with |- sim _ _ _ (if ?b then _ else _) _ => destruct b end; cbn [say app];
    [apply sim_error; [done|]; by intros b [= <-]|]. by apply sim_ret.
Qed.

(** The write-back of an inode that is there changes only its 64 bytes. *)
Lemma write_back_ok img inodes lost : length inodes = ninodes img -> (lost < ninodes img)%nat ->
  touch (inode_off img) (64 * Z.of_nat (ninodes img)) = Done tt ->
  exists img', write_back img (the_sb img).(sb_inodestart) inodes lost = Done img'.
Proof.
  intros Hl Hlt [H0 H1]%touch_Done. unfold write_back. destruct (lookup_lt_is_Some_2 inodes lost) as [d ->]; [lia|].
  fold (inode_off img). rewrite (proj2 (touch_Done _ _)) by lia. cbn [obind]. by eexists.
Qed.

(** The scan of the inodes. *)
Lemma sim_inodes depth img : let n := ninodes img in
  sim (harmless depth img) (fun cz => cz.2.(s_msgs)) (inode_rel img)
    (ofold (check_inode1 check_parent img (data_start img) (read_bmap img)) (seq 1 (n - 1))
       (replicate (Z.to_nat NBMAP) 0, mkTally (read_inodes img) (replicate n 0) (replicate n 0), replicate n []))
    (ofold (check_inode3 depth img (data_start img) (read_bmap img)) (seq 1 (n - 1))
       (mkCst (replicate (Z.to_nat NBMAP) 0) 0 [], mkScan3 (mkTally (read_inodes img) (replicate n 0) (replicate n 0)) (replicate n []) 0 [])).
Proof.
  intros n. apply sim_ofold; [intros; by eapply inode_quiet|intros k m [c z] _ HR Hm; by apply sim_inode| |done].
  split; [done|]. unfold scan_rel. cbn [fst snd s_tally s_maps s_lost t_inodes]. split_and!; [done|done| |by rewrite length_replicate|lia|by left|].
  - unfold read_inodes. by rewrite length_fmap, length_seq.
  - intros k d Hd. unfold read_inodes in Hd. rewrite list_lookup_fmap in Hd. apply fmap_Some in Hd as (j & Hj & ->). apply lookup_seq in Hj as [-> _]. done.
Qed.

Lemma sim_weaken {A B} (G G' : Prop) (ms : B -> list string) (R : A -> B -> Prop) o1 o3 : (G' -> G) -> sim G ms R o1 o3 -> sim G' ms R o1 o3.
Proof. intros HG [H1 H2]. split; [by intros ?%HG; apply H1|done]. Qed.

(** The checks behind the scan, and the write-back. *)
Lemma sim_rest depth repair img t lost c :
  length t.(t_inodes) = ninodes img -> 0 <= lost -> lost = 0 \/ (Z.to_nat lost < ninodes img)%nat ->
  touch (inode_off img) (64 * Z.of_nat (ninodes img)) = Done tt ->
  sim (harmless depth img /\ (0 < ninodes img)%nat) fst (fun _ mi => repair = false -> mi.2 = img)
    (ofold (check_links t) (seq 1 (ninodes img - 1)) tt)
    (let* '(inodes, img', _, msgs) := ofold (check_links3 repair lost t.(inode_dir) t.(dir_links)) (seq 1 (ninodes img - 1))
                                        (t.(t_inodes), img, c, []) in
     let* img' := if repair then write_back img' (the_sb img).(sb_inodestart) inodes (Z.to_nat lost) else Done img' in
     Done (msgs, img')).
Proof.
  intros Hl H0 Hlost Ht. replace (ofold (check_links t) (seq 1 (ninodes img - 1)) tt)
    with (obind (ofold (check_links t) (seq 1 (ninodes img - 1)) tt) Done) by (by destruct (ofold _ _ _)).
  apply (sim_bind snd (fun _ b => b.1 = (t_inodes t, img, c))).
  - apply sim_ofold; [intros; by eapply links_quiet| |done|done].
    intros k [] [b msgs] _ Hb Hm. cbn [fst snd] in *. subst b msgs. apply sim_links.
  - intros [] [b msgs] Hb Hm. cbn [fst snd] in *. subst b msgs. destruct repair; cbn [obind]; [|by apply sim_ret].
    split.
    + intros [_ Hpos] [] _. destruct (write_back_ok img (t_inodes t) (Z.to_nat lost) Hl ltac:(lia) Ht) as [img' ->].
      cbn [obind]. by eexists.
    + intros b _ _. by exists tt.
  - intros [[[i2 m2] d2] s2] [m i] (m3 & _ & H3)%obind_Done. by injection H3 as <- <-.
Qed.

Lemma sim_xcheck depth repair img :
  sim (harmless depth img /\ (0 < ninodes img)%nat) fst (fun _ mi => repair = false -> mi.2 = img) (xcheck1 img) (xcheck3 depth repair img).
Proof.
  unfold xcheck1, xcheck_with, xcheck3. apply sim_same. intros [] Htouch. apply sim_same. intros [] _.
  apply (sim_bind (fun cz => cz.2.(s_msgs)) (inode_rel img)).
  - apply (sim_weaken (harmless depth img)); [by intros [? _]|]. apply sim_inodes.
  - intros [[mk t] maps] [c z] [Ec HR] Hm. cbn [fst snd] in *. pose proof HR as (E1 & _ & Hl & _ & H0 & Hlost & _). cbn [fst snd] in E1. subst t mk.
    apply (sim_bind (fun m => m) (fun _ _ => True)).
    + rewrite Hm. apply sim_ofold; [intros; by eapply bitmap_quiet|intros j [] m _ _ ->; apply sim_bitmap|done|done].
    + intros _ m _ ->. by apply sim_rest.
    + intros b [m i] ([[[i2 m2] d2] s2] & H2 & (m3 & _ & H3)%obind_Done)%obind_Done Hs. injection H3 as <- <-.
      by apply (ofold_quiet snd) in H2; [|intros x b1 c1; apply links_quiet|].
  - intros [c z] [m i] (m1 & H1 & ([[[i2 m2] d2] s2] & H2 & (m3 & _ & H3)%obind_Done)%obind_Done)%obind_Done Hs. injection H3 as <- <-.
    apply (ofold_quiet snd) in H2; [|intros x b1 c1; apply links_quiet|done].
    by apply (ofold_quiet (fun m => m)) in H1; [|intros x b1 c1; apply bitmap_quiet|].
Qed.

(** *** Properties *)

(** C11: contest 3 reports no error only for images that contest 1 accepts.  For
    an image that contest 1 accepts it reports none and writes an image,
    whether it repairs or not, provided that what [trace_parent], called with its arguments
    the wrong way round, takes for the inodes of the parent directories has size 0
    ([boot_zero]), as in an image with an empty first block in which no directory has a
    parent with a number from 8 on.  With one argument, or none, the program fails before it reads
    the image. *)
Theorem xcheck3_exact depth repair img :
  (forall img', xcheck3 depth repair img = Done ([], img') -> xcheck1 img = Done tt) /\
  ((0 < depth)%nat -> (0 < ninodes img)%nat -> boot_zero img -> xcheck1 img = Done tt ->
     exists img', xcheck3 depth repair img = Done ([], img') /\ (repair = false -> img' = img)) /\
  (forall argc r file, argc <= 2 -> exists w, main3 depth argc r file = Crash w).
Proof.
  destruct (sim_xcheck depth repair img) as [H1 H2]. split_and!.
  - intros img' H. by destruct (H2 _ H eq_refl) as ([] & ? & _).
  - intros Hd Hn Hb Hx. assert (Hs : 64 * Z.of_nat (ninodes img) <= IMG_SIZE).
    { pose proof Hx as Hx1. unfold xcheck1, xcheck_with in Hx1. apply obind_Done in Hx1 as ([] & [? ?]%touch_Done & _). lia. }
    destruct (H1 ltac:(done) tt Hx) as ([m img'] & H & Hi & Hm). cbn [fst snd] in *. subst m. by exists img'.
  - intros argc r file Ha. unfold main3. rewrite (proj2 (Z.leb_le _ _) Ha). by eexists.
Qed.

(** The image of contest 1 with one directory below the root. *)
Lemma xcheck3_exact_witness :
  xcheck1 (sub_fs 1) = Done tt /\ exists img', xcheck3 1 false (sub_fs 1) = Done ([], img') /\ img' = sub_fs 1.
Proof.
  assert (H : xcheck1 (sub_fs 1) = Done tt) by (vm_compute; reflexivity). split; [exact H|].
  assert (Hb : boot_zero (sub_fs 1)).
  { intros k e Hk He Hd _. change (ninodes (sub_fs 1)) with 3%nat in Hk.
    assert (E : forallb (fun k => forallb (fun e => negb (is_dotdot e.(de_name)) || (di_size (dinode_at (sub_fs 1) (64 * e.(de_inum))) =? 0))
      (entries (sub_fs 1) (nth_inode (sub_fs 1) k))) (seq 0 3) = true) by (vm_compute; reflexivity).
    rewrite forallb_forall in E. specialize (E k ltac:(apply in_seq; lia)). rewrite forallb_forall in E. specialize (E e ltac:(by apply list_elem_of_In)).
    rewrite Hd in E. by apply Z.eqb_eq in E. }
  destruct (proj1 (proj2 (xcheck3_exact 1 false (sub_fs 1))) ltac:(lia) ltac:(vm_compute; lia) Hb H) as (img' & H1 & H2).
  exists img'. split; [exact H1|exact (H2 eq_refl)].
Defined.

(** An image with a file, inode 2, that no directory names. *)
Definition lost_fs : image :=
  image_of (bytes32 (512 + 4) 941 ++ bytes32 (512 + 8) 3 ++ bytes32 (512 + 20) 32 ++ bytes32 (512 + 24) 58 ++
    put_inode 1 1 1 32 59 ++ put_inode 2 2 1 16 60 ++
    put_entry 59 0 1 [46] ++ put_entry 59 1 1 [46; 46] ++ [(58 * 512 + 7, 24)]).

(** Without a directory [lost_found] its number stays 0: the entry for the lost
    file is appended to the unused inode 0, in the block of the file itself, the
    last one that was met, and no directory names the file afterwards. *)
Lemma repair_without_directory :
  match xcheck3 1 true lost_fs with
  | Done (msgs, img) =>
      msgs = ["ERROR: inode marked use but not found in a directory."; "ERROR: bad reference count for file."]%string /\
      di_size (nth_inode img 0) = 16 /\ di_type (nth_inode img 0) = 0 /\ di_addrs (nth_inode img 0) !! 0%nat = Some 60 /\
      entries img (nth_inode img 1) = entries lost_fs (nth_inode lost_fs 1)
  | _ => False
  end.
Proof. vm_compute. split_and!; reflexivity. Qed.
