(* ===== verification/XcheckFiles.v ===== *)
(** * The files of the repair

    [main] of [projects/filesystems-check/xcheck_contest_3.c] and of
    [xcheck_contest_3_same_input_output_files.c] with the files: the image is a
    shared mapping of a file, it is copied into a second file, and the checks and
    the repair run on the mapping of that.  Two names can be names of one file, and
    then the two mappings show the same bytes. *)

From Stdlib Require Import ZArith Lia String.
From stdpp Require Import base tactics numbers list gmap.
From S2P Require Import Prelude FsImage Xcheck XcheckSpec XcheckRepair Xcheck3.

Local Open Scope Z_scope.
Local Open Scope ostep_scope.

(** ** Definitions *)

(** The names of the directory and the files behind them. *)
Record fsys := mkFsys { names : gmap (list Z) nat; files : gmap nat (list Z) }.

Definition set_file (ino : nat) (l : list Z) (s : fsys) : fsys := mkFsys s.(names) (<[ino := l]> s.(files)).

(** [ftruncate] and a mapping of [IMG_SIZE] bytes: cut, or filled with zeros. *)
Definition window (l : list Z) : list Z := resize (Z.to_nat IMG_SIZE) 0 l.

(** The bytes of a file that can be touched in a mapping: up to the end of its
    last page. *)
Definition PAGE : Z := 4096.

Definition page_up (n : Z) : Z := (n + PAGE - 1) / PAGE * PAGE.

(** The whole of a mapping is read. *)
Definition mapped (ino : nat) (s : fsys) : outcome string (list Z) :=
  match s.(files) !! ino with
  | None => Crash "bad file descriptor"%string
  | Some l => if IMG_SIZE <=? page_up (Z.of_nat (length l)) then Done (window l) else Crash "bus error"%string
  end.

(** The whole of a mapping is written; what lies past the end of the file is lost. *)
Definition map_write (ino : nat) (bs : list Z) (s : fsys) : outcome string fsys :=
  match s.(files) !! ino with
  | None => Crash "bad file descriptor"%string
  | Some l =>
      if IMG_SIZE <=? page_up (Z.of_nat (length l))
      then Done (set_file ino (take (length l) (bs ++ drop (length bs) l)) s)
      else Crash "bus error"%string
  end.

(** [write] at offset 0 of a file: it grows if needed. *)
Definition file_write (ino : nat) (bs : list Z) (s : fsys) : fsys :=
  set_file ino (bs ++ drop (length bs) (default [] (s.(files) !! ino))) s.

(** An image as the checks read it, and back. *)
Definition as_image (l : list Z) : image := fun o => default 0 (l !! Z.to_nat o).

Definition bytes_of (img : image) : list Z := (fun k => rd8 img (Z.of_nat k)) <$> seq 0 (Z.to_nat IMG_SIZE).

Definition suffix : list Z := [46; 114; 101; 112; 97; 105; 114].

(** [char target_file[200]]: the name of the file that is written. *)
Definition target_file (same : bool) (argv2 : list Z) : outcome string (list Z) :=
  let t := if same then argv2 else argv2 ++ suffix in
  if (length t <? 200)%nat then Done t else Crash "buffer overflow"%string.

Section files.
(** Whether a file of this name can be opened for writing. *)
Context (may : list Z -> bool).

(** [open(target_file, O_RDWR|O_CREAT|O_TRUNC, 0666)] *)
Definition open_trunc (name : list Z) (s : fsys) : outcome string (nat * fsys) :=
  if may name then
    match s.(names) !! name with
    | Some ino => Done (ino, set_file ino [] s)
    | None =>
        let ino := fresh (dom s.(files)) in
        Done (ino, mkFsys (<[name := ino]> s.(names)) (<[ino := []]> s.(files)))
    end
  else Fail "assert(file_fd!=-1)"%string.

(** From the opening of the image to [imgp=dst]: the files and the descriptors
    of the image and the copy.  With [same], the version for one input and output
    file, the image is first copied to memory, for a comparison. *)
Definition copy_original (same : bool) (argv2 : list Z) (s : fsys) : outcome string (nat * nat * fsys) :=
  match (if may argv2 then s.(names) !! argv2 else None) with
  | None => Crash "null pointer"%string
  | Some ino =>
      let* _ := if same then mapped ino s else Done [] in
      let* target := target_file same argv2 in
      let* '(file_fd, s) := open_trunc target s in
      let s := set_file file_fd (window (default [] (s.(files) !! file_fd))) s in
      let* src := mapped ino s in
      let* s := map_write file_fd src s in
      Done (ino, file_fd, s)
  end.

(** [main]: the messages and the files at the end. *)
Definition main_files (same : bool) (depth : nat) (argc : Z) (argv1_r : bool) (argv2 : list Z) (s : fsys) :
    outcome string (list string * fsys) :=
  let usage := say (negb (argc =? 2) && negb (argc =? 3)) "Usage: xcheck (-r) <file_system_image>"%string [] in
  if argc <=? 2 then Crash "null pointer"%string
  else
    let before := say (negb argv1_r) "need -r"%string usage in
    let* '(_, file_fd, s) := copy_original same argv2 s in
    let* l := mapped file_fd s in
    let* '(msgs, img) := xcheck3 depth true (as_image l) in
    let* s := map_write file_fd (bytes_of img) s in
    let* l := mapped file_fd s in
    Done (before ++ msgs, file_write file_fd l s).

(** ** Mappings *)

Lemma length_window l : length (window l) = Z.to_nat IMG_SIZE.
Proof. apply length_resize. Qed.

Lemma length_bytes_of img : length (bytes_of img) = Z.to_nat IMG_SIZE.
Proof. unfold bytes_of. by rewrite length_fmap, length_seq. Qed.

Lemma window_full l : length l = Z.to_nat IMG_SIZE -> window l = l.
Proof. intros H. unfold window. rewrite <- H. apply resize_all. Qed.

Lemma page_up_full : (IMG_SIZE <=? page_up (Z.of_nat (Z.to_nat IMG_SIZE))) = true.
Proof. by vm_compute. Qed.

Local Opaque IMG_SIZE.

Definition full (ino : nat) (l : list Z) (s : fsys) : Prop := s.(files) !! ino = Some l /\ length l = Z.to_nat IMG_SIZE.

Lemma full_set ino l s : length l = Z.to_nat IMG_SIZE -> full ino l (set_file ino l s).
Proof. intros H. split; [apply lookup_insert_eq|done]. Qed.

Lemma mapped_full ino l s : full ino l s -> mapped ino s = Done l.
Proof. intros [H Hl]. unfold mapped. rewrite H, Hl, page_up_full. by rewrite window_full. Qed.

Lemma map_write_full ino l bs s : full ino l s -> length bs = Z.to_nat IMG_SIZE -> map_write ino bs s = Done (set_file ino bs s).
Proof.
  intros [H Hl] Hb. unfold map_write. rewrite H, Hl, page_up_full. rewrite (drop_ge l) by lia. rewrite app_nil_r.
  by rewrite take_ge by lia.
Qed.

Lemma set_file_twice ino l l' s : set_file ino l (set_file ino l' s) = set_file ino l s.
Proof. unfold set_file. cbn. by rewrite insert_insert_eq. Qed.

Lemma file_write_full ino l bs s : full ino l s -> length bs = Z.to_nat IMG_SIZE -> file_write ino bs s = set_file ino bs s.
Proof. intros [H Hl] Hb. unfold file_write. rewrite H. cbn [default]. rewrite (drop_ge (default [] (Some l))) by (cbn; lia). by rewrite app_nil_r. Qed.

Lemma open_trunc_spec t s : may t = true -> exists fd s1, open_trunc t s = Done (fd, s1) /\
  s1.(files) = <[fd := []]> s.(files) /\ s1.(names) !! t = Some fd /\ (forall n, n <> t -> s1.(names) !! n = s.(names) !! n) /\
  (s.(names) !! t = Some fd \/ s.(names) !! t = None /\ s.(files) !! fd = None).
Proof.
  intros Ht. unfold open_trunc. rewrite Ht. destruct (s.(names) !! t) as [fd|] eqn:E.
  - exists fd, (set_file fd [] s). split_and!; try done. by left.
  - set (fd := fresh (dom s.(files))). eexists fd, _. split; [reflexivity|]. cbn. split_and!; [done|apply lookup_insert_eq| |].
    + intros n Hn. by apply lookup_insert_ne.
    + right. split; [done|]. apply not_elem_of_dom. apply is_fresh.
Qed.

(** Everything of [main] after the copy, for a copy of the size of an image. *)
Lemma checks_on_copy depth before fd l s : full fd l s ->
  (let* l := mapped fd s in
   let* '(msgs, img) := xcheck3 depth true (as_image l) in
   let* s := map_write fd (bytes_of img) s in
   let* l := mapped fd s in
   Done (before ++ msgs, file_write fd l s)) =
  (let* '(msgs, img) := xcheck3 depth true (as_image l) in Done (before ++ msgs, set_file fd (bytes_of img) s)).
Proof.
  intros Hf. rewrite (mapped_full _ _ _ Hf). cbn [obind]. destruct (xcheck3 depth true (as_image l)) as [[msgs img]| |]; cbn [obind]; try done.
  rewrite (map_write_full _ _ _ _ Hf (length_bytes_of img)). cbn [obind].
  assert (H2 : full fd (bytes_of img) (set_file fd (bytes_of img) s)) by (apply full_set; exact (length_bytes_of img)).
  rewrite (mapped_full _ _ _ H2). cbn [obind]. rewrite (file_write_full _ _ _ _ H2 (length_bytes_of img)). by rewrite set_file_twice.
Qed.

(** *** Zeros instead of the image *)

Definition zeros : list Z := replicate (Z.to_nat IMG_SIZE) 0.

Lemma length_zeros : length zeros = Z.to_nat IMG_SIZE.
Proof. exact (length_replicate _ _). Qed.

Lemma window_nil : window [] = zeros.
Proof. unfold window. by rewrite resize_nil. Qed.

Lemma zeros_byte o : rd8 (as_image zeros) o = 0.
Proof. unfold rd8, as_image, zeros. destruct (replicate _ 0 !! _) as [x|] eqn:E; [|done]. by apply lookup_replicate in E as [-> _]. Qed.

Lemma zeros_word o : rd32 (as_image zeros) o = 0.
Proof. unfold rd32, rd16. by rewrite !zeros_byte. Qed.

(** The empty image has no inodes, and the write-back of inode 0 reads behind the
    end of their array. *)
Lemma zeros_checked depth : exists w, xcheck3 depth true (as_image zeros) = Crash w.
Proof.
  assert (En : ninodes (as_image zeros) = 0%nat) by (unfold ninodes, the_sb, superblock_at; cbn [sb_ninodes]; by rewrite zeros_word).
  assert (Ei : inode_off (as_image zeros) = 0) by (unfold inode_off, the_sb, superblock_at; cbn [sb_inodestart]; by rewrite zeros_word).
  assert (Eb : bmap_off (as_image zeros) = 0) by (unfold bmap_off, the_sb, superblock_at; cbn [sb_bmapstart]; by rewrite zeros_word).
  assert (Ed : data_start (as_image zeros) = 1000) by (unfold data_start, the_sb, superblock_at; cbn [sb_nblocks]; by rewrite zeros_word).
  unfold xcheck3. rewrite Ei, Eb, En, Ed.
  assert (Er : read_inodes (as_image zeros) = []) by (unfold read_inodes; by rewrite En). rewrite Er.
  change (bitmap_js 1000) with (@nil Z). by eexists.
Qed.

(** The copy when the file that is written is the image itself. *)
Lemma copy_alias same path t ino s l : may path = true -> may t = true -> s.(names) !! path = Some ino ->
  target_file same path = Done t -> s.(names) !! t = Some ino -> s.(files) !! ino = Some l -> (same = true -> IMG_SIZE <= page_up (Z.of_nat (length l))) ->
  copy_original same path s = Done (ino, ino, set_file ino zeros s).
Proof.
  intros Hp Ht Hn Et Htn Hf Hl. unfold copy_original. rewrite Hp, Hn.
  assert (E0 : exists x, (if same then mapped ino s else Done []) = Done x).
  { destruct same; [|by eexists]. unfold mapped. rewrite Hf. rewrite (proj2 (Z.leb_le _ _) (Hl eq_refl)). by eexists. }
  destruct E0 as [x ->]. cbn [obind]. rewrite Et. cbn [obind]. unfold open_trunc. rewrite Ht, Htn. cbn [obind].
  rewrite set_file_twice. replace (default [] (files (set_file ino [] s) !! ino)) with (@nil Z) by (cbn; by rewrite lookup_insert_eq).
  rewrite window_nil. assert (Hz : full ino zeros (set_file ino zeros s)) by (apply full_set; exact length_zeros).
  rewrite (mapped_full _ _ _ Hz). cbn [obind]. rewrite (map_write_full _ _ _ _ Hz length_zeros). cbn [obind].
  by rewrite set_file_twice.
Qed.

Lemma main_alias same depth argc r path ino s s' : 2 < argc -> copy_original same path s = Done (ino, ino, s') -> full ino zeros s' ->
  exists w, main_files same depth argc r path s = Crash w.
Proof.
  intros Ha Ec Hf. unfold main_files. rewrite (proj2 (Z.leb_gt _ _)) by lia. rewrite Ec. cbn [obind].
  rewrite (checks_on_copy depth _ _ zeros) by done. destruct (zeros_checked depth) as [w ->]. by exists w.
Qed.

(** The copy when the file that is written is another one. *)
Lemma copy_other path ino s l : may path = true -> may (path ++ suffix) = true -> s.(names) !! path = Some ino ->
  (length (path ++ suffix) < 200)%nat -> s.(names) !! (path ++ suffix) <> Some ino -> s.(files) !! ino = Some l -> IMG_SIZE <= page_up (Z.of_nat (length l)) ->
  exists fd s1, copy_original false path s = Done (ino, fd, s1) /\ full fd (window l) s1 /\
    s1.(files) = <[fd := window l]> s.(files) /\ fd <> ino /\
    s1.(names) !! (path ++ suffix) = Some fd /\ (forall n, n <> path ++ suffix -> s1.(names) !! n = s.(names) !! n).
Proof.
  intros Hp Ht Hn Hlen Htn Hf Hl. unfold copy_original, target_file. rewrite Hp, Hn. cbn [obind]. rewrite (proj2 (Nat.ltb_lt _ _) Hlen). cbn [obind].
  destruct (open_trunc_spec (path ++ suffix) s Ht) as (fd & s1 & -> & Hfs & Hn1 & Hno & Hfd). cbn [obind].
  assert (Hne : fd <> ino) by (intros ->; destruct Hfd as [?|[_ ?]]; congruence).
  assert (Ew : window (default [] (files s1 !! fd)) = zeros) by (rewrite Hfs, lookup_insert_eq; exact window_nil). rewrite Ew.
  assert (Hm : mapped ino (set_file fd zeros s1) = Done (window l)).
  { unfold mapped. cbn [files set_file]. rewrite lookup_insert_ne, Hfs, lookup_insert_ne, Hf by done. by rewrite (proj2 (Z.leb_le _ _) Hl). }
  rewrite Hm. cbn [obind].
  assert (Hz : full fd zeros (set_file fd zeros s1)) by (apply full_set; exact length_zeros).
  rewrite (map_write_full _ _ _ _ Hz (length_window l)). cbn [obind]. rewrite set_file_twice.
  exists fd, (set_file fd (window l) s1). split_and!; try done.
  - by apply full_set, length_window.
  - cbn [files set_file]. by rewrite Hfs, insert_insert_eq.
Qed.
End files.

(** ** Properties *)

(** C12: the repair and the files.  When the name of the image with [.repair] is not
    a second name of the image, contest 3 leaves the image, and every file but that
    of the new name, as it was, and the new file holds what the checks and the
    repair make of the image; it ends as they do.  When the two names are names
    of one file, or in the version that writes to the file it reads, the file is
    truncated before it is copied: it holds nothing but zeros, whatever it was, and
    the program reads behind the end of its array of inodes. *)
Theorem repair_files may depth argc argv1_r path ino s l : 2 < argc ->
  may path = true -> may (path ++ suffix) = true -> (length (path ++ suffix) < 200)%nat ->
  s.(names) !! path = Some ino -> s.(files) !! ino = Some l -> IMG_SIZE <= page_up (Z.of_nat (length l)) ->
  (s.(names) !! (path ++ suffix) <> Some ino ->
     match main3 depth argc argv1_r (Opened (as_image (window l))) with
     | Done (msgs, img) => exists fd s', main_files may false depth argc argv1_r path s = Done (msgs, s') /\ fd <> ino /\
         s'.(names) !! (path ++ suffix) = Some fd /\ s'.(files) = <[fd := bytes_of img]> s.(files) /\
         (forall n, n <> path ++ suffix -> s'.(names) !! n = s.(names) !! n)
     | Fail w => main_files may false depth argc argv1_r path s = Fail w
     | Crash w => main_files may false depth argc argv1_r path s = Crash w
     end) /\
  (forall same, same = true \/ s.(names) !! (path ++ suffix) = Some ino ->
     copy_original may same path s = Done (ino, ino, set_file ino zeros s) /\
     exists w, main_files may same depth argc argv1_r path s = Crash w).
Proof.
  intros Ha Hp Ht Hlen Hn Hf Hl. split.
  - intros Htn. destruct (copy_other may path ino s l Hp Ht Hn Hlen Htn Hf Hl) as (fd & s1 & Ec & Hfull & Hfs & Hne & Hn1 & Hno).
    unfold main_files, main3. rewrite (proj2 (Z.leb_gt _ _)) by lia. rewrite Ec. cbn [obind].
    rewrite (checks_on_copy depth _ _ (window l)) by done.
    destruct (xcheck3 depth true (as_image (window l))) as [[msgs img]| |]; cbn [obind]; try done.
    eexists fd, _. split; [reflexivity|]. split_and!; try done. cbn [files set_file]. by rewrite Hfs, insert_insert_eq.
  - intros same Hs. assert (Et : exists t, target_file same path = Done t /\ may t = true /\ s.(names) !! t = Some ino).
    { rewrite length_app in Hlen. unfold target_file. destruct same.
      - rewrite (proj2 (Nat.ltb_lt _ _)) by lia. by exists path.
      - rewrite length_app, (proj2 (Nat.ltb_lt _ _)) by lia. exists (path ++ suffix). by destruct Hs. }
    destruct Et as (t & Et & Htm & Htn). pose proof (copy_alias may same path t ino s l Hp Htm Hn Et Htn Hf (fun _ => Hl)) as Ec.
    split; [exact Ec|]. eapply main_alias; [exact Ha|exact Ec|]. apply full_set; exact length_zeros.
Qed.

Lemma bytes_of_mapped img : IMG_SIZE <= page_up (Z.of_nat (length (bytes_of img))).
Proof. apply Z.leb_le. rewrite length_bytes_of. exact page_up_full. Qed.

(** The image with a lost file, in a file called [f]: it is gone. *)
Lemma repair_files_witness :
  let s := mkFsys {[ [102] := 0%nat ]} {[ 0%nat := bytes_of lost_fs ]} in
  copy_original (fun _ => true) true [102] s = Done (0%nat, 0%nat, set_file 0 zeros s) /\ names s !! ([102] ++ suffix) = None.
Proof.
  intros s. split; [|change (names s) with ({[ [102] := 0%nat ]} : gmap (list Z) nat); clear s; by vm_compute].
  apply (proj1 (proj2 (repair_files (fun _ => true) 1 3 true [102] 0 s (bytes_of lost_fs) ltac:(lia) eq_refl eq_refl ltac:(vm_compute; lia) eq_refl
    (lookup_singleton_eq _ _) (bytes_of_mapped lost_fs)) true (or_introl eq_refl))).
Defined.
