(* ===== verification/Btree.v ===== *)
(** * The B-tree

    [29/btree.c] with [M = 4].  A node is the list of its entries in use, [m]
    of them; an entry holds a key, a value ([None] is a null pointer) and the
    node below it.  Dereferencing a null pointer is [Crash]. *)

From Stdlib Require Import ZArith Lia String Ascii OrderedTypeEx.
From stdpp Require Import base tactics list sets sorting.
From S2P Require Import Prelude.

Local Open Scope ostep_scope.

(** ** Definitions *)

Definition M : nat := 4.

Inductive entry := mkEntry (key : string) (val : option string) (next : option (list entry)).

Definition e_key (e : entry) : string := let '(mkEntry k _ _) := e in k.

Definition e_val (e : entry) : option string := let '(mkEntry _ v _) := e in v.

Definition e_next (e : entry) : option (list entry) := let '(mkEntry _ _ n) := e in n.

Abbreviation node := (list entry).

Record btree := mkBtree { root : node; height : nat; b_n : Z }.

Definition initBtree : btree := mkBtree [] 0 0%Z.

(** [strcmp(a, b) < 0]. *)
Definition strlt (a b : string) : bool :=
  match String.compare a b with Lt => true | _ => false end.

(** [for (j = 1; j < h->m; j++) if (strcmp(key, h->children[j]->key) < 0) break]
    over the children from [j] on. *)
Fixpoint leaf_pos (key : string) (l : list entry) (j : nat) : nat :=
  match l with
  | [] => j
  | e :: l => if strlt key (e_key e) then j else leaf_pos key l (S j)
  end.

(** The position in an external node, and whether the key is less than all of
    its keys. *)
Definition external_pos (key : string) (h : node) : nat * bool :=
  match h with
  | [] => (0, false)
  | e :: l => if negb (String.eqb key EmptyString) && strlt key (e_key e) then (0, true)
              else (leaf_pos key l 1, false)
  end.

(** [if (j + 1 == h->m || strcmp(key, h->children[j + 1]->key) < 0)]: the child
    to descend into. *)
Fixpoint internal_pos (key : string) (h : node) (j : nat) : nat :=
  match h with
  | _ :: ((e :: _) as l) => if strlt key (e_key e) then j else internal_pos key l (S j)
  | _ => j
  end.

(** [split]: the right half goes to a new node. *)
Definition split_node (h : node) : node * node := (take (M / 2) h, drop (M / 2) h).

(** The code from the label [insert_node] on: [t] goes to position [j]. *)
Definition insert_node (h : node) (j : nat) (t : entry) : node * option node :=
  let h := take j h ++ t :: drop j h in
  if length h <? M then (h, None) else let '(l, r) := split_node h in (l, Some r).

Definition set_key (k : string) (e : entry) : entry := mkEntry k (e_val e) (e_next e).

(** [insert]: the node after the call, the node split off and [mod_parent]. *)
Fixpoint insert (ht : nat) (h : node) (key : string) (val : option string) :
    outcome string (node * option node * bool) :=
  match ht with
  | O =>
      let '(j, mp) := external_pos key h in
      let '(h, r) := insert_node h j (mkEntry key val None) in Done (h, r, mp)
  | S ht =>
      match h with
      | [] => let '(h, r) := insert_node h 0 (mkEntry key val None) in Done (h, r, false)
      | _ =>
          let j := internal_pos key h 0 in
          match h !! j with
          | Some e =>
              match e_next e with
              | None => Crash "null pointer"%string
              | Some c =>
                  let* '(c, r, mp) := insert ht c key val in
                  let h := <[j := mkEntry (if mp then key else e_key e) (e_val e) (Some c)]> h in
                  match r with
                  | None => Done (h, None, mp)
                  | Some r =>
                      match r with
                      | [] => Crash "null pointer"%string
                      | e0 :: _ =>
                          let '(h, r) := insert_node h (S j) (mkEntry (e_key e0) val (Some r)) in
                          Done (h, r, false)
                      end
                  end
              end
          | None => Crash "null pointer"%string
          end
      end
  end.

(** [put]; a null key is ignored. *)
Definition put (t : btree) (key : option string) (val : option string) : outcome string btree :=
  match key with
  | None => Done t
  | Some key =>
      let* '(h, r, mp) := insert t.(height) t.(root) key val in
      let n := (t.(b_n) + 1)%Z in
      match h with
      | [] => Crash "null pointer"%string
      | e0 :: h' =>
          let e0 := if mp then set_key key e0 else e0 in
          let h := e0 :: h' in
          match r with
          | None => Done (mkBtree h t.(height) n)
          | Some [] => Crash "null pointer"%string
          | Some ((f0 :: _) as r) =>
              Done (mkBtree [mkEntry (e_key e0) None (Some h); mkEntry (e_key f0) None (Some r)]
                            (S t.(height)) n)
          end
      end
  end.

(** The keys a thread inserts, and one thread's loop, run under the lock. *)
Definition urls : list string :=
  ["www.cs.princeton.edu"; "www.princeton.edu"; "www.yale.edu"; "www.simpsons.com"; "www.apple.com";
   "www.amazon.com"; "www.ebay.com"; "www.cnn.com"; "www.google.com"; "www.nytimes.com";
   "www.microsoft.com"]%string.

Definition thread_puts (threads : nat) : list string :=
  (fun i => default EmptyString (urls !! (i mod 11))) <$> seq 0 (100 / threads).

Definition thread_function (threads : nat) (t : btree) : outcome string btree :=
  ofold (fun k t => put t (Some k) (Some "128.112.136.12"%string)) (thread_puts threads) t.

(** [main] for one number of threads: the lock makes the threads run one after
    the other. *)
Definition run_threads (threads : nat) : outcome string btree :=
  ofold (fun (_ : nat) t => thread_function threads t) (seq 0 threads) initBtree.

(** ** The contents of a tree *)

Definition kv : Type := string * option string.

(** The pairs below a node of height [ht], from left to right. *)
Fixpoint flat (ht : nat) (h : node) : list kv :=
  match ht with
  | O => (fun e => (e_key e, e_val e)) <$> h
  | S ht => h ≫= fun e => match e_next e with Some c => flat ht c | None => [] end
  end.

Definition contents (t : btree) : list kv := flat t.(height) t.(root).

Definition strle (a b : string) : Prop := strlt b a = false.

(** Insertion after all the pairs with a key less than or equal to the new
    one. *)
Fixpoint ins (key : string) (val : option string) (l : list kv) : list kv :=
  match l with
  | [] => [(key, val)]
  | p :: l => if strlt key p.1 then (key, val) :: p :: l else p :: ins key val l
  end.

Definition sorted_kv (l : list kv) : Prop := StronglySorted (fun p q => strle p.1 q.1) l.

(** Well-formed nodes: at height 0 no entry has a node below, above every entry
    has a well-formed node of two or three entries below, and the key of every
    entry but the first is the least key below it. *)
Fixpoint wf (ht : nat) (h : node) : Prop :=
  match ht with
  | O => Forall (fun e => e_next e = None) h
  | S ht =>
      Forall (fun e => exists c, e_next e = Some c /\ wf ht c /\ 2 <= length c < M) h /\
      Forall (fun e => exists c p, e_next e = Some c /\ head (flat ht c) = Some p /\ e_key e = p.1) (tail h)
  end.

Definition btree_ok (t : btree) : Prop :=
  wf t.(height) t.(root) /\ sorted_kv (contents t) /\ length t.(root) < M /\
  (t.(height) = 0 \/ 2 <= length t.(root)) /\ t.(b_n) = Z.of_nat (length (contents t)).

(** ** Strings are totally ordered *)

Lemma ascii_compare_trans a b c :
  Ascii.compare a b = Lt -> Ascii.compare b c = Lt -> Ascii.compare a c = Lt.
Proof. unfold Ascii.compare. rewrite !N.compare_lt_iff. lia. Qed.

Lemma ascii_compare_refl a : Ascii.compare a a = Eq.
Proof. unfold Ascii.compare. apply N.compare_refl. Qed.

Lemma string_compare_trans a : forall b c,
  String.compare a b = Lt -> String.compare b c = Lt -> String.compare a c = Lt.
Proof.
  induction a as [|x a IH]; intros [|y b] [|z c]; cbn; try done.
  destruct (Ascii.compare x y) eqn:E1; [|intros _|done]; (destruct (Ascii.compare y z) eqn:E2; [|intros _|done]).
  - apply Ascii.compare_eq_iff in E1 as ->. rewrite E2. apply IH.
  - apply Ascii.compare_eq_iff in E1 as ->. rewrite E2. done.
  - apply Ascii.compare_eq_iff in E2 as ->. rewrite E1. done.
  - by rewrite (ascii_compare_trans _ _ _ E1 E2).
Qed.

Lemma strlt_trans a b c : strlt a b = true -> strlt b c = true -> strlt a c = true.
Proof.
  unfold strlt. destruct (String.compare a b) eqn:E1; try done. destruct (String.compare b c) eqn:E2; try done.
  by rewrite (string_compare_trans _ _ _ E1 E2).
Qed.

Lemma strlt_le a b : strlt a b = true -> strle a b.
Proof.
  unfold strle, strlt. rewrite (String.compare_antisym b a).
  destruct (String.compare a b); done.
Qed.

(** Not greater: less or equal. *)
Lemma strle_cases a b : strle a b -> strlt a b = true \/ a = b.
Proof.
  unfold strle, strlt. rewrite (String.compare_antisym b a).
  destruct (String.compare a b) eqn:E; cbn; try done; [|by left].
  intros _. right. by apply String.compare_eq_iff.
Qed.

Lemma strle_refl a : strle a a.
Proof.
  unfold strle, strlt. assert (E : String.compare a a = Eq); [|by rewrite E].
  induction a as [|x a IH]; cbn; [done|]. by rewrite ascii_compare_refl.
Qed.

Lemma strle_trans a b c : strle a b -> strle b c -> strle a c.
Proof.
  intros [H1| ->]%strle_cases; [|done]. intros [H2| ->]%strle_cases; [|by apply strlt_le].
  apply strlt_le. by eapply strlt_trans.
Qed.

Lemma strlt_strle a b c : strlt a b = true -> strle b c -> strlt a c = true.
Proof. intros H1 [H2| ->]%strle_cases; [|done]. by eapply strlt_trans. Qed.

Lemma strlt_not_le a b : strlt a b = true -> ~ strle b a.
Proof. unfold strle. by intros ->. Qed.

(** ** Ordered insertion *)

Lemma ins_app key val l1 l2 :
  Forall (fun p => strle p.1 key) l1 -> ins key val (l1 ++ l2) = l1 ++ ins key val l2.
Proof.
  induction 1 as [|p l1 Hp _ IH]; cbn; [done|]. unfold strle in Hp. by rewrite Hp, IH.
Qed.

Lemma ins_app_r key val l1 l2 :
  Forall (fun p => strlt key p.1 = true) l2 -> ins key val (l1 ++ l2) = ins key val l1 ++ l2.
Proof.
  intros H. induction l1 as [|p l1 IH]; cbn.
  - destruct l2 as [|q l2]; [done|]. apply Forall_cons in H as [H _]. cbn. by rewrite H.
  - destruct (strlt key p.1); [done|]. by rewrite IH.
Qed.

Lemma length_ins key val l : length (ins key val l) = S (length l).
Proof. induction l as [|p l IH]; cbn; [done|]. destruct (strlt key p.1); cbn; by rewrite ?IH. Qed.

Lemma ins_perm key val l : ins key val l ≡ₚ (key, val) :: l.
Proof.
  induction l as [|p l IH]; cbn; [done|]. destruct (strlt key p.1); [done|]. rewrite IH. constructor.
Qed.

Lemma ins_sorted key val l : sorted_kv l -> sorted_kv (ins key val l).
Proof.
  unfold sorted_kv. induction 1 as [|p l Hs IH Hp]; cbn; [repeat constructor|].
  destruct (strlt key p.1) eqn:E.
  - constructor; [by constructor|]. constructor; [by apply strlt_le|].
    eapply Forall_impl; [exact Hp|]. intros q Hq. eapply strle_trans; [by apply strlt_le|exact Hq].
  - constructor; [done|]. rewrite ins_perm. constructor; [done|done].
Qed.

(** The pairs with the key: the new one is the last. *)
Lemma filter_ins key val l : sorted_kv l ->
  filter (fun p => String.eqb p.1 key = true) (ins key val l) = filter (fun p => String.eqb p.1 key = true) l ++ [(key, val)].
Proof.
  assert (Hgt : forall m : list kv, Forall (fun p => strlt key p.1 = true) m -> filter (fun p => String.eqb p.1 key = true) m = []).
  { induction 1 as [|p m Hp _ IH]; [done|]. rewrite filter_cons_False; [done|]. intros E%String.eqb_eq. rewrite E in Hp.
    destruct (strlt_not_le _ _ Hp). unfold strle. destruct (strlt key key) eqn:Ek; [|done]. by destruct (strlt_not_le _ _ Ek); apply strlt_le. }
  induction 1 as [|p l Hs IH Hp]; cbn [ins]; [rewrite filter_cons_True; [done|apply String.eqb_refl]|]. destruct (strlt key p.1) eqn:E.
  - rewrite (filter_cons_True _ (key, val)) by apply String.eqb_refl. assert (F : Forall (fun p => strlt key p.1 = true) (p :: l)) by (constructor; [done|]; eapply Forall_impl; [exact Hp|]; intros q Hq; by eapply strlt_strle).
    transitivity ([(key, val)]); [f_equal; exact (Hgt _ F)|]. symmetry. etransitivity; [apply f_equal2; [exact (Hgt _ F)|reflexivity]|reflexivity].
  - destruct (decide (String.eqb p.1 key = true)); [rewrite !filter_cons_True by done; cbn [app]; f_equal; exact IH|rewrite !filter_cons_False by done; exact IH].
Qed.

Lemma ins_head key val l p : head l = Some p -> strle p.1 key -> head (ins key val l) = Some p.
Proof. destruct l as [|q l]; [done|]. cbn. unfold strle. by intros [= ->] ->. Qed.

Lemma sorted_app l1 l2 :
  sorted_kv (l1 ++ l2) <->
  sorted_kv l1 /\ sorted_kv l2 /\ forall p q, p ∈ l1 -> q ∈ l2 -> strle p.1 q.1.
Proof.
  unfold sorted_kv. induction l1 as [|x l1 IH]; cbn.
  - split; [intros H; split_and!; [constructor|done|]; intros p q Hp; by apply elem_of_nil in Hp|by intros (_ & ? & _)].
  - split.
    + intros H. apply StronglySorted_inv in H as [H Hx]. apply IH in H as (H1 & H2 & H3).
      rewrite Forall_app in Hx. destruct Hx as [Hx1 Hx2]. split_and!; [by constructor|done|].
      intros p q [->|Hp]%elem_of_cons Hq; [|auto]. rewrite Forall_forall in Hx2. auto.
    + intros (H1 & H2 & H3). apply StronglySorted_inv in H1 as [H1 Hx]. constructor.
      * apply IH. split_and!; [done|done|]. intros p q Hp Hq. apply H3; [by right|done].
      * apply Forall_app. split; [done|]. apply Forall_forall. intros q Hq. apply H3; [by left|done].
Qed.

Lemma sorted_head l p : sorted_kv l -> head l = Some p -> Forall (fun q => strle p.1 q.1) l.
Proof.
  intros H Hp. destruct l as [|x l]; [done|]. injection Hp as ->.
  apply StronglySorted_inv in H as [_ H]. constructor; [apply strle_refl|done].
Qed.

(** ** Nodes *)

Lemma flat_app ht a b : flat ht (a ++ b) = flat ht a ++ flat ht b.
Proof. destruct ht; cbn; [apply fmap_app|apply bind_app]. Qed.

Lemma flat_cons ht e c b : e_next e = Some c -> flat (S ht) (e :: b) = flat ht c ++ flat (S ht) b.
Proof. intros H. cbn. by rewrite H. Qed.

(** The two conditions of a well-formed internal node. *)
Definition child_ok (ht : nat) (e : entry) : Prop :=
  exists c, e_next e = Some c /\ wf ht c /\ 2 <= length c < M.

Definition key_ok (ht : nat) (e : entry) : Prop :=
  exists c p, e_next e = Some c /\ head (flat ht c) = Some p /\ e_key e = p.1.

Lemma wf_S ht h : wf (S ht) h <-> Forall (child_ok ht) h /\ Forall (key_ok ht) (tail h).
Proof. done. Qed.

Lemma tail_app {A} (a : list A) x b : tail (a ++ x :: b) = tail (a ++ [x]) ++ b.
Proof. destruct a; cbn; [done|]. by rewrite <- app_assoc. Qed.

Lemma Forall_tail_snoc {A} (P : A -> Prop) a x :
  Forall P (tail (a ++ [x])) <-> Forall P (tail a) /\ (a <> [] -> P x).
Proof.
  destruct a as [|y a]; cbn; [split; [split; [constructor|done]|constructor]|].
  rewrite Forall_app, Forall_singleton. naive_solver.
Qed.

Lemma wf_take ht k h : wf ht h -> wf ht (take k h).
Proof.
  destruct ht as [|ht]; [apply Forall_take|]. rewrite !wf_S. intros [H1 H2]. split; [by apply Forall_take|].
  destruct h as [|e h], k as [|k]; cbn; [constructor..|]. cbn in H2. by apply Forall_take.
Qed.

Lemma wf_drop ht k h : wf ht h -> wf ht (drop k h).
Proof.
  destruct ht as [|ht]; [apply Forall_drop|]. rewrite !wf_S. intros [H1 H2]. split; [by apply Forall_drop|].
  destruct h as [|e h], k as [|k]; cbn in *; [constructor|constructor|done|].
  destruct (drop k h) as [|f l] eqn:E; [constructor|]. cbn.
  assert (Hd : Forall (key_ok ht) (drop k h)) by (by apply Forall_drop). rewrite E in Hd. by inversion Hd.
Qed.

Lemma flat_head ht : forall h, wf ht h -> h <> [] -> exists p, head (flat ht h) = Some p.
Proof.
  induction ht as [|ht IH]; intros h Hw Hne.
  - destruct h; [done|]. cbn. eauto.
  - destruct h as [|e h]; [done|]. apply wf_S in Hw as [Hc _]. apply Forall_cons in Hc as [(c & Hn & Hw & Hl) _].
    rewrite (flat_cons _ _ _ _ Hn). destruct (IH c Hw) as [p Hp]; [by destruct c; cbn in *; [lia|]|].
    exists p. by destruct (flat ht c).
Qed.

(** ** External nodes *)

Lemma leaf_pos_ins key val (l : list entry) j :
  let k := leaf_pos key l j - j in
  (j <= leaf_pos key l j) /\ flat 0 (take k l ++ mkEntry key val None :: drop k l) = ins key val (flat 0 l).
Proof.
  revert j; induction l as [|e l IH]; intros j; cbn [leaf_pos].
  - rewrite Nat.sub_diag. split; [done|done].
  - cbn. destruct (strlt key (e_key e)) eqn:E.
    + rewrite Nat.sub_diag. split; done.
    + destruct (IH (S j)) as [H1 H2]. split; [lia|].
      replace (leaf_pos key l (S j) - j) with (S (leaf_pos key l (S j) - S j)) by lia.
      cbn. f_equal. exact H2.
Qed.

Lemma external_ins key val h :
  key <> EmptyString ->
  let '(j, mp) := external_pos key h in
  flat 0 (take j h ++ mkEntry key val None :: drop j h) = ins key val (flat 0 h) /\
  (sorted_kv (flat 0 h) -> mp = true -> Forall (fun p => strlt key p.1 = true) (flat 0 h)).
Proof.
  intros Hk. destruct h as [|e l]; [done|]. unfold external_pos.
  rewrite (proj2 (String.eqb_neq key EmptyString) Hk). cbn [negb andb].
  destruct (strlt key (e_key e)) eqn:E.
  - split; [cbn; by rewrite E|]. intros Hs _. eapply Forall_impl; [exact (sorted_head _ (e_key e, e_val e) Hs eq_refl)|].
    intros q Hq. by eapply strlt_strle.
  - split; [|done]. destruct (leaf_pos_ins key val l 1) as [H1 H2].
    replace (leaf_pos key l 1) with (S (leaf_pos key l 1 - 1)) by lia. cbn. rewrite E. f_equal. exact H2.
Qed.

(** ** Internal nodes *)

Lemma internal_pos_cons key x y h k :
  internal_pos key (x :: y :: h) k = if strlt key (e_key y) then k else internal_pos key (y :: h) (S k).
Proof. done. Qed.

Lemma internal_pos_spec key h : forall k, h <> [] ->
  exists a e b, h = a ++ e :: b /\ internal_pos key h k = k + length a /\
    Forall (fun e => strle (e_key e) key) (tail (a ++ [e])) /\
    (forall f, head b = Some f -> strlt key (e_key f) = true).
Proof.
  induction h as [|x h IH]; intros k Hne; [done|]. destruct h as [|y h].
  - exists [], x, []. cbn. split_and!; [done|lia|constructor|done].
  - rewrite internal_pos_cons. destruct (strlt key (e_key y)) eqn:E.
    + exists [], x, (y :: h). cbn. split_and!; [done|lia|constructor|]. by intros f [= <-].
    + destruct (IH (S k)) as (a & e & b & Eh & Ep & Hall & Hb); [done|].
      exists (x :: a), e, b. split_and!; [by rewrite Eh|cbn [length]; lia| |done].
      cbn [app tail]. destruct a as [|z a]; cbn in Eh, Hall |- *.
      * injection Eh as -> _. by constructor.
      * injection Eh as -> _. by constructor.
Qed.

(** What lies left and right of the child descended into. *)
Lemma around_child ht key a e b c :
  wf (S ht) (a ++ e :: b) -> sorted_kv (flat (S ht) (a ++ e :: b)) -> e_next e = Some c ->
  Forall (fun e => strle (e_key e) key) (tail (a ++ [e])) ->
  (forall f, head b = Some f -> strlt key (e_key f) = true) ->
  Forall (fun p => strle p.1 key) (flat (S ht) a) /\
  Forall (fun p => strlt key p.1 = true) (flat (S ht) b) /\
  (a <> [] -> exists p, head (flat ht c) = Some p /\ e_key e = p.1 /\ strle p.1 key).
Proof.
  intros Hw Hs Hn Hle Hlt. apply wf_S in Hw as [Hc Hk]. rewrite tail_app, Forall_app in Hk.
  destruct Hk as [Hka Hkb]. rewrite flat_app, (flat_cons _ _ _ _ Hn) in Hs.
  apply sorted_app in Hs as (_ & Hs2 & Hx). apply sorted_app in Hs2 as (_ & Hsb & _).
  assert (Hhead : a <> [] -> exists p, head (flat ht c) = Some p /\ e_key e = p.1 /\ strle p.1 key).
  { intros Ha. apply Forall_tail_snoc in Hka as [_ Hke], Hle as [_ Hle]. specialize (Hke Ha). specialize (Hle Ha).
    destruct Hke as (c' & p & Hn' & Hp & E). rewrite Hn in Hn'. injection Hn' as <-. exists p. rewrite <- E. auto. }
  split_and!; [| |done].
  - destruct a as [|x a]; [constructor|]. destruct Hhead as (p & Hp & _ & Hpk); [done|].
    apply Forall_forall. intros q Hq. eapply strle_trans; [|exact Hpk]. apply Hx; [done|].
    destruct (flat ht c) as [|p' l]; [done|]. injection Hp as ->. apply elem_of_app. left. by left.
  - destruct b as [|f b]; [constructor|]. specialize (Hlt f eq_refl).
    apply Forall_cons in Hkb as [(c' & p & Hn' & Hp & E) _]. rewrite E in Hlt.
    assert (Hp' : head (flat (S ht) (f :: b)) = Some p) by (rewrite (flat_cons _ _ _ _ Hn'); by destruct (flat ht c')).
    eapply Forall_impl; [exact (sorted_head _ _ Hsb Hp')|]. intros q Hq. by eapply strlt_strle.
Qed.

(** ** insert *)

(** What [insert] promises of the node [h], at height [ht], it was called on. *)
Definition inserted (ht : nat) (h : node) (key : string) (val : option string)
    (h' : node) (r : option node) (mp : bool) : Prop :=
  wf ht h' /\
  match r with
  | None => flat ht h' = ins key val (flat ht h) /\ length h' < M /\ 1 <= length h' /\ length h <= length h'
  | Some r => flat ht h' ++ flat ht r = ins key val (flat ht h) /\ wf ht r /\
              length h' = 2 /\ length r = 2 /\
              exists e0 p, head r = Some e0 /\ head (flat ht r) = Some p /\ e_key e0 = p.1
  end /\
  (mp = true -> Forall (fun p => strlt key p.1 = true) (flat ht h)).

Lemma right_half_head ht l :
  wf ht l -> length l = 4 ->
  exists e0 p, head (drop 2 l) = Some e0 /\ head (flat ht (drop 2 l)) = Some p /\ e_key e0 = p.1.
Proof.
  intros Hw Hl. destruct l as [|x [|y [|z l]]]; cbn in Hl; try lia. cbn [drop head].
  destruct ht as [|ht].
  - exists z, (e_key z, e_val z). done.
  - apply wf_S in Hw as [_ Hk]. cbn in Hk. apply Forall_cons in Hk as [_ Hk].
    apply Forall_cons in Hk as [(c & p & Hn & Hp & E) _]. exists z, p. split_and!; [done| |done].
    rewrite (flat_cons _ _ _ _ Hn). by destruct (flat ht c).
Qed.

(** The node with the new entry in place, split if it is full. *)
Lemma insert_node_ok ht h key val j t mp h0 :
  length h < M -> wf ht (take j h ++ t :: drop j h) ->
  flat ht (take j h ++ t :: drop j h) = ins key val (flat ht h0) -> length h0 <= length h ->
  (mp = true -> Forall (fun p => strlt key p.1 = true) (flat ht h0)) ->
  exists h' r, insert_node h j t = (h', r) /\ inserted ht h0 key val h' r mp.
Proof.
  intros Hlen Hw Hf Hh0 Hmp. unfold insert_node. set (l := take j h ++ t :: drop j h) in *.
  assert (Hll : length l = S (length h)).
  { unfold l. rewrite length_app. cbn. rewrite length_take, length_drop. lia. }
  unfold M in *. destruct (Nat.ltb_spec (length l) 4).
  - exists l, None. split; [done|]. unfold inserted, M. split_and!; [done|done|lia|lia|lia|done].
  - exists (take 2 l), (Some (drop 2 l)). split; [done|]. unfold inserted. split_and!.
    + by apply wf_take.
    + by rewrite <- flat_app, take_drop.
    + by apply wf_drop.
    + rewrite length_take. lia.
    + rewrite length_drop. lia.
    + apply right_half_head; [done|lia].
    + done.
Qed.

Lemma head_app_l {A} (l1 l2 : list A) x : head l1 = Some x -> head (l1 ++ l2) = Some x.
Proof. by destruct l1. Qed.

Lemma insert_S ht h key val :
  h <> [] ->
  insert (S ht) h key val =
  let j := internal_pos key h 0 in
  match h !! j with
  | Some e =>
      match e_next e with
      | None => Crash "null pointer"%string
      | Some c =>
          let* '(c, r, mp) := insert ht c key val in
          let h := <[j := mkEntry (if mp then key else e_key e) (e_val e) (Some c)]> h in
          match r with
          | None => Done (h, None, mp)
          | Some [] => Crash "null pointer"%string
          | Some ((e0 :: _) as r) =>
              let '(h, r) := insert_node h (S j) (mkEntry (e_key e0) val (Some r)) in
              Done (h, r, false)
          end
      end
  | None => Crash "null pointer"%string
  end.
Proof. by destruct h. Qed.

Lemma insert_ok ht : forall h key val,
  key <> EmptyString -> wf ht h -> sorted_kv (flat ht h) -> length h < M -> (ht = 0 \/ 1 <= length h) ->
  exists h' r mp, insert ht h key val = Done (h', r, mp) /\ inserted ht h key val h' r mp.
Proof.
  induction ht as [|ht IH]; intros h key val Hkey Hw Hs Hl Hne.
  - cbn [insert]. pose proof (external_ins key val h Hkey) as He. destruct (external_pos key h) as [j mp]. destruct He as [Hf Hmp].
    destruct (insert_node_ok 0 h key val j (mkEntry key val None) mp h) as (h' & r & -> & Hi); eauto.
    cbn. apply Forall_app. split; [by apply Forall_take|]. constructor; [done|by apply Forall_drop].
  - destruct Hne as [?|Hne]; [done|].
    destruct (internal_pos_spec key h 0) as (a & e & b & Eh & Ep & Hle & Hlt); [by destruct h; cbn in *; [lia|]|].
    rewrite insert_S by (by destruct h; cbn in *; [lia|]).
    rewrite Ep. cbn [Nat.add]. cbv zeta.
    assert (El : h !! length a = Some e) by (rewrite Eh; by apply list_lookup_middle). rewrite El.
    rewrite Eh in Hw. pose proof Hw as Hw0. apply wf_S in Hw as [Hc Hk].
    apply Forall_app in Hc as [Hca Hcb]. apply Forall_cons in Hcb as [(c & Hn & Hwc & Hlc) Hcb].
    rewrite Hn. rewrite Eh in Hs. destruct (around_child ht key a e b c Hw0 Hs Hn Hle Hlt) as (Ha & Hb & Hhead).
    assert (Hsc : sorted_kv (flat ht c)).
    { rewrite flat_app, (flat_cons _ _ _ _ Hn) in Hs. apply sorted_app in Hs as (_ & Hs & _).
      apply sorted_app in Hs. apply Hs. }
    unfold M in *.
    destruct (IH c key val Hkey Hwc Hsc ltac:(lia) ltac:(lia)) as (c' & r & mp & Ei & Hwc' & Hr & Hmp).
    rewrite Ei. cbn [obind].
    assert (Hmpa : mp = true -> a = []).
    { intros ->. destruct a as [|x a]; [done|]. destruct Hhead as (p & Hp & _ & Hpk); [done|].
      specialize (Hmp eq_refl). rewrite Forall_forall in Hmp. exfalso.
      eapply strlt_not_le; [apply (Hmp p)|exact Hpk]. destruct (flat ht c); [done|]. injection Hp as ->. by left. }
    set (e' := mkEntry (if mp then key else e_key e) (e_val e) (Some c')).
    assert (Eins : <[length a := e']> h = a ++ e' :: b).
    { rewrite Eh. rewrite <- (Nat.add_0_r (length a)). by rewrite insert_app_r. }
    rewrite Eins.
    assert (Hflat : flat (S ht) h = flat (S ht) a ++ flat ht c ++ flat (S ht) b)
      by (rewrite Eh, flat_app, (flat_cons _ _ _ _ Hn); done).
    assert (Hins : ins key val (flat (S ht) h) = flat (S ht) a ++ ins key val (flat ht c) ++ flat (S ht) b)
      by (rewrite Hflat, ins_app, ins_app_r by done; done).
    assert (Hmph : mp = true -> Forall (fun p => strlt key p.1 = true) (flat (S ht) h)).
    { intros E. rewrite Hflat, (Hmpa E). rewrite (app_nil_l _ : flat (S ht) [] ++ _ = _). apply Forall_app. split; [by apply Hmp|done]. }
    rewrite tail_app, Forall_app in Hk. destruct Hk as [Hka Hkb].
    (* the entry of the child keeps a correct key *)
    assert (Hkey' : forall p, head (flat ht c') = Some p -> (a <> [] -> head (ins key val (flat ht c)) = Some p) ->
      Forall (key_ok ht) (tail (a ++ [e']))).
    { intros p Hp Hsame. apply Forall_tail_snoc in Hka as [Hka Hke]. apply Forall_tail_snoc. split; [done|].
      intros Hane. destruct (Hhead Hane) as (q & Hq & Eq & Hqk). exists c', p. split_and!; [done|done|].
      unfold e'. cbn. destruct mp; [by destruct Hane, Hmpa|].
      specialize (Hsame Hane). rewrite (ins_head _ _ _ q Hq Hqk) in Hsame. injection Hsame as <-. done. }
    destruct (flat_head ht c' Hwc') as [p Hp].
    { destruct r as [r|]; [destruct Hr as (_ & _ & H2 & _)|destruct Hr as (_ & _ & H2 & _)]; by destruct c'; cbn in *; [lia|]. }
    destruct r as [r|].
    + destruct Hr as (Hfr & Hwr & Hlc' & Hlr & e0 & p0 & He0 & Hp0 & Ek).
      destruct r as [|e1 r1]; [done|]. injection He0 as ->. cbv beta iota. set (r := e0 :: r1) in *.
      assert (Hsplice : take (S (length a)) (a ++ e' :: b) ++ mkEntry (e_key e0) val (Some r) :: drop (S (length a)) (a ++ e' :: b)
        = a ++ e' :: mkEntry (e_key e0) val (Some r) :: b).
      { replace (a ++ e' :: b) with ((a ++ [e']) ++ b) by (by rewrite <- app_assoc).
        rewrite take_app_length', drop_app_length' by (rewrite length_app; cbn; lia). by rewrite <- app_assoc. }
      destruct (insert_node_ok (S ht) (a ++ e' :: b) key val (S (length a)) (mkEntry (e_key e0) val (Some r)) false h)
        as (h' & r' & Hin & Hi); [rewrite <- Eins, length_insert; done|rewrite Hsplice|rewrite Hsplice|
          rewrite <- Eins, length_insert; done|done|].
      * apply wf_S. split.
        -- apply Forall_app. split; [done|]. constructor; [exists c'; split_and!; [done|done|lia|unfold M; lia]|].
           constructor; [exists r; split_and!; [done|done|lia|unfold M; lia]|done].
        -- rewrite tail_app. apply Forall_app. split; [|constructor; [|done]].
           ++ apply (Hkey' p Hp). intros _. rewrite <- Hfr. by apply head_app_l.
           ++ exists r, p0. done.
      * rewrite Hins, flat_app. rewrite (flat_cons ht e' c'), (flat_cons ht _ r) by done.
        rewrite <- Hfr, <- !app_assoc. done.
      * rewrite Hin. eauto.
    + destruct Hr as (Hfr & Hl1 & Hl2 & Hl3). eexists _, None, mp. split; [reflexivity|].
      unfold inserted. split_and!.
      * apply wf_S. split.
        -- apply Forall_app. split; [done|]. constructor; [exists c'; split_and!; [done|done|lia|done]|done].
        -- rewrite tail_app. apply Forall_app. split; [|done]. apply (Hkey' p Hp). intros _. by rewrite <- Hfr.
      * rewrite Hins, flat_app, (flat_cons ht e' c'), Hfr by done. done.
      * rewrite <- Eins, length_insert. done.
      * rewrite <- Eins, length_insert. done.
      * rewrite <- Eins, length_insert. done.
      * done.
Qed.

(** ** put *)

Lemma flat_set_key ht e0 h key : 0 < ht -> flat ht (set_key key e0 :: h) = flat ht (e0 :: h).
Proof. destruct ht; [lia|]. done. Qed.

Lemma wf_set_key ht e0 h key : wf ht (e0 :: h) -> wf ht (set_key key e0 :: h).
Proof.
  destruct ht as [|ht]; [cbn; rewrite !Forall_cons; done|]. rewrite !wf_S, !Forall_cons. done.
Qed.

(** At height 0 the first key is already the new one when [mod_parent] is set. *)
Lemma insert_leaf_mp h key val h' r :
  insert 0 h key val = Done (h', r, true) -> head h' = Some (mkEntry key val None).
Proof.
  cbn [insert]. destruct (external_pos key h) as [j mp] eqn:E.
  assert (Hj : mp = true -> j = 0).
  { unfold external_pos in E. destruct h as [|e l]; [by injection E as <- <-|].
    destruct (_ && _); injection E as <- <-; done. }
  unfold insert_node, M, split_node. intros H.
  destruct (Nat.ltb_spec (length (take j h ++ mkEntry key val None :: drop j h)) 4);
    apply Done_inj in H; injection H as <- _ ->; rewrite Hj by done; done.
Qed.

Lemma set_key_same key val : set_key key (mkEntry key val None) = mkEntry key val None.
Proof. done. Qed.

Lemma btree_ok_init : btree_ok initBtree.
Proof. unfold btree_ok, M. cbn. split_and!; [constructor|constructor|lia|auto|done]. Qed.

(** The root after the first key was set: the same pairs, still well-formed. *)
Lemma mod_root ht h key val e0 h' r (mp : bool) :
  insert ht h key val = Done (e0 :: h', r, mp) -> wf ht (e0 :: h') ->
  let e := if mp then set_key key e0 else e0 in
  wf ht (e :: h') /\ flat ht (e :: h') = flat ht (e0 :: h').
Proof.
  intros Ei Hw. destruct mp; [|done]. split; [by apply wf_set_key|].
  destruct ht; [|by apply flat_set_key; lia].
  apply insert_leaf_mp in Ei. injection Ei as ->. done.
Qed.

Lemma put_ok t key val :
  key <> EmptyString -> btree_ok t ->
  exists t', put t (Some key) val = Done t' /\ btree_ok t' /\ contents t' = ins key val (contents t).
Proof.
  intros Hkey (Hw & Hs & Hl & Hh & Hn). unfold put, contents in *.
  destruct (insert_ok t.(height) t.(root) key val Hkey Hw Hs Hl) as (h & r & mp & Ei & Hwh & Hr & _);
    [destruct Hh; [by left|right; lia]|].
  rewrite Ei. cbn [obind].
  assert (Hlen : 1 <= length h) by (destruct r; destruct Hr as (_ & ? & ? & ?); lia).
  destruct h as [|e0 h']; [cbn in Hlen; lia|].
  destruct (mod_root _ _ _ _ _ _ _ _ Ei Hwh) as [Hwe Hfe]. set (e := if mp then set_key key e0 else e0) in *.
  assert (Hnum : (b_n t + 1)%Z = Z.of_nat (length (ins key val (flat (height t) (root t)))))
    by (rewrite length_ins, Hn; lia).
  pose proof (ins_sorted key val _ Hs) as Hs'.
  destruct r as [r|].
  - destruct Hr as (Hfr & Hwr & Hl1 & Hl2 & f0 & p & Hf0 & Hp & Ek). destruct r as [|f r']; [done|].
    injection Hf0 as ->. rewrite <- Hfe in Hfr.
    set (t' := mkBtree _ _ _).
    assert (Hc : contents t' = ins key val (flat (height t) (root t))).
    { unfold contents, t'. cbn [height root]. rewrite <- Hfr.
      rewrite (flat_cons _ _ (e :: h')), (flat_cons _ _ (f0 :: r')) by done. by rewrite app_nil_r. }
    exists t'. split; [done|]. split; [|exact Hc]. unfold btree_ok. rewrite Hc. unfold M.
    cbn [height root b_n t']. split_and!; [|done|cbn; lia|by right|done]. apply wf_S. unfold child_ok, key_ok, M. split.
    + repeat constructor; eexists; (split; [done|]); (split; [done|]); cbn in *; lia.
    + cbn [tail]. repeat constructor. exists (f0 :: r'), p. done.
  - destruct Hr as (Hfr & Hl1 & Hl2 & Hl3). rewrite <- Hfe in Hfr. eexists. split; [done|].
    unfold btree_ok, contents. cbn [height root b_n]. rewrite Hfr.
    split; [|done]. split_and!; [done|done|exact Hl1| |done].
    destruct Hh as [Hh|Hh]; [by left|right; cbn in *; lia].
Qed.

(** Many puts. *)
Lemma puts_ok (val : option string) ks : forall t,
  Forall (fun k => k <> EmptyString) ks -> btree_ok t ->
  exists t', ofold (fun k t => put t (Some k) val) ks t = Done t' /\ btree_ok t' /\
    contents t' = foldl (fun l k => ins k val l) (contents t) ks.
Proof.
  induction ks as [|k ks IH]; intros t Hne Hok; cbn [ofold foldl]; [eauto|].
  apply Forall_cons in Hne as [Hk Hne]. destruct (put_ok t k val Hk Hok) as (t1 & -> & Hok1 & Hc). cbn [obind].
  destruct (IH t1 Hne Hok1) as (t2 & E & Hok2 & Hc2). exists t2. split_and!; [done|done|]. by rewrite Hc2, Hc.
Qed.

Lemma foldl_ins_perm (val : option string) ks l :
  foldl (fun l k => ins k val l) l ks ≡ₚ ((fun k => (k, val)) <$> ks) ++ l.
Proof.
  revert l; induction ks as [|k ks IH]; intros l; cbn; [done|]. rewrite IH, ins_perm.
  symmetry. apply Permutation_middle.
Qed.

Lemma thread_puts_ne threads : Forall (fun k => k <> EmptyString) (thread_puts threads).
Proof.
  unfold thread_puts. apply Forall_fmap, Forall_forall. intros i _. change (default EmptyString (urls !! (i mod 11)) <> EmptyString).
  assert (Hi : i mod 11 < 11) by (apply Nat.mod_upper_bound; lia).
  generalize dependent (i mod 11). intros j Hj. do 11 (destruct j as [|j]; [vm_compute; discriminate|]). lia.
Qed.

Lemma threads_ok threads (js : list nat) : forall t,
  btree_ok t ->
  exists t', ofold (fun _ t => thread_function threads t) js t = Done t' /\ btree_ok t' /\
    contents t' ≡ₚ mjoin ((fun _ => (fun k => (k, Some "128.112.136.12"%string)) <$> thread_puts threads) <$> js)
                   ++ contents t.
Proof.
  induction js as [|j js IH]; intros t Hok; cbn [ofold fmap list_fmap mjoin list_join]; [eauto|].
  destruct (puts_ok (Some "128.112.136.12"%string) (thread_puts threads) t (thread_puts_ne _) Hok) as (t1 & E & Hok1 & Hc1).
  unfold thread_function at 1. rewrite E. cbn [obind].
  destruct (IH t1 Hok1) as (t2 & -> & Hok2 & Hc2). exists t2. split_and!; [done|done|].
  rewrite Hc2, Hc1, foldl_ins_perm. cbn. rewrite !app_assoc. apply Permutation_app_tail, Permutation_app_comm.
Qed.

(** ** Properties *)

(** C17: [put] with a key that is not empty never dereferences a null pointer, keeps
    the tree a well-formed, balanced, sorted B-tree, and adds exactly the new pair,
    behind the pairs with a key not greater than the new one.  Against its
    comment it never overwrites or deletes: the values that a key had before stay,
    in front of the new one, a null value included.  A null key changes nothing. *)
Theorem put_correct t : btree_ok t ->
  (forall val, put t None val = Done t) /\
  (forall key val, key <> EmptyString ->
     exists t', put t (Some key) val = Done t' /\ btree_ok t' /\
       contents t' = ins key val (contents t) /\ contents t' ≡ₚ (key, val) :: contents t /\
       (filter (fun kv => String.eqb kv.1 key = true) (contents t') = filter (fun kv => String.eqb kv.1 key = true) (contents t) ++ [(key, val)]) /\
       t'.(b_n) = (t.(b_n) + 1)%Z).
Proof.
  intros Hok. split; [done|]. intros key val Hk. destruct (put_ok t key val Hk Hok) as (t' & E & Hok' & Hc).
  exists t'. split_and!; [done|done|done|by rewrite Hc, ins_perm|rewrite Hc; apply filter_ins; apply Hok|].
  destruct Hok as (_ & _ & _ & _ & ->), Hok' as (_ & _ & _ & _ & ->). rewrite Hc, length_ins. lia.
Qed.

(** A tree of height one. *)
Definition leaf (k : string) : entry := mkEntry k None None.

Definition sample_tree : btree :=
  mkBtree [mkEntry "b" None (Some [leaf "b"; leaf "c"]); mkEntry "e" None (Some [leaf "e"; leaf "g"; leaf "k"])]%string
          1 5%Z.

Lemma sample_tree_ok : btree_ok sample_tree.
Proof.
  unfold btree_ok, M. cbn. split_and!; try done; try lia.
  - repeat constructor; (eexists; split; [done|]); cbn; (split; [repeat constructor|unfold M; lia]).
  - repeat constructor. eexists _, _. cbn. done.
  - repeat constructor.
Qed.

Lemma put_correct_witness :
  exists t', put sample_tree (Some "f"%string) (Some "1"%string) = Done t' /\ btree_ok t' /\
    contents t' = ins "f"%string (Some "1"%string) (contents sample_tree) /\
    contents t' ≡ₚ ("f"%string, Some "1"%string) :: contents sample_tree /\
    t'.(b_n) = (sample_tree.(b_n) + 1)%Z.
Proof.
  destruct (put_correct sample_tree sample_tree_ok) as [_ H]. destruct (H "f"%string (Some "1"%string) ltac:(discriminate)) as (t' & H1 & H2 & H3 & H4 & _ & H5).
  exists t'. split_and!; [exact H1|exact H2|exact H3|exact H4|exact H5].
Defined.

(** The test program, for any number of threads, ends with a well-formed
    tree that holds the pairs of every thread's loop, [threads * (100 / threads)]
    of them. *)
Lemma run_threads_tree threads :
  exists t, run_threads threads = Done t /\ btree_ok t /\
    contents t ≡ₚ mjoin ((fun _ => (fun k => (k, Some "128.112.136.12"%string)) <$> thread_puts threads) <$> seq 0 threads) /\
    t.(b_n) = Z.of_nat (threads * (100 / threads)).
Proof.
  destruct (threads_ok threads (seq 0 threads) initBtree btree_ok_init) as (t & E & Hok & Hc).
  rewrite app_nil_r in Hc. exists t. split_and!; [done|done|done|].
  destruct Hok as (_ & _ & _ & _ & ->). rewrite Hc. f_equal.
  assert (Hl : forall (l : list kv) js, length (mjoin ((fun _ : nat => l) <$> js)) = length js * length l)
    by (intros l js; induction js as [|j js IH]; [done|];
        change (length (l ++ mjoin ((fun _ => l) <$> js)) = length l + length js * length l); by rewrite length_app, IH).
  rewrite Hl, length_fmap, length_seq. unfold thread_puts. by rewrite length_fmap, length_seq.
Qed.

(** The empty key is not put in order: in a tree with one key it goes
    behind that key, although it is less. *)
Example put_empty_key_unsorted :
  match put (mkBtree [leaf "b"%string] 0 1%Z) (Some EmptyString) None with
  | Done t => contents t = [("b", None); (EmptyString, None)]%string /\ ~ sorted_kv (contents t)
  | _ => False
  end.
Proof.
  vm_compute. split; [done|]. intros H. apply StronglySorted_inv in H as [_ H].
  apply Forall_cons in H as [H _]. discriminate H.
Qed.
