(* ===== verification/Heap.v ===== *)
(** * Memory

    Programs on memory that is allocated and freed: a computation reads and writes
    cells, and a pointer to memory that is not allocated is a [Crash].  A triple
    says that a computation, started with exactly the cells of a list beside any
    others, ends with exactly those of another: it reads and writes no other cell,
    frees nothing twice and leaves nothing behind. *)

From Stdlib Require Import Lia String.
From stdpp Require Import base tactics list gmap fin_maps.
From S2P Require Import Prelude.

Local Open Scope ostep_scope.

(** What [malloc] promises: an address that is not in use. *)
Class Allocator (V : Type) := {
  addr : gmap nat V -> nat;
  addr_fresh : forall h, h !! addr h = None }.

Lemma fresh_none {V} (h : gmap nat V) : h !! fresh (dom h) = None.
Proof. apply not_elem_of_dom, is_fresh. Qed.

#[export] Instance fresh_allocator V : Allocator V := {| addr h := fresh (dom h); addr_fresh := fresh_none |}.

Declare Scope mem_scope.
Delimit Scope mem_scope with mem.

Section computations.
Context {V : Type}.

Definition mem (A : Type) : Type := gmap nat V -> outcome string (A * gmap nat V).

Definition mret {A} (a : A) : mem A := fun h => Done (a, h).

Definition mbnd {A B} (m : mem A) (k : A -> mem B) : mem B := fun h => obind (m h) (fun x => k x.1 x.2).

Definition crash {A} (why : string) : mem A := fun _ => Crash why.

Definition load (p : nat) : mem V := fun h => match h !! p with Some c => Done (c, h) | None => Crash "invalid pointer"%string end.

Definition store (p : nat) (c : V) : mem unit := fun h => match h !! p with Some _ => Done (tt, <[p := c]> h) | None => Crash "invalid pointer"%string end.

(** [free(p)] *)
Definition mfree (p : nat) : mem unit := fun h => match h !! p with Some _ => Done (tt, delete p h) | None => Crash "invalid free"%string end.

Definition free_opt (p : option nat) : mem unit := match p with Some p => mfree p | None => mret tt end.

Definition malloc `{Allocator V} (c : V) : mem nat := fun h => let p := addr h in Done (p, <[p := c]> h).

End computations.

Arguments mem : clear implicits.

Notation "'let!' x := m 'in' k" := (mbnd m (fun x => k)) (at level 10, x name, m at level 200, k at level 200) : mem_scope.
Notation "'let!' ' p := m 'in' k" := (mbnd m (fun x => match x with p => k end)) (at level 10, p pattern, m at level 200, k at level 200) : mem_scope.

(** ** Permutations by counting *)

Section count.
Context {A : Type} {HA : EqDecision A}.

Definition one (x y : A) : nat := if decide (x = y) then 1 else 0.

Fixpoint count (x : A) (l : list A) : nat := match l with [] => 0 | y :: l => one x y + count x l end.

Lemma count_app x l1 l2 : count x (l1 ++ l2) = count x l1 + count x l2.
Proof. induction l1 as [|y l IH]; cbn; lia. Qed.

Lemma count_perm l1 l2 : l1 ≡ₚ l2 -> forall x, count x l1 = count x l2.
Proof. induction 1; intros z; cbn; [done|by f_equal; auto|lia|congruence]. Qed.

Lemma count_elem x l : 0 < count x l <-> x ∈ l.
Proof.
  induction l as [|y l IH]; cbn; [split; [lia|by intros ?%elem_of_nil]|]. rewrite elem_of_cons, <- IH. unfold one. case_decide; [split; [by left|lia]|].
  split; [right; lia|]. intros [?|?]; [done|lia].
Qed.

Lemma perm_count l1 : forall l2, (forall x, count x l1 = count x l2) -> l1 ≡ₚ l2.
Proof.
  induction l1 as [|y l1 IH]; intros l2 H.
  - destruct l2 as [|z l2]; [done|]. specialize (H z). cbn in H. unfold one in H. rewrite decide_True in H by done. lia.
  - assert (Hy : y ∈ l2) by (apply count_elem; rewrite <- H; cbn; unfold one; rewrite decide_True by done; lia).
    apply list_elem_of_split in Hy as (a & b & ->). rewrite <- Permutation_middle. apply perm_skip, IH. intros x.
    specialize (H x). rewrite count_app in *. cbn in H. lia.
Qed.

End count.

(** Close a permutation of concatenations from those at hand. *)
Ltac perm :=
  apply perm_count; let x := fresh "x" in intros x;
  repeat match goal with H : _ ≡ₚ _ |- _ => pose proof (count_perm _ _ H x); clear H end;
  repeat match goal with H : context [count x (_ ++ _)] |- _ => rewrite count_app in H end;
  repeat match goal with H : context [count x (_ :: _)] |- _ => progress (cbn [count] in H) end;
  repeat match goal with H : context [count x []] |- _ => progress (cbn [count] in H) end;
  repeat first [rewrite count_app | progress (cbn [count app])];
  repeat match goal with H : context [count x (_ ++ _)] |- _ => rewrite count_app in H end; lia.

(** ** Triples *)

Section triples.
Context {V : Type} {HV : EqDecision V} {HA : Allocator V}.

Abbreviation cells := (list (nat * V)).

(** The memory is exactly these cells. *)
Definition holds (h : gmap nat V) (l : cells) : Prop := NoDup l.*1 /\ h = list_to_map l.

Lemma holds_perm h l l' : holds h l -> l ≡ₚ l' -> holds h l'.
Proof. intros [Hn ->] Hp. split; [by rewrite <- Hp|]. by apply list_to_map_proper. Qed.

Lemma holds_load h l p c : holds h l -> (p, c) ∈ l -> h !! p = Some c.
Proof. intros [Hn ->] Hi. by apply elem_of_list_to_map_1. Qed.

Lemma holds_store h l p c c' : holds h ((p, c) :: l) -> holds (<[p := c']> h) ((p, c') :: l).
Proof. intros [Hn ->]. split; [done|]. cbn. by rewrite insert_insert_eq. Qed.

Lemma holds_free h l p c : holds h ((p, c) :: l) -> holds (delete p h) l.
Proof.
  intros [Hn ->]. cbn in Hn. apply NoDup_cons in Hn as [Hp Hn]. split; [done|]. cbn. rewrite delete_insert_id; [done|].
  by apply not_elem_of_list_to_map_1.
Qed.

Lemma holds_malloc h l p c : holds h l -> h !! p = None -> holds (<[p := c]> h) ((p, c) :: l).
Proof. intros [Hn ->] Hp. split; [|done]. cbn. apply NoDup_cons. split; [|done]. by apply not_elem_of_list_to_map_2. Qed.

Definition triple {A} (P : cells) (m : mem V A) (Q : A -> cells -> Prop) : Prop :=
  forall h F, holds h (P ++ F) -> exists a h' l, m h = Done (a, h') /\ Q a l /\ holds h' (l ++ F).

Lemma triple_ret {A} (a : A) P (Q : A -> cells -> Prop) : Q a P -> triple P (mret a) Q.
Proof. intros H h F Hh. by exists a, h, P. Qed.

Lemma triple_perm {A} P P' (m : mem V A) Q : P ≡ₚ P' -> triple P' m Q -> triple P m Q.
Proof. intros Hp H h F Hh. apply H. eapply holds_perm; [done|]. by rewrite Hp. Qed.

Lemma triple_post {A} P (m : mem V A) (Q R : A -> cells -> Prop) : triple P m Q -> (forall a l, Q a l -> R a l) -> triple P m R.
Proof. intros H HQ h F Hh. destruct (H h F Hh) as (a & h' & l & E & Hq & Hh'). exists a, h', l. eauto. Qed.

(** A call that uses a part of the cells. *)
Lemma triple_call {A B} P1 X P (m : mem V A) (k : A -> mem V B) R Q :
  triple P1 m R -> P ≡ₚ P1 ++ X -> (forall a l, R a l -> triple (l ++ X) (k a) Q) -> triple P (mbnd m k) Q.
Proof.
  intros Hm Hp Hk h F Hh. destruct (Hm h (X ++ F)) as (a & h' & l & E & Hr & Hh'); [eapply holds_perm; [done|]; by rewrite Hp, app_assoc|].
  unfold mbnd. rewrite E. cbn. apply (Hk a l Hr). by rewrite <- app_assoc.
Qed.

(** One that uses none. *)
Lemma triple_new {A B} P (m : mem V A) (k : A -> mem V B) R Q :
  triple [] m R -> (forall a l, R a l -> triple (l ++ P) (k a) Q) -> triple P (mbnd m k) Q.
Proof. intros Hm Hk. by eapply (triple_call [] P). Qed.

(** One that uses the first cell. *)
Lemma triple_first {A B} c X (m : mem V A) (k : A -> mem V B) R Q :
  triple [c] m R -> (forall a l, R a l -> triple (l ++ X) (k a) Q) -> triple (c :: X) (mbnd m k) Q.
Proof. intros Hm Hk. by eapply (triple_call [c] X). Qed.

Lemma triple_tail {A} P1 X P (m : mem V A) R (Q : A -> cells -> Prop) :
  triple P1 m R -> P ≡ₚ P1 ++ X -> (forall a l, R a l -> Q a (l ++ X)) -> triple P m Q.
Proof.
  intros Hm Hp Hk h F Hh. destruct (Hm h (X ++ F)) as (a & h' & l & E & Hr & Hh'); [eapply holds_perm; [done|]; by rewrite Hp, app_assoc|].
  exists a, h', (l ++ X). split_and!; [done|by apply Hk|by rewrite <- app_assoc].
Qed.

Lemma triple_load {B} p c P (k : V -> mem V B) Q : (p, c) ∈ P -> triple P (k c) Q -> triple P (mbnd (load p) k) Q.
Proof.
  intros Hi Hk h F Hh. unfold mbnd, load. rewrite (holds_load h (P ++ F) p c) by (done || (apply elem_of_app; by left)). cbn. by apply Hk.
Qed.

Lemma triple_store {B} p c c' X P (k : unit -> mem V B) Q : P ≡ₚ (p, c') :: X -> triple ((p, c) :: X) (k tt) Q -> triple P (mbnd (store p c) k) Q.
Proof.
  intros Hp Hk h F Hh. assert (H1 : holds h ((p, c') :: X ++ F)) by (eapply holds_perm; [done|]; by rewrite Hp).
  unfold mbnd, store. rewrite (holds_load _ _ p c' H1) by left. cbn. apply Hk. by apply (holds_store h (X ++ F) p c').
Qed.

Lemma triple_free {B} p c X P (k : unit -> mem V B) Q : P ≡ₚ (p, c) :: X -> triple X (k tt) Q -> triple P (mbnd (mfree p) k) Q.
Proof.
  intros Hp Hk h F Hh. assert (H1 : holds h ((p, c) :: X ++ F)) by (eapply holds_perm; [done|]; by rewrite Hp).
  unfold mbnd, mfree. rewrite (holds_load _ _ p c H1) by left. cbn. apply Hk. by apply (holds_free h (X ++ F) p c).
Qed.

Lemma triple_malloc {B} c P (k : nat -> mem V B) Q : (forall p, triple ((p, c) :: P) (k p) Q) -> triple P (mbnd (malloc c) k) Q.
Proof. intros Hk h F Hh. unfold mbnd, malloc. cbn. apply Hk. apply holds_malloc; [done|apply addr_fresh]. Qed.

Lemma triple_assoc {A B C} P (m : mem V A) (k : A -> mem V B) (k' : B -> mem V C) Q :
  triple P (mbnd m (fun a => mbnd (k a) k')) Q -> triple P (mbnd (mbnd m k) k') Q.
Proof.
  intros H h F Hh. destruct (H h F Hh) as (a & h' & l & E & Hr). exists a, h', l. split; [|done]. rewrite <- E. unfold mbnd.
  by destruct (m h) as [[]| |].
Qed.

Lemma triple_eta {A} P (m : mem V A) Q : triple P (mbnd m mret) Q -> triple P m Q.
Proof.
  intros H h F Hh. destruct (H h F Hh) as (a & h' & l & E & Hr). exists a, h', l. split; [|done]. rewrite <- E. unfold mbnd. by destruct (m h) as [[]| |].
Qed.

Lemma triple_bret {A B} P (a : A) (k : A -> mem V B) Q : triple P (k a) Q -> triple P (mbnd (mret a) k) Q.
Proof. done. Qed.

End triples.
