(* ===== verification/BtreeMem.v ===== *)
(** * The B-tree in memory

    [29/btree.c] with its nodes, entries and results of [insert] in memory: what
    is allocated, changed through pointers and freed.  [Btree] says what the
    functions do to the tree; this file shows that the code on pointers does that,
    without reading or freeing memory that is not allocated and without losing
    any.  A null pointer is [None]; following it is a [Crash].  The elements of
    [children] that a node does not use are null or entries of their own. *)

From Stdlib Require Import ZArith Lia String.
From stdpp Require Import base tactics list gmap strings.
From S2P Require Import Prelude Btree Heap.

Local Open Scope mem_scope.

(** ** Definitions *)

(** [node_t], [entry_t], [insert_ret] and [btree_t]. *)
Inductive cell :=
| CNode (m : nat) (children : list (option nat))
| CEntry (key : string) (val : option string) (next : option nat)
| CRet (ret_node : option nat) (mod_parent : bool)
| CBtree (root : nat) (height : nat) (n : Z).

#[export] Instance cell_eq_dec : EqDecision cell.
Proof. solve_decision. Defined.

Section operations.
Context {HA : Allocator cell}.

(** Accesses through pointers. *)
Definition load_node (p : nat) : mem cell (nat * list (option nat)) :=
  let! c := load p in match c with CNode m ch => mret (m, ch) | _ => crash "not a node" end.

Definition load_entry (p : nat) : mem cell (string * option string * option nat) :=
  let! c := load p in match c with CEntry k v n => mret (k, v, n) | _ => crash "not an entry" end.

Definition load_ret (p : nat) : mem cell (option nat * bool) :=
  let! c := load p in match c with CRet r mp => mret (r, mp) | _ => crash "not an insert_ret" end.

Definition load_btree (p : nat) : mem cell (nat * nat * Z) :=
  let! c := load p in match c with CBtree r ht n => mret (r, ht, n) | _ => crash "not a btree" end.

(** [p->children[i]], and the entry it points to. *)
Definition get_child (p i : nat) : mem cell (option nat) :=
  let! '(_, ch) := load_node p in match ch !! i with Some q => mret q | None => crash "past the end of an array" end.

Definition set_child (p i : nat) (q : option nat) : mem cell unit :=
  let! '(m, ch) := load_node p in
  if i <? length ch then store p (CNode m (<[i := q]> ch)) else crash "past the end of an array".

Definition set_m (p m : nat) : mem cell unit := let! '(_, ch) := load_node p in store p (CNode m ch).

Definition child (p i : nat) : mem cell nat := let! q := get_child p i in match q with Some q => mret q | None => crash "null pointer" end.

Definition child_key (p i : nat) : mem cell string := let! q := child p i in let! '(k, _, _) := load_entry q in mret k.

Definition set_child_key (p i : nat) (key : string) : mem cell unit :=
  let! q := child p i in let! '(_, v, n) := load_entry q in store q (CEntry key v n).

Definition initEntry (key : string) (val : option string) (next : option nat) : mem cell nat := malloc (CEntry key val next).

Fixpoint init_children (p i n : nat) : mem cell unit :=
  match n with
  | O => mret tt
  | S n => let! q := initEntry "" (Some ""%string) None in let! _ := set_child p i (Some q) in init_children p (S i) n
  end.

Definition initNode (m : nat) : mem cell nat :=
  let! p := malloc (CNode m (replicate M None)) in let! _ := init_children p 0 M in mret p.

Definition initBtree : mem cell nat :=
  let! p := malloc (CBtree 0 0 0%Z) in let! r := initNode 0 in let! _ := store p (CBtree r 0 0%Z) in mret p.

(** The loop of [split]. *)
Fixpoint split_loop (h t j n : nat) : mem cell unit :=
  match n with
  | O => mret tt
  | S n =>
      let! old_entry := get_child t j in
      let! q := get_child h (M / 2 + j) in
      let! _ := set_child t j q in
      let! _ := free_opt old_entry in
      let! _ := set_child h (M / 2 + j) None in
      split_loop h t (S j) n
  end.

Definition split (h : nat) : mem cell nat :=
  let! t := initNode (M / 2) in
  let! _ := set_m h (M / 2) in
  let! _ := split_loop h t 0 (M / 2) in
  mret t.

(** [for (int i = h->m; i > j; i--) h->children[i] = h->children[i - 1];] for
    [h->m = j + n]. *)
Fixpoint shift (h j n : nat) : mem cell unit :=
  match n with
  | O => mret tt
  | S n => let! q := get_child h (j + n) in let! _ := set_child h (j + S n) q in shift h j n
  end.

(** From the label [insert_node] on. *)
Definition insert_node (h j t ret : nat) : mem cell nat :=
  let! '(m, _) := load_node h in
  let! old := get_child h m in
  let! _ := free_opt old in
  let! _ := shift h j (m - j) in
  let! _ := set_child h j (Some t) in
  let! _ := set_m h (S m) in
  let! '(_, mp) := load_ret ret in
  if S m <? M then let! _ := store ret (CRet None mp) in mret ret
  else let! r := split h in let! _ := store ret (CRet (Some r) mp) in mret ret.

(** The search for the position in an external node: from [j] on, [n] children. *)
Fixpoint leaf_pos (h : nat) (key : string) (j n : nat) : mem cell nat :=
  match n with
  | O => mret j
  | S n => let! k := child_key h j in if strlt key k then mret j else leaf_pos h key (S j) n
  end.

Definition external_pos (h : nat) (key : string) : mem cell (nat * bool) :=
  let! '(m, _) := load_node h in
  if m =? 0 then mret (0, false)
  else
    let! k := child_key h 0 in
    if negb (String.eqb key "") && strlt key k then mret (0, true)
    else let! j := leaf_pos h key 1 (m - 1) in mret (j, false).

(** In an internal node, from child [j] on, with [n] children behind it. *)
Fixpoint internal_pos (h : nat) (key : string) (j n : nat) : mem cell nat :=
  match n with
  | O => mret j
  | S n => let! k := child_key h (S j) in if strlt key k then mret j else internal_pos h key (S j) n
  end.

Fixpoint insert (h : nat) (key : string) (val : option string) (ht : nat) : mem cell nat :=
  let! ret := malloc (CRet None false) in
  let! t := initEntry key val None in
  match ht with
  | O =>
      let! '(j, mp) := external_pos h key in
      let! _ := store ret (CRet None mp) in
      insert_node h j t ret
  | S ht =>
      let! '(m, _) := load_node h in
      if m =? 0 then insert_node h 0 t ret
      else
        let! j := internal_pos h key 0 (m - 1) in
        let! q := child h j in
        let! '(_, _, next) := load_entry q in
        match next with
        | None => crash "null pointer"
        | Some c =>
            let! u := insert c key val ht in
            let! '(ret_node, mod_parent) := load_ret u in
            let! _ := if (mod_parent : bool) then set_child_key h j key else mret tt in
            match ret_node with
            | None => let! _ := mfree ret in let! _ := mfree t in mret u
            | Some r =>
                let! k := child_key r 0 in
                let! '(_, v, _) := load_entry t in
                let! _ := store t (CEntry k v (Some r)) in
                let! _ := mfree u in
                insert_node h (S j) t ret
            end
        end
  end.

Definition put (b : nat) (key : option string) (val : option string) : mem cell unit :=
  match key with
  | None => mret tt
  | Some key =>
      let! '(root, height, n) := load_btree b in
      let! u := insert root key val height in
      let! _ := store b (CBtree root height (n + 1)) in
      let! '(ret_node, mod_parent) := load_ret u in
      let! _ := if (mod_parent : bool) then set_child_key root 0 key else mret tt in
      match ret_node with
      | None => mfree u
      | Some r =>
          let! t := initNode 2 in
          let! old_entry := get_child t 0 in
          let! k := child_key root 0 in
          let! e := initEntry k None (Some root) in
          let! _ := set_child t 0 (Some e) in
          let! _ := free_opt old_entry in
          let! old_entry := get_child t 1 in
          let! k := child_key r 0 in
          let! e := initEntry k None (Some r) in
          let! _ := set_child t 1 (Some e) in
          let! _ := free_opt old_entry in
          let! _ := mfree u in
          store b (CBtree t (S height) (n + 1))
      end
  end.

(** [free_node]; the loop over the elements of [children] from [i] on. *)
Section free.
Variable free_node : nat -> mem cell unit.

Fixpoint free_children (subnode i n : nat) : mem cell unit :=
  match n with
  | O => mret tt
  | S n =>
      let! q := get_child subnode i in
      match q with
      | None => free_children subnode (S i) n
      | Some q =>
          let! '(_, _, target_node) := load_entry q in
          let! _ := match target_node with Some c => free_node c | None => mret tt end in
          let! _ := mfree q in
          free_children subnode (S i) n
      end
  end.
End free.

(** The depth of the recursion is the height of the tree. *)
Fixpoint free_node (fuel : nat) (subnode : nat) : mem cell unit :=
  match fuel with
  | O => crash "fuel"
  | S fuel => let! _ := free_children (free_node fuel) subnode 0 M in mfree subnode
  end.

(** What [main] does to the memory for the keys that its threads put: a tree is
    made, filled and freed; the result is its number of pairs. *)
Fixpoint puts (b : nat) (val : option string) (keys : list string) : mem cell unit :=
  match keys with
  | [] => mret tt
  | k :: keys => let! _ := put b (Some k) val in puts b val keys
  end.

Definition run (val : option string) (keys : list string) : mem cell Z :=
  let! b := initBtree in
  let! _ := puts b val keys in
  let! '(root, height, n) := load_btree b in
  let! _ := free_node (S height) root in
  let! _ := mfree b in
  mret n.

End operations.

(** ** Rules for the accesses *)

Section rules.
Context {HA : Allocator cell} {B : Type}.
Implicit Types (P X : list (nat * cell)) (Q : B -> list (nat * cell) -> Prop).

Lemma t_load_node p m ch P (k : _ -> mem cell B) Q : (p, CNode m ch) ∈ P -> triple P (k (m, ch)) Q -> triple P (mbnd (load_node p) k) Q.
Proof. intros Hi Hk. unfold load_node. apply triple_assoc. by eapply triple_load; [exact Hi|]. Qed.

Lemma t_load_entry p key val next P (k : _ -> mem cell B) Q : (p, CEntry key val next) ∈ P -> triple P (k (key, val, next)) Q -> triple P (mbnd (load_entry p) k) Q.
Proof. intros Hi Hk. unfold load_entry. apply triple_assoc. by eapply triple_load; [exact Hi|]. Qed.

Lemma t_load_ret p r mp P (k : _ -> mem cell B) Q : (p, CRet r mp) ∈ P -> triple P (k (r, mp)) Q -> triple P (mbnd (load_ret p) k) Q.
Proof. intros Hi Hk. unfold load_ret. apply triple_assoc. by eapply triple_load; [exact Hi|]. Qed.

Lemma t_load_btree p r ht n P (k : _ -> mem cell B) Q : (p, CBtree r ht n) ∈ P -> triple P (k (r, ht, n)) Q -> triple P (mbnd (load_btree p) k) Q.
Proof. intros Hi Hk. unfold load_btree. apply triple_assoc. by eapply triple_load; [exact Hi|]. Qed.

Lemma t_get_child p i m ch q P (k : _ -> mem cell B) Q : (p, CNode m ch) ∈ P -> ch !! i = Some q -> triple P (k q) Q -> triple P (mbnd (get_child p i) k) Q.
Proof. intros Hi Hc Hk. unfold get_child. apply triple_assoc. eapply t_load_node; [exact Hi|]. cbn. by rewrite Hc. Qed.

Lemma t_set_child p i m ch q X P (k : _ -> mem cell B) Q : P ≡ₚ (p, CNode m ch) :: X -> i < length ch ->
  triple ((p, CNode m (<[i := q]> ch)) :: X) (k tt) Q -> triple P (mbnd (set_child p i q) k) Q.
Proof.
  intros Hp Hl Hk. unfold set_child. apply triple_assoc. eapply t_load_node; [rewrite Hp; left|]. cbn beta iota. rewrite (proj2 (Nat.ltb_lt _ _) Hl).
  by eapply triple_store.
Qed.

Lemma t_set_m p m m' ch X P (k : _ -> mem cell B) Q : P ≡ₚ (p, CNode m ch) :: X ->
  triple ((p, CNode m' ch) :: X) (k tt) Q -> triple P (mbnd (set_m p m') k) Q.
Proof. intros Hp Hk. unfold set_m. apply triple_assoc. eapply t_load_node; [rewrite Hp; left|]. cbn. by eapply triple_store. Qed.

Lemma t_child p i m ch q P (k : _ -> mem cell B) Q : (p, CNode m ch) ∈ P -> ch !! i = Some (Some q) -> triple P (k q) Q -> triple P (mbnd (child p i) k) Q.
Proof. intros Hi Hc Hk. unfold child. apply triple_assoc. by eapply t_get_child; [exact Hi|exact Hc|]. Qed.

Lemma t_child_key p i m ch q key v n P (k : _ -> mem cell B) Q : (p, CNode m ch) ∈ P -> ch !! i = Some (Some q) -> (q, CEntry key v n) ∈ P ->
  triple P (k key) Q -> triple P (mbnd (child_key p i) k) Q.
Proof. intros Hi Hc Hq Hk. unfold child_key. apply triple_assoc. eapply t_child; [exact Hi|exact Hc|]. apply triple_assoc. by eapply t_load_entry; [exact Hq|]. Qed.

Lemma t_set_child_key p i m ch q key key0 v n X P (k : _ -> mem cell B) Q : P ≡ₚ (q, CEntry key0 v n) :: X -> (p, CNode m ch) ∈ X -> ch !! i = Some (Some q) ->
  triple ((q, CEntry key v n) :: X) (k tt) Q -> triple P (mbnd (set_child_key p i key) k) Q.
Proof.
  intros Hp Hi Hc Hk. unfold set_child_key. apply triple_assoc. eapply t_child; [rewrite Hp; right; exact Hi|exact Hc|]. apply triple_assoc.
  eapply t_load_entry; [rewrite Hp; left|]. cbn. by eapply triple_store.
Qed.

End rules.

(** An entry that a node does not use. *)
Definition dummy (q : nat) : nat * cell := (q, CEntry "" (Some ""%string) None).

Definition spare_cells (sp : list (option nat)) : list (nat * cell) := dummy <$> omap id sp.

(** The cell at [p] among those written out, and the others. *)
Ltac get_cell p P :=
  lazymatch P with
  | (p, ?c) :: _ => c
  | dummy p :: _ => constr:(CEntry "" (Some ""%string) None)
  | _ :: ?t => get_cell p t
  | ?a ++ ?b => match constr:(Set) with _ => get_cell p a | _ => get_cell p b end
  end.

Ltac other_cells p P :=
  lazymatch P with
  | (p, _) :: ?t => t
  | dummy p :: ?t => t
  | ?a :: ?t => let t' := other_cells p t in constr:(a :: t')
  | ?a ++ ?b => match constr:(Set) with _ => let a' := other_cells p a in constr:(a' ++ b) | _ => let b' := other_cells p b in constr:(a ++ b') end
  end.

Ltac cperm := unfold dummy in *; perm.

Ltac cell_in := repeat first [apply elem_of_cons; left; reflexivity | apply elem_of_cons; right | apply elem_of_app; left; solve [cell_in] | apply elem_of_app; right]; try assumption.

(** One step of a computation on cells that are written out. *)
Ltac step :=
  cbn beta iota;
  lazymatch goal with
  | |- triple _ (mbnd (mbnd _ _) _) _ => apply triple_assoc; step
  | |- triple _ (mbnd (mret _) _) _ => apply triple_bret
  | |- triple _ (mbnd (free_opt (Some _)) _) _ => cbn [free_opt]; step
  | |- triple _ (mbnd (free_opt None) _) _ => cbn [free_opt]; step
  | |- triple _ (mbnd (malloc _) _) _ => apply triple_malloc
  | |- triple _ (mbnd (initEntry _ _ _) _) _ => unfold initEntry; apply triple_malloc
  | |- triple ?P (mbnd (mfree ?p) _) _ => let c := get_cell p P in let X := other_cells p P in apply (triple_free p c X); [cperm|]
  | |- triple ?P (mbnd (store ?p _) _) _ => let c := get_cell p P in let X := other_cells p P in apply (triple_store p _ c X); [cperm|]
  | |- triple ?P (mbnd (load_node ?p) _) _ =>
      let c := get_cell p P in lazymatch c with CNode ?m ?ch => apply (t_load_node p m ch); [cell_in|] end
  | |- triple ?P (mbnd (load_entry ?p) _) _ =>
      let c := get_cell p P in lazymatch c with CEntry ?k ?v ?n => apply (t_load_entry p k v n); [cell_in|] end
  | |- triple ?P (mbnd (load_ret ?p) _) _ =>
      let c := get_cell p P in lazymatch c with CRet ?r ?mp => apply (t_load_ret p r mp); [cell_in|] end
  | |- triple ?P (mbnd (load_btree ?p) _) _ =>
      let c := get_cell p P in lazymatch c with CBtree ?r ?h ?n => apply (t_load_btree p r h n); [cell_in|] end
  | |- triple ?P (mbnd (get_child ?p ?i) _) _ =>
      let c := get_cell p P in lazymatch c with CNode ?m ?ch => eapply (t_get_child p i m ch); [cell_in|try reflexivity|] end
  | |- triple ?P (mbnd (set_child ?p ?i ?q) _) _ =>
      let c := get_cell p P in let X := other_cells p P in
      lazymatch c with CNode ?m ?ch => apply (t_set_child p i m ch q X); [cperm|try (cbn; lia)|] end
  | |- triple ?P (mbnd (set_m ?p ?m') _) _ =>
      let c := get_cell p P in let X := other_cells p P in
      lazymatch c with CNode ?m ?ch => apply (t_set_m p m m' ch X); [cperm|] end
  end; cbn beta iota.

Lemma spare_cells_app a b : spare_cells (a ++ b) = spare_cells a ++ spare_cells b.
Proof. unfold spare_cells. by rewrite omap_app, fmap_app. Qed.

Lemma spare_cells_some qs : spare_cells (Some <$> qs) = dummy <$> qs.
Proof. unfold spare_cells. f_equal. induction qs as [|q qs IH]; [done|]. cbn. by f_equal. Qed.

Section nodes.
Context {HA : Allocator cell}.

Lemma init_children_ok p m n : forall qs,
  triple [(p, CNode m ((Some <$> qs) ++ replicate n None))] (init_children p (length qs) n)
    (fun _ l => exists qs', length qs' = n /\ l ≡ₚ (p, CNode m (Some <$> qs ++ qs')) :: (dummy <$> qs')).
Proof.
  induction n as [|n IH]; intros qs; cbn [init_children].
  - apply triple_ret. exists []. split; [done|]. by rewrite !app_nil_r.
  - unfold initEntry. apply triple_malloc. intros q. eapply (t_set_child p (length qs)); [apply perm_swap|rewrite length_app, length_fmap; cbn; lia|].
    rewrite insert_app_r_alt, length_fmap, Nat.sub_diag by (by rewrite length_fmap). cbn [replicate list_insert].
    replace (S (length qs)) with (length (qs ++ [q])) by (rewrite length_app; cbn; lia).
    eapply (triple_tail _ [dummy q]); [apply (IH (qs ++ [q]))|by rewrite fmap_app, <- app_assoc|].
    intros _ l (qs' & Hl & Hp). exists (q :: qs'). split; [cbn; lia|]. rewrite Hp. rewrite <- app_assoc. cbn. rewrite app_comm_cons. perm.
Qed.

Lemma initNode_ok m : triple [] (initNode m)
  (fun p l => exists a b c d, l ≡ₚ (p, CNode m [Some a; Some b; Some c; Some d]) :: [dummy a; dummy b; dummy c; dummy d]).
Proof.
  unfold initNode. apply triple_malloc. intros p. eapply (triple_call _ []); [apply (init_children_ok p m M [])|reflexivity|].
  intros _ l (qs & Hl & Hp). apply triple_ret. rewrite app_nil_r. do 4 (destruct qs as [|? qs]; [done|]). destruct qs; [|done]. eexists _, _, _, _. exact Hp.
Qed.

Lemma split_ok h a b c d : triple [(h, CNode 4 [Some a; Some b; Some c; Some d])] (split h)
  (fun t l => exists x y, l ≡ₚ (h, CNode 2 [Some a; Some b; None; None]) :: (t, CNode 2 [Some c; Some d; Some x; Some y]) :: [dummy x; dummy y]).
Proof.
  unfold split. eapply triple_new; [apply initNode_ok|]. intros t l (x0 & x1 & x2 & x3 & Hl).
  eapply triple_perm; [rewrite Hl; reflexivity|]. clear l Hl. cbn [app]. step. change (M / 2) with 2. cbn [split_loop Nat.add].
  do 10 (step; cbn [base.insert list_insert]). step. apply triple_ret. exists x2, x3. reflexivity.
Qed.

(** The shift of the elements from [j] on. *)
Lemma shift_ok p m b : forall a x c,
  triple [(p, CNode m (a ++ b ++ x :: c))] (shift p (length a) (length b)) (fun _ l => exists y, l = [(p, CNode m (a ++ y :: b ++ c))]).
Proof.
  induction b as [|z b IH] using rev_ind; intros a x c; [apply triple_ret; by exists x|]. rewrite length_app, Nat.add_comm. cbn [length Nat.add shift].
  assert (Hl : (a ++ (b ++ [z]) ++ x :: c) !! (length a + length b) = Some z).
  { rewrite lookup_app_r by lia. replace (length a + length b - length a) with (length b) by lia. rewrite <- app_assoc. by apply list_lookup_middle. }
  eapply t_get_child; [left|exact Hl|]. eapply (t_set_child p (length a + S (length b))); [reflexivity|rewrite !length_app; cbn; lia|].
  assert (E : <[length a + S (length b) := z]> (a ++ (b ++ [z]) ++ x :: c) = a ++ b ++ z :: z :: c).
  { replace (length a + S (length b)) with (length (a ++ b ++ [z])) by (rewrite !length_app; cbn; lia). rewrite !app_assoc.
    rewrite insert_app_r_alt, Nat.sub_diag by lia. cbn. by rewrite <- !app_assoc. }
  rewrite E. eapply triple_post; [apply IH|]. intros _ l (y & ->). exists y. by rewrite <- app_assoc.
Qed.

(** [insert_node] on the cells of the node and of the result. *)
Lemma insert_node_cells p qs1 qs2 sp t ret rn mp : length qs1 + length qs2 + length sp = 4 -> sp <> [] ->
  triple ((p, CNode (length qs1 + length qs2) ((Some <$> qs1 ++ qs2) ++ sp)) :: (ret, CRet rn mp) :: spare_cells sp) (insert_node p (length qs1) t ret)
    (fun u l => u = ret /\
      if S (length qs1 + length qs2) <? M then
        l ≡ₚ (p, CNode (S (length qs1 + length qs2)) ((Some <$> qs1 ++ t :: qs2) ++ tail sp)) :: (ret, CRet None mp) :: spare_cells (tail sp)
      else exists r x y, l ≡ₚ (p, CNode 2 ((Some <$> take 2 (qs1 ++ t :: qs2)) ++ [None; None])) ::
        (r, CNode 2 ((Some <$> drop 2 (qs1 ++ t :: qs2)) ++ [Some x; Some y])) :: (ret, CRet (Some r) mp) :: [dummy x; dummy y]).
Proof.
  intros Hl Hsp. destruct sp as [|s sp]; [done|]. cbn [tail]. unfold insert_node. step.
  assert (Hs : ((Some <$> qs1 ++ qs2) ++ s :: sp) !! (length qs1 + length qs2) = Some s).
  { rewrite <- length_app, <- (length_fmap Some). by apply list_lookup_middle. }
  eapply t_get_child; [left|exact Hs|].
  assert (Hf : forall (k : unit -> mem cell nat) Q', triple ((p, CNode (length qs1 + length qs2) ((Some <$> qs1 ++ qs2) ++ s :: sp)) :: (ret, CRet rn mp) :: spare_cells sp) (k tt) Q' ->
     triple ((p, CNode (length qs1 + length qs2) ((Some <$> qs1 ++ qs2) ++ s :: sp)) :: (ret, CRet rn mp) :: spare_cells (s :: sp)) (mbnd (free_opt s) k) Q').
  { intros k Q' Hk. destruct s as [s|]; [|exact Hk]. change (spare_cells (Some s :: sp)) with (dummy s :: spare_cells sp). step. exact Hk. }
  apply Hf. clear Hf. replace (length qs1 + length qs2 - length qs1) with (length qs2) by lia.
  rewrite fmap_app, <- app_assoc.
  eapply triple_first.
  { pose proof (shift_ok p (length qs1 + length qs2) (Some <$> qs2) (Some <$> qs1) s sp) as H. rewrite !length_fmap in H. exact H. }
  intros _ l (y & ->). cbn [app].
  apply (t_set_child p (length qs1) (length qs1 + length qs2) ((Some <$> qs1) ++ y :: (Some <$> qs2) ++ sp) (Some t) ((ret, CRet rn mp) :: spare_cells sp)); [reflexivity|rewrite length_app, length_fmap; cbn; lia|].
  rewrite insert_app_r_alt, length_fmap, Nat.sub_diag by (by rewrite length_fmap). cbn [base.insert list_insert].
  replace ((Some <$> qs1) ++ Some t :: (Some <$> qs2) ++ sp) with ((Some <$> qs1 ++ t :: qs2) ++ sp) by (by rewrite fmap_app, <- app_assoc).
  step. step. unfold M. destruct (Nat.ltb_spec (S (length qs1 + length qs2)) 4) as [Hlt|Hge].
  - step. apply triple_ret. split; [done|]. perm.
  - destruct sp; [|cbn in Hl; lia]. rewrite app_nil_r. set (qs := qs1 ++ t :: qs2). assert (Hq : length qs = 4) by (unfold qs; rewrite length_app; cbn in *; lia).
    replace (S (length qs1 + length qs2)) with 4 by (cbn in Hl; lia). clearbody qs. do 4 (destruct qs as [|? qs]; [done|]). destruct qs; [|done].
    eapply triple_first; [apply split_ok|]. intros r l (x & z & Hp). eapply triple_perm; [rewrite Hp; reflexivity|]. clear l Hp.
    cbn [app]. step. apply triple_ret. split; [done|]. exists r, x, z. cbn. perm.
Qed.

End nodes.

(** ** Trees in memory *)

Abbreviation cells := (list (nat * cell)).

(** The entries of a node one after the other. *)
Fixpoint rep_list (R : nat -> entry -> cells -> Prop) (qs : list nat) (es : list entry) (l : cells) : Prop :=
  match qs, es with
  | [], [] => l = []
  | q :: qs, e :: es => exists l1 l2, l ≡ₚ l1 ++ l2 /\ R q e l1 /\ rep_list R qs es l2
  | _, _ => False
  end.

Definition rep_with (R : nat -> entry -> cells -> Prop) (p : nat) (es : list entry) (l : cells) : Prop :=
  exists qs sp le, length qs + length sp = M /\ rep_list R qs es le /\ l ≡ₚ (p, CNode (length es) ((Some <$> qs) ++ sp)) :: le ++ spare_cells sp.

Definition rep_leaf (q : nat) (e : entry) (l : cells) : Prop := e_next e = None /\ l = [(q, CEntry (e_key e) (e_val e) None)].

Definition rep_inner (N : nat -> list entry -> cells -> Prop) (q : nat) (e : entry) (l : cells) : Prop :=
  exists c n lc, e_next e = Some n /\ N c n lc /\ l ≡ₚ (q, CEntry (e_key e) (e_val e) (Some c)) :: lc.

(** The node at [p], of height [ht], is the node [es]; its cells and those of the
    nodes below are [l]. *)
Fixpoint rep_node (ht : nat) : nat -> list entry -> cells -> Prop :=
  match ht with
  | O => rep_with rep_leaf
  | S ht => rep_with (rep_inner (rep_node ht))
  end.

Definition rep_entry (ht : nat) : nat -> entry -> cells -> Prop :=
  match ht with
  | O => rep_leaf
  | S ht => rep_inner (rep_node ht)
  end.

Definition rep_opt (ht : nat) (rp : option nat) (r : option (list entry)) (l : cells) : Prop :=
  match rp, r with
  | None, None => l = []
  | Some q, Some n => rep_node ht q n l
  | _, _ => False
  end.

Lemma rep_node_eq ht p es l : rep_node ht p es l = rep_with (rep_entry ht) p es l.
Proof. by destruct ht. Qed.

Section rep_list.
Variable R : nat -> entry -> cells -> Prop.

Lemma rep_list_length qs : forall es l, rep_list R qs es l -> length qs = length es.
Proof. induction qs as [|q qs IH]; intros [|e es] l H; try done. destruct H as (l1 & l2 & _ & _ & H). cbn. f_equal. by eapply IH. Qed.

Lemma rep_list_perm qs : forall es l l', l ≡ₚ l' -> rep_list R qs es l -> rep_list R qs es l'.
Proof.
  destruct qs as [|q qs]; intros [|e es] l l' Hp H; try done; [cbn in *; subst; by apply Permutation_nil|].
  destruct H as (l1 & l2 & H1 & H2 & H3). exists l1, l2. by rewrite <- Hp.
Qed.

Lemma rep_list_app qs1 : forall es1 qs2 es2 l1 l2, rep_list R qs1 es1 l1 -> rep_list R qs2 es2 l2 -> rep_list R (qs1 ++ qs2) (es1 ++ es2) (l1 ++ l2).
Proof.
  induction qs1 as [|q qs1 IH]; intros [|e es1] qs2 es2 l1 l2 H1 H2; try done; [cbn in H1; by subst|].
  destruct H1 as (a & b & Hp & Hr & H1). exists a, (b ++ l2). split_and!; [by rewrite Hp, app_assoc|done|by apply IH].
Qed.

Lemma rep_list_app_inv es1 : forall qs es2 l, rep_list R qs (es1 ++ es2) l ->
  exists qs1 qs2 l1 l2, qs = qs1 ++ qs2 /\ l ≡ₚ l1 ++ l2 /\ rep_list R qs1 es1 l1 /\ rep_list R qs2 es2 l2.
Proof.
  induction es1 as [|e es1 IH]; intros qs es2 l H; [by exists [], qs, [], l|]. destruct qs as [|q qs]; [done|].
  destruct H as (a & b & Hp & Hr & H). destruct (IH _ _ _ H) as (qs1 & qs2 & l1 & l2 & -> & Hp' & H1 & H2).
  exists (q :: qs1), qs2, (a ++ l1), l2. split_and!; [done|by rewrite Hp, Hp', app_assoc|by exists a, l1|done].
Qed.

(** The entries before and behind one of them. *)
Lemma rep_list_middle qs es1 e es2 l : rep_list R qs (es1 ++ e :: es2) l ->
  exists qs1 q qs2 l1 lq l2, qs = qs1 ++ q :: qs2 /\ length qs1 = length es1 /\ l ≡ₚ lq ++ l1 ++ l2 /\
    rep_list R qs1 es1 l1 /\ R q e lq /\ rep_list R qs2 es2 l2.
Proof.
  intros H. apply rep_list_app_inv in H as (qs1 & [|q qs2] & l1 & l2 & -> & Hp & H1 & H2); [done|].
  destruct H2 as (lq & l3 & Hp' & Hq & H2). exists qs1, q, qs2, l1, lq, l3. split_and!; try done; [by eapply rep_list_length|perm].
Qed.

Lemma rep_list_cons q qs e es lq l : R q e lq -> rep_list R qs es l -> rep_list R (q :: qs) (e :: es) (lq ++ l).
Proof. intros H1 H2. by exists lq, l. Qed.

End rep_list.

(** The cell of an entry, and the entry with another key. *)
Lemma rep_entry_cell ht q e l : rep_entry ht q e l ->
  exists nx l', l ≡ₚ (q, CEntry (e_key e) (e_val e) nx) :: l' /\ forall key, rep_entry ht q (set_key key e) ((q, CEntry key (e_val e) nx) :: l').
Proof.
  destruct ht as [|ht]; cbn [rep_entry].
  - intros [Hn ->]. exists None, []. by split.
  - intros (c & n & lc & Hn & Hr & Hp). exists (Some c), lc. split; [done|]. intros key. by exists c, n, lc.
Qed.

(** The keys of a node can be read. *)
Definition readable (p : nat) (es : list entry) (P : cells) : Prop :=
  exists ch, (p, CNode (length es) ch) ∈ P /\ forall i e, es !! i = Some e -> exists q v n, ch !! i = Some (Some q) /\ (q, CEntry (e_key e) v n) ∈ P.

Lemma rep_readable ht p qs sp es le P : rep_list (rep_entry ht) qs es le -> (p, CNode (length es) ((Some <$> qs) ++ sp)) ∈ P ->
  (forall x, x ∈ le -> x ∈ P) -> readable p es P.
Proof.
  intros Hr Hp Hle. eexists. split; [exact Hp|]. intros i e Hi. apply list_elem_of_split_length in Hi as (es1 & es2 & -> & ->).
  apply rep_list_middle in Hr as (qs1 & q & qs2 & l1 & lq & l2 & -> & Hl & Hpm & _ & Hq & _).
  apply rep_entry_cell in Hq as (nx & l' & Hp' & _). exists q, (e_val e), nx. split.
  - rewrite fmap_app, <- app_assoc, <- Hl, <- (length_fmap Some qs1). cbn. by apply list_lookup_middle.
  - apply Hle. rewrite Hpm, Hp'. apply elem_of_app. left. left.
Qed.

Lemma rep_node_readable ht p es l P : rep_node ht p es l -> (forall x, x ∈ l -> x ∈ P) -> readable p es P.
Proof.
  rewrite rep_node_eq. intros (qs & sp & le & _ & Hr & Hp) HP. eapply rep_readable; [exact Hr|apply HP; rewrite Hp; left|].
  intros x Hx. apply HP. rewrite Hp. right. apply elem_of_app. by left.
Qed.

Section insertion.
Context {HA : Allocator cell}.

Lemma t_read_key {B} p i es e P (k : string -> mem cell B) Q : readable p es P -> es !! i = Some e -> triple P (k (e_key e)) Q -> triple P (mbnd (child_key p i) k) Q.
Proof. intros (ch & Hp & Hr) Hi Hk. destruct (Hr i e Hi) as (q & v & n & Hc & Hq). by eapply t_child_key. Qed.

(** The searches find the positions of [Btree]. *)
Lemma leaf_pos_ok {B} p es key P (k : nat -> mem cell B) Q : readable p es P -> forall n j, j + n = length es ->
  triple P (k (Btree.leaf_pos key (drop j es) j)) Q -> triple P (mbnd (leaf_pos p key j n) k) Q.
Proof.
  intros Hr. induction n as [|n IH]; intros j Hj Hk; cbn [leaf_pos].
  - rewrite drop_ge in Hk by lia. exact Hk.
  - destruct (lookup_lt_is_Some_2 es j) as [e He]; [lia|]. rewrite (drop_S es e j He) in Hk. cbn in Hk. apply triple_assoc.
    eapply t_read_key; [done|exact He|]. destruct (strlt key (e_key e)); [exact Hk|]. apply IH; [lia|exact Hk].
Qed.

Lemma external_pos_ok {B} p es key P (k : nat * bool -> mem cell B) Q : readable p es P ->
  triple P (k (Btree.external_pos key es)) Q -> triple P (mbnd (external_pos p key) k) Q.
Proof.
  intros Hr Hk. pose proof Hr as (ch & Hp & _). unfold external_pos. apply triple_assoc. eapply t_load_node; [exact Hp|]. cbn beta iota.
  destruct es as [|e es]; [exact Hk|]. cbn [length Nat.eqb]. apply triple_assoc. eapply t_read_key; [done|done|]. cbn [Btree.external_pos] in Hk.
  destruct (negb (String.eqb key "") && strlt key (e_key e)); [exact Hk|]. apply triple_assoc. cbn [Nat.sub]. rewrite Nat.sub_0_r.
  eapply (leaf_pos_ok p (e :: es)); [done|cbn; lia|]. apply triple_bret. exact Hk.
Qed.

Lemma internal_pos_ok {B} p es key P (k : nat -> mem cell B) Q : readable p es P -> forall n j, j + S n = length es ->
  triple P (k (Btree.internal_pos key (drop j es) j)) Q -> triple P (mbnd (internal_pos p key j n) k) Q.
Proof.
  intros Hr. induction n as [|n IH]; intros j Hj Hk; cbn [internal_pos]; destruct (lookup_lt_is_Some_2 es j) as [e He]; try lia; rewrite (drop_S es e j He) in Hk.
  - rewrite drop_ge in Hk by lia. exact Hk.
  - destruct (lookup_lt_is_Some_2 es (S j)) as [e' He']; [lia|]. rewrite (drop_S es e' (S j) He') in Hk. apply triple_assoc.
    eapply t_read_key; [done|exact He'|]. cbn [Btree.internal_pos] in Hk. destruct (strlt key (e_key e')); [exact Hk|]. apply IH; [lia|].
    rewrite (drop_S es e' (S j) He'). exact Hk.
Qed.

(** A node of two entries, from its cells. *)
Lemma rep_half ht p qs es le sp : length qs = 2 -> length sp = 2 -> rep_list (rep_entry ht) qs es le ->
  rep_node ht p es ((p, CNode 2 ((Some <$> qs) ++ sp)) :: le ++ spare_cells sp).
Proof.
  intros Hq Hs Hr. rewrite rep_node_eq. exists qs, sp, le. split_and!; [unfold M; lia|done|]. by rewrite <- (rep_list_length _ _ _ _ Hr), Hq.
Qed.

Lemma insert_node_mem_ok ht p qs sp le es t e lt ret rn mp j es' r :
  length qs + length sp = M -> rep_list (rep_entry ht) qs es le -> rep_entry ht t e lt -> length es < M -> j <= length es ->
  Btree.insert_node es j e = (es', r) ->
  triple ((p, CNode (length es) ((Some <$> qs) ++ sp)) :: (ret, CRet rn mp) :: spare_cells sp ++ le ++ lt) (insert_node p j t ret)
    (fun u l => u = ret /\ exists rp l1 l2, l ≡ₚ (ret, CRet rp mp) :: l1 ++ l2 /\ rep_node ht p es' l1 /\ rep_opt ht rp r l2).
Proof.
  intros Hl Hr Ht Hlt Hj Ei. pose proof (rep_list_length _ _ _ _ Hr) as Hq. unfold M in *.
  rewrite <- (take_drop j es) in Hr. apply rep_list_app_inv in Hr as (qs1 & qs2 & la & lb & -> & Hp & Ha & Hb).
  pose proof (rep_list_length _ _ _ _ Ha) as Hqa. rewrite length_take, Nat.min_l in Hqa by lia.
  pose proof (rep_list_app _ _ _ _ _ _ _ Ha (rep_list_cons _ _ _ _ _ _ _ Ht Hb)) as Hnew.
  rewrite length_app in *. unfold Btree.insert_node in Ei. set (new := take j es ++ e :: drop j es) in *.
  assert (Hn : length new = S (length es)) by (unfold new; rewrite length_app; cbn; rewrite length_take, length_drop; lia).
  rewrite <- Hq, <- Hqa.
  eapply (triple_tail ((p, CNode (length qs1 + length qs2) ((Some <$> qs1 ++ qs2) ++ sp)) :: (ret, CRet rn mp) :: spare_cells sp) (le ++ lt)); [|reflexivity|].
  { apply (insert_node_cells p qs1 qs2 sp t ret rn mp); [lia|]. intros ->. cbn in Hl. lia. }
  intros u l [-> Hpost]. split; [done|]. unfold M in *. rewrite Hn in Ei. rewrite Hq in Hpost.
  destruct (Nat.ltb_spec (S (length es)) 4) as [H4|H4].
  - injection Ei as <- <-. exists None, ((p, CNode (S (length es)) ((Some <$> qs1 ++ t :: qs2) ++ tail sp)) :: (la ++ lt ++ lb) ++ spare_cells (tail sp)), [].
    split_and!; [perm| |done]. rewrite rep_node_eq. exists (qs1 ++ t :: qs2), (tail sp), (la ++ lt ++ lb). split_and!; [|done|by rewrite Hn].
    rewrite length_app. cbn [length]. destruct sp; cbn in *; unfold M; lia.
  - destruct Hpost as (rq & x & y & Hpost). unfold split_node in Ei. change (Btree.M / 2) with 2 in Ei. injection Ei as <- <-.
    rewrite <- (take_drop 2 new) in Hnew. apply rep_list_app_inv in Hnew as (qa & qb & l1 & l2 & Eq & Hp2 & H1 & H2).
    pose proof (rep_list_length _ _ _ _ H1) as Hqa1. rewrite length_take, Hn, Nat.min_l in Hqa1 by lia.
    pose proof (rep_list_length _ _ _ _ H2) as Hqb. rewrite length_drop, Hn in Hqb.
    rewrite Eq in Hpost. rewrite take_app_length', drop_app_length' in Hpost by done.
    exists (Some rq), ((p, CNode 2 ((Some <$> qa) ++ [None; None])) :: l1 ++ []), ((rq, CNode 2 ((Some <$> qb) ++ [Some x; Some y])) :: l2 ++ [dummy x; dummy y]).
    split_and!; [cperm|by apply (rep_half ht p qa _ l1 [None; None])|apply (rep_half ht rq qb _ l2 [Some x; Some y]); [lia|done|done]].
Qed.

(** What [insert] leaves: its result, the node, and the node split off. *)
Definition insert_post (ht p : nat) (es' : list entry) (r : option (list entry)) (mp : bool) (u : nat) (l : cells) : Prop :=
  exists rp l1 l2, l ≡ₚ (u, CRet rp mp) :: l1 ++ l2 /\ rep_node ht p es' l1 /\ rep_opt ht rp r l2.

(** The entry that was descended into, with the node below after the insertion and
    its key as [mod_parent] says. *)
Lemma t_mod_parent {B} p m ch i q key0 v c (mp : bool) key X P (k : unit -> mem cell B) Q :
  P ≡ₚ (q, CEntry key0 v (Some c)) :: X -> (p, CNode m ch) ∈ X -> ch !! i = Some (Some q) ->
  triple ((q, CEntry (if mp then key else key0) v (Some c)) :: X) (k tt) Q ->
  triple P (mbnd (if mp then set_child_key p i key else mret tt) k) Q.
Proof.
  intros Hp Hi Hc Hk. destruct mp; [by eapply t_set_child_key|]. apply triple_bret. by eapply triple_perm.
Qed.

Lemma insert_mem_ok ht : forall p es l key val es' r mp, wf ht es -> length es < M -> (ht = 0 \/ 1 <= length es) -> rep_node ht p es l ->
  Btree.insert ht es key val = Done (es', r, mp) -> triple l (insert p key val ht) (insert_post ht p es' r mp).
Proof.
  induction ht as [|ht IH]; intros p es l key val es' r mp Hw Hlt Hne Hrep Ei; cbn [insert]; rewrite rep_node_eq in Hrep;
    destruct Hrep as (qs & sp & le & Hl & Hr & Hp); eapply triple_perm; try exact Hp; clear l Hp; step; intros ret; step; intros t.
  - cbn [Btree.insert] in Ei. destruct (Btree.external_pos key es) as [j mp0] eqn:Ep.
    destruct (Btree.insert_node es j (mkEntry key val None)) as [es1 r1] eqn:En. injection Ei as <- <- <-.
    eapply external_pos_ok; [eapply (rep_readable 0); [exact Hr|right; right; left|intros x Hx; do 3 right; apply elem_of_app; by left]|].
    rewrite Ep. step. eapply triple_perm; [|eapply triple_post; [eapply (insert_node_mem_ok 0 p qs sp le es t (mkEntry key val None) [(t, CEntry key val None)] ret None mp0 j es1 r1); try done|]].
    + perm.
    + assert (Hj : forall l i, i <= Btree.leaf_pos key l i <= i + length l).
      { clear. induction l as [|e l IH]; intros i; cbn; [lia|]. destruct (strlt key (e_key e)); [lia|]. specialize (IH (S i)). lia. }
      destruct es as [|e es]; cbn in Ep; [injection Ep as <- _; done|]. case_match; injection Ep as <- _; [lia|]. specialize (Hj es 1). cbn. lia.
    + intros u l [-> H]. exact H.
  - destruct Hne as [|Hne]; [done|]. rewrite insert_S in Ei by (by destruct es; cbn in *; [lia|]). cbv zeta in Ei.
    set (j := Btree.internal_pos key es 0) in *. destruct (es !! j) as [e|] eqn:Ee; [|done]. destruct (e_next e) as [n|] eqn:En; [|done].
    apply obind_Done in Ei as ([[n' r0] mp0] & Ei0 & Ei).
    step. destruct (Nat.eqb_spec (length es) 0) as [|_]; [lia|].
    eapply (internal_pos_ok p es); [eapply (rep_readable (S ht)); [exact Hr|right; right; left|intros x Hx; do 3 right; apply elem_of_app; by left]|lia|].
    rewrite drop_0. fold j. pose proof (list_elem_of_split_length _ _ _ Ee) as (ea & eb & Ees & Hj).
    rewrite Ees in Hr. apply rep_list_middle in Hr as (qa & q & qb & la & lq & lb & Eqs & Hqa & Hp & Ha & Hq & Hb).
    destruct Hq as (c & n0 & lc & Hn0 & Hc & Hpq). rewrite En in Hn0. injection Hn0 as <-.
    assert (Hch : ((Some <$> qs) ++ sp) !! j = Some (Some q)).
    { rewrite Eqs, fmap_app, <- app_assoc, Hj, <- Hqa, <- (length_fmap Some qa). cbn. by apply list_lookup_middle. }
    eapply triple_perm; [rewrite Hp, Hpq; reflexivity|]. eapply t_child; [right; right; left|exact Hch|]. cbn [app]. step.
    apply wf_S in Hw as [Hwc _]. assert (Hwn : child_ok ht e) by (by eapply Forall_lookup_1). destruct Hwn as (n1 & Hn1 & Hwn & Hln). rewrite En in Hn1. injection Hn1 as <-.
    eapply (triple_call lc ((t, CEntry key val None) :: (ret, CRet None false) :: (p, CNode (length es) ((Some <$> qs) ++ sp)) ::
      (q, CEntry (e_key e) (e_val e) (Some c)) :: la ++ lb ++ spare_cells sp)); [apply (IH c n lc key val n' r0 mp0); try done; [lia|right; lia]|perm|].
    intros u l (rp & l1 & l2 & Hpost & Hrep1 & Hrep2). eapply triple_perm; [rewrite Hpost; reflexivity|]. clear l Hpost. cbn [app]. step.
    eapply (t_mod_parent p (length es) ((Some <$> qs) ++ sp) j q (e_key e) (e_val e) c mp0 key ((p, CNode (length es) ((Some <$> qs) ++ sp)) :: (t, CEntry key val None) ::
      (ret, CRet None false) :: (u, CRet rp mp0) :: l1 ++ l2 ++ la ++ lb ++ spare_cells sp)); [perm|left|exact Hch|].
    set (e' := mkEntry (if mp0 then key else e_key e) (e_val e) (Some n')) in *. set (le' := la ++ ((q, CEntry (e_key e') (e_val e) (Some c)) :: l1) ++ lb).
    assert (Hr' : rep_list (rep_entry (S ht)) qs (<[j := e']> es) le').
    { rewrite Ees, Hj, insert_app_r_alt, Nat.sub_diag by lia. cbn [base.insert list_insert]. rewrite Eqs. apply rep_list_app; [done|]. apply rep_list_cons; [|done].
      by exists c, n', l1. }
    destruct r0 as [r0|]; destruct rp as [rp|]; try done.
    + destruct r0 as [|e0 r0]; [done|]. destruct (Btree.insert_node (<[j := e']> es) (S j) (mkEntry (e_key e0) val (Some (e0 :: r0)))) as [es1 r1] eqn:Ein.
      injection Ei as <- <- <-. cbn [rep_opt] in Hrep2.
      eapply (t_read_key rp 0 (e0 :: r0)); [eapply rep_node_readable; [exact Hrep2|]|done|].
      { intros x Hx. do 5 right. apply elem_of_app. right. apply elem_of_app. by left. }
      step. step. step.
      eapply triple_perm; [|eapply triple_post; [eapply (insert_node_mem_ok (S ht) p qs sp le' (<[j := e']> es) t (mkEntry (e_key e0) val (Some (e0 :: r0)))
        ((t, CEntry (e_key e0) val (Some rp)) :: l2) ret None false (S j) es1 r1); try done|]].
      * unfold le'. rewrite length_insert. cbn [e_key e']. perm.
      * by exists rp, (e0 :: r0), l2.
      * by rewrite length_insert.
      * rewrite length_insert. apply lookup_lt_Some in Ee. lia.
      * intros v l [-> H]. exact H.
    + injection Ei as <- <- <-. cbn [rep_opt] in Hrep2. subst l2. step. step. apply triple_ret.
      exists None, ((p, CNode (length es) ((Some <$> qs) ++ sp)) :: le' ++ spare_cells sp), []. split_and!; [unfold le'; cbn [e_key e']; perm| |done].
      rewrite rep_node_eq. exists qs, sp, le'. by rewrite length_insert.
Qed.

(** The key of the first entry of the root. *)
Lemma t_mod_root {B} ht p e0 es l (mp : bool) key X P (k : unit -> mem cell B) Q :
  rep_node ht p (e0 :: es) l -> P ≡ₚ l ++ X ->
  (forall l', rep_node ht p ((if mp then set_key key e0 else e0) :: es) l' -> triple (l' ++ X) (k tt) Q) ->
  triple P (mbnd (if mp then set_child_key p 0 key else mret tt) k) Q.
Proof.
  intros Hr Hp Hk. destruct mp; [|apply triple_bret; eapply triple_perm; [exact Hp|by apply Hk]].
  rewrite rep_node_eq in Hr. destruct Hr as ([|q qs] & sp & le & Hl & Hr & Hpl); [done|]. destruct Hr as (lq & l2 & Hp2 & Hq & Hr).
  apply rep_entry_cell in Hq as (nx & l' & Hpq & Hset).
  apply (t_set_child_key p 0 (length (e0 :: es)) ((Some <$> q :: qs) ++ sp) q key (e_key e0) (e_val e0) nx
    ((p, CNode (length (e0 :: es)) ((Some <$> q :: qs) ++ sp)) :: l' ++ l2 ++ spare_cells sp ++ X)); [perm|left|done|].
  eapply triple_perm; [|apply (Hk ((p, CNode (length (e0 :: es)) ((Some <$> q :: qs) ++ sp)) :: (((q, CEntry key (e_val e0) nx) :: l') ++ l2) ++ spare_cells sp))].
  - perm.
  - rewrite rep_node_eq. exists (q :: qs), sp, (((q, CEntry key (e_val e0) nx) :: l') ++ l2). split_and!; [done|by apply rep_list_cons|done].
Qed.

(** The tree at [b]. *)
Definition rep_btree (b : nat) (t : btree) (l : cells) : Prop :=
  exists r lr, l ≡ₚ (b, CBtree r t.(height) t.(b_n)) :: lr /\ rep_node t.(height) r t.(root) lr.

Lemma put_mem_ok b t key val t' l : key <> EmptyString -> btree_ok t -> rep_btree b t l -> Btree.put t (Some key) val = Done t' ->
  triple l (put b (Some key) val) (fun _ l' => rep_btree b t' l').
Proof.
  intros Hkey (Hw & Hs & Hl & Hh & _) (p & lr & Hp & Hr) Eput. cbn [Btree.put] in Eput. apply obind_Done in Eput as ([[h r] mp] & Ei & Eput).
  destruct h as [|e0 h]; [done|]. eapply triple_perm; [exact Hp|]. cbn [put]. step.
  eapply (triple_call lr [(b, CBtree p (height t) (b_n t))]);
    [apply (insert_mem_ok (height t) p (root t) lr key val (e0 :: h) r mp); try done; destruct Hh; [by left|right; lia]|perm|].
  intros u l' (rp & l1 & l2 & Hp' & Hr1 & Hr2). eapply triple_perm; [rewrite Hp'; reflexivity|]. cbn [app]. clear l' Hp' Hp. step. step.
  eapply (t_mod_root (height t) p e0 h l1 mp key ((b, CBtree p (height t) (b_n t + 1)) :: (u, CRet rp mp) :: l2)); [done|perm|]. clear l1 Hr1. intros l1 Hr1.
  set (e := if mp then set_key key e0 else e0) in *. destruct r as [r|]; destruct rp as [rp|]; try done.
  - destruct r as [|f0 r]; [done|]. injection Eput as <-. cbn [rep_opt] in Hr2.
    eapply triple_new; [apply initNode_ok|]. intros q l' (x0 & x1 & x2 & x3 & Hq). eapply triple_perm; [rewrite Hq; reflexivity|]. clear l' Hq. cbn [app].
    step. eapply (t_read_key p 0 (e :: h)); [eapply rep_node_readable; [exact Hr1|intros x Hx; do 5 right; apply elem_of_app; by left]|done|].
    step. intros a. step. step. cbn [base.insert list_insert]. step.
    eapply (t_read_key rp 0 (f0 :: r)); [eapply rep_node_readable; [exact Hr2|]|done|].
    { intros x Hx. do 5 right. apply elem_of_app. right. do 2 right. exact Hx. }
    step. intros c. step. step. step. apply triple_eta. step. apply triple_ret. cbn [base.insert list_insert].
    exists q, ((q, CNode 2 [Some a; Some c; Some x2; Some x3]) :: ((((a, CEntry (e_key e) None (Some p)) :: l1) ++ ((c, CEntry (e_key f0) None (Some rp)) :: l2)) ++ spare_cells [Some x2; Some x3])).
    cbn [root height b_n]. split; [unfold spare_cells; cbn; cperm|].
    exists [a; c], [Some x2; Some x3], (((a, CEntry (e_key e) None (Some p)) :: l1) ++ ((c, CEntry (e_key f0) None (Some rp)) :: l2)).
    split_and!; [done| |done]. apply rep_list_cons; [by exists p, (e :: h), l1|]. rewrite <- (app_nil_r (_ :: l2)). apply rep_list_cons; [by exists rp, (f0 :: r), l2|done].
  - injection Eput as <-. cbn [rep_opt] in Hr2. subst l2. apply triple_eta. step. apply triple_ret. exists p, l1. cbn [root height b_n]. split; [perm|done].
Qed.

(** ** Freeing *)

Lemma free_spare fn p m ch : forall sp i, drop i ch = sp ->
  triple ((p, CNode m ch) :: spare_cells sp) (free_children fn p i (length sp)) (fun _ l => l = [(p, CNode m ch)]).
Proof.
  induction sp as [|s sp IH]; intros i Hd; cbn [length free_children]; [by apply triple_ret|].
  assert (Hi : ch !! i = Some s) by (rewrite <- (Nat.add_0_r i), <- lookup_drop, Hd; done).
  assert (Hd' : drop (S i) ch = sp) by (rewrite <- Nat.add_1_r, <- drop_drop, Hd; done).
  eapply t_get_child; [left|exact Hi|]. destruct s as [s|]; [|by apply IH]. change (spare_cells (Some s :: sp)) with (dummy s :: spare_cells sp).
  unfold dummy. step. step. step. by apply IH.
Qed.

(** [free_children] with a [free_node] that is right for the nodes below. *)
Lemma free_children_ok ht fn p m ch : (forall ht' c n lc, ht = S ht' -> rep_node ht' c n lc -> triple lc (fn c) (fun _ l => l = [])) ->
  forall qs es le sp i, drop i ch = (Some <$> qs) ++ sp -> rep_list (rep_entry ht) qs es le ->
  triple ((p, CNode m ch) :: le ++ spare_cells sp) (free_children fn p i (length qs + length sp)) (fun _ l => l = [(p, CNode m ch)]).
Proof.
  intros Hfn. induction qs as [|q qs IH]; intros [|e es] le sp i Hd Hr; try done.
  { cbn in Hr. subst le. by apply free_spare. }
  destruct Hr as (lq & l2 & Hp & Hq & Hr). cbn [length Nat.add free_children].
  assert (Hi : ch !! i = Some (Some q)) by (rewrite <- (Nat.add_0_r i), <- lookup_drop, Hd; done).
  assert (Hd' : drop (S i) ch = (Some <$> qs) ++ sp) by (rewrite <- Nat.add_1_r, <- drop_drop, Hd; done).
  eapply t_get_child; [left|exact Hi|]. destruct ht as [|ht].
  - destruct Hq as [_ ->]. eapply triple_perm; [rewrite Hp; reflexivity|]. cbn [app]. step. step. step. by apply (IH es).
  - destruct Hq as (c & n & lc & _ & Hc & Hpq). eapply triple_perm; [rewrite Hp, Hpq; reflexivity|]. cbn [app]. step.
    eapply (triple_call lc ((p, CNode m ch) :: (q, CEntry (e_key e) (e_val e) (Some c)) :: l2 ++ spare_cells sp)); [by apply (Hfn ht c n)|perm|].
    intros _ l ->. cbn [app]. step. by apply (IH es).
Qed.

Lemma free_node_step ht p es l : (forall ht' c n lc, ht = S ht' -> rep_node ht' c n lc -> triple lc (free_node ht c) (fun _ l => l = [])) ->
  rep_node ht p es l -> triple l (free_node (S ht) p) (fun _ l' => l' = []).
Proof.
  intros IH Hr. rewrite rep_node_eq in Hr. destruct Hr as (qs & sp & le & Hl & Hr & Hp). eapply triple_perm; [exact Hp|].
  change (free_node (S ht) p) with (mbnd (free_children (free_node ht) p 0 M) (fun _ => mfree p)). rewrite <- Hl.
  eapply (triple_call _ []); [by eapply (free_children_ok ht)|by rewrite app_nil_r|]. intros _ l' ->. cbn [app]. apply triple_eta. step. by apply triple_ret.
Qed.

Lemma free_node_ok ht : forall p es l, rep_node ht p es l -> triple l (free_node (S ht) p) (fun _ l' => l' = []).
Proof.
  induction ht as [|ht IH]; intros p es l Hr; (eapply free_node_step; [|exact Hr]); [done|]. intros ht' c n lc [= <-] Hc. by eapply IH.
Qed.

(** ** A whole run *)

Lemma initBtree_ok : triple [] initBtree (fun b l => rep_btree b Btree.initBtree l).
Proof.
  unfold initBtree. step. intros b. eapply triple_new; [apply initNode_ok|]. intros r l (x0 & x1 & x2 & x3 & Hp).
  eapply triple_perm; [rewrite Hp; reflexivity|]. cbn [app]. step. apply triple_ret.
  exists r, ((r, CNode 0 [Some x0; Some x1; Some x2; Some x3]) :: [] ++ spare_cells [Some x0; Some x1; Some x2; Some x3]). split; [unfold spare_cells; cbn; cperm|].
  by exists [], [Some x0; Some x1; Some x2; Some x3], [].
Qed.

Lemma puts_mem_ok b val ks : Forall (fun k => k <> EmptyString) ks -> forall t l, btree_ok t -> rep_btree b t l ->
  triple l (puts b val ks) (fun _ l' => exists t', btree_ok t' /\ rep_btree b t' l' /\ contents t' = foldl (fun l k => ins k val l) (contents t) ks).
Proof.
  induction 1 as [|k ks Hk _ IH]; intros t l Ht Hr; cbn [puts]; [apply triple_ret; by exists t|].
  destruct (Btree.put_ok t k val Hk Ht) as (t1 & E1 & Ht1 & Hc1).
  eapply (triple_call l []); [by apply (put_mem_ok b t k val t1)|by rewrite app_nil_r|]. intros [] l1 Hr1. rewrite app_nil_r.
  eapply triple_post; [by apply (IH t1)|]. intros _ l' (t' & H1 & H2 & H3). exists t'. split_and!; [done|done|]. by rewrite H3, Hc1.
Qed.

End insertion.

(** ** Properties *)

(** C18: The B-tree on pointers.  [put] with a key that is not empty, called on a
    tree in memory, follows no null pointer, reads and frees no memory that is not
    allocated, touches no other memory, and leaves in memory exactly the nodes and
    entries of the tree that [Btree] gives, those that it does not use included;
    [free_node] of the root frees every one of them once.  So when a tree is made,
    filled with any keys and freed, as the threads of the program do, the memory is
    as it was before, and the number of pairs is that of the keys. *)
Theorem btree_memory {HA : Allocator cell} :
  (forall b t key val l h F, key <> EmptyString -> btree_ok t -> rep_btree b t l -> holds h (l ++ F) ->
     exists t' l' h', Btree.put t (Some key) val = Done t' /\ btree_ok t' /\ put b (Some key) val h = Done (tt, h') /\
       rep_btree b t' l' /\ holds h' (l' ++ F)) /\
  (forall ht p es l h F, rep_node ht p es l -> holds h (l ++ F) -> exists h', free_node (S ht) p h = Done (tt, h') /\ holds h' F) /\
  (forall val keys h, Forall (fun k => k <> EmptyString) keys -> run val keys h = Done (Z.of_nat (length keys), h)).
Proof.
  split_and!.
  - intros b t key val l h F Hk Ht Hr Hh. destruct (Btree.put_ok t key val Hk Ht) as (t' & E & Ht' & _).
    destruct (put_mem_ok b t key val t' l Hk Ht Hr E h F Hh) as ([] & h' & l' & Em & Hr' & Hh'). by exists t', l', h'.
  - intros ht p es l h F Hr Hh. destruct (free_node_ok ht p es l Hr h F Hh) as ([] & h' & l' & E & -> & Hh'). by exists h'.
  - intros val keys h Hk.
    assert (H : triple [] (run val keys) (fun n l => n = Z.of_nat (length keys) /\ l = [])).
    { unfold run. eapply triple_new; [apply initBtree_ok|]. intros b l Hb. rewrite app_nil_r.
      eapply (triple_call l []); [by apply (puts_mem_ok b val keys Hk Btree.initBtree l btree_ok_init)|by rewrite app_nil_r|].
      intros _ l1 (t & Ht & (r & lr & Hp & Hr) & Hc). rewrite app_nil_r. eapply triple_perm; [exact Hp|]. step.
      eapply (triple_call lr [(b, CBtree r (height t) (b_n t))]); [by eapply free_node_ok|perm|]. intros _ l2 ->. cbn [app]. step. apply triple_ret. split; [|done].
      destruct Ht as (_ & _ & _ & _ & ->). f_equal. rewrite Hc, foldl_ins_perm, length_app, length_fmap. cbn. lia. }
    destruct (H h (map_to_list h)) as (n & h' & l & E & [-> ->] & [_ Eh]).
    { split; [apply NoDup_fst_map_to_list|symmetry; apply list_to_map_to_list]. }
    rewrite E, Eh. do 2 f_equal. apply list_to_map_to_list.
Qed.

Lemma btree_memory_witness : run (Some "1"%string) (thread_puts 4) ∅ = Done (25%Z, ∅).
Proof. apply (proj2 (proj2 (@btree_memory (fresh_allocator cell))) (Some "1"%string) (thread_puts 4) ∅). apply thread_puts_ne. Defined.
