(* ===== verification/BtreeText.v ===== *)
(** * The B-tree as text

    [toString] and [main] of [29/btree.c].  The text is built with [strcat] in
    arrays of fixed size: a text that does not fit is a [Crash]. *)

From Stdlib Require Import ZArith Lia String Ascii.
From stdpp Require Import base tactics list strings.
From S2P Require Import Prelude Btree.

Local Open Scope ostep_scope.

(** ** Definitions *)

Definition STRING_BLOCK : N := 1024.

Definition newline : string := String "010"%char EmptyString.

(** The length of a string in binary, since the arrays are large. *)
Fixpoint slen (s : string) : N := match s with EmptyString => 0 | String _ s => N.succ (slen s) end.

(** [strcat(s, t)] for an array [s] of [size] bytes. *)
Definition strcat (size : N) (s t : string) : outcome string string :=
  if (slen s + slen t <? size)%N then Done (s +:+ t) else Crash "past the end of an array"%string.

Fixpoint strcats (size : N) (s : string) (ts : list string) : outcome string string :=
  match ts with
  | [] => Done s
  | t :: ts => let* s := strcat size s t in strcats size s ts
  end.

(** The array of [toStringHelper] has [STRING_BLOCK * STRING_BLOCK] bytes, that of
    the indentation [STRING_BLOCK]. *)
Fixpoint toStringHelper (ht : nat) (h : node) (indent : string) : outcome string string :=
  let size := (STRING_BLOCK * STRING_BLOCK)%N in
  match ht with
  | O => ofold (fun e s => strcats size s [indent; e_key e; " "%string; default "null"%string (e_val e); newline]) h ""%string
  | S ht =>
      ofold (fun e s =>
        let* s := strcats size s [indent; "("%string; e_key e; (")" +:+ newline)%string] in
        let* intentCp := strcats STRING_BLOCK ""%string [indent; "     "%string] in
        match e_next e with
        | None => Crash "null pointer"%string
        | Some c => let* subtree_str := toStringHelper ht c intentCp in strcat size s subtree_str
        end) h ""%string
  end.

Definition toString (t : btree) : outcome string string := toStringHelper t.(height) t.(root) "".

(** [main] for one number of threads: the size and the text that it prints. *)
Definition main_round (i : nat) : outcome string (Z * string) :=
  let* t := run_threads i in
  let* btree_structure := toString t in
  Done (t.(b_n), btree_structure).

Definition THREAD_NUM : nat := 11.

Definition main : outcome string (list (Z * string)) :=
  ofold (fun i out => let* r := main_round i in Done (out ++ [r])) (seq 1 THREAD_NUM) [].

(** ** The lines of a tree *)

Inductive line := Inner (key : string) | Pair (p : kv).

(** The lines below a node with their depth, from the top to the bottom. *)
Fixpoint tree_lines (ht : nat) (h : node) (depth : nat) : list (nat * line) :=
  match ht with
  | O => (fun e => (depth, Pair (e_key e, e_val e))) <$> h
  | S ht => h ≫= fun e => (depth, Inner (e_key e)) :: match e_next e with Some c => tree_lines ht c (S depth) | None => [] end
  end.

Fixpoint indentation (depth : nat) : string := match depth with O => "" | S d => indentation d +:+ "     " end.

Definition show_line (l : nat * line) : string :=
  indentation l.1 +:+
  match l.2 with
  | Inner k => "(" +:+ k +:+ ")" +:+ newline
  | Pair p => p.1 +:+ " " +:+ default "null"%string p.2 +:+ newline
  end.

Definition show_lines (ls : list (nat * line)) : string := foldr (fun l s => show_line l +:+ s) "" ls.

Definition leaf_of (l : nat * line) : option kv := match l.2 with Pair p => Some p | Inner _ => None end.

(** ** Lemmas *)

Lemma slen_app s t : slen (s +:+ t) = (slen s + slen t)%N.
Proof. induction s as [|c s IH]; [done|]. change (slen (String c s +:+ t)) with (N.succ (slen (s +:+ t))). cbn [slen]. rewrite IH. lia. Qed.

Lemma string_app_nil s : s +:+ "" = s.
Proof. induction s as [|c s IH]; [done|]. change (String c s +:+ "") with (String c (s +:+ "")). by rewrite IH. Qed.

Lemma string_app_assoc s t u : (s +:+ t) +:+ u = s +:+ (t +:+ u).
Proof. induction s as [|c s IH]; [done|]. change (String c ((s +:+ t) +:+ u) = String c (s +:+ (t +:+ u))). by rewrite IH. Qed.

Lemma strcats_ok size ts : forall s, (slen s + slen (foldr String.append "" ts) < size)%N -> strcats size s ts = Done (s +:+ foldr String.append "" ts).
Proof.
  induction ts as [|t ts IH]; intros s H; cbn [strcats foldr] in *; [by rewrite string_app_nil|]. rewrite slen_app in H.
  unfold strcat. rewrite (proj2 (N.ltb_lt _ _)) by lia. cbn [obind]. rewrite IH by (rewrite slen_app; lia). by rewrite string_app_assoc.
Qed.

Lemma show_lines_app l1 l2 : show_lines (l1 ++ l2) = show_lines l1 +:+ show_lines l2.
Proof. induction l1 as [|l l1 IH]; [done|]. cbn [app show_lines foldr]. fold (show_lines (l1 ++ l2)) (show_lines l1). by rewrite IH, string_app_assoc. Qed.

Lemma slen_indentation d : slen (indentation d) = (5 * N.of_nat d)%N.
Proof. induction d as [|d IH]; [done|]. cbn [indentation]. rewrite slen_app, IH. change (slen "     ") with 5%N. lia. Qed.

(** A loop that appends a text for every element. *)
Lemma ofold_text {A} (f : A -> string -> outcome string string) (g : A -> string) size l :
  (forall a s, a ∈ l -> (slen s + slen (g a) < size)%N -> f a s = Done (s +:+ g a)) ->
  forall s, (slen s + slen (foldr (fun a s => g a +:+ s) "" l) < size)%N -> ofold f l s = Done (s +:+ foldr (fun a s => g a +:+ s) "" l).
Proof.
  induction l as [|a l IH]; intros Hf s Hs; cbn [ofold foldr] in *; [by rewrite string_app_nil|]. rewrite slen_app in Hs.
  rewrite Hf by (lia || left). cbn [obind]. rewrite IH; [by rewrite string_app_assoc|intros; apply Hf; [by right|done]|rewrite slen_app; lia].
Qed.

Lemma tree_lines_cons ht e h depth : tree_lines (S ht) (e :: h) depth =
  ((depth, Inner (e_key e)) :: match e_next e with Some c => tree_lines ht c (S depth) | None => [] end) ++ tree_lines (S ht) h depth.
Proof. done. Qed.

(** The text of an entry and what is below it. *)
Definition entry_text (ht depth : nat) (e : entry) : string := show_lines (tree_lines ht [e] depth).

Lemma show_tree_lines ht depth h : show_lines (tree_lines ht h depth) = foldr (fun e s => entry_text ht depth e +:+ s) "" h.
Proof.
  induction h as [|e h IH]; [by destruct ht|]. cbn [foldr]. rewrite <- IH. unfold entry_text. rewrite <- show_lines_app.
  destruct ht; [done|]. by rewrite !tree_lines_cons, <- app_assoc.
Qed.

Lemma toStringHelper_ok ht : forall h depth, wf ht h -> (5 * (depth + ht) < 1024)%nat ->
  (slen (show_lines (tree_lines ht h depth)) < 1048576)%N ->
  toStringHelper ht h (indentation depth) = Done (show_lines (tree_lines ht h depth)).
Proof.
  induction ht as [|ht IH]; intros h depth Hw Hd Hs; rewrite show_tree_lines in *; cbn [toStringHelper];
    change (STRING_BLOCK * STRING_BLOCK)%N with 1048576%N.
  - apply (ofold_text _ (entry_text 0 depth) 1048576 h); [|exact Hs]. intros e s _ Hl. unfold entry_text in *.
    replace (show_lines (tree_lines 0 [e] depth)) with (foldr String.append "" [indentation depth; e_key e; " "%string; default "null"%string (e_val e); newline]) in *; [by apply strcats_ok|].
    unfold show_lines, show_line. cbn [tree_lines fmap list_fmap foldr fst snd]. rewrite !string_app_nil. done.
  - apply (ofold_text _ (entry_text (S ht) depth) 1048576 h); [|exact Hs]. intros e s He Hl.
    apply wf_S in Hw as [Hc _]. rewrite Forall_forall in Hc. destruct (Hc e He) as (c & Hn & Hwc & _). rewrite Hn.
    assert (Et : entry_text (S ht) depth e = foldr String.append "" [indentation depth; "("%string; e_key e; (")" +:+ newline)%string] +:+ show_lines (tree_lines ht c (S depth))).
    { unfold entry_text. rewrite tree_lines_cons, Hn. change (tree_lines (S ht) [] depth) with (@nil (nat * line)). rewrite app_nil_r.
      unfold show_lines at 1. cbn [foldr]. done. }
    rewrite Et, slen_app in Hl. rewrite strcats_ok by lia. cbn [obind].
    rewrite strcats_ok.
    2:{ cbn [foldr slen]. rewrite !slen_app, slen_indentation. cbn [slen]. unfold STRING_BLOCK. change (slen "     ") with 5%N. lia. }
    cbn [obind]. match goal with |- context [toStringHelper ht c ?i] => change i with (indentation (S depth)) end.
    rewrite IH; [|done|lia|]; [|lia]. cbn [obind]. unfold strcat. rewrite (proj2 (N.ltb_lt _ _)) by (rewrite slen_app; lia). by rewrite Et, string_app_assoc.
Qed.

Lemma tree_lines_leaves ht : forall h depth, wf ht h -> omap leaf_of (tree_lines ht h depth) = flat ht h.
Proof.
  induction ht as [|ht IH]; intros h depth Hw.
  - cbn [tree_lines flat]. clear Hw. induction h as [|e h IH]; [done|]. cbn. by f_equal.
  - apply wf_S in Hw as [Hc _]. induction Hc as [|e h (c & Hn & Hwc & _) _ IHh]; [done|]. rewrite tree_lines_cons, Hn, omap_app, IHh, (flat_cons _ _ c) by done.
    f_equal. by apply IH.
Qed.

(** [toString].  When the text and the deepest indentation fit their arrays, it is
    the text of the tree: a line for every entry, indented by five spaces per
    level; and the lines of the leaves are the pairs of the tree in their order. *)
Lemma to_string_correct t : btree_ok t -> (5 * t.(height) < 1024)%nat ->
  (slen (show_lines (tree_lines t.(height) t.(root) 0)) < 1048576)%N ->
  toString t = Done (show_lines (tree_lines t.(height) t.(root) 0)) /\
  omap leaf_of (tree_lines t.(height) t.(root) 0) = contents t.
Proof. intros (Hw & _) Hh Hs. split; [by apply (toStringHelper_ok t.(height) t.(root) 0)|by apply tree_lines_leaves]. Qed.

Lemma to_string_witness : toString sample_tree = Done (show_lines (tree_lines 1 (root sample_tree) 0)).
Proof. apply (to_string_correct sample_tree sample_tree_ok); [vm_compute; lia|vm_compute; reflexivity]. Defined.

(** [main] prints a tree for every number of threads: all of its texts fit. *)
Lemma main_prints : exists out, main = Done out /\ map fst out = map (fun i => Z.of_nat (i * (100 / i))) (seq 1 11).
Proof.
  assert (E : (match main with Done out => bool_decide (map fst out = map (fun i => Z.of_nat (i * (100 / i))) (seq 1 11)) | _ => false end) = true) by (vm_compute; reflexivity).
  destruct main as [out| |]; try done. exists out. split; [done|]. by apply bool_decide_eq_true in E.
Qed.
