(* ===== verification/MemExercises.v ===== *)
(** * The exercises on memory

    [13/memory-user.c], the programs of [14/] with errors of memory, [19/tlb.c] and
    [21/mem.c].  A pointer is a block and an index; using one outside its block, or
    after the block was freed, and signed overflow are behaviour the language
    leaves undefined. *)

From Stdlib Require Import ZArith Lia String.
From stdpp Require Import base tactics numbers list gmap.
From S2P Require Import Prelude Heap.

Local Open Scope Z_scope.
Local Open Scope ostep_scope.

(** ** Blocks of integers *)

(** A pointer of [malloc]: the block, and the distance from its start. *)
Definition pointer : Type := option (nat * Z).

Definition malloc_ints (n : nat) : mem (list Z) pointer := mbnd (malloc (replicate n 0)) (fun b => mret (Some (b, 0))).

Definition load_int (p : pointer) : mem (list Z) Z :=
  match p with
  | None => crash "null pointer"
  | Some (b, i) => mbnd (load b) (fun c => if (i <? 0) || (Z.of_nat (length c) <=? i) then crash "out of bounds"
                                           else mret (default 0 (c !! Z.to_nat i)))
  end.

Definition store_int (p : pointer) (v : Z) : mem (list Z) unit :=
  match p with
  | None => crash "null pointer"
  | Some (b, i) => mbnd (load b) (fun c => if (i <? 0) || (Z.of_nat (length c) <=? i) then crash "out of bounds"
                                           else store b (<[Z.to_nat i := v]> c))
  end.

(** [free]: of nothing, or of the start of a block. *)
Definition free (p : pointer) : mem (list Z) unit :=
  match p with
  | None => mret tt
  | Some (b, i) => if i =? 0 then mfree b else crash "invalid free"
  end.

(** [&p[i]] *)
Definition index (p : pointer) (i : Z) : pointer := match p with Some (b, j) => Some (b, j + i) | None => None end.

(** ** The programs of [14/] *)

Definition null_main : mem (list Z) Z :=
  mbnd (malloc_ints 1) (fun _ => let x : pointer := None in mbnd (load_int x) (fun v => mbnd (free x) (fun _ => mret v))).

(** [malloc(100)] is 25 integers. *)
Definition size_100_main : mem (list Z) unit :=
  mbnd (malloc_ints 25) (fun data => mbnd (store_int (index data 26) 0) (fun _ => free data)).

Definition free_then_print_main (problem_6 : bool) : mem (list Z) (list Z) :=
  mbnd (malloc_ints 25) (fun data =>
    if problem_6 then mbnd (free data) (fun _ => mbnd (load_int (index data 0)) (fun v => mret [v]))
    else mbnd (free (index data 1)) (fun _ => mret [])).

Fixpoint forget_free_main (n : nat) : mem (list Z) (list Z) :=
  match n with
  | O => mret []
  | S n => mbnd (malloc_ints 1) (fun x => mbnd (store_int x 1) (fun _ => mbnd (load_int x) (fun v => mbnd (forget_free_main n) (fun out => mret (v :: out)))))
  end.

(** The programs do what they are written to show: whatever is in memory, the first three
    go wrong, and the last one loses every block. *)
Lemma memory_errors h :
  (exists w, null_main h = Crash w) /\ (exists w, size_100_main h = Crash w) /\
  (exists w, free_then_print_main true h = Crash w) /\ (exists w, free_then_print_main false h = Crash w).
Proof.
  unfold null_main, size_100_main, free_then_print_main, malloc_ints, mbnd, malloc. cbn [obind fst snd mret].
  split_and!; [by eexists| | |by eexists].
  - cbn [index store_int]. unfold mbnd, load. rewrite lookup_insert_eq. cbn. by eexists.
  - cbn [free Z.eqb]. unfold mfree. rewrite lookup_insert_eq. cbn [obind fst snd index load_int]. unfold mbnd, load. rewrite lookup_delete_eq. by eexists.
Qed.

Lemma store_block h b v w : store_int (Some (b, 0)) w (<[b := [v]]> h) = Done (tt, <[b := [w]]> h).
Proof.
  unfold store_int, mbnd, load. rewrite lookup_insert_eq. cbn [obind fst snd length]. change ((0 <? 0) || (Z.of_nat 1 <=? 0)) with false. cbn iota.
  unfold store. rewrite lookup_insert_eq. by rewrite insert_insert_eq.
Qed.

Lemma load_block h b v : load_int (Some (b, 0)) (<[b := [v]]> h) = Done (v, <[b := [v]]> h).
Proof. unfold load_int, mbnd, load. rewrite lookup_insert_eq. done. Qed.

Lemma forget_free_leaks n : forall h, exists h', forget_free_main n h = Done (replicate n 1, h') /\ (size h' = size h + n)%nat.
Proof.
  induction n as [|n IH]; intros h; [exists h; split; [done|lia]|]. set (b := addr h). pose proof (addr_fresh h : h !! b = None) as Hb.
  assert (E : forget_free_main (S n) h = (mbnd (forget_free_main n) (fun out => mret (1 :: out))) (<[b := [1]]> h)).
  { cbn [forget_free_main]. unfold malloc_ints. unfold mbnd at 1 2, malloc. cbn [obind fst snd mret]. fold b. change (replicate 1 0) with [0].
    unfold mbnd at 1. rewrite store_block. cbn [obind fst snd]. unfold mbnd at 1. rewrite load_block. done. }
  rewrite E. unfold mbnd. destruct (IH (<[b := [1]]> h)) as (h' & -> & Hs). cbn [obind fst snd mret]. exists h'. split; [done|].
  rewrite Hs, map_size_insert_None by done. lia.
Qed.

(** ** [13/memory-user.c] *)

(** [atoi(argv[1]) * 1024 * 1024] *)
Definition int_mul (a b : Z) : outcome string Z :=
  if (-2147483648 <=? a * b) && (a * b <=? 2147483647) then Done (a * b) else Crash "signed overflow"%string.

(** [arr[i] += 1] for every [i] *)
Definition bump (arr : list Z) : outcome string (list Z) :=
  if forallb (fun v => v <? 2147483647) arr then Done ((fun v => v + 1) <$> arr) else Crash "signed overflow"%string.

Fixpoint bumps (passes : nat) (arr : list Z) : outcome string (list Z) :=
  match passes with
  | O => Done arr
  | S n => let* arr := bump arr in bumps n arr
  end.

(** [main]: [arr] is what [malloc] returns, [passes] the passes in the time given; the array at the end. *)
Definition memory_user (argc mb : Z) (malloc_ok : bool) (garbage : nat -> Z) (passes : nat) : outcome string (list Z) :=
  if negb (argc =? 3) then Fail "usage"%string
  else
    let* a := int_mul mb 1024 in
    let* memory := int_mul a 1024 in
    let length := s32 (u64 memory / 4) in
    if negb malloc_ok && (0 <? length) && negb (passes =? 0)%nat then Crash "null pointer"%string
    else bumps passes (garbage <$> seq 0 (Z.to_nat length)).

Lemma bumps_ok passes : forall arr, Forall (fun v => v + Z.of_nat passes <= 2147483647) arr -> bumps passes arr = Done ((fun v => v + Z.of_nat passes) <$> arr).
Proof.
  induction passes as [|n IH]; intros arr Ha; cbn [bumps].
  - f_equal. rewrite <- (list_fmap_id arr) at 1. apply list_fmap_ext. intros _ v _. unfold id. lia.
  - unfold bump. assert (Hf : forallb (fun v => v <? 2147483647) arr = true).
    { apply forallb_forall. intros v Hv%list_elem_of_In. rewrite Forall_forall in Ha. apply Z.ltb_lt. specialize (Ha v Hv). lia. }
    rewrite Hf. cbn [obind]. rewrite IH; [|apply Forall_fmap; eapply Forall_impl; [exact Ha|]; cbn; lia].
    f_equal. rewrite <- list_fmap_compose. apply list_fmap_ext. intros _ v _. cbn. lia.
Qed.

(** Below 2048 megabytes every integer of the array is counted up once in a
    pass; from 2048 on the size does not fit an [int]. *)
Lemma memory_user_ok mb garbage passes : 0 <= mb ->
  if mb <? 2048 then
    (forall i, garbage i + Z.of_nat passes <= 2147483647) ->
    memory_user 3 mb true garbage passes = Done ((fun i => garbage i + Z.of_nat passes) <$> seq 0 (Z.to_nat (mb * 262144)))
  else exists w, memory_user 3 mb true garbage passes = Crash w.
Proof.
  intros Hm. unfold memory_user, int_mul. cbn [negb Z.eqb Pos.eqb]. destruct (Z.ltb_spec mb 2048) as [Hl|Hl].
  - intros Hg. rewrite (proj2 (Z.leb_le _ (mb * 1024))), (proj2 (Z.leb_le (mb * 1024) _)) by lia. cbn [andb obind].
    rewrite (proj2 (Z.leb_le _ (mb * 1024 * 1024))), (proj2 (Z.leb_le (mb * 1024 * 1024) _)) by lia. cbn [andb obind negb].
    assert (El : s32 (u64 (mb * 1024 * 1024) / 4) = mb * 262144).
    { unfold u64, wrapu. rewrite Z.mod_small by lia. replace (mb * 1024 * 1024) with (mb * 262144 * 4) by lia. rewrite Z.div_mul by lia.
      unfold s32, wraps. rewrite Z.mod_small by lia. lia. }
    rewrite El. rewrite bumps_ok; [by rewrite <- list_fmap_compose|]. apply Forall_fmap, Forall_true. intros i. cbn. apply Hg.
  - destruct ((-2147483648 <=? mb * 1024) && (mb * 1024 <=? 2147483647)); cbn [obind]; [|by eexists].
    rewrite (proj2 (Z.leb_gt (mb * 1024 * 1024) _)), andb_false_r by lia. by eexists.
Qed.

(** ** [19/tlb.c] *)

(** One trial: the indices that are touched.  [i] is an [int], [pages * jump] a [long]. *)
Fixpoint trial (fuel : nat) (pages jump i : Z) : outcome string (list Z) :=
  match fuel with
  | O => Crash "fuel"%string
  | S fuel =>
      if i <? pages * jump then
        if i <? 0 then Crash "out of bounds"%string
        else let* r := trial fuel pages jump (s32 (i + jump)) in Done (i :: r)
      else Done []
  end.

Definition tlb_main (argc pages trials jump : Z) : outcome string (list Z) :=
  if argc <? 3 then Fail "Usage"%string
  else if (pages <=? 0) || (trials <=? 0) then Fail "Invalid input"%string
  else
    let* one := trial (S (Z.to_nat pages)) pages jump 0 in
    Done (mjoin (replicate (Z.to_nat trials) one)).

Lemma s32_wrap x : 2147483648 <= x < 4294967296 -> s32 x = x - 4294967296.
Proof.
  intros H. unfold s32, wraps. change (2 ^ (32 - 1)) with 2147483648. change (2 ^ 32) with 4294967296.
  rewrite <- (Z.mod_add _ (-1)) by lia. rewrite Z.mod_small by lia. lia.
Qed.

Lemma trial_ok pages jump : 0 < jump -> forall k fuel p, Z.of_nat k = pages - p -> 0 <= p -> (k < fuel)%nat -> pages * jump < 2147483648 ->
  trial fuel pages jump (p * jump) = Done ((fun n => (p + Z.of_nat n) * jump) <$> seq 0 k).
Proof.
  intros Hj. induction k as [|k IH]; intros fuel p Hk Hp Hf Hb; (destruct fuel as [|fuel]; [lia|]); cbn [trial].
  - rewrite (proj2 (Z.ltb_ge _ _)) by nia. done.
  - rewrite (proj2 (Z.ltb_lt _ _)) by nia. rewrite (proj2 (Z.ltb_ge (p * jump) 0)) by nia.
    rewrite s32_small by nia. replace (p * jump + jump) with ((p + 1) * jump) by lia. rewrite IH by lia. cbn [obind seq fmap list_fmap].
    do 2 f_equal; [lia|]. rewrite <- fmap_S_seq, <- list_fmap_compose. apply list_fmap_ext. intros _ n _. cbn. lia.
Qed.

(** With too many pages the index becomes negative. *)
Lemma trial_wraps pages jump : 0 < jump < 2147483648 -> 2147483648 <= pages * jump -> forall k fuel p, Z.of_nat k = pages - p -> 0 <= p -> p * jump < 2147483648 -> (k < fuel)%nat ->
  exists w, trial fuel pages jump (p * jump) = Crash w.
Proof.
  intros Hj Hb. induction k as [|k IH]; intros fuel p Hk Hp Hlt Hf; [nia|]. destruct fuel as [|fuel]; [lia|]. cbn [trial].
  rewrite (proj2 (Z.ltb_lt _ _)) by nia. rewrite (proj2 (Z.ltb_ge (p * jump) 0)) by nia. destruct (Z.ltb_spec (p * jump + jump) 2147483648) as [H|H].
  - rewrite s32_small by nia. replace (p * jump + jump) with ((p + 1) * jump) by lia.
    destruct (IH fuel (p + 1)) as [w ->]; [lia|lia|lia|lia|]. by eexists.
  - rewrite s32_wrap by lia. destruct fuel as [|fuel]; [by eexists|]. cbn [trial].
    rewrite (proj2 (Z.ltb_lt _ _)) by lia. rewrite (proj2 (Z.ltb_lt (p * jump + jump - 4294967296) 0)) by lia. by eexists.
Qed.

(** The program touches the first integer of every page, once in every trial; when the array has
    [2^31] integers or more it leaves it. *)
Lemma tlb_ok pages trials jump : 0 < pages -> 0 < trials -> 0 < jump < 2147483648 ->
  if pages * jump <? 2147483648 then
    tlb_main 3 pages trials jump = Done (mjoin (replicate (Z.to_nat trials) ((fun n => Z.of_nat n * jump) <$> seq 0 (Z.to_nat pages))))
  else exists w, tlb_main 3 pages trials jump = Crash w.
Proof.
  intros Hp Ht Hj. unfold tlb_main. cbn [Z.ltb Z.compare Pos.compare Pos.compare_cont]. rewrite (proj2 (Z.leb_gt pages 0)), (proj2 (Z.leb_gt trials 0)) by lia. cbn [orb].
  destruct (Z.ltb_spec (pages * jump) 2147483648) as [H|H].
  - pose proof (trial_ok pages jump ltac:(lia) (Z.to_nat pages) (S (Z.to_nat pages)) 0 ltac:(lia) ltac:(lia) ltac:(lia) H) as E.
    rewrite Z.mul_0_l in E. rewrite E. cbn [obind]. do 3 f_equal.
  - destruct (trial_wraps pages jump Hj H (Z.to_nat pages) (S (Z.to_nat pages)) 0) as [w E]; [lia|lia|lia|lia|].
    rewrite Z.mul_0_l in E. rewrite E. by eexists.
Qed.

(** ** [21/mem.c] *)

(** The variables of the loop: [k], [loop_count] and the number of bandwidths added
    up. *)
Record mem_vars := mkMem { k_ : Z; loop_count : Z; added : Z }.

(** One turn of [while (1)]: [inr] when it breaks. *)
Definition mem_turn (num_ints : Z) (m : mem_vars) : outcome string (mem_vars + mem_vars) :=
  if m.(k_) =? 2147483647 then Crash "signed overflow"%string
  else
    let k := m.(k_) + 1 in
    if k =? num_ints then
      if 9 <? m.(loop_count) then Done (inr (mkMem k m.(loop_count) (m.(added) + 1)))
      else Done (inl (mkMem 0 (m.(loop_count) + 1) (m.(added) + 1)))
    else Done (inl (mkMem k m.(loop_count) m.(added))).

Fixpoint mem_loop (fuel : nat) (num_ints : Z) (m : mem_vars) : option (outcome string mem_vars) :=
  match fuel with
  | O => None
  | S fuel =>
      match mem_turn num_ints m with
      | Done (inl m) => mem_loop fuel num_ints m
      | Done (inr m) => Some (Done m)
      | Fail e => Some (Fail e)
      | Crash e => Some (Crash e)
      end
  end.

(** [num_ints] of the round with size [i] *)
Definition num_ints (i : Z) : Z := i * 1024 * 1024 * 1024 / 4.

(** Up to a number of turns within a pass. *)
Lemma mem_turns n N c a : forall fuel k, 0 <= k -> k + Z.of_nat n < N -> k + Z.of_nat n <= 2147483647 ->
  mem_loop (n + fuel) N (mkMem k c a) = mem_loop fuel N (mkMem (k + Z.of_nat n) c a).
Proof.
  induction n as [|n IH]; intros fuel k Hk Hn Hb; [by rewrite Z.add_0_r|]. cbn [Nat.add mem_loop]. unfold mem_turn. cbn [k_ loop_count added].
  rewrite (proj2 (Z.eqb_neq k 2147483647)), (proj2 (Z.eqb_neq (k + 1) N)) by lia. rewrite IH by lia. do 2 f_equal. lia.
Qed.

Lemma mem_pass N c a fuel : 0 < N <= 2147483647 ->
  mem_loop (Z.to_nat N + fuel) N (mkMem 0 c a) =
    if 9 <? c then Some (Done (mkMem N c (a + 1))) else mem_loop fuel N (mkMem 0 (c + 1) (a + 1)).
Proof.
  intros HN. replace (Z.to_nat N + fuel)%nat with (Z.to_nat (N - 1) + S fuel)%nat by lia. rewrite mem_turns by lia.
  cbn [mem_loop]. unfold mem_turn. cbn [k_ loop_count added]. rewrite (proj2 (Z.eqb_neq _ _)) by lia. rewrite (proj2 (Z.eqb_eq _ _)) by lia.
  replace (0 + Z.of_nat (Z.to_nat (N - 1)) + 1) with N by lia. by destruct (9 <? c).
Qed.

(** Eleven passes are made and their bandwidths added up, but the sum is divided by
    ten, the value of [loop_count]; the last round, of 8 GB, does not come to an end: [k] would have to be [2^31]. *)
Lemma mem_rounds i : 1 <= i ->
  (i <= 7 -> mem_loop (Z.to_nat (11 * num_ints i)) (num_ints i) (mkMem 0 0 0) = Some (Done (mkMem (num_ints i) 10 11))) /\
  (8 <= i -> mem_loop (Z.to_nat 2147483648) (num_ints i) (mkMem 0 0 0) = Some (Crash "signed overflow"%string)).
Proof.
  intros Hi. assert (En : num_ints i = i * 268435456) by (unfold num_ints; replace (i * 1024 * 1024 * 1024) with (i * 268435456 * 4) by lia; apply Z.div_mul; lia).
  rewrite En. split; intros H.
  - assert (Hs : forall n c a, Z.of_nat n + c = 10 -> 0 <= c ->
      mem_loop (Z.to_nat (Z.of_nat (S n) * (i * 268435456))) (i * 268435456) (mkMem 0 c a) = Some (Done (mkMem (i * 268435456) 10 (a + Z.of_nat (S n))))).
    { induction n as [|n IH]; intros c a Hc H0.
      - replace (Z.to_nat (Z.of_nat 1 * (i * 268435456))) with (Z.to_nat (i * 268435456) + 0)%nat by lia. rewrite mem_pass by lia.
        rewrite (proj2 (Z.ltb_lt 9 c)) by lia. do 3 f_equal. lia.
      - replace (Z.to_nat (Z.of_nat (S (S n)) * (i * 268435456))) with (Z.to_nat (i * 268435456) + Z.to_nat (Z.of_nat (S n) * (i * 268435456)))%nat by lia.
        rewrite mem_pass by lia. rewrite (proj2 (Z.ltb_ge 9 c)) by lia. rewrite IH by lia. do 3 f_equal. lia. }
    apply (Hs 10%nat 0 0); lia.
  - replace (Z.to_nat 2147483648) with (Z.to_nat 2147483647 + 1)%nat by lia. rewrite mem_turns by lia. cbn [mem_loop]. unfold mem_turn. cbn [k_].
    rewrite Z2Nat.id by lia. rewrite Z.add_0_l, Z.eqb_refl. reflexivity.
Qed.
