(* ===== verification/Threads.v ===== *)
(** * Threads and semaphores

    The machine the programs of [31/] run on.  A thread executes the
    instructions of its role; a step of the machine is one instruction of one
    thread, so a sequence of steps is an interleaving of the threads.  The
    wrappers of [common_threads.h] assert that a call succeeds; [sem_wait]
    blocks while the value is zero.  A thread that [main] has created and that
    did not run yet is at its first instruction, so the creation of the threads
    needs no steps of its own.

    An invariant of a program is an equation between the value of a semaphore
    or a variable and a sum over the threads ([tsum]) of a weight that depends
    on where a thread is; [tsum_step] says how a step changes such a sum. *)

From Stdlib Require Import ZArith Lia String.
From stdpp Require Import base tactics list numbers relations.
From S2P Require Import Prelude.

Local Open Scope Z_scope.

(** ** The machine *)

(** The instructions, over the names of the semaphores, the variables of a
    thread and the variables the threads share. *)
Inductive instr (K L S : Type) :=
| Wait (k : L -> K)
| Post (k : L -> K)
| Act (f : L -> S -> L * S)
| Unless (b : L -> S -> bool) (n : nat) (** skip [n] instructions when [b] is false *)
| Back (n : nat) (** go back [n] instructions *)
| Exit. (** [pthread_exit] *)

Arguments Wait {K L S} k.
Arguments Post {K L S} k.
Arguments Act {K L S} f.
Arguments Unless {K L S} b n.
Arguments Back {K L S} n.
Arguments Exit {K L S}.

Record thread (R L : Type) := mkThread { role : R; pc : nat; loc : L }.

Arguments mkThread {R L} role pc loc.
Arguments role {R L} t.
Arguments pc {R L} t.
Arguments loc {R L} t.

Record machine (K R L S : Type) := mkMachine { sems : K -> Z; store : S; threads : list (thread R L) }.

Arguments mkMachine {K R L S} sems store threads.
Arguments sems {K R L S} m.
Arguments store {K R L S} m.
Arguments threads {K R L S} m.

Section machine.
Context {K : Type} `{!EqDecision K} {R L S : Type}.
Variable code : R -> list (instr K L S).

Definition sem_add (k : K) (d : Z) (v : K -> Z) : K -> Z :=
  fun k' => if decide (k = k') then v k' + d else v k'.

(** One instruction of a thread; [None] when it is blocked or has ended. *)
Definition exec (v : K -> Z) (s : S) (t : thread R L) : option ((K -> Z) * S * thread R L) :=
  let 'mkThread r p l := t in
  match code r !! p with
  | None => None
  | Some (Wait k) => if 0 <? v (k l) then Some (sem_add (k l) (-1) v, s, mkThread r (p + 1) l) else None
  | Some (Post k) => Some (sem_add (k l) 1 v, s, mkThread r (p + 1) l)
  | Some (Act f) => let '(l, s) := f l s in Some (v, s, mkThread r (p + 1) l)
  | Some (Unless b n) => Some (v, s, mkThread r (if b l s then p + 1 else p + 1 + n)%nat l)
  | Some (Back n) => Some (v, s, mkThread r (p - n)%nat l)
  | Some Exit => Some (v, s, mkThread r (length (code r)) l)
  end.

(** A step of thread [i]. *)
Definition step_thread (i : nat) (m : machine K R L S) : option (machine K R L S) :=
  match m.(threads) !! i with
  | None => None
  | Some t =>
      match exec m.(sems) m.(store) t with
      | None => None
      | Some (v, s, t') => Some (mkMachine v s (<[i := t']> m.(threads)))
      end
  end.

Inductive mstep : machine K R L S -> machine K R L S -> Prop :=
| mstep_intro i m m' : step_thread i m = Some m' -> mstep m m'.

(** A run along a schedule; [None] when a scheduled thread cannot run. *)
Fixpoint run (sched : list nat) (m : machine K R L S) : option (machine K R L S) :=
  match sched with
  | [] => Some m
  | i :: sched => match step_thread i m with Some m' => run sched m' | None => None end
  end.

Definition ended (t : thread R L) : Prop := (length (code t.(role)) <= t.(pc))%nat.

Definition finished (m : machine K R L S) : Prop := Forall ended m.(threads).

Definition stuck (m : machine K R L S) : Prop := forall m', ~ mstep m m'.

Definition reach (m0 : machine K R L S) : machine K R L S -> Prop := reachable (eq m0) mstep.

Lemma run_reach sched m0 : forall m m', reach m0 m -> run sched m = Some m' -> reach m0 m'.
Proof.
  induction sched as [|i sched IH]; intros m m' Hm; cbn; [by intros [= <-]|].
  destruct (step_thread i m) eqn:E; [|done]. apply IH. eapply reachable_step; [done|]. by econstructor.
Qed.

Lemma run_witness (P : machine K R L S -> Prop) sched m0 :
  match run sched m0 with Some m => P m | None => False end -> exists m, reach m0 m /\ P m.
Proof.
  destruct (run sched m0) as [m|] eqn:E; [|done]. intros H. exists m. split; [|done].
  eapply run_reach; [by apply reachable_init|exact E].
Qed.

(** Rule induction on the steps, with the thread that runs at hand. *)
Lemma reach_inv (I : machine K R L S -> Prop) m0 :
  I m0 ->
  (forall v s ts i t v' s' t', I (mkMachine v s ts) -> ts !! i = Some t -> exec v s t = Some (v', s', t') ->
    I (mkMachine v' s' (<[i := t']> ts))) ->
  forall m, reach m0 m -> I m.
Proof.
  intros H0 Hstep m. apply reachable_inv; [by intros ? <-|]. intros [v s ts] m' HI Hs. inversion Hs as [i m1 m2 H]; subst m1 m2; clear Hs.
  unfold step_thread in H. cbn in H. destruct (ts !! i) as [t|] eqn:Et; [|done].
  destruct (exec v s t) as [[[v' s'] t']|] eqn:Ex; [|done]. injection H as <-. eauto.
Qed.

(** A thread keeps its role. *)
Lemma exec_role v s t v' s' t' : exec v s t = Some (v', s', t') -> t'.(role) = t.(role).
Proof.
  destruct t as [r p l]. cbn. destruct (code r !! p) as [[k|k|f|b n|n|]|]; [|intros [= <- <- <-]; done| |intros [= <- <- <-]; done..|done].
  - destruct (0 <? v (k l)); [|done]. by intros [= <- <- <-].
  - destruct (f l s). by intros [= <- <- <-].
Qed.

Lemma reach_roles m0 m : reach m0 m -> role <$> m.(threads) = role <$> m0.(threads).
Proof.
  apply (reach_inv (fun m => role <$> m.(threads) = role <$> m0.(threads))); [done|].
  intros v s ts i t v' s' t' H Ht Ex. cbn [threads] in *. rewrite <- H, list_fmap_insert.
  apply list_insert_id. rewrite list_lookup_fmap, Ht. cbn. by rewrite (exec_role _ _ _ _ _ _ Ex).
Qed.

(** When every step decreases a measure, the runs are bounded by it. *)
Lemma steps_bounded (I : machine K R L S -> Prop) (mu : machine K R L S -> Z) m0 :
  (forall m, reach m0 m -> I m) -> (forall m, I m -> 0 <= mu m) ->
  (forall v s ts i t v' s' t', I (mkMachine v s ts) -> ts !! i = Some t -> exec v s t = Some (v', s', t') ->
    mu (mkMachine v' s' (<[i := t']> ts)) < mu (mkMachine v s ts)) ->
  forall k m, nsteps mstep k m0 m -> Z.of_nat k <= mu m0.
Proof.
  intros HI Hpos Hdec k m Hk.
  cut (Z.of_nat k + mu m <= mu m0 /\ reach m0 m); [intros [H Hm]; pose proof (Hpos m (HI m Hm)); lia|].
  revert m Hk. induction k as [|k IH]; intros m Hk.
  - inversion Hk; subst. split; [lia|by apply reachable_init].
  - apply nsteps_inv_r in Hk as (m1 & H1 & Hs). destruct (IH m1 H1) as [Hle Hr].
    split; [|by eapply reachable_step]. inversion Hs as [i m2 m3 H]; subst m2 m3.
    unfold step_thread in H. destruct m1 as [v s ts]. cbn in H. destruct (ts !! i) as [t|] eqn:Et; [|done].
    destruct (exec v s t) as [[[v' s'] t']|] eqn:Ex; [|done]. injection H as <-.
    pose proof (Hdec _ _ _ _ _ _ _ _ (HI _ Hr) Et Ex). lia.
Qed.

(** In a stuck state every thread is blocked or has ended. *)
Lemma stuck_exec v s ts : stuck (mkMachine v s ts) -> Forall (fun t => exec v s t = None) ts.
Proof.
  intros H. apply Forall_lookup. intros i t Ht. destruct (exec v s t) as [[[v' s'] t']|] eqn:Ex; [|done].
  destruct (H (mkMachine v' s' (<[i := t']> ts))). apply (mstep_intro i). unfold step_thread. cbn. by rewrite Ht, Ex.
Qed.

End machine.

Lemma sem_add_eq {K} `{!EqDecision K} (k : K) d v : sem_add k d v k = v k + d.
Proof. unfold sem_add. by rewrite decide_True. Qed.

Lemma sem_add_ne {K} `{!EqDecision K} (k k' : K) d v : k <> k' -> sem_add k d v k' = v k'.
Proof. intros. unfold sem_add. by rewrite decide_False. Qed.

(** ** Named semaphores

    [Sem_open] of [common_threads.h] with [CHECK_ERRNO]; the named semaphores
    that exist, with their values, are a list. *)

Definition shm_exists (name : string) (shm : list (string * Z)) : bool := existsb (fun p => String.eqb name p.1) shm.

Definition check_shm (name : string) (shm : list (string * Z)) : list (string * Z) :=
  List.filter (fun p => negb (String.eqb name p.1)) shm.

(** The value of the semaphore and what exists afterwards.  The second call of
    [Sem_open] finds no semaphore of the name, so two levels are all there are. *)
Fixpoint Sem_open (depth : nat) (name : string) (value : Z) (shm : list (string * Z)) : Z * list (string * Z) :=
  if shm_exists name shm then
    match depth with
    | O => (value, shm)
    | Datatypes.S depth => Sem_open depth name 1 (check_shm name shm)
    end
  else (value, (name, value) :: shm).

Lemma check_shm_gone name shm : shm_exists name (check_shm name shm) = false.
Proof.
  unfold shm_exists, check_shm. induction shm as [|[n v] shm IH]; [done|]. cbn.
  destruct (String.eqb name n) eqn:E; cbn; [done|]. by rewrite E.
Qed.

(** A name that is free gets the value asked for, a name in use the value 1. *)
Lemma Sem_open_value name value shm :
  (Sem_open 1 name value shm).1 = if shm_exists name shm then 1 else value.
Proof. cbn. destruct (shm_exists name shm); [|done]. by rewrite check_shm_gone. Qed.

(** ** Sums over the threads *)

Section tsum.
Context {A : Type}.
Implicit Types (w : A -> Z) (ts : list A).

Definition tsum w ts : Z := foldr (fun t a => w t + a) 0 ts.

Lemma tsum_cons w t ts : tsum w (t :: ts) = w t + tsum w ts.
Proof. done. Qed.

Lemma tsum_app w ts1 ts2 : tsum w (ts1 ++ ts2) = tsum w ts1 + tsum w ts2.
Proof. induction ts1 as [|t ts1 IH]; cbn; [done|]. fold (tsum w (ts1 ++ ts2)). rewrite IH. cbn. fold (tsum w ts1). lia. Qed.

(** One thread moves from [t] to [t']. *)
Lemma tsum_step w ts i t t' : ts !! i = Some t -> tsum w (<[i := t']> ts) = tsum w ts - w t + w t'.
Proof.
  intros H. pose proof (take_drop_middle _ _ _ H) as E. rewrite <- E at 2.
  rewrite insert_take_drop by (by eapply lookup_lt_Some). rewrite !tsum_app, !tsum_cons. lia.
Qed.

Lemma tsum_nonneg w ts : (forall t, 0 <= w t) -> 0 <= tsum w ts.
Proof. intros H. induction ts as [|t ts IH]; cbn; [lia|]. fold (tsum w ts). pose proof (H t). lia. Qed.

(** A thread contributes no more than the sum. *)
Lemma tsum_ge w ts i t : (forall t, 0 <= w t) -> ts !! i = Some t -> w t <= tsum w ts.
Proof.
  intros Hw H. rewrite <- (take_drop_middle _ _ _ H), tsum_app, tsum_cons.
  pose proof (tsum_nonneg w (take i ts) Hw). pose proof (tsum_nonneg w (drop (Datatypes.S i) ts) Hw). lia.
Qed.

Lemma tsum_ge2 w ts i j t u :
  (forall t, 0 <= w t) -> i <> j -> ts !! i = Some t -> ts !! j = Some u -> w t + w u <= tsum w ts.
Proof.
  intros Hw Hij Hi Hj. pose proof (list_lookup_insert_ne ts i j t) as E. rewrite Hj in E. specialize (E Hij).
  revert j i t u Hij Hi Hj E. induction ts as [|x ts IH]; intros j i t u Hij Hi Hj _; [done|]. rewrite tsum_cons.
  destruct i as [|i], j as [|j]; cbn in Hi, Hj; [done|..].
  - injection Hi as ->. pose proof (tsum_ge w ts j u Hw Hj). lia.
  - injection Hj as ->. pose proof (tsum_ge w ts i t Hw Hi). lia.
  - pose proof (Hw x). cut (w t + w u <= tsum w ts); [lia|]. apply (IH j i); [lia|done|done|].
    rewrite list_lookup_insert_ne; [done|lia].
Qed.

Lemma tsum_ext w w' ts : Forall (fun t => w t = w' t) ts -> tsum w ts = tsum w' ts.
Proof. induction 1 as [|t ts Ht _ IH]; [done|]. rewrite !tsum_cons, Ht, IH. done. Qed.

Lemma tsum_le w w' ts : Forall (fun t => w t <= w' t) ts -> tsum w ts <= tsum w' ts.
Proof. induction 1 as [|t ts Ht _ IH]; [done|]. rewrite !tsum_cons. lia. Qed.

Lemma tsum_zero w ts : Forall (fun t => w t = 0) ts -> tsum w ts = 0.
Proof. induction 1 as [|t ts Ht _ IH]; [done|]. rewrite tsum_cons. lia. Qed.

Lemma tsum_const c ts : tsum (fun _ => c) ts = c * Z.of_nat (length ts).
Proof. induction ts as [|t ts IH]; [cbn; lia|]. rewrite tsum_cons, IH. cbn [length]. lia. Qed.

Lemma tsum_replicate w n t : tsum w (replicate n t) = w t * Z.of_nat n.
Proof. induction n as [|n IH]; [cbn; lia|]. cbn [replicate]. rewrite tsum_cons, IH. lia. Qed.

Lemma tsum_all w ts : (forall t, 0 <= w t) -> tsum w ts = 0 -> Forall (fun t => w t = 0) ts.
Proof.
  intros Hw H. apply Forall_lookup. intros i t Ht. pose proof (tsum_ge w ts i t Hw Ht). pose proof (Hw t). lia.
Qed.

(** A sum that reaches the number of threads with weights of at most one has
    weight one everywhere. *)
Lemma tsum_full w ts : (forall t, w t <= 1) -> tsum w ts = Z.of_nat (length ts) -> Forall (fun t => w t = 1) ts.
Proof.
  intros Hw H. assert (H' : tsum (fun t => 1 - w t) ts = 0).
  { enough (tsum (fun t => 1 - w t) ts = Z.of_nat (length ts) - tsum w ts) by lia. clear H.
    induction ts as [|t ts IH]; [cbn; lia|]. rewrite !tsum_cons, IH. cbn [length]. lia. }
  apply tsum_all in H'; [|intros t; pose proof (Hw t); lia]. eapply Forall_impl; [exact H'|]. cbn. intros. lia.
Qed.

(** When [w] counts the threads [w'] depends on, [w'] is the contribution of the
    only one, or zero. *)
Lemma tsum_none w w' ts :
  (forall t, 0 <= w t) -> (forall t, w t = 0 -> w' t = 0) -> tsum w ts = 0 -> tsum w' ts = 0.
Proof. intros Hw Hz H. apply tsum_zero. eapply Forall_impl; [apply (tsum_all w); done|]. apply Hz. Qed.

Lemma tsum_only w w' ts i t :
  (forall t, 0 <= w t) -> (forall t, w t = 0 -> w' t = 0) -> ts !! i = Some t -> tsum w ts <= w t ->
  tsum w' ts = w' t.
Proof.
  intros Hw Hz Ht H. rewrite <- (take_drop_middle _ _ _ Ht), tsum_app, tsum_cons in H |- *.
  pose proof (tsum_nonneg w (take i ts) Hw). pose proof (tsum_nonneg w (drop (Datatypes.S i) ts) Hw).
  rewrite (tsum_none w w' (take i ts)), (tsum_none w w' (drop (Datatypes.S i) ts)) by (done || lia). lia.
Qed.

End tsum.

Lemma tsum_plus {A} (f g : A -> Z) ts : tsum (fun t => f t + g t) ts = tsum f ts + tsum g ts.
Proof. induction ts as [|t ts IH]; [done|]. rewrite !tsum_cons, IH. lia. Qed.

(** Sums over two lists can be swapped. *)
Lemma tsum_swap {A B} (f : A -> B -> Z) l1 l2 :
  tsum (fun x => tsum (f x) l2) l1 = tsum (fun y => tsum (fun x => f x y) l1) l2.
Proof.
  induction l1 as [|x l1 IH]; [symmetry; by apply tsum_zero, Forall_true|]. rewrite tsum_cons, IH, <- tsum_plus. done.
Qed.

Lemma tsum_fmap {A B} (f : A -> B) (w : B -> Z) ts : tsum w (f <$> ts) = tsum (fun t => w (f t)) ts.
Proof. induction ts as [|t ts IH]; [done|]. rewrite fmap_cons, !tsum_cons, IH. done. Qed.

(** The indicator of a range of instructions. *)
Definition at_pc {R L} (lo hi : nat) (t : thread R L) : Z :=
  if ((lo <=? t.(pc)) && (t.(pc) <=? hi))%nat then 1 else 0.

Lemma at_pc_nonneg {R L} lo hi (t : thread R L) : 0 <= at_pc lo hi t.
Proof. unfold at_pc. destruct (_ && _); lia. Qed.

Lemma at_pc_le1 {R L} lo hi (t : thread R L) : at_pc lo hi t <= 1.
Proof. unfold at_pc. destruct (_ && _); lia. Qed.

Lemma at_pc_sub {R L} lo hi lo' hi' (ts : list (thread R L)) :
  (lo' <= lo)%nat -> (hi <= hi')%nat -> tsum (at_pc lo hi) ts <= tsum (at_pc lo' hi') ts.
Proof.
  intros H1 H2. apply tsum_le, Forall_true. intros t. unfold at_pc.
  destruct (Nat.leb_spec lo t.(pc)), (Nat.leb_spec t.(pc) hi), (Nat.leb_spec lo' t.(pc)),
    (Nat.leb_spec t.(pc) hi'); cbn; lia.
Qed.

(** The contribution of the thread that runs. *)
Lemma at_pc_of {R L} lo hi (ts : list (thread R L)) i t :
  ts !! i = Some t -> 0 <= at_pc lo hi t <= tsum (at_pc lo hi) ts.
Proof. intros H. split; [apply at_pc_nonneg|]. revert H. apply tsum_ge, at_pc_nonneg. Qed.

(** Two separate ranges within a third. *)
Lemma at_pc_add {R L} lo hi lo' hi' (ts : list (thread R L)) :
  (lo <= lo')%nat -> (hi < lo')%nat -> (hi <= hi')%nat ->
  tsum (at_pc lo hi) ts + tsum (at_pc lo' hi') ts <= tsum (at_pc lo hi') ts.
Proof.
  intros H1 H2 H3. induction ts as [|t ts IH]; [done|]. rewrite !tsum_cons.
  enough (at_pc lo hi t + at_pc lo' hi' t <= at_pc lo hi' t) by lia. unfold at_pc.
  destruct (Nat.leb_spec lo t.(pc)), (Nat.leb_spec t.(pc) hi), (Nat.leb_spec lo' t.(pc)),
    (Nat.leb_spec t.(pc) hi'); cbn; lia.
Qed.

Lemma at_pc_all {R L} lo hi (ts : list (thread R L)) : tsum (at_pc lo hi) ts <= Z.of_nat (length ts).
Proof.
  rewrite <- (Z.mul_1_l (Z.of_nat _)), <- (tsum_const 1). apply tsum_le, Forall_true. intros. apply at_pc_le1.
Qed.

Lemma at_pc_1 {R L} lo hi (t : thread R L) : (lo <= t.(pc) <= hi)%nat -> at_pc lo hi t = 1.
Proof. intros H. unfold at_pc. destruct (Nat.leb_spec lo t.(pc)), (Nat.leb_spec t.(pc) hi); cbn; lia. Qed.

Lemma at_pc_none {R L} lo hi (ts : list (thread R L)) :
  Forall (fun t => (t.(pc) < lo \/ hi < t.(pc))%nat) ts -> tsum (at_pc lo hi) ts = 0.
Proof.
  intros H. apply tsum_zero. eapply Forall_impl; [exact H|]. cbn. intros t Ht. unfold at_pc.
  destruct (Nat.leb_spec lo t.(pc)), (Nat.leb_spec t.(pc) hi); cbn; lia.
Qed.

Lemma at_pc_every {R L} lo hi (ts : list (thread R L)) :
  Forall (fun t => (lo <= t.(pc) <= hi)%nat) ts <-> tsum (at_pc lo hi) ts = Z.of_nat (length ts).
Proof.
  assert (E : forall t : thread R L, (lo <= t.(pc) <= hi)%nat <-> at_pc lo hi t = 1).
  { intros t. unfold at_pc. destruct (Nat.leb_spec lo t.(pc)), (Nat.leb_spec t.(pc) hi); cbn; lia. }
  split; intros H.
  - rewrite <- (Z.mul_1_l (Z.of_nat _)), <- tsum_const. apply tsum_ext. eapply Forall_impl; [exact H|]. cbn. intros. by apply E.
  - apply tsum_full in H; [|intros; apply at_pc_le1]. eapply Forall_impl; [exact H|]. cbn. intros. by apply E.
Qed.

(** The same for the threads of one role. *)
Definition at_role {R L} `{!EqDecision R} (r : R) (lo hi : nat) (t : thread R L) : Z :=
  if decide (t.(role) = r) then at_pc lo hi t else 0.

Section at_role.
Context {R L : Type} `{!EqDecision R}.
Implicit Types (r : R) (ts : list (thread R L)).

Lemma at_role_nonneg r lo hi (t : thread R L) : 0 <= at_role r lo hi t.
Proof. unfold at_role. case_decide; [apply at_pc_nonneg|lia]. Qed.

Lemma at_role_of r lo hi ts i t :
  ts !! i = Some t -> 0 <= at_role r lo hi t <= tsum (at_role r lo hi) ts.
Proof. intros H. split; [apply at_role_nonneg|]. revert H. apply tsum_ge, at_role_nonneg. Qed.

Lemma at_role_sub r lo hi lo' hi' ts :
  (lo' <= lo)%nat -> (hi <= hi')%nat -> tsum (at_role r lo hi) ts <= tsum (at_role r lo' hi') ts.
Proof.
  intros H1 H2. apply tsum_le, Forall_true. intros t. unfold at_role, at_pc. case_decide; [|lia].
  destruct (Nat.leb_spec lo t.(pc)), (Nat.leb_spec t.(pc) hi), (Nat.leb_spec lo' t.(pc)),
    (Nat.leb_spec t.(pc) hi'); cbn; lia.
Qed.

(** A range is the sum of its parts. *)
Lemma at_role_split r lo mid hi ts :
  (lo <= mid)%nat -> (mid < hi)%nat ->
  tsum (at_role r lo hi) ts = tsum (at_role r lo mid) ts + tsum (at_role r (S mid) hi) ts.
Proof.
  intros H1 H2. induction ts as [|t ts IH]; [done|]. rewrite !tsum_cons.
  enough (at_role r lo hi t = at_role r lo mid t + at_role r (S mid) hi t) by lia. unfold at_role, at_pc.
  case_decide; [|lia].
  destruct (Nat.leb_spec lo t.(pc)), (Nat.leb_spec t.(pc) hi), (Nat.leb_spec t.(pc) mid), (Nat.leb_spec (S mid) t.(pc));
    cbn; lia.
Qed.

Lemma at_role_none r lo hi ts :
  Forall (fun t => t.(role) = r -> (t.(pc) < lo \/ hi < t.(pc))%nat) ts -> tsum (at_role r lo hi) ts = 0.
Proof.
  intros H. apply tsum_zero. eapply Forall_impl; [exact H|]. cbn. intros t Ht. unfold at_role, at_pc.
  case_decide as Hr; [|done]. specialize (Ht Hr).
  destruct (Nat.leb_spec lo t.(pc)), (Nat.leb_spec t.(pc) hi); cbn; lia.
Qed.

Lemma at_role_gone r lo hi ts :
  tsum (at_role r lo hi) ts = 0 -> Forall (fun t => t.(role) = r -> (t.(pc) < lo \/ hi < t.(pc))%nat) ts.
Proof.
  intros H%tsum_all; [|apply at_role_nonneg]. eapply Forall_impl; [exact H|]. cbv beta. intros t Ht Hr.
  unfold at_role, at_pc in Ht. rewrite decide_True in Ht by done.
  destruct (Nat.leb_spec lo t.(pc)), (Nat.leb_spec t.(pc) hi); cbn in Ht; lia.
Qed.

Lemma at_role_1 r lo hi (t : thread R L) : t.(role) = r -> (lo <= t.(pc) <= hi)%nat -> at_role r lo hi t = 1.
Proof. intros Hr H. unfold at_role. rewrite decide_True by done. by apply at_pc_1. Qed.

(** A bounded number of threads in a range. *)
Lemma at_role_lt r lo hi ts i t :
  ts !! i = Some t -> t.(role) = r -> (lo <= t.(pc) <= hi)%nat -> 1 <= tsum (at_role r lo hi) ts.
Proof. intros Ht Hr H. pose proof (at_role_of r lo hi ts i t Ht). rewrite at_role_1 in * by done. lia. Qed.

End at_role.

#[export] Hint Resolve at_pc_nonneg at_pc_le1 : ostep.

(** ** Tactics for invariants

    [thread_cases Ht Ex] splits on the instruction the thread is at, up to [n]
    of them; [sums Ht] brings the sums over the threads after the step back to
    the sums before it. *)

Ltac sem_simpl :=
  repeat match goal with
  | |- context [sem_add ?k ?d ?v ?k] => rewrite (sem_add_eq k d v)
  | |- context [sem_add ?k ?d ?v ?k'] => rewrite (sem_add_ne k k' d v) by discriminate
  end.

(** The weight of a thread at a known instruction is a number. *)
Ltac eval_roles :=
  repeat match goal with
  | |- context [at_role ?r ?lo ?hi (mkThread ?r' ?p ?l)] =>
      let x := eval vm_compute in (at_role r lo hi (mkThread r' p l)) in
      change (at_role r lo hi (mkThread r' p l)) with x
  | H : context [at_role ?r ?lo ?hi (mkThread ?r' ?p ?l)] |- _ =>
      let x := eval vm_compute in (at_role r lo hi (mkThread r' p l)) in
      change (at_role r lo hi (mkThread r' p l)) with x in H
  end.

Ltac sums Ht :=
  rewrite ?(tsum_step _ _ _ _ _ Ht), ?length_insert; sem_simpl; eval_roles;
  cbn [at_pc pc loc role Nat.leb andb Nat.add Nat.sub] in *; rewrite ?Z.sub_add, ?Z.sub_0_r, ?Z.add_0_r.

(** Facts on ranges of instructions. *)
Ltac pc_sub r ts :=
  lazymatch r with ((?lo, ?hi), (?lo', ?hi')) => pose proof (at_pc_sub lo hi lo' hi' ts ltac:(lia) ltac:(lia)) end.

Ltac pc_add r ts :=
  lazymatch r with ((?lo, ?hi), (?lo', ?hi')) =>
    pose proof (at_pc_add lo hi lo' hi' ts ltac:(lia) ltac:(lia) ltac:(lia)) end.

(** [Forall P ts] from [Forall] facts on the same threads, by arithmetic. *)
Ltac forall_lia :=
  apply Forall_lookup; intros ? ? ?;
  repeat match goal with
  | H : Forall _ ?ts, Ht : ?ts !! _ = Some _ |- _ =>
      let H' := fresh H in pose proof (proj1 (Forall_lookup _ _) H _ _ Ht) as H'; clear H; cbv beta in H'
  end; lia.

Ltac pc_of r Ht := lazymatch r with (?lo, ?hi) => pose proof (at_pc_of lo hi _ _ _ Ht) end.

Ltac role_split r x ts :=
  lazymatch x with (?lo, ?mid, ?hi) => pose proof (at_role_split r lo mid hi ts ltac:(lia) ltac:(lia)) end.

Ltac role_of r x Ht := lazymatch x with (?lo, ?hi) => pose proof (at_role_of r lo hi _ _ _ Ht) end.

(** The step of a thread: the instruction it executed. *)
Ltac step_cases Ex :=
  cbn in Ex; repeat match type of Ex with context [if ?b then _ else _] => destruct b eqn:? end;
  try discriminate Ex; injection Ex as <- <- <-.

(** The cases [0 .. n - 1] of an instruction pointer, and the rest. *)
Ltac split_pc n p :=
  lazymatch n with
  | O => idtac
  | S ?n => destruct p as [|p]; [|split_pc n p]
  end.
