(* ===== verification/Explore.v ===== *)
(** * Exploring a program of a few threads

    Where a program has a fixed, small number of threads, its reachable states
    can be listed by computation.  [explored] lists them, checks a boolean property
    of each and that a step leads to a listed state; [explored_sound] concludes
    that the property holds of every reachable state of the machine. *)

From Stdlib Require Import ZArith Lia.
From stdpp Require Import base tactics list numbers pmap relations.
From S2P Require Import Prelude Threads.

Local Open Scope Z_scope.

Section explore.
Context {K R L S : Type} {HK : EqDecision K} {HR : EqDecision R} {HL : EqDecision L} {HS : EqDecision S}.
Variable code : R -> list (instr K L S).

(** All the semaphores of the program. *)
Variable keys : list K.
Hypothesis keys_all : forall k, k ∈ keys.

#[local] Instance thread_eq : EqDecision (thread R L).
Proof using HR HL. solve_decision. Defined.

(** A state with the values of the semaphores in a list. *)
Record cstate := mkCstate { vals : list Z; cstore : S; cthreads : list (thread R L) }.

#[local] Instance cstate_eq : EqDecision cstate.
Proof using HR HL HS. solve_decision. Defined.

Definition canon (m : machine K R L S) : cstate := mkCstate (m.(sems) <$> keys) m.(store) m.(threads).

Fixpoint value (ks : list K) (vs : list Z) (k : K) : Z :=
  match ks, vs with
  | k' :: ks, v :: vs => if decide (k' = k) then v else value ks vs k
  | _, _ => 0
  end.

Definition uncanon (c : cstate) : machine K R L S := mkMachine (value keys c.(vals)) c.(cstore) c.(cthreads).

(** The states after one step. *)
Definition succs (c : cstate) : list cstate :=
  omap (fun i => canon <$> step_thread code i (uncanon c)) (seq 0 (length c.(cthreads))).

(** No thread can run. *)
Definition blocked (c : cstate) : bool := match succs c with [] => true | _ => false end.

(** States are kept in a map under the positions of the threads. *)
Definition hash (c : cstate) : positive :=
  foldr (fun t h => Pos.add (Pos.mul h 64) (Pos.of_succ_nat t.(pc))) 1%positive c.(cthreads).

Abbreviation states := (Pmap (list cstate)).

Definition seen (c : cstate) (m : states) : bool :=
  bool_decide (c ∈ default [] (m !! hash c)).

Definition add_state (c : cstate) (m : states) : states := <[hash c := c :: default [] (m !! hash c)]> m.

(** The states that can be reached from [todo] in up to [fuel] states. *)
Fixpoint explore (fuel : nat) (todo : list cstate) (m : states) (acc : list cstate) : list cstate :=
  match fuel, todo with
  | O, _ | _, [] => acc
  | Datatypes.S fuel, c :: todo =>
      if seen c m then explore fuel todo m acc
      else explore fuel (succs c ++ todo) (add_state c m) (c :: acc)
  end.

Definition explored (fuel : nat) (m0 : machine K R L S) (P : cstate -> bool) : bool :=
  let all := explore fuel [canon m0] ∅ [] in
  let m := foldr add_state ∅ all in
  seen (canon m0) m && forallb (fun c => P c && forallb (fun c' => seen c' m) (succs c)) all.

(** ** Soundness *)

Lemma seen_all c all : seen c (foldr add_state ∅ all) = true -> c ∈ all.
Proof using Type.
  unfold seen. rewrite bool_decide_eq_true. induction all as [|c1 all IH]; cbn [foldr]; [by rewrite lookup_empty|].
  unfold add_state at 1. destruct (decide (hash c1 = hash c)) as [E|E].
  - rewrite E, lookup_insert_eq. intros [->|H]%list_elem_of_In; [by left|]. right. apply IH. by apply list_elem_of_In.
  - rewrite lookup_insert_ne by done. intros H. right. by apply IH.
Qed.

Lemma value_canon (v : K -> Z) ks k : k ∈ ks -> value ks (v <$> ks) k = v k.
Proof using Type.
  induction ks as [|k' ks IH]; [by intros ?%list_elem_of_In|]. cbn. case_decide as E; [by subst|].
  intros [->|H]%list_elem_of_In; [done|]. by apply IH, list_elem_of_In.
Qed.

(** A step depends only on the values of the semaphores. *)
Lemma exec_ext (v v1 : K -> Z) s t : (forall k, v k = v1 k) ->
  (forall v' s' t', exec code v s t = Some (v', s', t') ->
    exists v1', exec code v1 s t = Some (v1', s', t') /\ forall k, v' k = v1' k).
Proof using Type.
  intros Hv v' s' t'. destruct t as [r p l]. cbn.
  destruct (code r !! p) as [[k|k|f|b n|n|]|]; [..|done].
  - rewrite <- Hv. destruct (0 <? v (k l)); [|done]. intros [= <- <- <-]. eexists. split; [done|].
    intros k'. unfold sem_add. case_decide; by rewrite Hv.
  - intros [= <- <- <-]. eexists. split; [done|]. intros k'. unfold sem_add. case_decide; by rewrite Hv.
  - destruct (f l s). intros [= <- <- <-]. by eexists.
  - intros [= <- <- <-]. by eexists.
  - intros [= <- <- <-]. by eexists.
  - intros [= <- <- <-]. by eexists.
Qed.

Lemma step_succs m m' : mstep code m m' -> canon m' ∈ succs (canon m).
Proof using keys_all.
  intros [i m1 m2 H]. unfold succs. apply list_elem_of_omap. exists i.
  unfold step_thread in *. destruct m1 as [v s ts]. cbn [uncanon canon sems store threads cthreads cstore vals] in *.
  destruct (ts !! i) as [t|] eqn:Et; [|done]. split.
  - apply elem_of_seq. split; [lia|]. apply lookup_lt_Some in Et. cbn. lia.
  - destruct (exec code v s t) as [[[v' s'] t']|] eqn:Ex; [|done]. injection H as <-.
    destruct (exec_ext v (value keys (v <$> keys)) s t ltac:(intros; by rewrite value_canon) v' s' t' Ex) as (v1' & -> & Hv').
    cbn. f_equal. unfold canon. cbn. f_equal. apply list_fmap_ext. intros. by rewrite Hv'.
Qed.

Lemma stuck_blocked m : stuck code m -> blocked (canon m) = true.
Proof using keys_all.
  intros H. unfold blocked. destruct (succs (canon m)) as [|c cs] eqn:E; [done|]. exfalso.
  assert (Hc : c ∈ succs (canon m)) by (rewrite E; by left). unfold succs in Hc. apply list_elem_of_omap in Hc as (i & _ & Hc).
  unfold step_thread in Hc. destruct m as [v s ts]. cbn [uncanon canon sems store threads cthreads cstore vals] in Hc.
  destruct (ts !! i) as [t|] eqn:Et; [|done]. destruct (exec code (value keys (v <$> keys)) s t) as [[[v' s'] t']|] eqn:Ex; [|done].
  destruct (exec_ext (value keys (v <$> keys)) v s t ltac:(intros; by rewrite value_canon) v' s' t' Ex) as (v1' & Ex1 & _).
  apply (H (mkMachine v1' s' (<[i := t']> ts))). apply (mstep_intro _ i). unfold step_thread. cbn [threads sems store]. by rewrite Et, Ex1.
Qed.

Lemma explored_sound fuel m0 P : explored fuel m0 P = true -> forall m, reach code m0 m -> P (canon m) = true.
Proof using keys_all.
  unfold explored. set (all := explore _ _ _ _). intros [H0 Hall]%andb_true_iff. rewrite forallb_forall in Hall.
  cut (forall m, reach code m0 m -> canon m ∈ all).
  { intros H m Hm. specialize (H m Hm). apply list_elem_of_In in H. apply Hall in H. by apply andb_true_iff in H as [? _]. }
  intros m. apply (reachable_inv _ _ (fun m => canon m ∈ all)); [intros ? <-; by apply seen_all|]. intros m1 m2 H1 Hs%step_succs.
  apply list_elem_of_In in H1. apply Hall in H1. apply andb_true_iff in H1 as [_ H1]. rewrite forallb_forall in H1.
  apply seen_all, H1. by apply list_elem_of_In.
Qed.

(** ** Programs without loops *)

(** Every step moves a thread forward: a run has no more steps than there are
    instructions. *)
Definition no_back (ins : list (instr K L S)) : bool := forallb (fun i => match i with Back _ => false | _ => true end) ins.

Definition left_of (t : thread R L) : Z := Z.of_nat (length (code t.(role)) - t.(pc)).

Lemma forward_bounded m0 : (forall r, no_back (code r) = true) ->
  forall k m, nsteps (mstep code) k m0 m -> Z.of_nat k <= tsum left_of m0.(threads).
Proof using Type.
  intros Hn. apply (steps_bounded code (fun _ => True) (fun m => tsum left_of m.(threads))); [done| |].
  - intros m _. apply tsum_nonneg. intros t. unfold left_of. lia.
  - intros v s ts i t v' s' t' _ Ht Ex. cbn [threads]. rewrite (tsum_step _ _ _ _ _ Ht).
    cut (left_of t' < left_of t); [lia|]. unfold left_of. rewrite (exec_role _ _ _ _ _ _ _ Ex).
    destruct t as [r p l]. cbn [role pc]. cbn in Ex. destruct (code r !! p) as [ins|] eqn:E; [|done].
    pose proof (lookup_lt_Some _ _ _ E). specialize (Hn r). unfold no_back in Hn. rewrite forallb_forall in Hn.
    specialize (Hn ins (proj1 (list_elem_of_In _ _) (list_elem_of_lookup_2 _ _ _ E))).
    destruct ins as [k|k|f|b n|n|]; [..|done|].
    + destruct (0 <? v (k l)); [|done]. injection Ex as <- <- <-. cbn [pc]. lia.
    + injection Ex as <- <- <-. cbn [pc]. lia.
    + destruct (f l s). injection Ex as <- <- <-. cbn [pc]. lia.
    + injection Ex as <- <- <-. cbn [pc]. destruct (b l s); lia.
    + injection Ex as <- <- <-. cbn [pc]. lia.
Qed.

End explore.
