(* ===== verification/Barrier.v ===== *)
(** * The reusable barrier

    [31/barrier.c]: [num_threads] threads print, pass the barrier and print
    again.  The program of a thread is [child]; the instructions of [barrier]
    are numbered from 1. *)

From Stdlib Require Import ZArith Lia String.
From stdpp Require Import base tactics list numbers relations.
From S2P Require Import Prelude Threads.

Local Open Scope Z_scope.

(** ** Definitions *)

Inductive bar_sem := Mutex | Turnstile1 | Turnstile2.

#[export] Instance bar_sem_eq : EqDecision bar_sem.
Proof. solve_decision. Defined.

Inductive event := Before (thread_id : Z) | After (thread_id : Z).

(** [barrier_t] without its semaphores, and the lines printed. *)
Record barrier_t := mkBarrier { num_arrived : Z; num_threads : Z; log : list event }.

(** The variables of a thread: [t->thread_id] and the [i] of the loops. *)
Record bar_loc := mkLoc { thread_id : Z; idx : Z }.

Definition bar_instr : Type := instr bar_sem bar_loc barrier_t.

Definition sem_of (k : bar_sem) : bar_loc -> bar_sem := fun _ => k.

Definition print (e : Z -> event) : bar_instr :=
  Act (fun l b => (l, mkBarrier b.(num_arrived) b.(num_threads) (b.(log) ++ [e l.(thread_id)]))).

Definition add_arrived (d : Z) : bar_instr :=
  Act (fun l b => (l, mkBarrier (b.(num_arrived) + d) b.(num_threads) b.(log))).

(** [for (int i = 0; i < b->num_threads; i++) Sem_post(k);] *)
Definition post_all (k : bar_sem) : list bar_instr :=
  [ Act (fun l b => (mkLoc l.(thread_id) 0, b));
    Unless (fun l b => l.(idx) <? b.(num_threads)) 3;
    Post (sem_of k);
    Act (fun l b => (mkLoc l.(thread_id) (l.(idx) + 1), b));
    Back 3 ].

Definition barrier : list bar_instr :=
  [ Wait (sem_of Mutex);
    add_arrived 1;
    Unless (fun _ b => b.(num_arrived) =? b.(num_threads)) 5 ] ++
  post_all Turnstile1 ++
  [ Post (sem_of Mutex);
    Wait (sem_of Turnstile1);
    Wait (sem_of Mutex);
    add_arrived (-1);
    Unless (fun _ b => b.(num_arrived) =? 0) 5 ] ++
  post_all Turnstile2 ++
  [ Post (sem_of Mutex);
    Wait (sem_of Turnstile2) ].

Definition child (_ : unit) : list bar_instr := [print Before] ++ barrier ++ [print After].

Definition barrier_init (num_threads : Z) : barrier_t := mkBarrier 0 num_threads [].

(** [main]: the threads [0 .. num_threads - 1] are created, and joined. *)
Definition barrier_main (n : nat) : machine bar_sem unit bar_loc barrier_t :=
  mkMachine (fun k => match k with Mutex => 1 | _ => 0 end) (barrier_init (Z.of_nat n))
    ((fun i => mkThread tt 0 (mkLoc (Z.of_nat i) 0)) <$> seq 0 n).

(** The semaphores of [barrier_init], opened by name where [shm] is what earlier
    programs left behind. *)
Definition barrier_open (shm : list (string * Z)) (k : bar_sem) : Z :=
  let '(mutex, shm) := Sem_open 1 "/mutex"%string 1 shm in
  let '(turnstile1, shm) := Sem_open 1 "/turnstile1"%string 0 shm in
  let '(turnstile2, shm) := Sem_open 1 "/turnstile2"%string 0 shm in
  match k with Mutex => mutex | Turnstile1 => turnstile1 | Turnstile2 => turnstile2 end.

(** ** The invariant *)

(** The posts the thread in the loop of [Turnstile1] (the instructions 4 to 8)
    has done, and the one in the loop of [Turnstile2]. *)
Definition posted1 (t : thread unit bar_loc) : Z :=
  match t.(pc) with
  | 5%nat | 6%nat | 8%nat => t.(loc).(idx)
  | 7%nat => t.(loc).(idx) + 1
  | _ => 0
  end.

Definition posted2 (t : thread unit bar_loc) : Z :=
  match t.(pc) with
  | 15%nat | 16%nat | 18%nat => t.(loc).(idx)
  | 17%nat => t.(loc).(idx) + 1
  | _ => 0
  end.

(** The loop counter stays within its bounds. *)
Definition idx_ok (n : Z) (t : thread unit bar_loc) : Prop :=
  match t.(pc) with
  | 5%nat | 8%nat | 15%nat | 18%nat => 0 <= t.(loc).(idx) <= n
  | 6%nat | 7%nat | 16%nat | 17%nat => 0 <= t.(loc).(idx) < n
  | p => (p <= 22)%nat
  end.

(** A turnstile opens when all the [n] threads arrived: [p] posts were done,
    [a] threads arrived, [l] of them is about to post, [l'] of them is in the
    loop, which has done [q] posts. *)
Definition turnstile (n a l l' p q : Z) : Prop :=
  (a < n /\ p = 0 /\ l' = 0) \/ (a = n /\ l = 1 /\ p = q) \/ (a = n /\ l = 0 /\ p = n).

(** The lines printed: first [Before]s, then [After]s, and no [After] before
    the last [Before]. *)
Definition bar_log_ok (n : Z) (b a : Z) (l : list event) : Prop :=
  exists bs as_, l = (Before <$> bs) ++ (After <$> as_) /\
    Z.of_nat (length bs) = b /\ Z.of_nat (length as_) = a /\ (0 < a -> b = n).

Definition bar_inv (n : Z) (m : machine bar_sem unit bar_loc barrier_t) : Prop :=
  let v := m.(sems) in let b := m.(store) in let ts := m.(threads) in
  Z.of_nat (length ts) = n /\ b.(num_threads) = n /\
  (0 <= v Mutex /\ 0 <= v Turnstile1 /\ 0 <= v Turnstile2) /\
  v Mutex + tsum (at_pc 2 9) ts + tsum (at_pc 12 19) ts = 1 /\
  b.(num_arrived) = tsum (at_pc 3 22) ts - tsum (at_pc 13 22) ts /\
  turnstile n (tsum (at_pc 3 22) ts) (tsum (at_pc 3 8) ts) (tsum (at_pc 4 8) ts)
    (v Turnstile1 + tsum (at_pc 11 22) ts) (tsum posted1 ts) /\
  turnstile n (tsum (at_pc 13 22) ts) (tsum (at_pc 13 18) ts) (tsum (at_pc 14 18) ts)
    (v Turnstile2 + tsum (at_pc 21 22) ts) (tsum posted2 ts) /\
  Forall (idx_ok n) ts /\
  bar_log_ok n (tsum (at_pc 1 22) ts) (tsum (at_pc 22 22) ts) b.(log).

Lemma posted1_zero t : at_pc 3 8 t = 0 -> posted1 t = 0.
Proof.
  destruct t as [r p l]. unfold at_pc, posted1. cbn [pc loc]. do 9 (destruct p as [|p]; [done|]). done.
Qed.

Lemma posted2_zero t : at_pc 13 18 t = 0 -> posted2 t = 0.
Proof.
  destruct t as [r p l]. unfold at_pc, posted2. cbn [pc loc]. do 19 (destruct p as [|p]; [done|]). done.
Qed.

Lemma bar_inv_init n : bar_inv (Z.of_nat n) (barrier_main n).
Proof.
  assert (H0 : forall w, (forall l, w (mkThread tt 0%nat l) = 0) -> tsum w (threads (barrier_main n)) = 0).
  { intros w Hw. apply tsum_zero, Forall_fmap, Forall_true. intros i. apply Hw. }
  unfold bar_inv. rewrite !H0 by done. cbn [sems store barrier_main barrier_init num_threads num_arrived log threads].
  rewrite length_fmap, length_seq. split_and!; try done; try lia.
  - unfold turnstile. lia.
  - unfold turnstile. lia.
  - apply Forall_fmap, Forall_true. cbn. lia.
  - exists [], []. cbn. done.
Qed.

Lemma log_before n b a l i : bar_log_ok n b a l -> a = 0 -> bar_log_ok n (b + 1) a (l ++ [Before i]).
Proof.
  intros (bs & as_ & -> & Hb & Ha & _) H0. destruct as_; [|cbn in Ha; lia]. exists (bs ++ [i]), [].
  rewrite !fmap_app, length_app. cbn. rewrite !app_nil_r. split_and!; [done|lia|lia|lia].
Qed.

Lemma log_after n b a l i : bar_log_ok n b a l -> b = n -> bar_log_ok n b (a + 1) (l ++ [After i]).
Proof.
  intros (bs & as_ & -> & Hb & Ha & _) H0. exists bs, (as_ ++ [i]).
  rewrite !fmap_app, length_app, app_assoc. cbn. split_and!; [done|lia|lia|lia].
Qed.

Lemma log_same n b b' a a' l : bar_log_ok n b a l -> b' = b -> a' = a -> bar_log_ok n b' a' l.
Proof. by intros ? -> ->. Qed.

Lemma bar_step n v s ts i t v' s' t' :
  bar_inv n (mkMachine v s ts) -> ts !! i = Some t -> exec child v s t = Some (v', s', t') ->
  bar_inv n (mkMachine v' s' (<[i := t']> ts)).
Proof.
  intros (Hlen & Hn & Hv & Hmut & Harr & Ht1 & Ht2 & Hidx & Hlog) Ht Ex. cbn [sems store threads] in *.
  pose proof (at_pc_all 0 22 ts). pc_add ((0, 0), (1, 22))%nat ts. pc_of (0, 0)%nat Ht. pc_of (22, 22)%nat Ht.
  pc_sub ((2, 22), (1, 22))%nat ts. pc_add ((2, 2), (3, 22))%nat ts. pc_sub ((3, 8), (3, 9))%nat ts.
  pc_add ((2, 2), (3, 9))%nat ts. pc_of (2, 2)%nat Ht. pc_sub ((13, 18), (13, 19))%nat ts.
  pc_add ((12, 12), (13, 19))%nat ts. pc_of (12, 12)%nat Ht. pc_add ((3, 8), (11, 22))%nat ts.
  pose proof (lookup_lt_Some _ _ _ Ht). pc_sub ((12, 22), (11, 22))%nat ts. pc_add ((12, 12), (13, 22))%nat ts.
  pc_sub ((21, 22), (13, 22))%nat ts. pc_sub ((22, 22), (21, 22))%nat ts. pc_of (2, 9)%nat Ht. pc_of (12, 19)%nat Ht.
  pc_of (3, 8)%nat Ht. pc_of (13, 18)%nat Ht. pc_of (3, 22)%nat Ht. pc_of (11, 22)%nat Ht. pc_of (13, 22)%nat Ht.
  pc_of (4, 8)%nat Ht. pc_of (14, 18)%nat Ht. pc_of (21, 22)%nat Ht.
  pose proof (proj1 (Forall_lookup _ _) Hidx _ _ Ht) as Hi.
  assert (Hp1 : tsum (at_pc 3 8) ts = 0 /\ tsum posted1 ts = 0 \/
    0 < tsum (at_pc 3 8) ts /\ (at_pc 3 8 t = 0 \/ tsum posted1 ts = posted1 t)).
  { pose proof (tsum_none (at_pc 3 8) posted1 ts (at_pc_nonneg _ _) posted1_zero).
    pose proof (tsum_only (at_pc 3 8) posted1 ts i t (at_pc_nonneg _ _) posted1_zero Ht).
    pose proof (at_pc_nonneg 3 8 t). lia. }
  assert (Hp2 : tsum (at_pc 13 18) ts = 0 /\ tsum posted2 ts = 0 \/
    0 < tsum (at_pc 13 18) ts /\ (at_pc 13 18 t = 0 \/ tsum posted2 ts = posted2 t)).
  { pose proof (tsum_none (at_pc 13 18) posted2 ts (at_pc_nonneg _ _) posted2_zero).
    pose proof (tsum_only (at_pc 13 18) posted2 ts i t (at_pc_nonneg _ _) posted2_zero Ht).
    pose proof (at_pc_nonneg 13 18 t). lia. }
  assert (Hmodes : tsum (at_pc 13 22) ts < n /\ v Turnstile2 + tsum (at_pc 21 22) ts = 0 /\ tsum (at_pc 14 18) ts = 0 \/
    v Turnstile1 + tsum (at_pc 11 22) ts = n /\ tsum (at_pc 3 22) ts = n /\ tsum (at_pc 3 8) ts = 0).
  { unfold turnstile in *. lia. }
  destruct s as [na nt lg], t as [r p [id ix]]. cbn [num_threads num_arrived log] in *. subst nt.
  split_pc 23%nat p; cbn in Ex;
    repeat match type of Ex with context [if ?b then _ else _] => destruct b eqn:? end; try discriminate Ex;
    injection Ex as <- <- <-; unfold bar_inv, sem_of in *; cbn [sems store threads num_threads num_arrived log] in *; sums Ht;
    cbn [posted1 posted2 idx_ok pc loc idx] in *; rewrite ?Z.sub_add, ?Z.sub_0_r, ?Z.add_0_r;
    (split_and!; try assumption; try (apply Forall_insert_list; [assumption|cbn; lia]);
     first [eapply log_same; [exact Hlog|lia|lia]|eapply log_before; [exact Hlog|lia]|eapply log_after; [exact Hlog|lia]
           |unfold turnstile in *; lia|idtac]).
Qed.

Lemma bar_reach n m : reach child (barrier_main n) m -> bar_inv (Z.of_nat n) m.
Proof. apply reach_inv; [apply bar_inv_init|]. intros. by eapply bar_step. Qed.

(** ** Termination *)

(** The instructions a thread still executes, at most. *)
Definition bar_rem (n : Z) (t : thread unit bar_loc) : Z :=
  let i := t.(loc).(idx) in
  match t.(pc) with
  | 0%nat => 8 * n + 16 | 1%nat => 8 * n + 15 | 2%nat => 8 * n + 14 | 3%nat => 8 * n + 13 | 4%nat => 8 * n + 12
  | 5%nat => 8 * n - 4 * i + 11 | 6%nat => 8 * n - 4 * i + 10 | 7%nat => 8 * n - 4 * i + 9 | 8%nat => 8 * n - 4 * i + 12
  | 9%nat => 4 * n + 10 | 10%nat => 4 * n + 9 | 11%nat => 4 * n + 8 | 12%nat => 4 * n + 7 | 13%nat => 4 * n + 6 | 14%nat => 4 * n + 5
  | 15%nat => 4 * n - 4 * i + 4 | 16%nat => 4 * n - 4 * i + 3 | 17%nat => 4 * n - 4 * i + 2 | 18%nat => 4 * n - 4 * i + 5
  | 19%nat => 3 | 20%nat => 2 | 21%nat => 1 | _ => 0
  end.

Lemma bar_rem_nonneg n t : 0 <= n -> idx_ok n t -> 0 <= bar_rem n t.
Proof.
  destruct t as [r p l]. unfold idx_ok, bar_rem. cbn [pc loc]. intros Hn.
  split_pc 22%nat p; lia.
Qed.

Lemma bar_rem_step n v s ts i t v' s' t' :
  bar_inv n (mkMachine v s ts) -> ts !! i = Some t -> exec child v s t = Some (v', s', t') ->
  tsum (bar_rem n) (<[i := t']> ts) < tsum (bar_rem n) ts.
Proof.
  intros (Hlen & Hn & _ & _ & _ & _ & _ & Hidx & _) Ht Ex. cbn [sems store threads] in *.
  pose proof (proj1 (Forall_lookup _ _) Hidx _ _ Ht) as Hi. rewrite (tsum_step _ _ _ _ _ Ht).
  destruct s as [na nt lg], t as [r p [id ix]]. cbn [num_threads] in *. subst nt.
  split_pc 23%nat p; cbn in Ex;
    repeat match type of Ex with context [if ?b then _ else _] => destruct b eqn:? end; try discriminate Ex;
    injection Ex as <- <- <-; cbn [bar_rem idx_ok pc loc idx] in *; lia.
Qed.

(** A state in which no thread can run. *)
Lemma bar_stuck n v s ts :
  bar_inv n (mkMachine v s ts) -> stuck child (mkMachine v s ts) -> finished child (mkMachine v s ts).
Proof.
  intros (Hlen & Hn & Hv & Hmut & Harr & Ht1 & Ht2 & Hidx & _) Hst. apply stuck_exec in Hst.
  cbn [sems store threads] in *.
  assert (Hpc : Forall (fun t => (t.(pc) = 1 \/ t.(pc) = 11)%nat /\ v Mutex <= 0 \/ (t.(pc) = 10)%nat /\ v Turnstile1 <= 0 \/
    (t.(pc) = 20)%nat /\ v Turnstile2 <= 0 \/ t.(pc) = 22%nat) ts).
  { apply Forall_lookup. intros i t Ht. pose proof (proj1 (Forall_lookup _ _) Hidx _ _ Ht) as Hi.
    pose proof (proj1 (Forall_lookup _ _) Hst _ _ Ht) as Ex. destruct t as [r p l]. unfold idx_ok in Hi.
    cbn [pc loc] in *. split_pc 23%nat p; cbn in Ex; try discriminate Ex; try lia;
      repeat match type of Ex with context [if ?b then _ else _] => destruct b eqn:? end; unfold sem_of in *;
      try discriminate Ex; lia. }
  clear Hst Hidx. unfold turnstile in *.
  assert (E1 : tsum (at_pc 2 9) ts = 0) by (apply at_pc_none; forall_lia).
  assert (E2 : tsum (at_pc 12 19) ts = 0) by (apply at_pc_none; forall_lia).
  assert (E3 : tsum (at_pc 3 22) ts = n) by (rewrite <- Hlen; apply at_pc_every; forall_lia).
  assert (E4 : tsum (at_pc 3 8) ts = 0) by (apply at_pc_none; forall_lia).
  assert (E5 : Forall (fun t => (t.(pc) = 20)%nat /\ v Turnstile2 <= 0 \/ t.(pc) = 22%nat) ts).
  { destruct (decide (v Turnstile1 <= 0)) as [Hz|Hz]; [|forall_lia].
    assert (E : tsum (at_pc 11 22) ts = Z.of_nat (length ts)) by lia. apply at_pc_every in E. forall_lia. }
  assert (E6 : tsum (at_pc 13 22) ts = n) by (rewrite <- Hlen; apply at_pc_every; forall_lia).
  assert (E7 : tsum (at_pc 13 18) ts = 0) by (apply at_pc_none; forall_lia).
  assert (E8 : Forall (fun t => t.(pc) = 22%nat) ts).
  { destruct (decide (v Turnstile2 <= 0)) as [Hz|Hz]; [|forall_lia].
    assert (E : tsum (at_pc 21 22) ts = Z.of_nat (length ts)) by lia. apply at_pc_every in E. forall_lia. }
  unfold finished, ended. cbn. forall_lia.
Qed.

Lemma idx_ok_pc n t : idx_ok n t -> (t.(pc) <= 22)%nat.
Proof. destruct t as [r p l]. unfold idx_ok. cbn [pc]. split_pc 23%nat p; lia. Qed.

(** A thread past a turnstile: every thread has arrived at it. *)
Lemma bar_gate n v s ts t u :
  bar_inv n (mkMachine v s ts) -> t ∈ ts -> u ∈ ts ->
  ((11 <= t.(pc))%nat -> (3 <= u.(pc))%nat) /\ ((21 <= t.(pc))%nat -> (13 <= u.(pc))%nat).
Proof.
  intros (Hlen & Hn & Hv & Hmut & Harr & Ht1 & Ht2 & Hidx & _) Ht Hu. cbn [sems store threads] in *.
  rewrite Forall_forall in Hidx. pose proof (idx_ok_pc _ _ (Hidx t Ht)).
  apply list_elem_of_lookup in Ht as (i & Ht). unfold turnstile in *. split; intros Hp.
  - pc_of (11, 22)%nat Ht. rewrite at_pc_1 in * by lia.
    assert (E : tsum (at_pc 3 22) ts = Z.of_nat (length ts)) by lia. apply at_pc_every in E.
    rewrite Forall_forall in E. specialize (E u Hu). cbn in E. lia.
  - pc_of (21, 22)%nat Ht. rewrite at_pc_1 in * by lia.
    assert (E : tsum (at_pc 13 22) ts = Z.of_nat (length ts)) by lia. apply at_pc_every in E.
    rewrite Forall_forall in E. specialize (E u Hu). cbn in E. lia.
Qed.

(** The threads that hold the mutex. *)
Definition holds (t : thread unit bar_loc) : Z := at_pc 2 9 t + at_pc 12 19 t.

Lemma bar_mutex n v s ts i j t u :
  bar_inv n (mkMachine v s ts) -> ts !! i = Some t -> ts !! j = Some u -> i <> j -> holds t + holds u <= 1.
Proof.
  intros (_ & _ & Hv & Hmut & _) Hi Hj Hne. cbn [sems store threads] in *.
  assert (Hnn : forall t, 0 <= holds t) by (intros x; unfold holds; pose proof (at_pc_nonneg 2 9 x); pose proof (at_pc_nonneg 12 19 x); lia).
  pose proof (tsum_ge2 holds ts i j t u Hnn Hne Hi Hj) as H.
  assert (E : forall l, tsum holds l = tsum (at_pc 2 9) l + tsum (at_pc 12 19) l)
    by (intros l; induction l as [|x l IH]; [done|]; rewrite !tsum_cons, IH; unfold holds; lia).
  rewrite E in H. lia.
Qed.

Lemma holds_1 t : ((2 <= t.(pc) <= 9) \/ (12 <= t.(pc) <= 19))%nat -> 1 <= holds t.
Proof.
  intros [H|H]; unfold holds; rewrite (at_pc_1 _ _ _ H); [pose proof (at_pc_nonneg 12 19 t)|pose proof (at_pc_nonneg 2 9 t)]; lia.
Qed.

(** The two parts of the output are determined by it. *)
Lemma log_inj (b1 b2 a1 a2 : list Z) :
  (Before <$> b1) ++ (After <$> a1) = (Before <$> b2) ++ (After <$> a2) -> b1 = b2 /\ a1 = a2.
Proof.
  revert b2. induction b1 as [|x b1 IH]; intros [|y b2] H; cbn in H.
  - split; [done|]. revert a2 H. induction a1 as [|x a1 IH]; intros [|y a2] H; simplify_eq/=; [done|]. f_equal. by apply IH.
  - by destruct a1.
  - by destruct a2.
  - simplify_eq. destruct (IH b2) as [-> ->]; done.
Qed.

(** The barrier separates the phases. *)
Lemma bar_separates n m :
  reach child (barrier_main n) m ->
  (forall t u, t ∈ m.(threads) -> u ∈ m.(threads) -> (11 <= t.(pc))%nat -> (3 <= u.(pc))%nat) /\
  (forall t u, t ∈ m.(threads) -> u ∈ m.(threads) -> (21 <= t.(pc))%nat -> (13 <= u.(pc))%nat) /\
  (exists bs as_, m.(store).(log) = (Before <$> bs) ++ (After <$> as_) /\ (as_ <> [] -> length bs = n)) /\
  (forall i j t u, m.(threads) !! i = Some t -> m.(threads) !! j = Some u -> i <> j ->
     ((2 <= t.(pc) <= 9) \/ (12 <= t.(pc) <= 19))%nat -> ~ ((2 <= u.(pc) <= 9) \/ (12 <= u.(pc) <= 19))%nat).
Proof.
  intros Hm. apply bar_reach in Hm. destruct m as [v s ts]. cbn [threads store]. split_and!.
  - intros t u Ht Hu. by apply (bar_gate _ _ _ _ _ _ Hm Ht Hu).
  - intros t u Ht Hu. by apply (bar_gate _ _ _ _ _ _ Hm Ht Hu).
  - destruct Hm as (Hlen & _ & _ & _ & _ & _ & _ & _ & (bs & as_ & El & Hb & Ha & Hn)). exists bs, as_. split; [done|].
    intros Hne. destruct as_; [done|]. cbn [length] in Ha. lia.
  - intros i j t u Hi Hj Hne Ht%holds_1 Hu%holds_1. pose proof (bar_mutex _ _ _ _ _ _ _ _ Hm Hi Hj Hne). lia.
Qed.

(** Runs are bounded, and end with every thread through the barrier. *)
Lemma bar_terminates n :
  (forall k m, nsteps (mstep child) k (barrier_main n) m -> Z.of_nat k <= Z.of_nat n * (8 * Z.of_nat n + 16)) /\
  (forall m, reach child (barrier_main n) m -> stuck child m ->
     finished child m /\
     exists bs as_, m.(store).(log) = (Before <$> bs) ++ (After <$> as_) /\ length bs = n /\ length as_ = n).
Proof.
  split.
  - intros k m Hk.
    assert (E : tsum (bar_rem (Z.of_nat n)) (threads (barrier_main n)) = Z.of_nat n * (8 * Z.of_nat n + 16)).
    { rewrite (tsum_ext _ (fun _ => 8 * Z.of_nat n + 16)) by (apply Forall_fmap, Forall_true; done).
      rewrite tsum_const. cbn. rewrite length_fmap, length_seq. lia. }
    rewrite <- E. eapply (steps_bounded _ (bar_inv (Z.of_nat n)) (fun m => tsum (bar_rem (Z.of_nat n)) (threads m)));
      [apply bar_reach| |by intros; eapply bar_rem_step|exact Hk].
    intros m' (_ & _ & _ & _ & _ & _ & _ & Hidx & _). rewrite <- (Z.mul_0_l (Z.of_nat (length (threads m')))), <- tsum_const.
    apply tsum_le. eapply Forall_impl; [exact Hidx|]. intros t Ht. apply bar_rem_nonneg; [lia|done].
  - intros m Hm Hst. apply bar_reach in Hm. destruct m as [v s ts]. pose proof (bar_stuck _ _ _ _ Hm Hst) as Hf.
    split; [done|]. destruct Hm as (Hlen & _ & _ & _ & _ & _ & _ & Hidx & (bs & as_ & El & Hb & Ha & _)).
    exists bs, as_. cbn [store log threads] in *. split; [done|].
    assert (Hpc : Forall (fun t => (22 <= t.(pc) <= 22)%nat) ts).
    { unfold finished, ended in Hf. cbn in Hf. apply Forall_lookup. intros i t Ht.
      pose proof (idx_ok_pc _ _ (proj1 (Forall_lookup _ _) Hidx _ _ Ht)).
      pose proof (proj1 (Forall_lookup _ _) Hf _ _ Ht). cbn in *. lia. }
    apply at_pc_every in Hpc as H22. assert (H1 : tsum (at_pc 1 22) ts = Z.of_nat (length ts))
      by (apply at_pc_every; forall_lia). lia.
Qed.

(** ** Properties *)

(** C19: the barrier is a barrier.  In every reachable state, under any
    schedule: once a thread is past the first turnstile all the threads have
    arrived, once a thread is past the second one all have passed the critical
    point; every [before] line is printed before any [after] line; the counter is
    read and written by one thread at a time; at most [n * (8 n + 16)]
    instructions have been executed; and if no thread can run, every thread has
    printed both its lines and ended. *)
Theorem barrier_correct n m :
  reach child (barrier_main n) m ->
  (forall t u, t ∈ m.(threads) -> u ∈ m.(threads) -> (11 <= t.(pc))%nat -> (3 <= u.(pc))%nat) /\
  (forall t u, t ∈ m.(threads) -> u ∈ m.(threads) -> (21 <= t.(pc))%nat -> (13 <= u.(pc))%nat) /\
  (exists bs as_, m.(store).(log) = (Before <$> bs) ++ (After <$> as_) /\ (as_ <> [] -> length bs = n) /\
     (stuck child m -> finished child m /\ length bs = n /\ length as_ = n)) /\
  (forall i j t u, m.(threads) !! i = Some t -> m.(threads) !! j = Some u -> i <> j ->
     ((2 <= t.(pc) <= 9) \/ (12 <= t.(pc) <= 19))%nat -> ~ ((2 <= u.(pc) <= 9) \/ (12 <= u.(pc) <= 19))%nat) /\
  (forall k, nsteps (mstep child) k (barrier_main n) m -> Z.of_nat k <= Z.of_nat n * (8 * Z.of_nat n + 16)).
Proof.
  intros Hm. destruct (bar_separates n m Hm) as (H1 & H2 & (bs & as_ & El & Hb) & H4).
  destruct (bar_terminates n) as [Hk Hst]. split_and!; [done|done| |done|by intros k; apply Hk].
  exists bs, as_. split_and!; [done|done|]. intros Hs. destruct (Hst m Hm Hs) as (Hf & bs' & as' & El' & Hb' & Ha').
  rewrite El in El'. apply log_inj in El' as [-> ->]. done.
Qed.

(** Two threads: the second arrives last and passes the first turnstile. *)
Lemma barrier_correct_witness :
  exists m, reach child (barrier_main 2) m /\ pc <$> m.(threads) = [10; 11]%nat /\
    forall t u, t ∈ m.(threads) -> u ∈ m.(threads) -> (11 <= t.(pc))%nat -> (3 <= u.(pc))%nat.
Proof.
  destruct (run_witness child (fun m => pc <$> m.(threads) = [10; 11]%nat)
    (replicate 5 0 ++ replicate 16 1)%nat (barrier_main 2)) as (m & Hm & H); [vm_compute; reflexivity|].
  exists m. split; [exact Hm|]. split; [exact H|]. exact (proj1 (barrier_correct 2 m Hm)).
Defined.

(** The barrier is only a barrier when its semaphores are new.  With no
    semaphores left behind [barrier_init] starts from the values it asks for;
    but a [/turnstile1] that an aborted run left behind is opened again with the
    value 1 instead of 0, and then a thread passes the barrier while another has
    not started. *)
Lemma barrier_stale_semaphore n :
  (forall k, barrier_open [] k = (barrier_main n).(sems) k) /\
  barrier_open [("/turnstile1"%string, 0)] Turnstile1 = 1 /\
  exists m, reach child (mkMachine (barrier_open [("/turnstile1"%string, 0)]) (barrier_init 2) (barrier_main 2).(threads)) m /\
    pc <$> m.(threads) = [11; 0]%nat.
Proof.
  split_and!; [by intros []|done|].
  apply (run_witness child (fun m => pc <$> m.(threads) = [11; 0]%nat) (replicate 6 0)%nat). vm_compute. reflexivity.
Qed.
