(* ===== verification/RwLock.v ===== *)
(** * Reader-writer locks

    [31/reader-writer.c] and [31/reader-writer-nostarve.c].  In the second a
    writer holds [readlock] from its request on, and a reader passes through
    [readlock] before it takes the lock.  [reader] and [writer] execute [loops]
    rounds. *)

From Stdlib Require Import ZArith Lia.
From stdpp Require Import base tactics list numbers relations.
From S2P Require Import Prelude Threads.

Local Open Scope Z_scope.

(** ** Definitions *)

Inductive rw_sem := Lock | WriteLock | ReadLock.

#[export] Instance rw_sem_eq : EqDecision rw_sem.
Proof. solve_decision. Defined.

Inductive rw_role := Reader | Writer.

#[export] Instance rw_role_eq : EqDecision rw_role.
Proof. solve_decision. Defined.

Inductive rw_event := Read (v : Z) | Write (v : Z).

(** [rwlock_t] without its semaphores, the variables [loops] and [value], and
    the lines printed. *)
Record rw_store := mkRw { readers : Z; loops : Z; value : Z; rw_log : list rw_event }.

(** The [i] of the loops. *)
Definition rw_loc : Type := Z.

Definition rw_instr : Type := instr rw_sem rw_loc rw_store.

Definition rw_wait (k : rw_sem) : rw_instr := Wait (fun _ => k).

Definition rw_post (k : rw_sem) : rw_instr := Post (fun _ => k).

Definition add_readers (d : Z) : rw_instr :=
  Act (fun i s => (i, mkRw (s.(readers) + d) s.(loops) s.(value) s.(rw_log))).

Definition readers_is (n : Z) : rw_loc -> rw_store -> bool := fun _ s => s.(readers) =? n.

(** [printf("read %d\n", value)] *)
Definition do_read : rw_instr :=
  Act (fun i s => (i, mkRw s.(readers) s.(loops) s.(value) (s.(rw_log) ++ [Read s.(value)]))).

(** [value++; printf("write %d\n", value)] *)
Definition do_write : rw_instr :=
  Act (fun i s => (i, mkRw s.(readers) s.(loops) (s.(value) + 1) (s.(rw_log) ++ [Write (s.(value) + 1)]))).

(** [for (i = 0; i < loops; i++) body] *)
Definition for_loops (body : list rw_instr) : list rw_instr :=
  [ Act (fun _ s => (0, s)); Unless (fun i s => i <? s.(loops)) (length body + 2) ] ++ body ++
  [ Act (fun i s => (i + 1, s)); Back (length body + 2) ].

Module ReaderWriter.

Definition rwlock_acquire_readlock : list rw_instr :=
  [ rw_wait Lock; add_readers 1; Unless (readers_is 1) 1; rw_wait WriteLock; rw_post Lock ].

Definition rwlock_release_readlock : list rw_instr :=
  [ rw_wait Lock; add_readers (-1); Unless (readers_is 0) 1; rw_post WriteLock; rw_post Lock ].

Definition rwlock_acquire_writelock : list rw_instr := [ rw_wait WriteLock ].

Definition rwlock_release_writelock : list rw_instr := [ rw_post WriteLock ].

Definition reader : list rw_instr :=
  for_loops (rwlock_acquire_readlock ++ [do_read] ++ rwlock_release_readlock).

Definition writer : list rw_instr :=
  for_loops (rwlock_acquire_writelock ++ [do_write] ++ rwlock_release_writelock).

Definition rw_code (r : rw_role) : list rw_instr := match r with Reader => reader | Writer => writer end.

End ReaderWriter.

Module NoStarve.

Definition rwlock_acquire_readlock_ns : list rw_instr :=
  [ rw_wait ReadLock; rw_post ReadLock; rw_wait Lock; add_readers 1; Unless (readers_is 1) 1; rw_wait WriteLock; rw_post Lock ].

Definition rwlock_release_readlock_ns : list rw_instr :=
  [ rw_wait Lock; add_readers (-1); Unless (readers_is 0) 1; rw_post WriteLock; rw_post Lock ].

Definition rwlock_acquire_writelock_ns : list rw_instr := [ rw_wait ReadLock; rw_wait WriteLock ].

Definition rwlock_release_writelock_ns : list rw_instr := [ rw_post WriteLock; rw_post ReadLock ].

Definition reader_ns : list rw_instr :=
  for_loops (rwlock_acquire_readlock_ns ++ [do_read] ++ rwlock_release_readlock_ns).

Definition writer_ns : list rw_instr :=
  for_loops (rwlock_acquire_writelock_ns ++ [do_write] ++ rwlock_release_writelock_ns).

Definition ns_code (r : rw_role) : list rw_instr := match r with Reader => reader_ns | Writer => writer_ns end.

End NoStarve.

(** [rwlock_init] and the threads of [main]. *)
Definition rw_main (num_readers num_writers : nat) (loops : Z) : machine rw_sem rw_role rw_loc rw_store :=
  mkMachine (fun _ => 1) (mkRw 0 loops 0 [])
    (replicate num_readers (mkThread Reader 0 0) ++ replicate num_writers (mkThread Writer 0 0)).

(** ** The invariant

    [d] and [e] say by how many instructions the locks of the second program
    are longer: the reader is at instruction [3 + d] with the lock taken, the
    writer at [3 + e] in its critical section. *)

Section invariant.
Variables d e : nat.

(** How many readers, and writers, are in a range of instructions. *)
Definition rsum (lo hi : nat) (ts : list (thread rw_role rw_loc)) : Z := tsum (at_role Reader (lo + d) (hi + d)) ts.

Definition wsum (lo hi : nat) (ts : list (thread rw_role rw_loc)) : Z := tsum (at_role Writer (lo + e) (hi + e)) ts.

(** The increments of [value] a writer has done. *)
Definition written (t : thread rw_role rw_loc) : Z :=
  match t.(role) with
  | Reader => 0
  | Writer => if ((4 + e <=? t.(pc)) && (t.(pc) <=? 5 + 2 * e))%nat then t.(loc) + 1 else t.(loc)
  end.

(** The loop counter stays within its bounds. *)
Definition i_ok (loops : Z) (t : thread rw_role rw_loc) : Prop :=
  let last := match t.(role) with Reader => 15 + d | Writer => 7 + 2 * e end%nat in
  if (t.(pc) =? 0)%nat then t.(loc) = 0
  else if ((t.(pc) =? 1) || (t.(pc) =? last - 1))%nat then 0 <= t.(loc) <= loops
  else if (t.(pc) <? last)%nat then 0 <= t.(loc) < loops
  else t.(pc) = last /\ t.(loc) = loops.

(** The lines printed by the writers count up, and a reader prints the last
    value written. *)
Fixpoint log_ok (v : Z) (l : list rw_event) : option Z :=
  match l with
  | [] => Some v
  | Read w :: l => if w =? v then log_ok v l else None
  | Write w :: l => if w =? v + 1 then log_ok w l else None
  end.

Definition rw_inv (n : Z) (m : machine rw_sem rw_role rw_loc rw_store) : Prop :=
  let v := m.(sems) in let s := m.(store) in let ts := m.(threads) in
  let h := 1 - v WriteLock - wsum 3 4 ts in (** the readers hold the write lock *)
  s.(loops) = n /\ 0 <= n /\ (0 <= v Lock /\ 0 <= v WriteLock /\ 0 <= v ReadLock) /\
  v Lock + rsum 3 6 ts + rsum 9 12 ts = 1 /\
  s.(readers) = rsum 4 9 ts /\ 0 <= h <= 1 /\
  (rsum 5 5 ts = 0 \/ s.(readers) = 1 /\ h = 0) /\
  (rsum 4 4 ts = 0 \/ (s.(readers) = 1 /\ h = 0) \/ (1 < s.(readers) /\ h = 1)) /\
  (rsum 10 10 ts = 0 \/ h = 1) /\ (rsum 11 11 ts = 0 \/ s.(readers) = 0 /\ h = 1) /\
  (rsum 4 5 ts = 1 \/ rsum 10 11 ts = 1 \/ (s.(readers) = 0 /\ h = 0) \/ (0 < s.(readers) /\ h = 1)) /\
  s.(value) = tsum written ts /\ log_ok 0 s.(rw_log) = Some s.(value) /\
  Forall (i_ok n) ts.

End invariant.

Lemma log_ok_app v l w : log_ok v l = Some w ->
  log_ok v (l ++ [Read w]) = Some w /\ log_ok v (l ++ [Write (w + 1)]) = Some (w + 1).
Proof.
  revert v; induction l as [|[x|x] l IH]; intros v; cbn.
  - intros [= ->]. by rewrite !Z.eqb_refl.
  - destruct (x =? v); [|done]. apply IH.
  - destruct (x =? v + 1); [|done]. apply IH.
Qed.

Lemma rw_inv_init d e nr nw n : 0 <= n -> rw_inv d e n (rw_main nr nw n).
Proof.
  intros Hn. assert (H0 : forall w, w (mkThread Reader 0%nat 0) = 0 -> w (mkThread Writer 0%nat 0) = 0 ->
    tsum w (threads (rw_main nr nw n)) = 0).
  { intros w Hr Hw. unfold rw_main. cbn [threads]. rewrite tsum_app, !tsum_replicate, Hr, Hw. lia. }
  assert (Hi : Forall (i_ok d e n) (threads (rw_main nr nw n))).
  { apply Forall_app. split; apply Forall_replicate; done. }
  unfold rw_inv, rsum, wsum. rewrite !H0; [|done..]. cbn [sems store threads rw_main readers loops value rw_log log_ok].
  split_and!; lia || done || auto.
Qed.

(** The parts of the ranges of the invariant. *)
Lemma rw_parts d ts :
  rsum d 3 6 ts = rsum d 3 3 ts + rsum d 4 6 ts /\ rsum d 4 6 ts = rsum d 4 5 ts + rsum d 6 6 ts /\
  rsum d 4 5 ts = rsum d 4 4 ts + rsum d 5 5 ts /\ rsum d 4 9 ts = rsum d 4 5 ts + rsum d 6 9 ts /\
  rsum d 9 12 ts = rsum d 9 9 ts + rsum d 10 12 ts /\ rsum d 10 12 ts = rsum d 10 11 ts + rsum d 12 12 ts /\
  rsum d 10 11 ts = rsum d 10 10 ts + rsum d 11 11 ts /\ rsum d 6 9 ts = rsum d 6 8 ts + rsum d 9 9 ts.
Proof. unfold rsum. split_and!; cbn [Nat.add]; apply at_role_split; lia. Qed.

(** The thread that runs is one of them. *)
Lemma rw_of d e ts i t :
  ts !! i = Some t ->
  let r lo hi := 0 <= at_role Reader (lo + d) (hi + d) t <= rsum d lo hi ts in
  (r 3%nat 3%nat /\ r 4%nat 4%nat /\ r 5%nat 5%nat /\ r 6%nat 6%nat /\ r 6%nat 8%nat /\ r 9%nat 9%nat /\ r 10%nat 10%nat /\
   r 11%nat 11%nat /\ r 12%nat 12%nat) /\
  0 <= at_role Writer (3 + e) (4 + e) t <= wsum e 3 4 ts.
Proof. intros Ht. cbv zeta. unfold rsum, wsum. split_and!; by apply at_role_of with (i := i) || apply at_role_nonneg. Qed.

(** One instruction of either program. *)
Ltac rw_case Ht Ex Hlog :=
  step_cases Ex; unfold rw_inv, rsum, wsum, readers_is in *;
  cbn [sems store threads readers loops value rw_log] in *; sums Ht;
  cbn [written i_ok role pc loc Nat.eqb Nat.leb Nat.ltb andb orb Nat.mul Nat.add Nat.sub] in *;
  (split_and!; try assumption; try (apply Forall_insert_list; [assumption|cbn; lia]); try lia;
   try apply (log_ok_app _ _ _ Hlog)).

Lemma rw_step n v s ts i t v' s' t' :
  rw_inv 0 0 n (mkMachine v s ts) -> ts !! i = Some t -> exec ReaderWriter.rw_code v s t = Some (v', s', t') ->
  rw_inv 0 0 n (mkMachine v' s' (<[i := t']> ts)).
Proof.
  intros (Hn & Hn0 & Hv & Hl & Hr & Hh & H5 & H4 & H10 & H11 & Hq & Hval & Hlog & Hi) Ht Ex. cbn [sems store threads] in *.
  pose proof (rw_parts 0 ts). pose proof (rw_of 0 0 ts i t Ht). pose proof (proj1 (Forall_lookup _ _) Hi _ _ Ht) as Hit.
  destruct s as [rd lo vl lg], t as [[] p l]; cbn [readers loops value rw_log] in *; subst lo;
    [split_pc 15%nat p|split_pc 7%nat p]; rw_case Ht Ex Hlog.
Qed.

Lemma ns_step n v s ts i t v' s' t' :
  rw_inv 2 1 n (mkMachine v s ts) -> ts !! i = Some t -> exec NoStarve.ns_code v s t = Some (v', s', t') ->
  rw_inv 2 1 n (mkMachine v' s' (<[i := t']> ts)).
Proof.
  intros (Hn & Hn0 & Hv & Hl & Hr & Hh & H5 & H4 & H10 & H11 & Hq & Hval & Hlog & Hi) Ht Ex. cbn [sems store threads] in *.
  pose proof (rw_parts 2 ts). pose proof (rw_of 2 1 ts i t Ht). pose proof (proj1 (Forall_lookup _ _) Hi _ _ Ht) as Hit.
  destruct s as [rd lo vl lg], t as [[] p l]; cbn [readers loops value rw_log] in *; subst lo;
    [split_pc 17%nat p|split_pc 9%nat p]; rw_case Ht Ex Hlog.
Qed.

(** In the second program a writer holds [readlock] from its request to its
    release, and a reader only while it passes. *)
Definition readlock_inv (m : machine rw_sem rw_role rw_loc rw_store) : Prop :=
  m.(sems) ReadLock + tsum (at_role Reader 3 3) m.(threads) + tsum (at_role Writer 3 6) m.(threads) = 1.

Lemma readlock_step v s ts i t v' s' t' :
  readlock_inv (mkMachine v s ts) -> ts !! i = Some t -> exec NoStarve.ns_code v s t = Some (v', s', t') ->
  readlock_inv (mkMachine v' s' (<[i := t']> ts)).
Proof.
  unfold readlock_inv. cbn [sems threads]. intros H Ht Ex.
  destruct t as [[] p l]; [split_pc 17%nat p|split_pc 9%nat p]; step_cases Ex; sums Ht; lia.
Qed.

Lemma rw_reach nr nw n m :
  0 <= n -> reach ReaderWriter.rw_code (rw_main nr nw n) m -> rw_inv 0 0 n m.
Proof. intros Hn. apply reach_inv; [by apply rw_inv_init|]. intros. by eapply rw_step. Qed.

Lemma ns_reach nr nw n m :
  0 <= n -> reach NoStarve.ns_code (rw_main nr nw n) m -> rw_inv 2 1 n m /\ readlock_inv m.
Proof.
  intros Hn. apply (reach_inv _ (fun m => rw_inv 2 1 n m /\ readlock_inv m)).
  - split; [by apply rw_inv_init|]. unfold readlock_inv, rw_main. cbn [sems threads].
    rewrite !tsum_app, !tsum_replicate. eval_roles. lia.
  - intros v s ts i t v' s' t' [H1 H2] Ht Ex. split; [by eapply ns_step|by eapply readlock_step].
Qed.

(** ** Exclusion *)

Lemma rw_exclusion d e n v s ts :
  rw_inv d e n (mkMachine v s ts) ->
  (forall t u, t ∈ ts -> u ∈ ts -> t.(role) = Writer -> (3 + e <= t.(pc) <= 4 + e)%nat ->
     u.(role) = Reader -> ~ (6 + d <= u.(pc) <= 9 + d)%nat) /\
  (forall i j t u, ts !! i = Some t -> ts !! j = Some u -> i <> j -> t.(role) = Writer -> u.(role) = Writer ->
     (3 + e <= t.(pc) <= 4 + e)%nat -> ~ (3 + e <= u.(pc) <= 4 + e)%nat).
Proof.
  intros (_ & _ & Hv & Hl & Hr & Hh & H5 & H4 & H10 & H11 & Hq & _). cbn [sems store threads] in *.
  pose proof (rw_parts d ts) as Hp. split.
  - intros t u (i & Ht)%list_elem_of_lookup (j & Hu)%list_elem_of_lookup Rt Pt Ru Pu.
    pose proof (at_role_lt Writer (3 + e) (4 + e) _ _ _ Ht Rt Pt) as Hw.
    pose proof (at_role_lt Reader (6 + d) (9 + d) _ _ _ Hu Ru Pu) as Hu'.
    assert (Hnn : forall lo hi, 0 <= rsum d lo hi ts) by (intros; apply tsum_nonneg; intros; apply at_role_nonneg).
    pose proof (Hnn 3 3)%nat. pose proof (Hnn 4 4)%nat. pose proof (Hnn 5 5)%nat. pose proof (Hnn 6 6)%nat.
    pose proof (Hnn 9 9)%nat. pose proof (Hnn 10 10)%nat. pose proof (Hnn 11 11)%nat. pose proof (Hnn 12 12)%nat.
    unfold wsum in *. fold (rsum d 6 9 ts) in Hu'. lia.
  - intros i j t u Hi Hj Hne Rt Ru Pt Pu.
    pose proof (tsum_ge2 (at_role Writer (3 + e) (4 + e)) ts i j t u (at_role_nonneg _ _ _) Hne Hi Hj) as H2.
    rewrite !at_role_1 in H2 by done. unfold wsum in *. lia.
Qed.

(** ** Termination *)

(** The instructions a thread still executes, at most. *)
Definition rw_rem (d e : nat) (n : Z) (t : thread rw_role rw_loc) : Z :=
  let len := match t.(role) with Reader => 14 + d | Writer => 6 + 2 * e end%nat in
  if (t.(pc) =? 0)%nat then Z.of_nat len * n + 2
  else if (t.(pc) <? len)%nat then Z.of_nat len * (n - t.(loc)) + 2 - Z.of_nat t.(pc)
  else if (t.(pc) =? len)%nat then Z.of_nat len * (n - t.(loc)) + 2
  else 0.

Lemma rw_rem_nonneg d e n t : 0 <= n -> i_ok d e n t -> 0 <= rw_rem d e n t.
Proof.
  unfold i_ok, rw_rem. intros Hn. cbv zeta.
  set (len := match role t with Reader => 14 + d | Writer => 6 + 2 * e end%nat).
  replace (match role t with Reader => 15 + d | Writer => 7 + 2 * e end)%nat with (S len) by (unfold len; destruct (role t); lia).
  destruct (Nat.eqb_spec t.(pc) 0) as [|H0]; [nia|].
  destruct (Nat.ltb_spec t.(pc) len), (Nat.eqb_spec t.(pc) len); try lia.
  - destruct (_ || _) eqn:Eb; [apply orb_true_iff in Eb as [Eb%Nat.eqb_eq|Eb%Nat.eqb_eq]; [intros; nia|lia]|]. destruct (Nat.ltb_spec t.(pc) (S len)); [intros; nia|lia].
  - replace (_ || _) with true; [intros; nia|]. symmetry. apply orb_true_iff. right. apply Nat.eqb_eq. lia.
Qed.

(** Every instruction is one less to execute. *)
Ltac rem_case Ht Ex :=
  rewrite (tsum_step _ _ _ _ _ Ht); step_cases Ex;
  cbn [rw_rem i_ok role pc loc Nat.eqb Nat.leb Nat.ltb andb orb Nat.mul Nat.add Nat.sub] in *; lia.

Lemma rw_rem_step n v s ts i t v' s' t' :
  rw_inv 0 0 n (mkMachine v s ts) -> ts !! i = Some t -> exec ReaderWriter.rw_code v s t = Some (v', s', t') ->
  tsum (rw_rem 0 0 n) (<[i := t']> ts) < tsum (rw_rem 0 0 n) ts.
Proof.
  intros (Hn & Hn0 & _ & _ & _ & _ & _ & _ & _ & _ & _ & _ & _ & Hi) Ht Ex. cbn [store threads] in *.
  apply (proj1 (Forall_lookup _ _)) with (1 := Hi) in Ht as Hit. destruct s as [rd lo vl lg], t as [[] p l];
    cbn [loops] in *; subst lo; [split_pc 15%nat p|split_pc 7%nat p]; rem_case Ht Ex.
Qed.

Lemma ns_rem_step n v s ts i t v' s' t' :
  rw_inv 2 1 n (mkMachine v s ts) -> ts !! i = Some t -> exec NoStarve.ns_code v s t = Some (v', s', t') ->
  tsum (rw_rem 2 1 n) (<[i := t']> ts) < tsum (rw_rem 2 1 n) ts.
Proof.
  intros (Hn & Hn0 & _ & _ & _ & _ & _ & _ & _ & _ & _ & _ & _ & Hi) Ht Ex. cbn [store threads] in *.
  apply (proj1 (Forall_lookup _ _)) with (1 := Hi) in Ht as Hit. destruct s as [rd lo vl lg], t as [[] p l];
    cbn [loops] in *; subst lo; [split_pc 17%nat p|split_pc 9%nat p]; rem_case Ht Ex.
Qed.

(** Where a thread can be blocked, and on what. *)
Definition rw_blocked (d e : nat) (v : rw_sem -> Z) (t : thread rw_role rw_loc) : Prop :=
  let p := t.(pc) in
  match t.(role) with
  | Reader => (p = 2 + d \/ p = 8 + d)%nat /\ v Lock <= 0 \/ p = (5 + d)%nat /\ v WriteLock <= 0 \/
              (0 < d)%nat /\ p = 2%nat /\ v ReadLock <= 0 \/ p = (15 + d)%nat
  | Writer => p = (2 + e)%nat /\ v WriteLock <= 0 \/ (0 < e)%nat /\ p = 2%nat /\ v ReadLock <= 0 \/ p = (7 + 2 * e)%nat
  end.

(** [Forall] facts on threads, by cases on the role. *)
Ltac role_lia :=
  apply Forall_lookup; intros ? u ?;
  repeat match goal with
  | H : Forall _ ?ts, Ht : ?ts !! _ = Some _ |- _ =>
      let H' := fresh H in pose proof (proj1 (Forall_lookup _ _) H _ _ Ht) as H'; clear H
  end; unfold rw_blocked in *; cbv zeta beta in *; destruct (role u); try (intros [=]); try intros _; lia.

Lemma rw_stuck d e n v s ts :
  rw_inv d e n (mkMachine v s ts) -> Forall (rw_blocked d e v) ts ->
  Forall (fun t => match t.(role) with
                   | Reader => (0 < d)%nat /\ t.(pc) = 2%nat /\ v ReadLock <= 0 \/ t.(pc) = (15 + d)%nat
                   | Writer => (0 < e)%nat /\ t.(pc) = 2%nat /\ v ReadLock <= 0 \/ t.(pc) = (7 + 2 * e)%nat
                   end) ts.
Proof.
  intros (_ & _ & Hv & Hl & Hr & Hh & H5 & _ & _ & _ & Hq & _) Hb. cbn [sems store threads] in *.
  pose proof (rw_parts d ts) as Hp.
  assert (Ew : wsum e 3 4 ts = 0) by (apply at_role_none; role_lia).
  assert (E3 : rsum d 3 3 ts = 0) by (apply at_role_none; role_lia).
  assert (E4 : rsum d 4 4 ts = 0) by (apply at_role_none; role_lia).
  assert (E6 : rsum d 6 6 ts = 0) by (apply at_role_none; role_lia).
  assert (E9 : rsum d 9 12 ts = 0) by (apply at_role_none; role_lia).
  assert (E99 : rsum d 9 9 ts = 0) by (apply at_role_none; role_lia).
  assert (E10 : rsum d 10 11 ts = 0) by (apply at_role_none; role_lia).
  assert (E5 : rsum d 5 5 ts = 0).
  { destruct (decide (v WriteLock <= 0)) as [Hz|Hz]; [lia|]. apply at_role_none. role_lia. }
  assert (E49 : rsum d 4 9 ts = 0).
  { assert (E68 : rsum d 6 8 ts = 0); [|lia]. apply at_role_none. role_lia. }
  assert (Hlock : v Lock = 1) by lia. assert (Hwl : v WriteLock = 1) by lia. role_lia.
Qed.

(** The program has ended: the value counts all the rounds of the writers. *)
Lemma rw_final e d n nw ts :
  Forall (i_ok d e n) ts -> tsum (fun t => if decide (t.(role) = Writer) then 1 else 0) ts = nw ->
  Forall (fun t => t.(role) = Writer -> t.(pc) = (7 + 2 * e)%nat) ts -> tsum (written e) ts = nw * n.
Proof.
  intros Hi <- Hp. induction ts as [|t ts IH]; [done|]. apply Forall_cons in Hi as [Hi Hi'], Hp as [Hp Hp'].
  rewrite !tsum_cons, IH by done. destruct t as [[] p l]; unfold written, i_ok in *; cbn [role pc loc] in *.
  - rewrite decide_False by done. lia.
  - rewrite decide_True by done. specialize (Hp eq_refl). subst p.
    rewrite (proj2 (Nat.leb_gt (7 + 2 * e) (5 + 2 * e))) by lia. rewrite andb_false_r.
    assert (E : l = n); [|lia]. revert Hi. rewrite (proj2 (Nat.eqb_neq _ 0)), (proj2 (Nat.eqb_neq _ 1)) by lia.
    rewrite (proj2 (Nat.eqb_neq _ (7 + 2 * e - 1))), Nat.ltb_irrefl by lia. cbn [orb]. intuition.
Qed.

Lemma rw_stuck_blocked n v s ts :
  rw_inv 0 0 n (mkMachine v s ts) -> stuck ReaderWriter.rw_code (mkMachine v s ts) -> Forall (rw_blocked 0 0 v) ts.
Proof.
  intros (_ & _ & _ & _ & _ & _ & _ & _ & _ & _ & _ & _ & _ & Hi) Hs%stuck_exec. cbn [threads] in Hi.
  apply Forall_lookup. intros i t Ht. pose proof (proj1 (Forall_lookup _ _) Hi _ _ Ht) as Hit.
  pose proof (proj1 (Forall_lookup _ _) Hs _ _ Ht) as Ex. cbv beta in Ex. unfold rw_blocked.
  destruct t as [[] p l]; unfold i_ok in Hit; cbn [role pc loc] in *; [split_pc 16%nat p|split_pc 8%nat p];
    cbn in Ex, Hit; try discriminate Ex;
    repeat match type of Ex with context [if ?b then _ else _] => destruct b eqn:? end; try discriminate Ex; lia.
Qed.

Lemma ns_stuck_blocked n v s ts :
  rw_inv 2 1 n (mkMachine v s ts) -> stuck NoStarve.ns_code (mkMachine v s ts) -> Forall (rw_blocked 2 1 v) ts.
Proof.
  intros (_ & _ & _ & _ & _ & _ & _ & _ & _ & _ & _ & _ & _ & Hi) Hs%stuck_exec. cbn [threads] in Hi.
  apply Forall_lookup. intros i t Ht. pose proof (proj1 (Forall_lookup _ _) Hi _ _ Ht) as Hit.
  pose proof (proj1 (Forall_lookup _ _) Hs _ _ Ht) as Ex. cbv beta in Ex. unfold rw_blocked.
  destruct t as [[] p l]; unfold i_ok in Hit; cbn [role pc loc] in *; [split_pc 18%nat p|split_pc 10%nat p];
    cbn in Ex, Hit; try discriminate Ex;
    repeat match type of Ex with context [if ?b then _ else _] => destruct b eqn:? end; try discriminate Ex; lia.
Qed.

Lemma rw_num_writers code nr nw n m :
  reach code (rw_main nr nw n) m ->
  tsum (fun t => if decide (t.(role) = Writer) then 1 else 0) m.(threads) = Z.of_nat nw.
Proof.
  intros Hm. pose proof (reach_roles _ _ _ Hm) as E.
  pose proof (tsum_fmap role (fun r : rw_role => if decide (r = Writer) then 1 else 0) m.(threads)) as E1.
  rewrite E, tsum_fmap in E1. rewrite <- E1. unfold rw_main. cbn [threads]. rewrite tsum_app, !tsum_replicate. cbn [role].
  rewrite decide_False, decide_True by done. lia.
Qed.

Lemma rw_bound d e code nr nw n :
  0 <= n -> (forall m, reach code (rw_main nr nw n) m -> rw_inv d e n m) ->
  (forall v s ts i t v' s' t', rw_inv d e n (mkMachine v s ts) -> ts !! i = Some t -> exec code v s t = Some (v', s', t') ->
     tsum (rw_rem d e n) (<[i := t']> ts) < tsum (rw_rem d e n) ts) ->
  forall k m, nsteps (mstep code) k (rw_main nr nw n) m ->
    Z.of_nat k <= Z.of_nat nr * ((14 + Z.of_nat d) * n + 2) + Z.of_nat nw * ((6 + 2 * Z.of_nat e) * n + 2).
Proof.
  intros Hn Hinv Hdec k m Hk.
  pose proof (steps_bounded _ (rw_inv d e n) (fun m => tsum (rw_rem d e n) (threads m)) (rw_main nr nw n) Hinv) as H.
  specialize (H ltac:(intros m' (_ & _ & _ & _ & _ & _ & _ & _ & _ & _ & _ & _ & _ & Hi);
    rewrite <- (Z.mul_0_l (Z.of_nat (length (threads m')))), <- tsum_const; apply tsum_le;
    eapply Forall_impl; [exact Hi|]; intros t Ht; by apply rw_rem_nonneg)).
  specialize (H Hdec k m Hk). cbn [rw_main threads] in H. rewrite tsum_app, !tsum_replicate in H.
  unfold rw_rem in H. cbn [role pc Nat.eqb] in H. nia.
Qed.

(** ** Properties *)

(** What a reader-writer lock promises of a state of the program: [d], [e] as
    above.  A writer in its critical section excludes the other writers and
    every reader that holds the lock, the lines printed are those of a sequential
    run, and when no thread can run any more all have ended and [value] counts
    every round of every writer. *)
Definition rw_promise (d e : nat) (code : rw_role -> list rw_instr) (nw : nat) (n : Z)
    (m : machine rw_sem rw_role rw_loc rw_store) : Prop :=
  (forall t u, t ∈ m.(threads) -> u ∈ m.(threads) -> t.(role) = Writer -> (3 + e <= t.(pc) <= 4 + e)%nat ->
     u.(role) = Reader -> ~ (6 + d <= u.(pc) <= 9 + d)%nat) /\
  (forall i j t u, m.(threads) !! i = Some t -> m.(threads) !! j = Some u -> i <> j ->
     t.(role) = Writer -> u.(role) = Writer -> (3 + e <= t.(pc) <= 4 + e)%nat -> ~ (3 + e <= u.(pc) <= 4 + e)%nat) /\
  log_ok 0 m.(store).(rw_log) = Some m.(store).(value) /\
  (stuck code m -> finished code m /\ m.(store).(value) = Z.of_nat nw * n).

Lemma rw_promise_ok d e code nr nw n m :
  reach code (rw_main nr nw n) m -> rw_inv d e n m ->
  (stuck code m -> Forall (fun t => t.(pc) = match t.(role) with Reader => 15 + d | Writer => 7 + 2 * e end)%nat m.(threads)) ->
  length (code Reader) = (15 + d)%nat -> length (code Writer) = (7 + 2 * e)%nat -> rw_promise d e code nw n m.
Proof.
  intros Hm Hinv Hend Lr Lw. pose proof (rw_num_writers _ _ _ _ _ Hm) as Hnw. destruct m as [v s ts].
  destruct (rw_exclusion _ _ _ _ _ _ Hinv) as [Hx1 Hx2].
  destruct Hinv as (_ & _ & _ & _ & _ & _ & _ & _ & _ & _ & _ & Hval & Hlog & Hi). cbn [sems store threads] in *.
  split_and!; [done|done|done|]. intros Hs. specialize (Hend Hs). split.
  - eapply Forall_impl; [exact Hend|]. intros t Ht. unfold ended. rewrite Ht. destruct (role t); lia.
  - cbn [store]. rewrite Hval. apply (rw_final e d); [done|done|].
    eapply Forall_impl; [exact Hend|]. intros t -> ->. done.
Qed.

(** [reader-writer.c].  Any schedule of the readers and writers ends after
    a bounded number of instructions, and every reachable state keeps the
    promise of a reader-writer lock: exclusion, no deadlock, no lost update. *)
Theorem reader_writer_correct nr nw n :
  0 <= n ->
  (forall k m, nsteps (mstep ReaderWriter.rw_code) k (rw_main nr nw n) m ->
     Z.of_nat k <= Z.of_nat nr * (14 * n + 2) + Z.of_nat nw * (6 * n + 2)) /\
  (forall m, reach ReaderWriter.rw_code (rw_main nr nw n) m -> rw_promise 0 0 ReaderWriter.rw_code nw n m).
Proof.
  intros Hn. split.
  - apply (rw_bound 0 0 _ nr nw n Hn (fun m => rw_reach nr nw n m Hn)). intros. by eapply rw_rem_step.
  - intros m Hm. pose proof (rw_reach _ _ _ _ Hn Hm) as Hinv. apply (rw_promise_ok 0 0 _ nr); try done.
    intros Hs. destruct m as [v s ts]. pose proof (rw_stuck _ _ _ _ _ _ Hinv (rw_stuck_blocked _ _ _ _ Hinv Hs)) as Hb.
    eapply Forall_impl; [exact Hb|]. intros t Ht. cbv beta in *. destruct (role t); lia.
Qed.

Lemma reader_writer_correct_witness :
  (forall k m, nsteps (mstep ReaderWriter.rw_code) k (rw_main 2 1 3) m -> Z.of_nat k <= 108) /\
  exists m, reach ReaderWriter.rw_code (rw_main 2 1 3) m /\ pc <$> m.(threads) = [5; 2; 3]%nat /\
    rw_promise 0 0 ReaderWriter.rw_code 1 3 m.
Proof.
  destruct (reader_writer_correct 2 1 3) as [H1 H2]; [lia|]. split; [exact H1|].
  destruct (run_witness ReaderWriter.rw_code (fun m => pc <$> m.(threads) = [5; 2; 3]%nat)
    (replicate 5 0 ++ replicate 2 1 ++ replicate 3 2)%nat (rw_main 2 1 3)) as (m & Hm & H); [vm_compute; reflexivity|].
  exists m. split; [exact Hm|]. split; [exact H|]. exact (H2 m Hm).
Defined.

(** C20: [reader-writer-nostarve.c].  The same promise, and a writer that has
    asked for the lock lets no further reader in: as long as it waits or
    writes, no reader that has not passed [readlock] yet can run. *)
Theorem nostarve_correct nr nw n :
  0 <= n ->
  (forall k m, nsteps (mstep NoStarve.ns_code) k (rw_main nr nw n) m ->
     Z.of_nat k <= Z.of_nat nr * (16 * n + 2) + Z.of_nat nw * (8 * n + 2)) /\
  (forall m, reach NoStarve.ns_code (rw_main nr nw n) m ->
     rw_promise 2 1 NoStarve.ns_code nw n m /\
     (forall t u, t ∈ m.(threads) -> u ∈ m.(threads) -> t.(role) = Writer -> (3 <= t.(pc) <= 6)%nat ->
        u.(role) = Reader -> u.(pc) = 2%nat -> exec NoStarve.ns_code m.(sems) m.(store) u = None)).
Proof.
  intros Hn. split.
  - apply (rw_bound 2 1 _ nr nw n Hn (fun m Hm => proj1 (ns_reach nr nw n m Hn Hm))). intros. by eapply ns_rem_step.
  - intros m Hm. destruct (ns_reach _ _ _ _ Hn Hm) as [Hinv Hrl]. split.
    + apply (rw_promise_ok 2 1 _ nr); try done. intros Hs. destruct m as [v s ts].
      pose proof (rw_stuck _ _ _ _ _ _ Hinv (ns_stuck_blocked _ _ _ _ Hinv Hs)) as Hb.
      unfold readlock_inv in Hrl. cbn [sems threads] in *.
      rewrite (at_role_none Reader 3 3 ts), (at_role_none Writer 3 6 ts) in Hrl by role_lia.
      eapply Forall_impl; [exact Hb|]. intros t Ht. cbv beta in *. destruct (role t); lia.
    + intros t u (i & Ht)%list_elem_of_lookup Hu Rt Pt Ru Pu. destruct m as [v s ts], u as [ru pu lu].
      unfold readlock_inv in Hrl. cbn [sems threads store role pc] in *. subst ru pu.
      pose proof (at_role_lt Writer 3 6 _ _ _ Ht Rt Pt).
      pose proof (tsum_nonneg (at_role Reader 3 3) ts (at_role_nonneg _ _ _)).
      cbn. destruct (Z.ltb_spec 0 (v ReadLock)); [lia|done].
Qed.

Lemma nostarve_correct_witness :
  exists m, reach NoStarve.ns_code (rw_main 2 1 3) m /\ pc <$> m.(threads) = [9; 2; 3]%nat /\
    rw_promise 2 1 NoStarve.ns_code 1 3 m /\
    (forall t u, t ∈ m.(threads) -> u ∈ m.(threads) -> t.(role) = Writer -> (3 <= t.(pc) <= 6)%nat ->
        u.(role) = Reader -> u.(pc) = 2%nat -> exec NoStarve.ns_code m.(sems) m.(store) u = None).
Proof.
  destruct (nostarve_correct 2 1 3) as [H1 H2]; [lia|].
  destruct (run_witness NoStarve.ns_code (fun m => pc <$> m.(threads) = [9; 2; 3]%nat)
    (replicate 9 0 ++ replicate 2 1 ++ replicate 3 2)%nat (rw_main 2 1 3)) as (m & Hm & H); [vm_compute; reflexivity|].
  exists m. split; [exact Hm|]. split; [exact H|]. exact (H2 m Hm).
Defined.
