(* ===== verification/NsMutex.v ===== *)
(** * The mutex without starvation

    [31/mutex-nostarve.c]: a thread passes two rooms, whose turnstiles [t1] and
    [t2] are never open at the same time.  [worker] is a loop without end. *)

From Stdlib Require Import ZArith Lia.
From stdpp Require Import base tactics list numbers relations.
From S2P Require Import Prelude Threads.

Local Open Scope Z_scope.

(** ** Definitions *)

Inductive ns_sem := NsMutex | T1 | T2.

#[export] Instance ns_sem_eq : EqDecision ns_sem.
Proof. solve_decision. Defined.

(** [ns_mutex_t] without its semaphores, and the shared [counter]. *)
Record ns_mutex_t := mkNs { room1 : Z; room2 : Z; counter : Z }.

Definition ns_instr : Type := instr ns_sem unit ns_mutex_t.

Definition ns_wait (k : ns_sem) : ns_instr := Wait (fun _ => k).

Definition ns_post (k : ns_sem) : ns_instr := Post (fun _ => k).

Definition add_room1 (d : Z) : ns_instr := Act (fun l m => (l, mkNs (m.(room1) + d) m.(room2) m.(counter))).

Definition add_room2 (d : Z) : ns_instr := Act (fun l m => (l, mkNs m.(room1) (m.(room2) + d) m.(counter))).

(** [if (b) then_ else else_] *)
Definition if_else (b : ns_mutex_t -> bool) (then_ else_ : list ns_instr) : list ns_instr :=
  [ Unless (fun _ => b) (length then_ + 1) ] ++ then_ ++ [ Unless (fun _ _ => false) (length else_) ] ++ else_.

Definition ns_mutex_acquire : list ns_instr :=
  [ ns_wait NsMutex; add_room1 1; ns_post NsMutex;
    ns_wait T1; add_room2 1; ns_wait NsMutex; add_room1 (-1) ] ++
  if_else (fun m => m.(room1) =? 0) [ns_post NsMutex; ns_post T2] [ns_post NsMutex; ns_post T1] ++
  [ ns_wait T2; add_room2 (-1) ].

Definition ns_mutex_release : list ns_instr :=
  if_else (fun m => m.(room2) =? 0) [ns_post T1] [ns_post T2].

(** [while (1) { acquire; counter++; release; }] *)
Definition worker (_ : unit) : list ns_instr :=
  ns_mutex_acquire ++
  [ Act (fun l m => (l, mkNs m.(room1) m.(room2) (m.(counter) + 1))) ] ++
  ns_mutex_release ++ [ Back 20 ].

(** [ns_mutex_init] and the threads of [main]. *)
Definition ns_main (num_threads : nat) : machine ns_sem unit unit ns_mutex_t :=
  mkMachine (fun k => match k with T2 => 0 | _ => 1 end) (mkNs 0 0 0) (replicate num_threads (mkThread tt 0 tt)).

(** ** The invariant *)

(** The turnstiles are one baton: open, or held by one thread. *)
Definition baton (t : thread unit unit) : Z :=
  at_pc 4 9 t + at_pc 11 12 t + at_pc 14 17 t + at_pc 19 19 t.

Definition ns_inv (m : machine ns_sem unit unit ns_mutex_t) : Prop :=
  let v := m.(sems) in let s := m.(store) in let ts := m.(threads) in
  (0 <= v NsMutex /\ 0 <= v T1 /\ 0 <= v T2) /\
  v NsMutex + tsum (at_pc 1 2) ts + tsum (at_pc 6 8) ts + tsum (at_pc 11 11) ts = 1 /\
  v T1 + v T2 + tsum baton ts = 1 /\
  s.(room1) = tsum (at_pc 2 6) ts /\ s.(room2) = tsum (at_pc 5 14) ts /\
  (v T1 + tsum (at_pc 11 12) ts = 0 \/ 0 < s.(room1) \/ s.(room2) = 0) /\
  (tsum (at_pc 11 12) ts = 0 \/ 0 < s.(room1)) /\
  (v T2 + tsum (at_pc 19 19) ts = 0 \/ 0 < s.(room2)) /\
  (tsum (at_pc 17 17) ts = 0 \/ s.(room2) = 0) /\
  Forall (fun t => (t.(pc) <= 20)%nat) ts.

Lemma ns_inv_init n : ns_inv (ns_main n).
Proof.
  unfold ns_inv, ns_main. cbn [sems store threads room1 room2]. rewrite !tsum_replicate.
  split_and!; try (cbn; lia); [cbn; auto..|]. apply Forall_replicate. cbn. lia.
Qed.

Lemma baton_nonneg t : 0 <= baton t.
Proof.
  unfold baton. pose proof (at_pc_nonneg 4 9 t). pose proof (at_pc_nonneg 11 12 t). pose proof (at_pc_nonneg 14 17 t).
  pose proof (at_pc_nonneg 19 19 t). lia.
Qed.

Lemma baton_parts ts :
  tsum baton ts = tsum (at_pc 4 9) ts + tsum (at_pc 11 12) ts + tsum (at_pc 14 17) ts + tsum (at_pc 19 19) ts.
Proof. induction ts as [|t ts IH]; [done|]. rewrite !tsum_cons, IH. unfold baton. lia. Qed.

Lemma nsm_step v s ts i t v' s' t' :
  ns_inv (mkMachine v s ts) -> ts !! i = Some t -> exec worker v s t = Some (v', s', t') ->
  ns_inv (mkMachine v' s' (<[i := t']> ts)).
Proof.
  intros (Hv & Hm & Hb & H1 & H2 & Ha & Hc & Hd & He & Hf) Ht Ex. cbn [sems store threads] in *.
  pc_of (4, 9)%nat Ht. pc_of (11, 12)%nat Ht. pc_of (14, 17)%nat Ht. pc_of (19, 19)%nat Ht. pc_of (17, 17)%nat Ht.
  pc_of (2, 6)%nat Ht. pc_of (5, 14)%nat Ht. pc_of (1, 2)%nat Ht. pc_of (6, 8)%nat Ht. pc_of (11, 11)%nat Ht.
  pc_add ((14, 16), (17, 17))%nat ts. pc_of (14, 16)%nat Ht.
  rewrite baton_parts in Hb. destruct s as [r1 r2 c], t as [r p []]. cbn [room1 room2] in *.
  split_pc 21%nat p; step_cases Ex; unfold ns_inv; rewrite baton_parts; cbn [sems store threads room1 room2]; sums Ht;
    (split_and!; try assumption; try (apply Forall_insert_list; [assumption|cbn; lia]); try lia).
Qed.

Lemma nsm_reach n m : reach worker (ns_main n) m -> ns_inv m.
Proof. apply reach_inv; [apply ns_inv_init|]. intros. by eapply nsm_step. Qed.

(** Some thread can always run. *)
Lemma ns_not_stuck v s ts : ns_inv (mkMachine v s ts) -> ts <> [] -> ~ stuck worker (mkMachine v s ts).
Proof.
  intros (Hv & Hm & Hb & H1 & H2 & Ha & Hc & Hd & He & Hf) Hne Hs%stuck_exec. cbn [sems store threads] in *.
  assert (Hpc : Forall (fun t => (t.(pc) = 0 \/ t.(pc) = 5)%nat /\ v NsMutex <= 0 \/ t.(pc) = 3%nat /\ v T1 <= 0 \/
    t.(pc) = 13%nat /\ v T2 <= 0) ts).
  { apply Forall_lookup. intros i t Ht. pose proof (proj1 (Forall_lookup _ _) Hf _ _ Ht) as Hi.
    pose proof (proj1 (Forall_lookup _ _) Hs _ _ Ht) as Ex. destruct t as [r p l]. cbn [pc] in *.
    split_pc 21%nat p; cbn in Ex; try discriminate Ex; try lia;
      repeat match type of Ex with context [if ?b then _ else _] => destruct b eqn:? end; try discriminate Ex; lia. }
  clear Hs. rewrite baton_parts in Hb.
  assert (E1 : tsum (at_pc 1 2) ts = 0) by (apply at_pc_none; forall_lia).
  assert (E2 : tsum (at_pc 6 8) ts = 0) by (apply at_pc_none; forall_lia).
  assert (E3 : tsum (at_pc 11 11) ts = 0) by (apply at_pc_none; forall_lia).
  assert (E4 : v NsMutex = 1) by lia. assert (E5 : tsum (at_pc 4 9) ts = 0) by (apply at_pc_none; forall_lia).
  assert (E6 : tsum (at_pc 11 12) ts = 0) by (apply at_pc_none; forall_lia).
  assert (E7 : tsum (at_pc 14 17) ts = 0) by (apply at_pc_none; forall_lia).
  assert (E8 : tsum (at_pc 19 19) ts = 0) by (apply at_pc_none; forall_lia).
  assert (Hlen : (0 < length ts)%nat) by (destruct ts; [done|cbn; lia]).
  destruct (decide (v T1 <= 0)) as [Hz|Hz].
  - assert (E : tsum (at_pc 5 14) ts = 0) by (apply at_pc_none; forall_lia). lia.
  - assert (E : tsum (at_pc 2 6) ts = 0) by (apply at_pc_none; forall_lia).
    assert (E' : tsum (at_pc 5 14) ts = Z.of_nat (length ts)) by (apply at_pc_every; forall_lia). lia.
Qed.

Lemma baton_1 t : (4 <= t.(pc) <= 9 \/ 11 <= t.(pc) <= 12 \/ 14 <= t.(pc) <= 17 \/ t.(pc) = 19)%nat -> 1 <= baton t.
Proof.
  intros H. pose proof (at_pc_nonneg 4 9 t). pose proof (at_pc_nonneg 11 12 t). pose proof (at_pc_nonneg 14 17 t).
  pose proof (at_pc_nonneg 19 19 t). unfold baton.
  destruct H as [H|[H|[H|H]]]; [rewrite (at_pc_1 4 9)|rewrite (at_pc_1 11 12)|rewrite (at_pc_1 14 17)|rewrite (at_pc_1 19 19)]; lia.
Qed.

(** ** Properties *)

(** C21: the mutex of [mutex-nostarve.c], for any number of threads and any
    schedule: the critical section (the instructions 14 to 19, with the update
    of [counter]) and every access to [room2] exclude each other; some thread
    can always run; and while a thread leaves the second room or may leave it,
    no thread enters it, until the room is empty. *)
Theorem ns_mutex_correct n m :
  reach worker (ns_main n) m ->
  let held (t : thread unit unit) :=
    (4 <= t.(pc) <= 9 \/ 11 <= t.(pc) <= 12 \/ 14 <= t.(pc) <= 17 \/ t.(pc) = 19)%nat in
  (forall i j t u, m.(threads) !! i = Some t -> m.(threads) !! j = Some u -> i <> j -> held t -> ~ held u) /\
  ((0 < n)%nat -> ~ stuck worker m) /\
  (forall t, t ∈ m.(threads) -> t.(pc) = 3%nat ->
     0 < m.(sems) T2 \/ (exists u, u ∈ m.(threads) /\ (14 <= u.(pc) <= 17 \/ u.(pc) = 19)%nat) ->
     exec worker m.(sems) m.(store) t = None) /\
  m.(store).(room2) = tsum (at_pc 5 14) m.(threads) /\
  (forall t, t ∈ m.(threads) -> t.(pc) = 17%nat -> m.(store).(room2) = 0).
Proof.
  intros Hm held. pose proof (reach_roles _ _ _ Hm) as Hroles. apply nsm_reach in Hm as Hinv.
  destruct m as [v s ts]. cbn [threads sems store] in *. split_and!.
  - intros i j t u Hi Hj Hne Ht%baton_1 Hu%baton_1. pose proof (tsum_ge2 baton ts i j t u baton_nonneg Hne Hi Hj).
    destruct Hinv as ((_ & ? & ?) & _ & Hb & _). cbn [sems threads] in *. lia.
  - intros Hn. apply ns_not_stuck; [done|]. intros ->. destruct n; [lia|discriminate Hroles].
  - intros t Ht Hp Hex. destruct t as [r p l]. cbn [pc] in Hp. subst p.
    destruct Hinv as ((_ & ? & ?) & _ & Hb & _). cbn [sems threads] in *. pose proof (tsum_nonneg baton ts baton_nonneg).
    assert (v T1 = 0).
    { destruct Hex as [?|(u & (j & Hu)%list_elem_of_lookup & Hpu)]; [lia|].
      pose proof (tsum_ge baton ts j u baton_nonneg Hu). pose proof (baton_1 u ltac:(lia)). lia. }
    cbn. destruct (Z.ltb_spec 0 (v T1)); [lia|done].
  - destruct Hinv as (_ & _ & _ & _ & H & _). exact H.
  - intros t (i & Ht)%list_elem_of_lookup Hp. destruct Hinv as (_ & _ & _ & _ & _ & _ & _ & _ & Hr & _).
    cbn [store threads] in Hr. pc_of (17, 17)%nat Ht. rewrite at_pc_1 in * by lia. lia.
Qed.

(** Two threads, one of them in the critical section. *)
Lemma ns_mutex_correct_witness :
  exists m, reach worker (ns_main 2) m /\ pc <$> m.(threads) = [15; 3]%nat /\ ~ stuck worker m /\
    (forall t, t ∈ m.(threads) -> t.(pc) = 3%nat ->
     0 < m.(sems) T2 \/ (exists u, u ∈ m.(threads) /\ (14 <= u.(pc) <= 17 \/ u.(pc) = 19)%nat) ->
     exec worker m.(sems) m.(store) t = None).
Proof.
  destruct (run_witness worker (fun m => pc <$> m.(threads) = [15; 3]%nat)
    (replicate 13 0 ++ replicate 3 1)%nat (ns_main 2)) as (m & Hm & H); [vm_compute; reflexivity|].
  destruct (ns_mutex_correct 2 m Hm) as (_ & H2 & H3 & _).
  exists m. split; [exact Hm|]. split; [exact H|]. split; [apply H2; lia|exact H3].
Defined.
