(* ===== verification/Savages.v ===== *)
(** * The dining savages

    [31/dining_savages.c]: the savages eat one portion each from a pot of
    [pot_size] portions; the one who finds it empty wakes the cook, who fills
    it [loop] times. *)

From Stdlib Require Import ZArith Lia.
From stdpp Require Import base tactics list numbers relations.
From S2P Require Import Prelude Threads.

Local Open Scope Z_scope.

(** ** Definitions *)

Inductive pot_sem := EmptyPot | FullPot | PotMutex.

#[export] Instance pot_sem_eq : EqDecision pot_sem.
Proof. solve_decision. Defined.

Inductive pot_role := Cook | Savage.

#[export] Instance pot_role_eq : EqDecision pot_role.
Proof. solve_decision. Defined.

(** [stewed_missionaries], [pot_size], and the lines printed by the cook and by
    the savages, counted. *)
Record pot := mkPot { stewed : Z; pot_size : Z; savages_num : Z; fills : Z; feasts : Z }.

(** The cook's [i] and [loop]. *)
Record pot_loc := mkPotLoc { ci : Z; cloop : Z }.

Definition pot_instr : Type := instr pot_sem pot_loc pot.

Definition pot_wait (k : pot_sem) : pot_instr := Wait (fun _ => k).

Definition pot_post (k : pot_sem) : pot_instr := Post (fun _ => k).

Definition set_stewed (f : pot -> Z) : pot_instr :=
  Act (fun l s => (l, mkPot (f s) s.(pot_size) s.(savages_num) s.(fills) s.(feasts))).

(** [loop], for [savages_num] savages. *)
Definition cook_loop (savages_num pot_size : Z) : Z :=
  if Z.rem savages_num pot_size =? 0 then Z.quot savages_num pot_size else Z.quot savages_num pot_size + 1.

Definition cook : list pot_instr :=
  [ Act (fun l s => (mkPotLoc 0 (cook_loop s.(savages_num) s.(pot_size)), s));
    Unless (fun l _ => l.(ci) <? l.(cloop)) 5;
    pot_wait EmptyPot;
    Act (fun l s => (l, mkPot s.(stewed) s.(pot_size) s.(savages_num) (s.(fills) + 1) s.(feasts)));
    pot_post FullPot;
    Act (fun l s => (mkPotLoc (l.(ci) + 1) l.(cloop), s));
    Back 5 ].

Definition savage : list pot_instr :=
  [ pot_wait PotMutex;
    Unless (fun _ s => s.(stewed) =? 0) 3;
    pot_post EmptyPot;
    pot_wait FullPot;
    set_stewed pot_size;
    set_stewed (fun s => s.(stewed) - 1);
    Act (fun l s => (l, mkPot s.(stewed) s.(pot_size) s.(savages_num) s.(fills) (s.(feasts) + 1)));
    pot_post PotMutex ].

Definition pot_code (r : pot_role) : list pot_instr := match r with Cook => cook | Savage => savage end.

(** [init_sem] and the threads of [main]. *)
Definition pot_main (n : nat) (pot_size : Z) : machine pot_sem pot_role pot_loc pot :=
  mkMachine (fun k => match k with PotMutex => 1 | _ => 0 end) (mkPot 0 pot_size (Z.of_nat n) 0 0)
    (mkThread Cook 0 (mkPotLoc 0 0) :: replicate n (mkThread Savage 0 (mkPotLoc 0 0))).

(** ** The invariant *)

(** The pots the cook has put on the table. *)
Definition cooked (t : thread pot_role pot_loc) : Z :=
  match t.(role), t.(pc) with
  | Savage, _ => 0
  | Cook, 0%nat => 0
  | Cook, 5%nat => t.(loc).(ci) + 1
  | Cook, _ => t.(loc).(ci)
  end.

(** The lines the cook has printed. *)
Definition filled (t : thread pot_role pot_loc) : Z :=
  match t.(role), t.(pc) with
  | Savage, _ => 0
  | Cook, 0%nat => 0
  | Cook, 4%nat | Cook, 5%nat => t.(loc).(ci) + 1
  | Cook, _ => t.(loc).(ci)
  end.

Definition loc_ok (K : Z) (t : thread pot_role pot_loc) : Prop :=
  match t.(role) with
  | Savage => (t.(pc) <= 8)%nat
  | Cook =>
      match t.(pc) with
      | 0%nat => True
      | 1%nat | 6%nat => 0 <= t.(loc).(ci) <= K /\ t.(loc).(cloop) = K
      | 7%nat => t.(loc).(ci) = K /\ t.(loc).(cloop) = K
      | p => 0 <= t.(loc).(ci) < K /\ t.(loc).(cloop) = K /\ (p <= 7)%nat
      end
  end.

Abbreviation csum lo hi ts := (tsum (at_role (L:=pot_loc) Cook lo hi) ts).
Abbreviation ssum lo hi ts := (tsum (at_role (L:=pot_loc) Savage lo hi) ts).

Definition pot_inv (n p : Z) (m : machine pot_sem pot_role pot_loc pot) : Prop :=
  let v := m.(sems) in let s := m.(store) in let ts := m.(threads) in
  s.(pot_size) = p /\ s.(savages_num) = n /\ csum 0 7 ts = 1 /\ ssum 0 8 ts = n /\
  (0 <= v EmptyPot /\ 0 <= v FullPot /\ 0 <= v PotMutex) /\
  v PotMutex + ssum 1 7 ts = 1 /\
  v EmptyPot + v FullPot + csum 3 4 ts = ssum 3 3 ts /\
  0 <= s.(stewed) /\
  s.(stewed) + ssum 6 8 ts = p * (tsum cooked ts - v FullPot - ssum 4 4 ts) /\
  (ssum 2 4 ts = 0 \/ s.(stewed) = 0) /\ (ssum 5 5 ts = 0 \/ 0 < s.(stewed)) /\
  s.(fills) = tsum filled ts /\ s.(feasts) = ssum 7 8 ts /\
  Forall (loc_ok (cook_loop n p)) ts.

Lemma cook_loop_spec n p : 0 < n -> 0 < p -> n <= p * cook_loop n p < n + p.
Proof.
  intros Hn Hp. unfold cook_loop. pose proof (Z.quot_rem' n p). pose proof (Z.rem_bound_pos n p ltac:(lia) Hp).
  destruct (Z.eqb_spec (Z.rem n p) 0); lia.
Qed.

Lemma pot_inv_init n p : (0 < n)%nat -> 0 < p -> pot_inv (Z.of_nat n) p (pot_main n p).
Proof.
  intros Hn Hp. unfold pot_inv, pot_main. cbn [sems store threads stewed pot_size savages_num fills feasts].
  rewrite !tsum_cons, !tsum_replicate. eval_roles. cbn [cooked filled role pc].
  split_and!; try lia; [auto..|]. constructor; [done|]. apply Forall_replicate. cbn. lia.
Qed.

Lemma pot_step n p v s ts i t v' s' t' :
  0 < n -> 0 < p -> pot_inv n p (mkMachine v s ts) -> ts !! i = Some t -> exec pot_code v s t = Some (v', s', t') ->
  pot_inv n p (mkMachine v' s' (<[i := t']> ts)).
Proof.
  intros Hn Hp (E1 & E2 & Hc & Hs & Hv & Hm & Hq & Hst & Heq & Hz & Hz5 & Hf & He & Hl) Ht Ex. cbn [sems store threads] in *.
  role_split Savage (1, 1, 7)%nat ts. role_split Savage (2, 4, 7)%nat ts. role_split Savage (5, 5, 7)%nat ts.
  role_split Savage (2, 2, 4)%nat ts. role_split Savage (3, 3, 4)%nat ts. 
  role_of Savage (1, 1)%nat Ht. role_of Savage (2, 2)%nat Ht. role_of Savage (3, 3)%nat Ht. role_of Savage (4, 4)%nat Ht.
  role_of Savage (5, 5)%nat Ht. role_of Savage (6, 7)%nat Ht. role_of Savage (6, 8)%nat Ht. role_of Cook (3, 4)%nat Ht.
  pose proof (cook_loop_spec n p Hn Hp). pose proof (proj1 (Forall_lookup _ _) Hl _ _ Ht) as Hlt.
  destruct s as [st ps sn fl fe], t as [[] q [ci0 cl]]; cbn [stewed pot_size savages_num fills feasts] in *; subst ps sn;
    [split_pc 8%nat q|split_pc 9%nat q]; step_cases Ex; unfold pot_inv;
    cbn [sems store threads stewed pot_size savages_num fills feasts] in *; sums Ht;
    cbn [cooked filled loc_ok role pc loc ci cloop] in *;
    (split_and!; try assumption; try (apply Forall_insert_list; [assumption|cbn; nia]); try lia).
Qed.

Lemma pot_reach n p m :
  (0 < n)%nat -> 0 < p -> reach pot_code (pot_main n p) m -> pot_inv (Z.of_nat n) p m.
Proof.
  intros Hn Hp. apply reach_inv; [by apply pot_inv_init|]. intros. eapply pot_step; [lia|done|done|done|done].
Qed.

(** ** Termination *)

(** The instructions a thread still executes, at most. *)
Definition pot_rem (K : Z) (t : thread pot_role pot_loc) : Z :=
  match t.(role), t.(pc) with
  | Savage, p => 8 - Z.of_nat p
  | Cook, 0%nat => 6 * K + 2
  | Cook, 6%nat => 6 * (K - t.(loc).(ci)) + 2
  | Cook, 7%nat => 0
  | Cook, p => 6 * (K - t.(loc).(ci)) + 2 - Z.of_nat p
  end.

Lemma pot_rem_nonneg K t : 0 <= K -> loc_ok K t -> 0 <= pot_rem K t.
Proof.
  destruct t as [[] p l]; unfold loc_ok, pot_rem; cbn [role pc loc]; intros HK; [split_pc 8%nat p|]; lia.
Qed.

Lemma pot_rem_step n p v s ts i t v' s' t' :
  pot_inv n p (mkMachine v s ts) -> ts !! i = Some t -> exec pot_code v s t = Some (v', s', t') ->
  tsum (pot_rem (cook_loop n p)) (<[i := t']> ts) < tsum (pot_rem (cook_loop n p)) ts.
Proof.
  intros (E1 & E2 & _ & _ & _ & _ & _ & _ & _ & _ & _ & _ & _ & Hl) Ht Ex. cbn [store threads] in *.
  pose proof (proj1 (Forall_lookup _ _) Hl _ _ Ht) as Hlt. rewrite (tsum_step _ _ _ _ _ Ht).
  destruct s as [st ps sn fl fe], t as [[] q [ci0 cl]]; cbn [pot_size savages_num] in *; subst ps sn;
    [split_pc 8%nat q|split_pc 9%nat q]; step_cases Ex; cbn [pot_rem loc_ok role pc loc ci cloop Nat.add Nat.sub] in *; lia.
Qed.

(** What a thread that cannot run waits for. *)
Definition pot_blocked (v : pot_sem -> Z) (t : thread pot_role pot_loc) : Prop :=
  match t.(role) with
  | Cook => t.(pc) = 2%nat /\ v EmptyPot <= 0 \/ t.(pc) = 7%nat
  | Savage => t.(pc) = 0%nat /\ v PotMutex <= 0 \/ t.(pc) = 3%nat /\ v FullPot <= 0 \/ t.(pc) = 8%nat
  end.

Lemma pot_stuck_blocked n p v s ts :
  pot_inv n p (mkMachine v s ts) -> stuck pot_code (mkMachine v s ts) -> Forall (pot_blocked v) ts.
Proof.
  intros (_ & _ & _ & _ & _ & _ & _ & _ & _ & _ & _ & _ & _ & Hl) Hs%stuck_exec. cbn [threads] in Hl.
  apply Forall_lookup. intros i t Ht. pose proof (proj1 (Forall_lookup _ _) Hl _ _ Ht) as Hit.
  pose proof (proj1 (Forall_lookup _ _) Hs _ _ Ht) as Ex. cbv beta in Ex. unfold pot_blocked.
  destruct t as [[] q l]; unfold loc_ok in Hit; cbn [role pc loc] in *; [split_pc 8%nat q|split_pc 9%nat q];
    cbn in Ex; try discriminate Ex;
    repeat match type of Ex with context [if ?b then _ else _] => destruct b eqn:? end; try discriminate Ex; lia.
Qed.

Ltac pot_lia :=
  apply Forall_lookup; intros ? u ?;
  repeat match goal with
  | H : Forall _ ?ts, Ht : ?ts !! _ = Some _ |- _ =>
      let H' := fresh H in pose proof (proj1 (Forall_lookup _ _) H _ _ Ht) as H'; clear H
  end; unfold pot_blocked in *; cbv beta in *; destruct (role u); try (intros [=]); try intros _; lia.

(** The first thread is the cook, the others are savages. *)
Lemma pot_threads n p m :
  reach pot_code (pot_main n p) m ->
  exists c ss, m.(threads) = c :: ss /\ c.(role) = Cook /\ Forall (fun t => t.(role) = Savage) ss /\ length ss = n /\
    forall w, (forall t, t.(role) = Savage -> w t = 0) -> tsum w m.(threads) = w c.
Proof.
  intros Hm%reach_roles. cbn [pot_main threads] in Hm. rewrite fmap_cons, fmap_replicate in Hm. cbn [role] in Hm.
  destruct (threads m) as [|c ss]; [done|]. rewrite fmap_cons in Hm. injection Hm as Hc Hss. exists c, ss.
  assert (Hr : Forall (fun t => t.(role) = Savage) ss).
  { apply Forall_lookup. intros i t Ht. assert (H : (role <$> ss) !! i = Some t.(role)) by (by rewrite list_lookup_fmap, Ht).
    rewrite Hss in H. apply lookup_replicate in H as [H _]. done. }
  split_and!; [done|done|done|by rewrite <- (length_fmap role ss), Hss, length_replicate|].
  intros w Hw. rewrite tsum_cons, (tsum_zero w ss); [lia|]. eapply Forall_impl; [exact Hr|]. apply Hw.
Qed.

(** When no thread can run, all have ended. *)
Lemma pot_stuck n p m :
  (0 < n)%nat -> 0 < p -> reach pot_code (pot_main n p) m -> stuck pot_code m ->
  Forall (fun t => t.(pc) = match t.(role) with Cook => 7 | Savage => 8 end)%nat m.(threads).
Proof.
  intros Hn Hp Hm Hs. destruct (pot_threads _ _ _ Hm) as (c & ss & Ets & Rc & Rs & Hlen & Hcook).
  pose proof (pot_reach _ _ _ Hn Hp Hm) as Hinv. destruct m as [v s ts].
  pose proof (pot_stuck_blocked _ _ _ _ _ Hinv Hs) as Hb. cbn [threads] in *. clear Hs.
  destruct Hinv as (_ & _ & Hc & Hsv & Hv & Hmx & Hq & Hst & Heq & Hz & _ & _ & _ & Hl). cbn [sems store threads] in *.
  pose proof (cook_loop_spec (Z.of_nat n) p ltac:(lia) Hp) as HK.
  assert (Hbc : pot_blocked v c) by (by rewrite Ets in Hb; apply Forall_cons in Hb as [? _]).
  assert (Hlc : loc_ok (cook_loop (Z.of_nat n) p) c) by (by rewrite Ets in Hl; apply Forall_cons in Hl as [? _]).
  rewrite (Hcook cooked) in Heq by (intros t Ht; unfold cooked; by rewrite Ht).
  role_split Savage (0, 2, 8)%nat ts. role_split Savage (3, 3, 8)%nat ts. role_split Savage (4, 5, 8)%nat ts.
  role_split Savage (1, 2, 7)%nat ts. role_split Savage (3, 3, 7)%nat ts. role_split Savage (2, 2, 4)%nat ts.
  role_split Savage (3, 3, 4)%nat ts.
  assert (E1 : ssum 1 2 ts = 0) by (apply at_role_none; pot_lia). assert (E2 : ssum 2 2 ts = 0) by (apply at_role_none; pot_lia).
  assert (E4 : ssum 4 4 ts = 0) by (apply at_role_none; pot_lia). assert (E5 : ssum 4 5 ts = 0) by (apply at_role_none; pot_lia).
  assert (E7 : ssum 4 7 ts = 0) by (apply at_role_none; pot_lia). assert (Ec : csum 3 4 ts = 0) by (apply at_role_none; pot_lia).
  assert (Enn : 0 <= ssum 0 2 ts) by (apply tsum_nonneg, at_role_nonneg).
  assert (Enn3 : 0 <= ssum 3 3 ts) by (apply tsum_nonneg, at_role_nonneg).
  unfold pot_blocked, loc_ok, cooked in *. rewrite Rc in *.
  assert (E3 : ssum 3 3 ts = 0).
  { destruct (decide (v FullPot <= 0)); [|apply at_role_none; pot_lia].
    destruct Hbc as [[Pc ?]|Pc]; rewrite Pc in *; [lia|]. nia. }
  assert (Emx : v PotMutex = 1) by lia.
  assert (E02 : ssum 0 2 ts = 0) by (apply at_role_none; pot_lia).
  assert (Pc7 : c.(pc) = 7%nat) by (destruct Hbc as [[Pc ?]|Pc]; [exfalso|done]; rewrite Pc in *; nia).
  apply (tsum_all _ _ (at_role_nonneg Savage 3 3)) in E3. rewrite Ets in *. apply Forall_cons in Hb as [_ Hb], E3 as [_ E3].
  apply Forall_cons. split; [by rewrite Rc|]. apply Forall_lookup. intros i t Ht.
  pose proof (proj1 (Forall_lookup _ _) Hb _ _ Ht) as Hbt. pose proof (proj1 (Forall_lookup _ _) E3 _ _ Ht) as H3t.
  pose proof (proj1 (Forall_lookup _ _) Rs _ _ Ht) as Rt. cbv beta in *. rewrite Rt in *.
  destruct Hbt as [?|[[Pt _]|?]]; [lia| |done]. rewrite at_role_1 in H3t by (done || lia). lia.
Qed.

(** ** Properties *)

(** C22: the dining savages, for any number of savages, any pot and any schedule.
    The program ends: it executes a bounded number of instructions, and when no
    thread can run every savage has eaten once and the cook has filled the pot
    exactly as often as needed.  On the way the pot never holds a negative
    number of portions, a portion is only taken from a pot that is not empty,
    and one savage at a time is at the pot. *)
Theorem savages_correct n p :
  (0 < n)%nat -> 0 < p ->
  (forall k m, nsteps (mstep pot_code) k (pot_main n p) m ->
     Z.of_nat k <= 6 * cook_loop (Z.of_nat n) p + 2 + 8 * Z.of_nat n) /\
  (forall m, reach pot_code (pot_main n p) m ->
     0 <= m.(store).(stewed) /\
     (forall t, t ∈ m.(threads) -> t.(role) = Savage -> t.(pc) = 5%nat -> 0 < m.(store).(stewed)) /\
     ssum 1 7 m.(threads) <= 1 /\
     (stuck pot_code m ->
        finished pot_code m /\ m.(store).(feasts) = Z.of_nat n /\ m.(store).(fills) = cook_loop (Z.of_nat n) p)) /\
  Z.of_nat n <= p * cook_loop (Z.of_nat n) p < Z.of_nat n + p.
Proof.
  intros Hn Hp. pose proof (cook_loop_spec (Z.of_nat n) p ltac:(lia) Hp) as HK. assert (HK0 : 0 <= cook_loop (Z.of_nat n) p) by nia.
  split_and!; [| |lia|lia].
  - intros k m Hk.
    pose proof (steps_bounded _ (pot_inv (Z.of_nat n) p) (fun m => tsum (pot_rem (cook_loop (Z.of_nat n) p)) (threads m))
      (pot_main n p) (fun m => pot_reach n p m Hn Hp)) as H.
    specialize (H ltac:(intros m' (_ & _ & _ & _ & _ & _ & _ & _ & _ & _ & _ & _ & _ & Hl);
      rewrite <- (Z.mul_0_l (Z.of_nat (length (threads m')))), <- tsum_const; apply tsum_le;
      eapply Forall_impl; [exact Hl|]; intros t Ht; by apply pot_rem_nonneg)).
    specialize (H ltac:(intros; by eapply pot_rem_step) k m Hk). cbn [pot_main threads] in H.
    rewrite tsum_cons, tsum_replicate in H. cbn [pot_rem role pc] in H. lia.
  - intros m Hm. pose proof (pot_reach _ _ _ Hn Hp Hm) as Hinv. pose proof (pot_stuck n p m Hn Hp Hm) as Hst.
    destruct (pot_threads _ _ _ Hm) as (c & ss & Ets & Rc & Rs & Hlen & Hcook). destruct m as [v s ts].
    destruct Hinv as (_ & _ & _ & Hsv & Hv & Hmx & _ & H0 & _ & _ & H5 & Hfl & Hfe & Hl). cbn [sems store threads] in *.
    split_and!; [done| |lia|].
    + intros t (i & Ht)%list_elem_of_lookup Rt Pt. pose proof (at_role_lt Savage 5 5 _ _ _ Ht Rt ltac:(lia)). lia.
    + intros Hs. specialize (Hst Hs). split_and!.
      * eapply Forall_impl; [exact Hst|]. intros t Ht. unfold ended. rewrite Ht. by destruct (role t).
      * rewrite Hfe, <- Hsv. apply tsum_ext. eapply Forall_impl; [exact Hst|]. intros [[] q l] Ht; cbn in Ht; by subst q.
      * rewrite Hfl, (Hcook filled) by (intros t Ht; unfold filled; by rewrite Ht).
        rewrite Ets in Hst, Hl. apply Forall_cons in Hst as [Pc _], Hl as [Hlc _]. unfold filled, loc_ok in *. rewrite Rc in *.
        rewrite Pc in *. apply Hlc.
Qed.

(** Three savages and a pot of two portions, as in [main]: the first savage is
    at the pot, the cook is cooking. *)
Lemma savages_correct_witness :
  (forall k m, nsteps (mstep pot_code) k (pot_main 3 2) m -> Z.of_nat k <= 38) /\
  exists m, reach pot_code (pot_main 3 2) m /\ pc <$> m.(threads) = [3; 3; 0; 0]%nat /\ ssum 1 7 m.(threads) <= 1.
Proof.
  destruct (savages_correct 3 2) as (H1 & H2 & _); [lia|lia|]. split; [exact H1|].
  destruct (run_witness pot_code (fun m => pc <$> m.(threads) = [3; 3; 0; 0]%nat)
    [0; 0; 1; 1; 1; 0]%nat (pot_main 3 2)) as (m & Hm & H); [vm_compute; reflexivity|].
  exists m. split; [exact Hm|]. split; [exact H|]. apply H2, Hm.
Defined.
