(* ===== verification/Barbershop.v ===== *)
(** * The barbershop

    [31/barbershop.c].  The barber is a loop without end that [main] cancels
    after the customers. *)

From Stdlib Require Import ZArith Lia.
From stdpp Require Import base tactics list numbers relations.
From S2P Require Import Prelude Threads.

Local Open Scope Z_scope.

Inductive shop_sem := ShopMutex | CustomerArrives | BarberWakes | CustomerLeaves | BarberSleeps.

#[export] Instance shop_sem_eq : EqDecision shop_sem.
Proof. solve_decision. Defined.

Inductive shop_role := Barber | Customer.

#[export] Instance shop_role_eq : EqDecision shop_role.
Proof. solve_decision. Defined.

(** The sums of the threads of a role in a range of instructions. *)
Definition bsum {L} (lo hi : nat) (ts : list (thread shop_role L)) : Z := tsum (at_role Barber lo hi) ts.

Definition csum {L} (lo hi : nat) (ts : list (thread shop_role L)) : Z := tsum (at_role Customer lo hi) ts.

(** What a blocked thread waits for, as [Forall] facts on the threads. *)
Ltac shop_lia :=
  apply Forall_lookup; intros ? u ?;
  repeat match goal with
  | H : Forall _ ?ts, Ht : ?ts !! _ = Some _ |- _ =>
      let H' := fresh H in pose proof (proj1 (Forall_lookup _ _) H _ _ Ht) as H'; clear H
  end; cbv beta in *; destruct (role u); try (intros [=]); try intros _;
  repeat match goal with H : ?a = ?a -> _ |- _ => specialize (H eq_refl) end; lia.

Module Shop.

Record shop := mkShop { customers : Z; chairs : Z; haircuts : Z }.

Definition shop_instr : Type := instr shop_sem unit shop.

Definition shop_wait (k : shop_sem) : shop_instr := Wait (fun _ => k).

Definition shop_post (k : shop_sem) : shop_instr := Post (fun _ => k).

Definition add_customers (d : Z) : shop_instr := Act (fun l s => (l, mkShop (s.(customers) + d) s.(chairs) s.(haircuts))).

Definition barber : list shop_instr :=
  [ shop_wait CustomerArrives; shop_post BarberWakes; shop_wait CustomerLeaves; shop_post BarberSleeps; Back 4 ].

Definition customer : list shop_instr :=
  [ shop_wait ShopMutex;
    Unless (fun _ s => s.(customers) =? s.(chairs)) 2;
    shop_post ShopMutex;
    Exit;
    add_customers 1;
    shop_post ShopMutex;
    shop_post CustomerArrives;
    shop_wait BarberWakes;
    Act (fun l s => (l, mkShop s.(customers) s.(chairs) (s.(haircuts) + 1)));
    shop_post CustomerLeaves;
    shop_wait BarberSleeps;
    shop_wait ShopMutex;
    add_customers (-1);
    shop_post ShopMutex ].

Definition shop_code (r : shop_role) : list shop_instr := match r with Barber => barber | Customer => customer end.

(** [init_sem] and the threads of [main]. *)
Definition shop_main (total_customers : nat) (chairs : Z) : machine shop_sem shop_role unit shop :=
  mkMachine (fun k => match k with ShopMutex => 1 | _ => 0 end) (mkShop 0 chairs 0)
    (mkThread Barber 0 tt :: replicate total_customers (mkThread Customer 0 tt)).

Definition inv (c : Z) (m : machine shop_sem shop_role unit shop) : Prop :=
  let v := m.(sems) in let s := m.(store) in let ts := m.(threads) in
  s.(chairs) = c /\ bsum 0 4 ts = 1 /\
  (0 <= v ShopMutex /\ 0 <= v CustomerArrives /\ 0 <= v BarberWakes /\ 0 <= v CustomerLeaves /\ 0 <= v BarberSleeps) /\
  v ShopMutex + csum 1 2 ts + csum 4 5 ts + csum 12 13 ts = 1 /\
  s.(customers) = csum 5 12 ts /\ s.(customers) <= c /\ (csum 4 4 ts = 0 \/ s.(customers) < c) /\
  csum 7 7 ts = v CustomerArrives + bsum 1 1 ts + v BarberWakes /\
  v BarberWakes + csum 8 9 ts + v CustomerLeaves = bsum 2 2 ts /\
  csum 10 10 ts = v CustomerLeaves + bsum 3 3 ts + v BarberSleeps /\
  Forall (fun t => match t.(role) with Barber => t.(pc) <= 4 | Customer => t.(pc) <= 14 end)%nat ts.

Lemma inv_init n c : 0 < c -> inv c (shop_main n c).
Proof.
  intros Hc. unfold inv, shop_main, bsum, csum. cbn [sems store threads customers chairs].
  rewrite !tsum_cons, !tsum_replicate. eval_roles. split_and!; try lia.
  constructor; [cbn; lia|]. apply Forall_replicate. cbn. lia.
Qed.

Lemma inv_step c v s ts i t v' s' t' :
  inv c (mkMachine v s ts) -> ts !! i = Some t -> exec shop_code v s t = Some (v', s', t') ->
  inv c (mkMachine v' s' (<[i := t']> ts)).
Proof.
  intros (Ec & Hb & Hv & Hm & Hcu & Hcap & Hcap4 & H7 & H8 & H10 & Hpc) Ht Ex. cbn [sems store threads] in *.
  unfold bsum, csum in *. role_of Customer (1, 2)%nat Ht. role_of Customer (4, 5)%nat Ht. role_of Customer (12, 13)%nat Ht.
  role_of Customer (4, 4)%nat Ht. role_of Customer (5, 12)%nat Ht. role_of Customer (7, 7)%nat Ht.
  role_of Customer (8, 9)%nat Ht. role_of Customer (10, 10)%nat Ht. role_of Barber (1, 1)%nat Ht.
  role_of Barber (2, 2)%nat Ht. role_of Barber (3, 3)%nat Ht. role_split Customer (4, 4, 5)%nat ts.
  role_of Customer (5, 5)%nat Ht.
  destruct s as [cu ch hc], t as [[] p l]; cbn [customers chairs] in *; subst ch;
    [split_pc 5%nat p|split_pc 15%nat p]; step_cases Ex; unfold inv, bsum, csum;
    cbn [sems store threads customers chairs] in *; sums Ht;
    (split_and!; try assumption; try (apply Forall_insert_list; [assumption|cbn; lia]); try lia).
Qed.

Lemma reach_ok n c m : 0 < c -> reach shop_code (shop_main n c) m -> inv c m.
Proof. intros Hc. apply reach_inv; [by apply inv_init|]. intros. by eapply inv_step. Qed.

(** When no thread can run, the barber sleeps and every customer has left. *)
Lemma stuck_ok c v s ts :
  inv c (mkMachine v s ts) -> stuck shop_code (mkMachine v s ts) ->
  Forall (fun t => t.(pc) = match t.(role) with Barber => 0 | Customer => 14 end)%nat ts.
Proof.
  intros (_ & Hb & Hv & Hm & Hcu & _ & _ & H7 & H8 & H10 & Hpc) Hs%stuck_exec. cbn [sems store threads] in *.
  assert (Hw : Forall (fun t => match t.(role) with
    | Barber => t.(pc) = 0%nat /\ v CustomerArrives <= 0 \/ t.(pc) = 2%nat /\ v CustomerLeaves <= 0
    | Customer => (t.(pc) = 0 \/ t.(pc) = 11)%nat /\ v ShopMutex <= 0 \/ t.(pc) = 7%nat /\ v BarberWakes <= 0 \/
                  t.(pc) = 10%nat /\ v BarberSleeps <= 0 \/ t.(pc) = 14%nat end) ts).
  { apply Forall_lookup. intros i t Ht. pose proof (proj1 (Forall_lookup _ _) Hpc _ _ Ht) as Hi.
    pose proof (proj1 (Forall_lookup _ _) Hs _ _ Ht) as Ex. destruct t as [[] p l]; cbn [role pc] in *;
      [split_pc 5%nat p|split_pc 15%nat p]; cbn in Ex; try discriminate Ex;
      repeat match type of Ex with context [if ?b then _ else _] => destruct b eqn:? end; try discriminate Ex; lia. }
  clear Hs Hpc. unfold bsum, csum in *.
  assert (E1 : tsum (at_role Customer 1 2) ts = 0) by (apply at_role_none; shop_lia).
  assert (E2 : tsum (at_role Customer 4 5) ts = 0) by (apply at_role_none; shop_lia).
  assert (E3 : tsum (at_role Customer 12 13) ts = 0) by (apply at_role_none; shop_lia).
  assert (E4 : tsum (at_role Customer 8 9) ts = 0) by (apply at_role_none; shop_lia).
  assert (E5 : tsum (at_role Barber 1 1) ts = 0) by (apply at_role_none; shop_lia).
  assert (E6 : tsum (at_role Barber 3 3) ts = 0) by (apply at_role_none; shop_lia).
  assert (E7 : v BarberWakes = 0).
  { destruct (decide (v BarberWakes <= 0)); [lia|].
    assert (tsum (at_role Customer 7 7) ts = 0) by (apply at_role_none; shop_lia). lia. }
  assert (E8 : v CustomerLeaves = 0).
  { destruct (decide (v CustomerLeaves <= 0)); [lia|].
    assert (tsum (at_role Barber 2 2) ts = 0) by (apply at_role_none; shop_lia). lia. }
  assert (E9 : tsum (at_role Customer 10 10) ts = 0).
  { destruct (decide (v BarberSleeps <= 0)); [lia|]. apply at_role_none; shop_lia. }
  assert (E10 : tsum (at_role Barber 2 2) ts = 0) by lia.
  assert (E11 : v CustomerArrives = 0).
  { destruct (decide (v CustomerArrives <= 0)); [lia|].
    assert (tsum (at_role Barber 0 4) ts = 0) by (apply at_role_gone in E10; apply at_role_none; shop_lia). lia. }
  assert (E12 : tsum (at_role Customer 7 7) ts = 0) by lia.
  apply at_role_gone in E9, E10, E12. shop_lia.
Qed.

(** The barbershop, for any number of customers and chairs and any
    schedule.  At most [chairs] customers are in the shop, and [customers]
    counts them; at most one customer is in the barber's chair, while the barber
    is at work; and when no thread can run every customer has left, with a
    haircut or without, and the barber sleeps, waiting for the next one. *)
Lemma barbershop_correct n c m :
  0 < c -> reach shop_code (shop_main n c) m ->
  m.(store).(customers) = csum 5 12 m.(threads) /\ 0 <= m.(store).(customers) <= c /\
  csum 8 9 m.(threads) <= bsum 2 2 m.(threads) <= 1 /\
  csum 1 2 m.(threads) + csum 4 5 m.(threads) + csum 12 13 m.(threads) <= 1 /\
  (stuck shop_code m -> Forall (fun t => t.(pc) = match t.(role) with Barber => 0 | Customer => 14 end)%nat m.(threads)).
Proof.
  intros Hc Hm. apply reach_ok in Hm as Hinv; [|done]. destruct m as [v s ts]. pose proof (stuck_ok c v s ts Hinv) as Hst.
  destruct Hinv as (_ & Hb & Hv & Hmx & Hcu & Hcap & _ & _ & H8 & _). cbn [sems store threads] in *.
  pose proof (at_role_sub Barber 2 2 0 4 ts ltac:(lia) ltac:(lia)).
  assert (0 <= csum 5 12 ts) by (apply tsum_nonneg, at_role_nonneg). unfold bsum, csum in *.
  split_and!; [done|lia|done|lia|lia|lia|done].
Qed.

Lemma barbershop_correct_witness :
  exists m, reach shop_code (shop_main 3 2) m /\ pc <$> m.(threads) = [2; 8; 7; 2]%nat /\
    0 <= m.(store).(customers) <= 2 /\ csum 8 9 m.(threads) <= bsum 2 2 m.(threads) <= 1.
Proof.
  destruct (run_witness shop_code (fun m => pc <$> m.(threads) = [2; 8; 7; 2]%nat)
    ([1; 1; 1; 1; 1; 2; 2; 2; 2; 2; 0; 0; 1; 3; 3])%nat (shop_main 3 2)) as (m & Hm & H); [vm_compute; reflexivity|].
  destruct (barbershop_correct 3 2 m ltac:(lia) Hm) as (_ & H2 & H3 & _).
  exists m. split; [exact Hm|]. split; [exact H|]. split; [exact H2|exact H3].
Defined.

End Shop.
