(* ===== verification/FifoBarbershop.v ===== *)
(** * The first-in, first-out barbershop

    [31/FIFO_barbershop.c]: the customers wait in a queue and each has a
    semaphore of its own, on which the barber calls it.  A customer is its index;
    the entry in the queue is the index of the customer that allocated it. *)

From Stdlib Require Import ZArith Lia.
From stdpp Require Import base tactics list numbers relations.
From S2P Require Import Prelude Threads.

Local Open Scope Z_scope.

(** ** Definitions *)

(** [customer_sem] of customer [i] is [CustomerSem i]; [barber_wakes] is never
    used. *)
Inductive fifo_sem := FifoMutex | FifoArrives | FifoLeaves | FifoSleeps | CustomerSem (i : nat).

#[export] Instance fifo_sem_eq : EqDecision fifo_sem.
Proof. solve_decision. Defined.

Inductive fifo_role := FifoBarber | FifoCustomer.

(** The queue [head], [customers] and [chairs]; the customers that have entered,
    and those that had a haircut, as they print it; [bad] when the barber takes
    an entry from an empty queue. *)
Record fifo := mkFifo { customers : Z; chairs : Z; head : list nat; entered : list nat; haircuts : list nat; bad : bool }.

(** The [index] of a customer, the entry [e] of the barber. *)
Abbreviation fifo_loc := nat (only parsing).

Definition fifo_instr : Type := instr fifo_sem fifo_loc fifo.

Definition fifo_wait (k : fifo_sem) : fifo_instr := Wait (fun _ => k).

Definition fifo_post (k : fifo_sem) : fifo_instr := Post (fun _ => k).

Definition fifo_add_customers (d : Z) : fifo_instr :=
  Act (fun l s => (l, mkFifo (s.(customers) + d) s.(chairs) s.(head) s.(entered) s.(haircuts) s.(bad))).

(** [STAILQ_FIRST] and [STAILQ_REMOVE_HEAD] *)
Definition remove_head (e : fifo_loc) (s : fifo) : fifo_loc * fifo :=
  match s.(head) with
  | [] => (e, mkFifo s.(customers) s.(chairs) [] s.(entered) s.(haircuts) true)
  | x :: q => (x, mkFifo s.(customers) s.(chairs) q s.(entered) s.(haircuts) s.(bad))
  end.

(** [STAILQ_INSERT_TAIL] *)
Definition insert_tail (index : fifo_loc) (s : fifo) : fifo_loc * fifo :=
  (index, mkFifo s.(customers) s.(chairs) (s.(head) ++ [index]) (s.(entered) ++ [index]) s.(haircuts) s.(bad)).

Definition get_haircut (index : fifo_loc) (s : fifo) : fifo_loc * fifo :=
  (index, mkFifo s.(customers) s.(chairs) s.(head) s.(entered) (s.(haircuts) ++ [index]) s.(bad)).

Definition fifo_barber : list fifo_instr :=
  [ fifo_wait FifoArrives;
    fifo_wait FifoMutex;
    Act remove_head;
    fifo_post FifoMutex;
    Post CustomerSem;
    fifo_wait FifoLeaves;
    fifo_post FifoSleeps;
    Back 7 ].

Definition fifo_customer : list fifo_instr :=
  [ fifo_wait FifoMutex;
    Unless (fun _ s => s.(customers) =? s.(chairs)) 2;
    fifo_post FifoMutex;
    Exit;
    fifo_add_customers 1;
    Act insert_tail;
    fifo_post FifoMutex;
    fifo_post FifoArrives;
    Wait CustomerSem;
    Act get_haircut;
    fifo_post FifoLeaves;
    fifo_wait FifoSleeps;
    fifo_wait FifoMutex;
    fifo_add_customers (-1);
    fifo_post FifoMutex ].

Definition fifo_code (r : fifo_role) : list fifo_instr := match r with FifoBarber => fifo_barber | FifoCustomer => fifo_customer end.

(** [init_sem] and the threads of [main]. *)
Definition fifo_main (total_customers : nat) (chairs : Z) : machine fifo_sem fifo_role fifo_loc fifo :=
  mkMachine (fun k => match k with FifoMutex => 1 | _ => 0 end) (mkFifo 0 chairs [] [] [] false)
    (mkThread FifoBarber 0 0%nat :: (mkThread FifoCustomer 0 <$> seq 0 total_customers)).

(** ** The invariant *)

Definition in_range (lo hi p : nat) : Z := if ((lo <=? p) && (p <=? hi))%nat then 1 else 0.

Lemma in_range_nonneg lo hi p : 0 <= in_range lo hi p.
Proof. unfold in_range. destruct (_ && _); lia. Qed.

Lemma in_range_part p : 0 <= in_range 3 4 p /\ 0 <= in_range 5 5 p /\ in_range 3 4 p + in_range 5 5 p <= 1.
Proof. unfold in_range. destruct p as [|[|[|[|[|[|p]]]]]]; cbn; lia. Qed.

(** The customer the barber has called and that is not done with its haircut;
    [k] is not zero while there is one. *)
Definition called (k : Z) (e : nat) : list nat := if 0 <? k then [e] else [].

(** What customer [i] has done at instruction [p]. *)
Definition stage_ok (s : fifo) (e i p : nat) : Prop :=
  match p with
  | 0 | 1 | 2 | 3 | 4 | 5 => i ∉ s.(entered)
  | 6 | 7 | 8 => i ∈ s.(entered) /\ i ∉ s.(haircuts)
  | 9 => i = e /\ i ∉ s.(haircuts)
  | 10 | 11 | 12 | 13 | 14 => i ∈ s.(haircuts)
  | 15 => i ∈ s.(entered) -> i ∈ s.(haircuts)
  | _ => False
  end%nat.

Definition cust_ok (s : fifo) (e i : nat) (t : thread fifo_role fifo_loc) : Prop :=
  t.(role) = FifoCustomer /\ t.(loc) = i /\ stage_ok s e i t.(pc).

(** The state with the barber at instruction [bp] and its entry [e]. *)
Definition fifo_state (c : Z) (v : fifo_sem -> Z) (s : fifo) (bp e : nat) (cs : list (thread fifo_role fifo_loc)) : Prop :=
  s.(chairs) = c /\ s.(bad) = false /\ (bp <= 7)%nat /\
  (0 <= v FifoMutex /\ 0 <= v FifoArrives /\ 0 <= v FifoLeaves /\ 0 <= v FifoSleeps /\ 0 <= v (CustomerSem e)) /\
  (forall i, i <> e -> v (CustomerSem i) = 0) /\
  v FifoMutex + tsum (at_pc 1 2) cs + tsum (at_pc 4 6) cs + tsum (at_pc 13 14) cs + in_range 2 3 bp = 1 /\
  s.(customers) = tsum (at_pc 5 13) cs /\ s.(customers) <= c /\ (tsum (at_pc 4 4) cs = 0 \/ s.(customers) < c) /\
  Z.of_nat (length s.(head)) = tsum (at_pc 6 7) cs + v FifoArrives + in_range 1 2 bp /\
  v (CustomerSem e) + tsum (at_pc 9 9) cs + tsum (at_pc 10 10) cs + v FifoLeaves = in_range 5 5 bp /\
  tsum (at_pc 11 11) cs = v FifoLeaves + in_range 6 6 bp + v FifoSleeps /\
  s.(entered) = s.(haircuts) ++ called (in_range 3 4 bp + v (CustomerSem e) + tsum (at_pc 9 9) cs) e ++ s.(head) /\
  NoDup s.(entered) /\ Forall (fun i => (i < length cs)%nat) s.(entered) /\
  (forall i t, cs !! i = Some t -> cust_ok s e i t).

Definition fifo_inv (n : nat) (c : Z) (m : machine fifo_sem fifo_role fifo_loc fifo) : Prop :=
  exists bp e cs, m.(threads) = mkThread FifoBarber bp e :: cs /\ length cs = n /\ fifo_state c m.(sems) m.(store) bp e cs.

Lemma fifo_init n c : 0 < c -> fifo_inv n c (fifo_main n c).
Proof.
  intros Hc. exists 0%nat, 0%nat, (mkThread FifoCustomer 0 <$> seq 0 n). split; [done|].
  split; [by rewrite length_fmap, length_seq|].
  assert (Hz : forall lo hi, (0 < lo)%nat -> tsum (at_pc lo hi) (mkThread FifoCustomer 0 <$> seq 0 n) = 0).
  { intros lo hi Hlo. apply at_pc_none, Forall_forall. intros t (i & -> & _)%list_elem_of_fmap. cbn. lia. }
  unfold fifo_state, fifo_main. cbn [sems store customers chairs head entered haircuts bad]. rewrite !Hz by lia.
  split_and!; try done; try lia; [by apply NoDup_nil|].
  intros i t Ht. rewrite list_lookup_fmap in Ht. destruct (seq 0 n !! i) as [x|] eqn:E; [|done].
  apply lookup_seq in E as [-> _]. injection Ht as <-. split_and!; [done|done|]. apply not_elem_of_nil.
Qed.

(** ** The steps keep it *)

Lemma called_none k e : k <= 0 -> called k e = [].
Proof. intros. unfold called. by rewrite (proj2 (Z.ltb_ge 0 k)). Qed.

Lemma called_one k e : 0 < k -> called k e = [e].
Proof. intros. unfold called. by rewrite (proj2 (Z.ltb_lt 0 k)). Qed.

(** The other customers, when the lists grow by customer [i] or not at all. *)
Lemma cust_others s s' e (cs : list (thread fifo_role fifo_loc)) i t t' :
  (forall j u, cs !! j = Some u -> cust_ok s e j u) -> cs !! i = Some t ->
  (forall j, j <> i -> (j ∈ s'.(entered) <-> j ∈ s.(entered)) /\ (j ∈ s'.(haircuts) <-> j ∈ s.(haircuts))) ->
  cust_ok s' e i t' -> forall j u, <[i := t']> cs !! j = Some u -> cust_ok s' e j u.
Proof.
  intros Hcs Ht Hlists Ht' j u Hj. destruct (decide (i = j)) as [<-|Hne].
  - rewrite list_lookup_insert_eq in Hj by (by eapply lookup_lt_Some). by injection Hj as <-.
  - rewrite list_lookup_insert_ne in Hj by done. destruct (Hcs j u Hj) as (Hr & Hl & Hs). split_and!; [done|done|].
    destruct u as [r p l]. cbn [pc] in *.
    destruct (Hlists j ltac:(done)) as [He Hh]. unfold stage_ok in *.
    do 16 (destruct p as [|p]; [tauto|]). done.
Qed.

Lemma barber_step c v s bp e cs v' s' t' :
  fifo_state c v s bp e cs -> exec fifo_code v s (mkThread FifoBarber bp e) = Some (v', s', t') ->
  exists bp' e', t' = mkThread FifoBarber bp' e' /\ fifo_state c v' s' bp' e' cs.
Proof.
  intros (Ec & Hbad & Hbp & Hv & Hoth & Hm & Hcu & Hcap & Hcap4 & Hq & H5 & H11 & Hent & Hnd & Hlt & Hcs) Ex.
  pose proof (tsum_nonneg (at_pc 9 9) cs (at_pc_nonneg 9 9)).
  pose proof (tsum_nonneg (at_pc 10 10) cs (at_pc_nonneg 10 10)).
  destruct s as [cu ch q en hc bd]. cbn [customers chairs head entered haircuts bad] in *. subst ch bd.
  assert (Hne : bp = 2%nat -> q <> []).
  { intros -> ->. cbn [length in_range Nat.leb andb] in Hq. pose proof (tsum_nonneg (at_pc 6 7) cs (at_pc_nonneg 6 7)). lia. }
  split_pc 8%nat bp; [..|lia]; cbn [in_range Nat.leb andb] in *.
  3: { destruct q as [|x q]; [by destruct Hne|]. cbn in Ex. injection Ex as <- <- <-. eexists _, _. split; [reflexivity|].
    assert (Hz : forall j, v (CustomerSem j) = 0) by (intros j; destruct (decide (j = e)) as [-> |]; [lia|by apply Hoth]).
    unfold fifo_state. cbn [customers chairs head entered haircuts bad in_range Nat.leb andb length] in *.
    rewrite called_none in Hent by lia. rewrite called_one, (Hz x) by (rewrite ?Hz; lia). rewrite (Hz e) in H5.
    split_and!; try done; try lia; try (by auto). intros j t Ht. destruct (Hcs j t Ht) as (Hr & Hl & Hs). split_and!; [done|done|].
    unfold stage_ok in *. pose proof (at_pc_of 9 9 cs j t Ht) as H9. destruct t as [r p l]. cbn [pc] in *.
    do 9 (destruct p as [|p]; [exact Hs|]). destruct p as [|p]; [|exact Hs]. rewrite at_pc_1 in H9 by (cbn; lia). lia. }
  all: step_cases Ex.
  all: eexists _, _; split; [reflexivity|]; unfold fifo_state; cbn [customers chairs head entered haircuts bad];
     cbn [in_range Nat.leb andb Nat.sub Nat.add]; split_and!; try assumption;
     try (intros; rewrite ?sem_add_ne by congruence; by auto); sem_simpl; try lia; rewrite ?Z.add_0_r, ?Z.add_0_l in *; try assumption.
  rewrite called_one in Hent |- * by lia. exact Hent.
Qed.

Lemma customer_step c v s bp e cs i t v' s' t' :
  fifo_state c v s bp e cs -> cs !! i = Some t -> exec fifo_code v s t = Some (v', s', t') ->
  fifo_state c v' s' bp e (<[i := t']> cs).
Proof.
  intros (Ec & Hbad & Hbp & Hv & Hoth & Hm & Hcu & Hcap & Hcap4 & Hq & H5 & H11 & Hent & Hnd & Hlt & Hcs) Ht Ex.
  destruct (Hcs i t Ht) as (Hr & Hl & Hst). pose proof (in_range_part bp). pose proof (in_range_nonneg 2 3 bp).
  pc_of (1, 2)%nat Ht. pc_of (4, 6)%nat Ht. pc_of (13, 14)%nat Ht. pc_of (5, 13)%nat Ht. pc_of (4, 4)%nat Ht.
  pc_of (6, 7)%nat Ht. pc_of (9, 9)%nat Ht. pc_of (10, 10)%nat Ht. pc_of (11, 11)%nat Ht.
  destruct s as [cu ch q en hc bd]. cbn [customers chairs head entered haircuts bad] in *. subst ch bd.
  destruct t as [r p l]. cbn [role loc pc] in Hr, Hl, Hst. subst r l.
  pose proof (at_pc_sub 4 4 4 6 cs ltac:(lia) ltac:(lia)).
  assert (Hwake : p = 8%nat -> 0 < v (CustomerSem i) -> i = e).
  { intros _ Hpos. destruct (decide (i = e)); [done|]. rewrite Hoth in Hpos by done. lia. }
  split_pc 16%nat p; [step_cases Ex..|]; [..|by destruct Hst]; unfold stage_ok in Hst;
    try (destruct (Hwake eq_refl ltac:(cbn in *; lia)); clear Hwake); cbn [entered haircuts] in Hst.
  all: unfold fifo_state; cbn [customers chairs head entered haircuts bad]; sums Ht.
  all: split_and!; try done; try lia; try (intros; rewrite ?sem_add_ne by congruence; by auto); rewrite ?length_app; cbn [length]; try lia.
  all: try (eapply cust_others; [exact Hcs|exact Ht|cbn; intros; rewrite ?elem_of_app, ?list_elem_of_singleton; tauto|split_and!; [done|done|];
    cbn [pc stage_ok entered haircuts Nat.add] in *; rewrite ?elem_of_app, ?list_elem_of_singleton; tauto]).
  - rewrite Hent, <- !app_assoc. done.
  - apply NoDup_app. split_and!; [done| |apply NoDup_singleton]. intros x Hx ->%list_elem_of_singleton. done.
  - apply Forall_app. split; [done|]. constructor; [|constructor]. by eapply lookup_lt_Some.
  - eapply cust_others; [exact Hcs|exact Ht|cbn; intros; rewrite ?elem_of_app, ?list_elem_of_singleton; tauto|].
    split_and!; [done|done|]. cbn [pc stage_ok entered haircuts]. rewrite elem_of_app, list_elem_of_singleton. split; [by right|].
    intros Hin. apply Hst. rewrite Hent, elem_of_app. by left.
  - rewrite Hent. do 3 f_equal. lia.
  - destruct Hst as [-> _]. rewrite called_none by lia. rewrite called_one in Hent by lia. rewrite Hent, <- !app_assoc. done.
Qed.

Lemma fifo_reach n c m : 0 < c -> reach fifo_code (fifo_main n c) m -> fifo_inv n c m.
Proof.
  intros Hc. apply reach_inv; [by apply fifo_init|]. intros v s ts [|i] t v' s' t' (bp & e & cs & E & Hn & HI) Ht Ex;
    cbn [sems store threads] in *; subst ts; cbn in Ht.
  - injection Ht as <-. destruct (barber_step _ _ _ _ _ _ _ _ _ HI Ex) as (bp' & e' & -> & HI'). by exists bp', e', cs.
  - exists bp, e, (<[i := t']> cs). cbn [sems store threads]. split; [done|]. rewrite length_insert. split; [done|]. by eapply customer_step.
Qed.

(** ** The end *)

(** When no thread can run, the barber sleeps and every customer has left. *)
Lemma fifo_stuck c v s bp e cs :
  fifo_state c v s bp e cs -> stuck fifo_code (mkMachine v s (mkThread FifoBarber bp e :: cs)) ->
  bp = 0%nat /\ Forall (fun t => t.(pc) = 15%nat) cs /\ s.(haircuts) = s.(entered).
Proof.
  intros (_ & _ & Hbp & Hv & Hoth & Hm & _ & _ & _ & Hq & H5 & H11 & Hent & Hnd & Hlt & Hcs) Hs%stuck_exec.
  apply Forall_cons in Hs as [Hb Hs].
  assert (Hw : Forall (fun t => (t.(pc) = 0 \/ t.(pc) = 12)%nat /\ v FifoMutex <= 0 \/ t.(pc) = 8%nat /\ v (CustomerSem t.(loc)) <= 0 \/
    t.(pc) = 11%nat /\ v FifoSleeps <= 0 \/ t.(pc) = 15%nat) cs).
  { apply Forall_lookup. intros i t Ht. pose proof (proj1 (Forall_lookup _ _) Hs _ _ Ht) as Ex. destruct (Hcs i t Ht) as (Hr & _ & Hst).
    destruct t as [r p l]. cbn [role pc loc] in *. subst r. split_pc 16%nat p; [..|done]; cbn in Ex; try discriminate Ex;
      repeat match type of Ex with context [if ?b then _ else _] => destruct b eqn:? end; try discriminate Ex; lia. }
  assert (Hb' : bp = 0%nat /\ v FifoArrives <= 0 \/ bp = 1%nat /\ v FifoMutex <= 0 \/ bp = 5%nat /\ v FifoLeaves <= 0).
  { clear - Hb Hbp. split_pc 8%nat bp; [..|lia]; cbn in Hb; try discriminate Hb;
      repeat match type of Hb with context [if ?b then _ else _] => destruct b eqn:? end; try discriminate Hb; try lia.
    unfold remove_head in Hb. destruct (head s); discriminate Hb. }
  clear Hs Hb.
  assert (Hz : forall lo hi, (forall p, (lo <= p <= hi)%nat -> ~ (p = 0 \/ p = 8 \/ p = 11 \/ p = 12 \/ p = 15)%nat) -> tsum (at_pc lo hi) cs = 0).
  { intros lo hi Hr. apply at_pc_none. eapply Forall_impl; [exact Hw|]. cbv beta. intros t Ht. specialize (Hr t.(pc)). lia. }
  rewrite (Hz 1 2)%nat, (Hz 4 6)%nat, (Hz 13 14)%nat in Hm by lia. rewrite (Hz 6 7)%nat in Hq by lia.
  rewrite (Hz 9 9)%nat, (Hz 10 10)%nat in H5 by lia. rewrite (Hz 9 9)%nat in Hent by lia.
  assert (Hbp0 : bp = 0%nat).
  { destruct Hb' as [[-> _]|[[-> H]|[-> H]]]; [done| |]; cbn [in_range Nat.leb andb] in *; [lia|exfalso].
    rewrite called_one in Hent by lia.
    assert (Hin : e ∈ entered s) by (rewrite Hent, !elem_of_app; right; left; by apply list_elem_of_singleton).
    pose proof (proj1 (Forall_forall _ _) Hlt e Hin) as [t Ht]%lookup_lt_is_Some_2. destruct (Hcs e t Ht) as (_ & Hl & Hst).
    assert (Hnot : e ∉ haircuts s).
    { intros Hh. rewrite Hent in Hnd. apply NoDup_app in Hnd as (_ & Hd & _). apply (Hd e Hh). by left. }
    pose proof (proj1 (Forall_lookup _ _) Hw _ _ Ht) as Hwt. cbv beta in Hwt. rewrite Hl in Hwt.
    destruct Hwt as [[[E|E] _]|[[E ?]|[[E _]|E]]]; rewrite E in Hst; cbn in Hst; [done|done|lia|done|by apply Hnot, Hst]. }
  subst bp. cbn [in_range Nat.leb andb] in *. rewrite called_none in Hent by lia.
  assert (Hq0 : head s = []) by (apply nil_length_inv; lia). rewrite Hq0, app_nil_r in Hent.
  split_and!; [done| |by rewrite Hent].
  apply Forall_lookup. intros i t Ht. pose proof (proj1 (Forall_lookup _ _) Hw _ _ Ht) as Hwt. cbv beta in Hwt.
  pose proof (at_pc_of 11 11 _ _ _ Ht) as Hp. destruct (Hcs i t Ht) as (_ & _ & Hst).
  destruct Hwt as [[_ ?]|[[E _]|[[E ?]|E]]]; [lia| | |done].
  - rewrite E in Hst. destruct Hst as [Hi Hno]. by rewrite Hent in Hi.
  - rewrite at_pc_1 in Hp by lia. lia.
Qed.

(** ** Bounded runs *)

(** The steps a customer has before it, with those of the barber for it until it
    has posted [customer_arrives]. *)
Definition cust_weight (t : thread fifo_role fifo_loc) : Z :=
  Z.of_nat (15 - t.(pc)) + (if (t.(pc) <=? 7)%nat then 8 else 0).

Definition fifo_measure (m : machine fifo_sem fifo_role fifo_loc fifo) : Z :=
  match m.(threads) with
  | [] => 0
  | b :: cs => (if (b.(pc) =? 0)%nat then 0 else Z.of_nat (8 - b.(pc))) + 8 * m.(sems) FifoArrives + tsum cust_weight cs
  end.

Lemma fifo_decreases n c v s ts i t v' s' t' :
  fifo_inv n c (mkMachine v s ts) -> ts !! i = Some t -> exec fifo_code v s t = Some (v', s', t') ->
  fifo_measure (mkMachine v' s' (<[i := t']> ts)) < fifo_measure (mkMachine v s ts).
Proof.
  intros (bp & e & cs & E & _ & HI) Ht Ex. cbn [sems store threads] in *. subst ts. unfold fifo_measure. destruct i as [|i]; cbn in Ht.
  - injection Ht as <-. destruct HI as (_ & _ & Hbp & _). cbn [threads sems insert list_insert]. split_pc 8%nat bp; [..|lia].
    3: { cbn in Ex. destruct (remove_head e s) as [e' s1]. injection Ex as <- <- <-. cbn. lia. }
    all: step_cases Ex; sem_simpl; cbn [pc Nat.eqb Nat.sub Nat.add]; lia.
  - cbn [threads sems insert list_insert]. destruct HI as (_ & _ & _ & _ & _ & _ & _ & _ & _ & _ & _ & _ & _ & _ & _ & Hcs).
    destruct (Hcs i t Ht) as (Hr & _ & Hst). destruct t as [r p l]. cbn [role pc] in *. subst r.
    change (list_insert i t' cs) with (<[i := t']> cs). rewrite (tsum_step _ _ _ _ _ Ht).
    split_pc 16%nat p; [..|done]; step_cases Ex; sem_simpl; unfold cust_weight; cbn [pc Nat.leb Nat.sub Nat.add]; lia.
Qed.

Lemma fifo_measure_pos n c m : fifo_inv n c m -> 0 <= fifo_measure m.
Proof.
  intros (bp & e & cs & E & _ & HI). unfold fifo_measure. rewrite E. destruct HI as (_ & _ & Hbp & Hv & _).
  assert (0 <= tsum cust_weight cs) by (apply tsum_nonneg; intros t; unfold cust_weight; destruct (_ <=? _)%nat; lia).
  cbn [pc]. destruct (bp =? 0)%nat; lia.
Qed.

(** ** Properties *)

(** The barbershop with a queue, for any number of customers and chairs and
    any schedule.  Nobody has two haircuts or overtakes: the customers that had a
    haircut are the first ones of those that entered, in the order they entered.
    [customers] counts the customers in the shop and is at most [chairs]; at most
    one has a haircut at a time; the barber never takes an entry from an empty
    queue.  Every run is finite, and when no thread can run every customer has
    left, those that entered with a haircut, and the barber sleeps. *)
Theorem fifo_barbershop_correct n c m :
  0 < c -> reach fifo_code (fifo_main n c) m ->
  (exists waiting, m.(store).(entered) = m.(store).(haircuts) ++ waiting /\ NoDup m.(store).(entered)) /\
  m.(store).(customers) = tsum (at_pc 5 13) (tail m.(threads)) /\ 0 <= m.(store).(customers) <= c /\
  tsum (at_pc 9 10) (tail m.(threads)) <= 1 /\ m.(store).(bad) = false /\
  (forall k m', nsteps (mstep fifo_code) k (fifo_main n c) m' -> Z.of_nat k <= 23 * Z.of_nat n) /\
  (stuck fifo_code m ->
     m.(store).(haircuts) = m.(store).(entered) /\
     pc <$> m.(threads) = 0%nat :: replicate n 15%nat).
Proof.
  intros Hc Hm. pose proof (fifo_reach n c m Hc Hm) as (bp & e & cs & E & Hn & HI). destruct m as [v s ts].
  cbn [sems store threads] in *. subst ts. pose proof (fifo_stuck c v s bp e cs HI) as Hst.
  destruct HI as (_ & Hbad & _ & Hv & _ & _ & Hcu & Hcap & _ & _ & H5 & _ & Hent & Hnd & _). cbn [tail].
  pose proof (tsum_nonneg (at_pc 5 13) cs (at_pc_nonneg 5 13)). pose proof (in_range_part bp).
  assert (H910 : tsum (at_pc 9 10) cs = tsum (at_pc 9 9) cs + tsum (at_pc 10 10) cs).
  { rewrite <- tsum_plus. apply tsum_ext, Forall_true. intros t. unfold at_pc.
    destruct (Nat.leb_spec 9 t.(pc)), (Nat.leb_spec t.(pc) 10), (Nat.leb_spec t.(pc) 9), (Nat.leb_spec 10 t.(pc)); cbn; lia. }
  split_and!; [by eexists|done|lia|done|lia|done| |].
  - intros k m' Hk. pose proof (steps_bounded fifo_code (fifo_inv n c) fifo_measure (fifo_main n c) (fun m => fifo_reach n c m Hc)
      (fifo_measure_pos n c) (fifo_decreases n c) k m' Hk) as H1.
    unfold fifo_measure, fifo_main in H1. cbn [threads sems pc Nat.eqb] in H1.
    rewrite (tsum_ext _ (fun _ => 23)), tsum_const, length_fmap, length_seq in H1; [lia|].
    apply Forall_forall. intros t (i & -> & _)%list_elem_of_fmap. done.
  - intros Hs. destruct (Hst Hs) as (-> & Hall & Hh). split; [done|]. cbn [fmap list_fmap pc]. f_equal.
    subst n. clear - Hall. induction Hall as [|t cs Ht _ IH]; [done|]. cbn. by rewrite Ht, IH.
Qed.

(** Three customers and two chairs: the third one balks, the second one entered
    first. *)
Lemma fifo_barbershop_correct_witness :
  exists m, reach fifo_code (fifo_main 3 2) m /\ m.(store).(entered) = [1; 0]%nat /\ m.(store).(haircuts) = [1]%nat /\
    0 <= m.(store).(customers) <= 2 /\ m.(store).(bad) = false.
Proof.
  destruct (run_witness fifo_code (fun m => m.(store).(entered) = [1; 0]%nat /\ m.(store).(haircuts) = [1]%nat)
    ([2; 2; 2; 2; 2; 2; 1; 1; 1; 1; 1; 1; 3; 3; 3; 3; 0; 0; 0; 0; 0; 2; 2])%nat (fifo_main 3 2)) as (m & Hm & H1 & H2);
    [vm_compute; split; reflexivity|].
  destruct (fifo_barbershop_correct 3 2 m ltac:(lia) Hm) as (_ & _ & H3 & _ & H4 & _).
  exists m. split; [exact Hm|]. split; [exact H1|]. split; [exact H2|]. split; [exact H3|exact H4].
Defined.
