(* ===== verification/Hilzer.v ===== *)
(** * Hilzer's barbershop

    [31/Hilzers_barbershop.c]: barbers, ushers and customers, who queue for the
    sofa and then for a chair.  A customer owns two entries, one per queue; an
    entry is freed by the customer, and a thread that reads a freed entry, or
    takes one from an empty queue, sets [fault]: the behaviour of the C program
    is undefined from there on. *)

From Stdlib Require Import ZArith Lia String Ascii.
From stdpp Require Import base tactics numbers list relations.
From S2P Require Import Prelude Threads.

Local Open Scope Z_scope.

(** ** Definitions *)

(** [struct entry], by its owner and its queue. *)
Inductive queue := Sofa | Chair.

Record hz_entry := mkEntry { owner : nat; which : queue }.

#[export] Instance queue_eq : EqDecision queue.
Proof. solve_decision. Defined.

#[export] Instance hz_entry_eq : EqDecision hz_entry.
Proof. solve_decision. Defined.

Inductive hz_sem :=
| CustNumMutex | SofaqMutex | ChairqMutex | CustArrive | CustOnSofa | CustLeaveSofa | Payment | Receipt | CashierMutex
| CustSem (e : hz_entry).

#[export] Instance hz_sem_eq : EqDecision hz_sem.
Proof. solve_decision. Defined.

Inductive hz_role := HzBarber | Usher | HzCustomer.

#[export] Instance hz_role_eq : EqDecision hz_role.
Proof. solve_decision. Defined.

Record hz_store := mkHz {
  max_capacity : Z; customer_num : Z;
  wait_sofaq : list hz_entry; wait_chairq : list hz_entry;
  freed : list hz_entry; fault : bool }.

(** The variables of a thread: its index and [e]. *)
Record hz_loc := mkHzLoc { index : nat; e : hz_entry }.

Definition hz_instr : Type := instr hz_sem hz_loc hz_store.

Definition hz_wait (k : hz_sem) : hz_instr := Wait (fun _ => k).

Definition hz_post (k : hz_sem) : hz_instr := Post (fun _ => k).

Definition add_customer_num (d : Z) : hz_instr :=
  Act (fun l s => (l, mkHz s.(max_capacity) (s.(customer_num) + d) s.(wait_sofaq) s.(wait_chairq) s.(freed) s.(fault))).

Definition queue_of (q : queue) (s : hz_store) : list hz_entry :=
  match q with Sofa => s.(wait_sofaq) | Chair => s.(wait_chairq) end.

Definition set_queue (q : queue) (l : list hz_entry) (s : hz_store) : hz_store :=
  match q with
  | Sofa => mkHz s.(max_capacity) s.(customer_num) l s.(wait_chairq) s.(freed) s.(fault)
  | Chair => mkHz s.(max_capacity) s.(customer_num) s.(wait_sofaq) l s.(freed) s.(fault)
  end.

Definition set_fault (s : hz_store) : hz_store :=
  mkHz s.(max_capacity) s.(customer_num) s.(wait_sofaq) s.(wait_chairq) s.(freed) true.

(** [e = STAILQ_FIRST(q); STAILQ_REMOVE_HEAD(q, entries);] *)
Definition take_head (q : queue) : hz_instr :=
  Act (fun l s => match queue_of q s with
                  | [] => (l, set_fault s)
                  | x :: rest => (mkHzLoc l.(index) x, set_queue q rest s)
                  end).

(** [e = init_entry(name, index); STAILQ_INSERT_TAIL(q, e, entries);] *)
Definition init_and_insert (q : queue) : hz_instr :=
  Act (fun l s => let x := mkEntry l.(index) q in (mkHzLoc l.(index) x, set_queue q (queue_of q s ++ [x]) s)).

(** [e->cust_sem] or [e->index]: the entry is read. *)
Definition read_entry : hz_instr :=
  Act (fun l s => (l, if decide (l.(e) ∈ s.(freed)) then set_fault s else s)).

Definition free_entry : hz_instr :=
  Act (fun l s => (l, mkHz s.(max_capacity) s.(customer_num) s.(wait_sofaq) s.(wait_chairq) (l.(e) :: s.(freed)) s.(fault))).

(** [Sem_post(e->cust_sem)] *)
Definition post_entry : list hz_instr := [ read_entry; Post (fun l => CustSem l.(e)) ].

Definition hz_barber : list hz_instr :=
  [ hz_wait CustOnSofa; hz_wait ChairqMutex; take_head Chair; hz_post ChairqMutex ] ++
  post_entry ++
  [ read_entry; hz_wait Payment; hz_wait CashierMutex; hz_post CashierMutex; hz_post Receipt; Back 11 ].

Definition usher : list hz_instr :=
  [ hz_wait CustArrive; hz_wait SofaqMutex; take_head Sofa; hz_post SofaqMutex ] ++
  post_entry ++
  [ read_entry; hz_wait CustLeaveSofa; Back 8 ].

Definition hz_customer : list hz_instr :=
  [ hz_wait CustNumMutex;
    Unless (fun _ s => s.(customer_num) =? s.(max_capacity)) 2;
    hz_post CustNumMutex;
    Exit;
    add_customer_num 1;
    hz_post CustNumMutex;
    hz_wait SofaqMutex;
    init_and_insert Sofa;
    hz_post SofaqMutex;
    hz_post CustArrive;
    Wait (fun l => CustSem l.(e));
    free_entry;
    hz_wait ChairqMutex;
    init_and_insert Chair;
    hz_post ChairqMutex;
    hz_post CustOnSofa;
    Wait (fun l => CustSem l.(e));
    free_entry;
    hz_post CustLeaveSofa;
    hz_post Payment;
    hz_wait Receipt;
    hz_wait CustNumMutex;
    add_customer_num (-1);
    hz_post CustNumMutex ].

Definition hz_code (r : hz_role) : list hz_instr :=
  match r with HzBarber => hz_barber | Usher => usher | HzCustomer => hz_customer end.

Definition hz_threads (r : hz_role) (n : nat) : list (thread hz_role hz_loc) :=
  (fun i => mkThread r 0 (mkHzLoc i (mkEntry i Sofa))) <$> seq 0 n.

(** [init_sem] and the threads of [main]. *)
Definition hz_main (max_capacity : Z) (chairs sofa_size total_customers : nat) :
    machine hz_sem hz_role hz_loc hz_store :=
  mkMachine
    (fun k => match k with CustNumMutex | SofaqMutex | ChairqMutex | CashierMutex => 1 | _ => 0 end)
    (mkHz max_capacity 0 [] [] [] false)
    (hz_threads HzBarber chairs ++ hz_threads Usher sofa_size ++ hz_threads HzCustomer total_customers).

(** The options of [main]: [h], [c], [s] and [m] with the value of their
    argument.  The cases of [s] and [m] have no [break]. *)
Record hz_conf := mkConf { c_chairs : Z; c_total : Z; c_sofa : Z; c_max : Z }.

Definition hz_default : hz_conf := mkConf 3 9 4 8.

Definition hz_option (opt : ascii) (v : Z) (c : hz_conf) : outcome string hz_conf :=
  let usage := Fail "Usage"%string in
  let case_m (c : hz_conf) := if v <=? 0 then Fail "Don't screw around."%string else usage in
  if Ascii.eqb opt "h" then
    if v <=? 0 then Fail "Damn you."%string else Done (mkConf v c.(c_total) c.(c_sofa) c.(c_max))
  else if Ascii.eqb opt "c" then
    if v <=? 0 then Fail "You're breaking my balls."%string else Done (mkConf c.(c_chairs) v c.(c_sofa) c.(c_max))
  else if Ascii.eqb opt "s" then
    if v <=? 0 then Fail "Don't mess around."%string else case_m (mkConf c.(c_chairs) c.(c_total) v c.(c_max))
  else if Ascii.eqb opt "m" then case_m c
  else usage.

Definition hz_options (opts : list (ascii * Z)) : outcome string hz_conf :=
  ofold (fun o c => hz_option o.1 o.2 c) opts hz_default.

(** ** The number of customers *)

Definition hz_csum (lo hi : nat) (ts : list (thread hz_role hz_loc)) : Z := tsum (at_role HzCustomer lo hi) ts.

Definition hz_inv (c : Z) (m : machine hz_sem hz_role hz_loc hz_store) : Prop :=
  let v := m.(sems) in let s := m.(store) in let ts := m.(threads) in
  s.(max_capacity) = c /\
  (0 <= v CustNumMutex /\ 0 <= v SofaqMutex /\ 0 <= v ChairqMutex /\ 0 <= v CashierMutex) /\
  v CustNumMutex + hz_csum 1 2 ts + hz_csum 4 5 ts + hz_csum 22 23 ts = 1 /\
  s.(customer_num) = hz_csum 5 22 ts /\ s.(customer_num) <= c /\ (hz_csum 4 4 ts = 0 \/ s.(customer_num) < c) /\
  v SofaqMutex + hz_csum 7 8 ts + tsum (at_role Usher 2 3) ts = 1 /\
  v ChairqMutex + hz_csum 13 14 ts + tsum (at_role HzBarber 2 3) ts = 1 /\
  v CashierMutex + tsum (at_role HzBarber 9 9) ts = 1.

Lemma hz_inv_init c chairs sofa n : 0 < c -> hz_inv c (hz_main c chairs sofa n).
Proof.
  intros Hc. assert (H0 : forall (w : thread hz_role hz_loc -> Z), (forall r l, w (mkThread r 0%nat l) = 0) ->
    tsum w (threads (hz_main c chairs sofa n)) = 0).
  { intros w Hw. apply tsum_zero. unfold hz_main, hz_threads. cbn [threads]. rewrite !Forall_app, !Forall_fmap.
    split_and!; apply Forall_true; intros i; apply Hw. }
  unfold hz_inv, hz_csum. rewrite !H0 by (by intros []). cbn [sems store hz_main max_capacity customer_num]. lia.
Qed.

Lemma hz_step c v s ts i t v' s' t' :
  hz_inv c (mkMachine v s ts) -> ts !! i = Some t -> exec hz_code v s t = Some (v', s', t') ->
  hz_inv c (mkMachine v' s' (<[i := t']> ts)).
Proof.
  intros (Ec & Hv & Hm & Hn & Hcap & H4 & Hs & Hch & Hca) Ht Ex. cbn [sems store threads] in *. unfold hz_csum in *.
  role_of HzCustomer (1, 2)%nat Ht. role_of HzCustomer (4, 5)%nat Ht. role_of HzCustomer (22, 23)%nat Ht.
  role_of HzCustomer (4, 4)%nat Ht. role_of HzCustomer (5, 22)%nat Ht. role_of HzCustomer (7, 8)%nat Ht.
  role_of HzCustomer (13, 14)%nat Ht. role_of Usher (2, 3)%nat Ht. role_of HzBarber (2, 3)%nat Ht.
  role_of HzBarber (9, 9)%nat Ht. role_split HzCustomer (4, 4, 5)%nat ts. role_of HzCustomer (5, 5)%nat Ht.
  destruct s as [mc cn sq cq fr fa], t as [[] p [ix [ow wh]]]; cbn [max_capacity customer_num] in *; subst mc;
    [split_pc 12%nat p|split_pc 9%nat p|split_pc 24%nat p]; cbn in Ex;
    try match type of Ex with context [match ?q with [] => _ | _ :: _ => _ end] => is_var q; destruct q end;
    step_cases Ex; unfold hz_inv, hz_csum; cbn [sems store threads max_capacity customer_num set_queue set_fault] in *;
    sums Ht; (split_and!; lia).
Qed.

Lemma hz_reach c chairs sofa n m : 0 < c -> reach hz_code (hz_main c chairs sofa n) m -> hz_inv c m.
Proof. intros Hc. apply reach_inv; [by apply hz_inv_init|]. intros. by eapply hz_step. Qed.

(** ** Properties *)

(** Hilzer's barbershop, for any numbers of barbers, places on the sofa and
    customers, under any schedule: never more than [max_capacity] customers are
    in the shop, [customer_num] counts them, and the four mutexes are held by
    one thread at a time, so the queues and the counter are never accessed by
    two threads. *)
Lemma hilzer_capacity c chairs sofa n m :
  0 < c -> reach hz_code (hz_main c chairs sofa n) m ->
  let ts := m.(threads) in
  m.(store).(customer_num) = hz_csum 5 22 ts /\ 0 <= m.(store).(customer_num) <= c /\
  hz_csum 1 2 ts + hz_csum 4 5 ts + hz_csum 22 23 ts <= 1 /\
  hz_csum 7 8 ts + tsum (at_role Usher 2 3) ts <= 1 /\
  hz_csum 13 14 ts + tsum (at_role HzBarber 2 3) ts <= 1 /\
  tsum (at_role HzBarber 9 9) ts <= 1.
Proof.
  intros Hc Hm ts. apply hz_reach in Hm as (_ & Hv & Hmx & Hn & Hcap & _ & Hs & Hch & Hca); [|done].
  assert (0 <= hz_csum 5 22 ts) by (apply tsum_nonneg, at_role_nonneg). unfold ts in *. split_and!; lia.
Qed.

(** The schedule of one barber, one usher and one customer in which the
    customer frees its entry while the usher is about to print its index. *)
Definition hz_race : list nat := (replicate 8 2 ++ replicate 6 1 ++ replicate 2 2 ++ replicate 1 1)%nat.

Lemma hilzer_capacity_witness :
  exists m, reach hz_code (hz_main 1 1 1 1) m /\ pc <$> m.(threads) = [0; 7; 12]%nat /\
    m.(store).(customer_num) = hz_csum 5 22 m.(threads) /\ 0 <= m.(store).(customer_num) <= 1.
Proof.
  destruct (run_witness hz_code (fun m => pc <$> m.(threads) = [0; 7; 12]%nat) hz_race (hz_main 1 1 1 1))
    as (m & Hm & H); [vm_compute; reflexivity|].
  destruct (hilzer_capacity 1 1 1 1 m ltac:(lia) Hm) as (H1 & H2 & _).
  exists m. split; [exact Hm|]. split; [exact H|]. split; [exact H1|exact H2].
Defined.

(** Two defects of the program.  The usher and the barber print the index of
    an entry after they have posted its semaphore, when its owner may already
    have freed it: one usher and one customer are enough.  And the options [s]
    and [m] cannot be used: whatever their argument and the other options, the
    program exits with an error. *)
Lemma hilzer_defects :
  (exists m, reach hz_code (hz_main 1 1 1 1) m /\ m.(store).(fault) = true) /\
  (forall opts v, ("s"%char, v) ∈ opts \/ ("m"%char, v) ∈ opts -> forall c, hz_options opts <> Done c).
Proof.
  split.
  - apply (run_witness hz_code (fun m => m.(store).(fault) = true) hz_race). vm_compute. reflexivity.
  - unfold hz_options. generalize hz_default. intros c0 opts v. revert c0.
    induction opts as [|[o w] opts IH]; intros c0 [H|H] c; try (by apply elem_of_nil in H); cbn [ofold fst snd].
    + apply elem_of_cons in H as [[= <- <-]|H]; [cbn; destruct (v <=? 0); discriminate|].
      destruct (hz_option o w c0) as [c1| |]; [|discriminate..]. apply IH. by left.
    + apply elem_of_cons in H as [[= <- <-]|H]; [cbn; destruct (v <=? 0); discriminate|].
      destruct (hz_option o w c0) as [c1| |]; [|discriminate..]. apply IH. by right.
Qed.
