(* ===== verification/Smokers.v ===== *)
(** * The cigarette smokers

    [31/cigarette_smokers.c]: three agents put two ingredients each on the table,
    three smokers have the third one.  The pushers, which the agents call with the
    lock held, find out which smoker to wake. *)

From Stdlib Require Import ZArith Lia.
From stdpp Require Import base tactics list numbers relations.
From S2P Require Import Prelude Threads Explore.

Local Open Scope Z_scope.

(** ** Definitions *)

Inductive ingredient := Tobacco | Paper | Match.

#[export] Instance ingredient_eq : EqDecision ingredient.
Proof. solve_decision. Defined.

(** [tobacco_sem], [paper_sem] and [match_sem]; [agent_sem]; [lock]. *)
Inductive smoke_sem := IngredientSem (x : ingredient) | AgentSem | SmokeLock.

#[export] Instance smoke_sem_eq : EqDecision smoke_sem.
Proof. solve_decision. Defined.

(** The threads with their [type]. *)
Inductive smoke_role := Agent (type : nat) | Smoker (type : nat).

#[export] Instance smoke_role_eq : EqDecision smoke_role.
Proof. solve_decision. Defined.

(** [has_tobacco], [has_paper], [has_match], and the lines that the smokers
    print. *)
Record table := mkTable { has_tobacco : bool; has_paper : bool; has_match : bool; smoked : list nat }.

#[export] Instance table_eq : EqDecision table.
Proof. solve_decision. Defined.

Definition smoke_instr : Type := instr smoke_sem unit table.

Definition has (x : ingredient) (s : table) : bool :=
  match x with Tobacco => s.(has_tobacco) | Paper => s.(has_paper) | Match => s.(has_match) end.

Definition set_has (x : ingredient) (b : bool) (s : table) : table :=
  match x with
  | Tobacco => mkTable b s.(has_paper) s.(has_match) s.(smoked)
  | Paper => mkTable s.(has_tobacco) b s.(has_match) s.(smoked)
  | Match => mkTable s.(has_tobacco) s.(has_paper) b s.(smoked)
  end.

(** [if (has_x) { has_x = false; Sem_post(to_x); } else if (has_y) { has_y = false;
    Sem_post(to_y); } else has_own = true;] *)
Definition pusher (x to_x y to_y own : ingredient) : list smoke_instr :=
  [ Unless (fun _ s => has x s) 3;
    Act (fun l s => (l, set_has x false s));
    Post (fun _ => IngredientSem to_x);
    Unless (fun _ _ => false) 5;
    Unless (fun _ s => has y s) 3;
    Act (fun l s => (l, set_has y false s));
    Post (fun _ => IngredientSem to_y);
    Unless (fun _ _ => false) 1;
    Act (fun l s => (l, set_has own true s)) ].

Definition tobacco_pusher : list smoke_instr := pusher Paper Match Match Paper Tobacco.

Definition paper_pusher : list smoke_instr := pusher Match Tobacco Tobacco Match Paper.

Definition match_pusher : list smoke_instr := pusher Paper Tobacco Tobacco Paper Match.

Definition agent (type : nat) : list smoke_instr :=
  [ Wait (fun _ => AgentSem); Wait (fun _ => SmokeLock) ] ++
  match type with
  | 0 => tobacco_pusher ++ paper_pusher
  | 1 => paper_pusher ++ match_pusher
  | 2 => tobacco_pusher ++ match_pusher
  | _ => []
  end%nat ++
  [ Post (fun _ => SmokeLock) ].

Definition smoker_case (x : ingredient) (type : nat) : list smoke_instr :=
  [ Wait (fun _ => IngredientSem x);
    Act (fun l s => (l, mkTable s.(has_tobacco) s.(has_paper) s.(has_match) (s.(smoked) ++ [type])));
    Post (fun _ => AgentSem) ].

Definition smoker (type : nat) : list smoke_instr :=
  match type with
  | 0 => smoker_case Tobacco 0
  | 1 => smoker_case Paper 1
  | 2 => smoker_case Match 2
  | _ => []
  end%nat.

Definition smoke_code (r : smoke_role) : list smoke_instr := match r with Agent ty => agent ty | Smoker ty => smoker ty end.

(** [init_sem] and the threads of [main]. *)
Definition smoke_main : machine smoke_sem smoke_role unit table :=
  mkMachine (fun k => match k with IngredientSem _ => 0 | AgentSem => 1 | SmokeLock => 1 end) (mkTable false false false [])
    ([0; 1; 2]%nat ≫= fun ty => [mkThread (Agent ty) 0 tt; mkThread (Smoker ty) 0 tt]).

(** ** All the states *)

Definition smoke_keys : list smoke_sem :=
  [IngredientSem Tobacco; IngredientSem Paper; IngredientSem Match; AgentSem; SmokeLock].

Lemma smoke_keys_all k : k ∈ smoke_keys.
Proof. apply list_elem_of_In. destruct k as [[]| |]; cbn; tauto. Qed.

(** Where the agent, and the smoker, of a type is. *)
Definition agent_pc (ty : nat) (ts : list (thread smoke_role unit)) : nat :=
  default 0%nat (pc <$> ts !! (2 * ty)%nat).

Definition smoker_pc (ty : nat) (ts : list (thread smoke_role unit)) : nat :=
  default 0%nat (pc <$> ts !! (2 * ty + 1)%nat).

(** The type of the agent that brings what the smoker does not have. *)
Definition supplier (ty : nat) : nat := match ty with 0 => 1 | 1 => 2 | _ => 0 end%nat.

(** The three ingredients on the table. *)
Definition on_table (s : table) : list ingredient := filter (fun x => has x s = true) [Tobacco; Paper; Match].

Definition smoke_safe (s : table) (ts : list (thread smoke_role unit)) : Prop :=
  Forall (fun ty => (0 < smoker_pc ty ts)%nat -> (11 < agent_pc (supplier ty) ts)%nat) [0; 1; 2]%nat /\
  (length (filter (fun ty => 0 < smoker_pc ty ts < 3)%nat [0; 1; 2]%nat) <= 1)%nat /\
  (length (on_table s) <= 1)%nat /\ NoDup s.(smoked) /\ Forall (fun ty => 1 < smoker_pc ty ts)%nat s.(smoked).

(** The state at the end: every thread has returned and every smoker has smoked. *)
Definition smoke_end (s : table) (ts : list (thread smoke_role unit)) : Prop :=
  pc <$> ts = [21; 3; 21; 3; 21; 3]%nat /\ s.(smoked) ≡ₚ [0; 1; 2]%nat /\ on_table s = [].

Definition smoke_check (c : cstate) : bool :=
  bool_decide (smoke_safe c.(cstore) c.(cthreads)) &&
  (if blocked smoke_code smoke_keys c then bool_decide (smoke_end c.(cstore) c.(cthreads)) else true).

Lemma smoke_explored : explored smoke_code smoke_keys (Z.to_nat 1000) smoke_main smoke_check = true.
Proof. vm_compute. reflexivity. Qed.

Lemma smoke_forward r : no_back (smoke_code r) = true.
Proof. destruct r as [[|[|[|ty]]]|[|[|[|ty]]]]; reflexivity. Qed.

(** ** Properties *)

(** The cigarette smokers, for every schedule.  A smoker is woken only when
    the agent that brings the two ingredients it does not have is there; one
    smoker at a time gets the ingredients, each at most once, and there is never
    more than one ingredient left on the table.  Every run is finite, and when no
    thread can run all six have returned, each smoker has smoked and the table is
    empty. *)
Theorem smokers_correct m :
  reach smoke_code smoke_main m ->
  smoke_safe m.(store) m.(threads) /\
  (forall k m', nsteps (mstep smoke_code) k smoke_main m' -> Z.of_nat k <= 72) /\
  (stuck smoke_code m -> smoke_end m.(store) m.(threads)).
Proof.
  intros Hm. pose proof (explored_sound smoke_code smoke_keys smoke_keys_all _ _ _ smoke_explored m Hm) as H.
  unfold smoke_check in H. apply andb_true_iff in H as [Hs He]. split_and!.
  - by apply bool_decide_eq_true in Hs.
  - intros k m' Hk. pose proof (forward_bounded smoke_code smoke_main smoke_forward k m' Hk) as Hb.
    by change (tsum (left_of smoke_code) smoke_main.(threads)) with 72 in Hb.
  - intros Hst%(stuck_blocked smoke_code smoke_keys smoke_keys_all). rewrite Hst in He. by apply bool_decide_eq_true in He.
Qed.

(** The agent with tobacco and paper comes first and the smoker with matches
    smokes. *)
Lemma smokers_correct_witness :
  exists m, reach smoke_code smoke_main m /\ m.(store).(smoked) = [2]%nat /\ smoke_safe m.(store) m.(threads).
Proof.
  destruct (run_witness smoke_code (fun m => m.(store).(smoked) = [2]%nat)
    ([0; 0; 0; 0; 0; 0; 0; 0; 0; 0; 5; 5])%nat smoke_main) as (m & Hm & H); [vm_compute; reflexivity|].
  destruct (smokers_correct m Hm) as (H1 & _). exists m. split; [exact Hm|]. split; [exact H|exact H1].
Defined.
