(* ===== verification/Rendezvous.v ===== *)
(** * Rendezvous and fork-join

    [31/rendezvous.c] and [31/fork-join.c] (as it is built, with [USE_FORK]): two
    threads that meet, and a parent that waits for its child.  The semaphores are
    named, so what they start with depends on the names that exist. *)

From Stdlib Require Import ZArith Lia String.
From stdpp Require Import base tactics list numbers relations.
From S2P Require Import Prelude Threads Explore.

Local Open Scope Z_scope.

(** ** Definitions *)

Inductive meet_sem := S1 | S2.

#[export] Instance meet_sem_eq : EqDecision meet_sem.
Proof. solve_decision. Defined.

Inductive meet_role := Child1 | Child2.

#[export] Instance meet_role_eq : EqDecision meet_role.
Proof. solve_decision. Defined.

(** The lines that are printed. *)
Inductive meet_line := Before (child : nat) | After (child : nat).

#[export] Instance meet_line_eq : EqDecision meet_line.
Proof. solve_decision. Defined.

Definition meet_instr : Type := instr meet_sem unit (list meet_line).

Definition printf (x : meet_line) : meet_instr := Act (fun l s => (l, s ++ [x])).

Definition child_1 : list meet_instr :=
  [ printf (Before 1); Post (fun _ => S1); Wait (fun _ => S2); printf (After 1) ].

Definition child_2 : list meet_instr :=
  [ printf (Before 2); Post (fun _ => S2); Wait (fun _ => S1); printf (After 2) ].

Definition meet_code (r : meet_role) : list meet_instr := match r with Child1 => child_1 | Child2 => child_2 end.

(** [main], with the named semaphores [shm] that exist. *)
Definition meet_main (shm : list (string * Z)) : machine meet_sem meet_role unit (list meet_line) :=
  let '(s1, shm) := Sem_open 1 "/aArrived"%string 0 shm in
  let '(s2, shm) := Sem_open 1 "/bArrived"%string 0 shm in
  mkMachine (fun k => match k with S1 => s1 | S2 => s2 end) [] [mkThread Child1 0 tt; mkThread Child2 0 tt].

Inductive fork_role := Child | Parent.

#[export] Instance fork_role_eq : EqDecision fork_role.
Proof. solve_decision. Defined.

Inductive fork_line := ChildLine | BeginWait | ParentEnd.

#[export] Instance fork_line_eq : EqDecision fork_line.
Proof. solve_decision. Defined.

Definition fork_instr : Type := instr unit unit (list fork_line).

Definition fork_printf (x : fork_line) : fork_instr := Act (fun l s => (l, s ++ [x])).

Definition child : list fork_instr := [ fork_printf ChildLine; Post (fun _ => tt) ].

Definition parent : list fork_instr := [ fork_printf BeginWait; Wait (fun _ => tt); fork_printf ParentEnd ].

Definition fork_code (r : fork_role) : list fork_instr := match r with Child => child | Parent => parent end.

(** [main] after a [fork] that succeeded: the child and the parent share the
    semaphore. *)
Definition fork_main (shm : list (string * Z)) : machine unit fork_role unit (list fork_line) :=
  let '(s, _) := Sem_open 1 "/fork-join-semaphore"%string 0 shm in
  mkMachine (fun _ => s) [] [mkThread Parent 0 tt; mkThread Child 0 tt].

(** ** What the semaphores start with *)

Lemma check_shm_other name name' shm : name <> name' -> shm_exists name (check_shm name' shm) = shm_exists name shm.
Proof.
  intros Hn. unfold shm_exists, check_shm. induction shm as [|[n v] shm IH]; [done|]. cbn.
  destruct (String.eqb_spec name' n) as [<-|Hne]; cbn; rewrite IH; [|done]. by rewrite (proj2 (String.eqb_neq name name')).
Qed.

Lemma Sem_open_other name name' value shm : name <> name' ->
  shm_exists name (Sem_open 1 name' value shm).2 = shm_exists name shm.
Proof.
  intros Hn. assert (E : String.eqb name name' = false) by (by apply String.eqb_neq).
  cbn. destruct (shm_exists name' shm).
  - rewrite check_shm_gone. cbn [snd]. unfold shm_exists at 1. cbn. rewrite E. cbn. by apply check_shm_other.
  - cbn. by rewrite E.
Qed.

Definition start (stale : bool) : Z := if stale then 1 else 0.

Definition meet_from (s1 s2 : Z) : machine meet_sem meet_role unit (list meet_line) :=
  mkMachine (fun k => match k with S1 => s1 | S2 => s2 end) [] [mkThread Child1 0 tt; mkThread Child2 0 tt].

Lemma meet_main_sems shm :
  meet_main shm = meet_from (start (shm_exists "/aArrived" shm)) (start (shm_exists "/bArrived" shm)).
Proof.
  unfold meet_main. pose proof (Sem_open_value "/aArrived" 0 shm) as E1. pose proof (Sem_open_other "/bArrived" "/aArrived" 0 shm ltac:(done)) as E3.
  destruct (Sem_open 1 "/aArrived" 0 shm) as [s1 shm1]. cbn [fst snd] in *. pose proof (Sem_open_value "/bArrived" 0 shm1) as E2.
  destruct (Sem_open 1 "/bArrived" 0 shm1) as [s2 shm2]. cbn [fst] in *. rewrite E3 in E2. by rewrite E1, E2.
Qed.

Lemma fork_main_sems shm :
  fork_main shm = mkMachine (fun _ => start (shm_exists "/fork-join-semaphore" shm)) [] [mkThread Parent 0 tt; mkThread Child 0 tt].
Proof.
  unfold fork_main. pose proof (Sem_open_value "/fork-join-semaphore" 0 shm) as E.
  destruct (Sem_open 1 "/fork-join-semaphore" 0 shm) as [s shm1]. cbn [fst] in E. by rewrite E.
Qed.

(** ** All the states *)

Lemma meet_keys_all k : k ∈ [S1; S2].
Proof. apply list_elem_of_In. destruct k; cbn; tauto. Qed.

(** The first two lines are those before the meeting. *)
Definition is_before (x : meet_line) : bool := match x with Before _ => true | After _ => false end.

Definition meet_ok (s : list meet_line) : Prop := Forall (fun x => is_before x = true) (take 2 s).

Definition meet_check (c : cstate) : bool :=
  bool_decide (meet_ok c.(cstore)) &&
  (if blocked meet_code [S1; S2] c then bool_decide (c.(cstore) ≡ₚ [Before 1; Before 2; After 1; After 2]) else true).

Lemma meet_explored : explored meet_code [S1; S2] 100 (meet_from 0 0) meet_check = true.
Proof. vm_compute. reflexivity. Qed.

Lemma fork_keys_all k : k ∈ [tt].
Proof. apply list_elem_of_In. destruct k. cbn. tauto. Qed.

(** The child has printed its line before the parent ends. *)
Definition fork_ok (s : list fork_line) : Prop := ParentEnd ∈ s -> last s = Some ParentEnd /\ ChildLine ∈ s.

Definition fork_check (c : cstate) : bool :=
  bool_decide (fork_ok c.(cstore)) &&
  (if blocked fork_code [tt] c then bool_decide (c.(cstore) ≡ₚ [BeginWait; ChildLine; ParentEnd]) else true).

Lemma fork_explored : explored fork_code [tt] 100 (fork_main []) fork_check = true.
Proof. vm_compute. reflexivity. Qed.

(** ** Properties *)

(** When the names of the semaphores are new, both children print their line
    before the meeting before any prints the one after it, and both come to the
    end.  A name that an earlier run left behind starts with 1, and one child can
    pass alone. *)
Lemma rendezvous_correct shm :
  (shm_exists "/aArrived" shm = false -> shm_exists "/bArrived" shm = false ->
     (forall m, reach meet_code (meet_main shm) m -> meet_ok m.(store) /\
        (stuck meet_code m -> m.(store) ≡ₚ [Before 1; Before 2; After 1; After 2])) /\
     (forall k m, nsteps (mstep meet_code) k (meet_main shm) m -> Z.of_nat k <= 8)) /\
  (shm_exists "/aArrived" shm = true -> exists m, reach meet_code (meet_main shm) m /\ m.(store) = [Before 2; After 2]).
Proof.
  rewrite meet_main_sems. split.
  - intros -> ->. split; [intros m Hm|].
    + pose proof (explored_sound meet_code [S1; S2] meet_keys_all _ _ _ meet_explored m Hm) as H.
      apply andb_true_iff in H as [Hs He]. split; [by apply bool_decide_eq_true in Hs|].
      intros Hst%(stuck_blocked meet_code [S1; S2] meet_keys_all). rewrite Hst in He. by apply bool_decide_eq_true in He.
    + intros k m Hk. by pose proof (forward_bounded meet_code _ ltac:(by intros []) k m Hk).
  - intros ->. apply (run_witness meet_code (fun m => m.(store) = [Before 2; After 2]) [1; 1; 1; 1]%nat).
    by destruct (shm_exists "/bArrived" shm).
Qed.

(** The same for the parent and its child: the parent ends behind its child's
    line, unless the name of the semaphore was left behind. *)
Lemma fork_join_correct shm :
  (shm_exists "/fork-join-semaphore" shm = false ->
     (forall m, reach fork_code (fork_main shm) m -> fork_ok m.(store) /\
        (stuck fork_code m -> m.(store) ≡ₚ [BeginWait; ChildLine; ParentEnd])) /\
     (forall k m, nsteps (mstep fork_code) k (fork_main shm) m -> Z.of_nat k <= 5)) /\
  (shm_exists "/fork-join-semaphore" shm = true -> exists m, reach fork_code (fork_main shm) m /\ m.(store) = [BeginWait; ParentEnd]).
Proof.
  rewrite fork_main_sems. split.
  - intros ->. split; [intros m Hm|].
    + pose proof (explored_sound fork_code [tt] fork_keys_all _ _ _ fork_explored m Hm) as H.
      apply andb_true_iff in H as [Hs He]. split; [by apply bool_decide_eq_true in Hs|].
      intros Hst%(stuck_blocked fork_code [tt] fork_keys_all). rewrite Hst in He. by apply bool_decide_eq_true in He.
    + intros k m Hk. by pose proof (forward_bounded fork_code _ ltac:(by intros []) k m Hk).
  - intros ->. apply (run_witness fork_code (fun m => m.(store) = [BeginWait; ParentEnd]) [0; 0; 0]%nat). done.
Qed.
