(* ===== verification/ApproxCounter.v ===== *)
(** * The approximate counter

    [29/approximate_counter.c], on the machine of [Threads]: a mutex is a
    semaphore that starts at 1, and an update of a shared variable is a load and
    a store.  The counts stay below [2^31] in the program, so that they are plain
    integers here. *)

From Stdlib Require Import ZArith Lia.
From stdpp Require Import base tactics list numbers relations.
From S2P Require Import Prelude Threads.

Local Open Scope Z_scope.

(** ** Definitions *)

Definition NUMCPUS : nat := 16.

(** The locks. *)
Inductive lock := Llock (cpu : Z) | Glock.

#[export] Instance lock_eq : EqDecision lock.
Proof. solve_decision. Defined.

(** [counter_t] without the locks, and the [amt] of [myarg_t]. *)
Record counter_t := mkCounter { local : Z -> Z; global : Z; threshold : Z; amt : Z }.

(** The locals of [thread_function] and [update]: [i], the bound of the loop,
    [cpu], and the values loaded from [local[cpu]] and [global]. *)
Record locals := mkLoc { i : Z; million : Z; cpu : Z; lv : Z; gv : Z }.

Definition instruction : Type := instr lock locals counter_t.

(** [threadID % NUMCPUS] *)
Definition cpu_of (threadID : Z) : Z := Z.rem threadID (Z.of_nat NUMCPUS).

Definition set_local (c x : Z) (s : counter_t) : counter_t :=
  mkCounter (fun c' => if c' =? c then x else s.(local) c') s.(global) s.(threshold) s.(amt).

Definition set_global (x : Z) (s : counter_t) : counter_t := mkCounter s.(local) x s.(threshold) s.(amt).

Definition update : list instruction :=
  [ Wait (fun l => Llock l.(cpu));
    Act (fun l s => (mkLoc l.(i) l.(million) l.(cpu) (s.(local) l.(cpu)) l.(gv), s));
    Act (fun l s => (l, set_local l.(cpu) (l.(lv) + s.(amt)) s));
    Unless (fun l s => s.(threshold) <=? s.(local) l.(cpu)) 5;
    Wait (fun _ => Glock);
    Act (fun l s => (mkLoc l.(i) l.(million) l.(cpu) (s.(local) l.(cpu)) s.(global), s));
    Act (fun l s => (l, set_global (l.(gv) + l.(lv)) s));
    Post (fun _ => Glock);
    Act (fun l s => (l, set_local l.(cpu) 0 s));
    Post (fun l => Llock l.(cpu)) ].

Definition thread_function : list instruction :=
  [Unless (fun l _ => l.(i) <? l.(million)) (S (S (length update)))] ++ update ++
  [Act (fun l s => (mkLoc (l.(i) + 1) l.(million) l.(cpu) l.(lv) l.(gv), s)); Back (S (S (length update)))].

Definition code (_ : unit) : list instruction := thread_function.

Definition init (threshold amt : Z) : counter_t := mkCounter (fun _ => 0) 0 threshold amt.

(** The threads of [main], given what [pthread_self] returns to them. *)
Definition main (ids : list Z) (million threshold amt : Z) : machine lock unit locals counter_t :=
  mkMachine (fun _ => 1) (init threshold amt)
    ((fun id => mkThread tt 0 (mkLoc 0 million (cpu_of id) 0 0)) <$> ids).

(** [get] *)
Definition get (s : counter_t) : Z := s.(global).

(** ** The invariant *)

(** The threads of a processor in a range of instructions. *)
Definition on_cpu (c : Z) (lo hi : nat) (t : thread unit locals) : Z :=
  if t.(loc).(cpu) =? c then at_pc lo hi t else 0.

(** The calls of [update] that have added to [local]. *)
Definition updates (t : thread unit locals) : Z := t.(loc).(i) + at_pc 4 11 t.

(** What is in [global] and still in [local]. *)
Definition twice (t : thread unit locals) : Z := if ((8 <=? t.(pc)) && (t.(pc) <=? 9))%nat then t.(loc).(lv) else 0.

Definition cpus : list Z := Z.of_nat <$> seq 0 NUMCPUS.

Definition thread_ok (N : Z) (s : counter_t) (t : thread unit locals) : Prop :=
  (t.(pc) <= 13)%nat /\ 0 <= t.(loc).(cpu) < 16 /\ t.(loc).(million) = N /\ 0 <= t.(loc).(i) /\
  t.(loc).(i) <= N - at_pc 1 11 t /\ (t.(pc) = 13%nat -> t.(loc).(i) = N) /\
  (t.(pc) = 3%nat \/ (7 <= t.(pc) <= 9)%nat -> t.(loc).(lv) = s.(local) t.(loc).(cpu)) /\
  (t.(pc) = 7%nat -> t.(loc).(gv) = s.(global)).

Definition counter_inv (N T a : Z) (m : machine lock unit locals counter_t) : Prop :=
  let v := m.(sems) in let s := m.(store) in let ts := m.(threads) in
  s.(threshold) = T /\ s.(amt) = a /\
  (forall k, 0 <= v k) /\ (forall c, v (Llock c) + tsum (on_cpu c 2 10) ts = 1) /\ v Glock + tsum (at_pc 6 8) ts = 1 /\
  tsum s.(local) cpus + s.(global) - tsum twice ts = a * tsum updates ts /\
  (forall c, 0 <= s.(local) c /\ s.(local) c <= (T - 1) + a * tsum (on_cpu c 4 9) ts) /\
  Forall (thread_ok N s) ts.

Lemma on_cpu_nonneg c lo hi t : 0 <= on_cpu c lo hi t.
Proof. unfold on_cpu. destruct (_ =? _); [apply at_pc_nonneg|lia]. Qed.

Lemma on_cpu_mk c lo hi r p l :
  on_cpu c lo hi (mkThread r p l) = if l.(cpu) =? c then if ((lo <=? p) && (p <=? hi))%nat then 1 else 0 else 0.
Proof. done. Qed.

Lemma updates_mk r p l : updates (mkThread r p l) = l.(i) + if ((4 <=? p) && (p <=? 11))%nat then 1 else 0.
Proof. done. Qed.

(** One cell of [local] changes. *)
Lemma tsum_set_local c x s : 0 <= c < 16 -> tsum (set_local c x s).(local) cpus = tsum s.(local) cpus - s.(local) c + x.
Proof.
  intros Hc. assert (H : forall l, NoDup l -> c ∈ l -> tsum (set_local c x s).(local) l = tsum s.(local) l - s.(local) c + x).
  { intros l Hl. induction Hl as [|d l Hd Hl IH]; [intros H; by apply elem_of_nil in H|].
    intros [->|Hin]%elem_of_cons; rewrite !tsum_cons.
    - rewrite (tsum_ext _ s.(local) l); [cbn; rewrite Z.eqb_refl; lia|]. apply Forall_forall. intros y Hy. cbn.
      destruct (Z.eqb_spec y d) as [->|]; done.
    - rewrite IH by done. cbn. destruct (Z.eqb_spec d c) as [->|]; [done|lia]. }
  apply H.
  - apply NoDup_fmap_2; [apply _|apply NoDup_seq].
  - apply list_elem_of_fmap. exists (Z.to_nat c). split; [lia|]. apply elem_of_seq. unfold NUMCPUS. lia.
Qed.

(** One thread of a processor is between its lock and its unlock, one thread has
    the global lock. *)
Lemma excl {A} (w : A -> Z) ts j k t u :
  (forall t, 0 <= w t) -> tsum w ts <= 1 -> ts !! j = Some t -> ts !! k = Some u -> j <> k -> 1 <= w t -> w u <= 0.
Proof. intros Hw H1 Hj Hk Hne Ht. pose proof (tsum_ge2 w ts j k t u Hw Hne Hj Hk). lia. Qed.

Lemma others N s s' ts j t t' :
  Forall (thread_ok N s) ts -> ts !! j = Some t -> thread_ok N s' t' ->
  (forall k u, k <> j -> ts !! k = Some u -> thread_ok N s u -> thread_ok N s' u) ->
  Forall (thread_ok N s') (<[j := t']> ts).
Proof.
  intros Hall Hj Ht Hu. apply Forall_lookup. intros k u Hk. destruct (decide (k = j)) as [->|Hne].
  - rewrite list_lookup_insert_eq in Hk by (by eapply lookup_lt_Some). by injection Hk as <-.
  - rewrite list_lookup_insert_ne in Hk by done. apply (Hu k u); [done|done|]. exact (proj1 (Forall_lookup _ _) Hall _ _ Hk).
Qed.

(** A step that leaves [local] and [global] alone. *)
Lemma thread_ok_ext N s s' t :
  (t.(pc) = 3%nat \/ (7 <= t.(pc) <= 9)%nat -> s'.(local) t.(loc).(cpu) = s.(local) t.(loc).(cpu)) ->
  (t.(pc) = 7%nat -> s'.(global) = s.(global)) -> thread_ok N s t -> thread_ok N s' t.
Proof.
  intros Hl Hg (H1 & H2 & H3 & H4 & H5 & H6 & H7 & H8). unfold thread_ok. split_and!; try done; try lia.
Qed.

Ltac sem_cases :=
  repeat match goal with |- context [sem_add _ _ _ _] => unfold sem_add; case_decide; simplify_eq end.

Ltac cpu_cases Ht :=
  let c := fresh "c" in
  intros c; rewrite ?(tsum_step _ _ _ _ _ Ht); rewrite ?on_cpu_mk;
  cbn [loc cpu set_local set_global local Nat.leb andb];
  repeat match goal with H : forall c : Z, _ |- _ => specialize (H c) end;
  rewrite ?on_cpu_mk in *; cbn [at_pc pc cpu Nat.leb andb] in *;
  repeat match goal with |- context [?x =? ?y] => destruct (Z.eqb_spec x y); subst end; rewrite ?Z.eqb_refl in *;
  sem_cases; try congruence; try lia.

Lemma counter_init ids N T a :
  0 <= N -> 1 <= T -> 0 < a -> Forall (fun id => 0 <= cpu_of id) ids -> counter_inv N T a (main ids N T a).
Proof.
  intros HN HT Ha Hids. assert (Hz : forall w, (forall id, w (mkThread tt 0 (mkLoc 0 N (cpu_of id) 0 0)) = 0) ->
    tsum w ((fun id => mkThread tt 0 (mkLoc 0 N (cpu_of id) 0 0)) <$> ids) = 0).
  { intros w Hw. apply tsum_zero, Forall_fmap, Forall_true. done. }
  unfold counter_inv, main, init. cbn [sems store threads threshold amt local global].
  split_and!; try lia.
  - intros c. rewrite Hz; [lia|]. intros id. unfold on_cpu. by destruct (_ =? _).
  - by rewrite Hz.
  - rewrite (tsum_const 0), !Hz by done. lia.
  - intros c. rewrite Hz; [lia|]. intros id. unfold on_cpu. by destruct (_ =? _).
  - apply Forall_fmap. eapply Forall_impl; [exact Hids|]. intros id Hid. unfold compose, thread_ok, cpu_of in *.
    change (Z.of_nat NUMCPUS) with 16 in *. cbn [at_pc pc loc i cpu million lv gv Nat.leb andb local global].
    pose proof (Z.rem_bound_abs id 16 ltac:(lia)). split_and!; try lia; done.
Qed.

(** The thread that runs, when it is between lock and unlock, is alone there on
    its processor; likewise for the global lock. *)
Lemma cpu_alone (v : lock -> Z) ts j k t u :
  (forall k, 0 <= v k) -> (forall c, v (Llock c) + tsum (on_cpu c 2 10) ts = 1) ->
  ts !! j = Some t -> ts !! k = Some u -> k <> j -> (2 <= t.(pc) <= 10)%nat -> t.(loc).(cpu) = u.(loc).(cpu) ->
  ~ (2 <= u.(pc) <= 10)%nat.
Proof.
  intros Hv HL Hj Hk Hne Ht Hc Hu. specialize (HL t.(loc).(cpu)). specialize (Hv (Llock t.(loc).(cpu))).
  pose proof (excl (on_cpu t.(loc).(cpu) 2 10) ts j k t u (on_cpu_nonneg _ _ _) ltac:(lia) Hj Hk ltac:(done)) as H.
  unfold on_cpu in H. rewrite <- Hc, Z.eqb_refl, !at_pc_1 in H by done. lia.
Qed.

Lemma global_alone (v : lock -> Z) ts j k (t u : thread unit locals) :
  (forall k, 0 <= v k) -> v Glock + tsum (at_pc 6 8) ts = 1 ->
  ts !! j = Some t -> ts !! k = Some u -> k <> j -> (6 <= t.(pc) <= 8)%nat -> ~ (6 <= u.(pc) <= 8)%nat.
Proof.
  intros Hv HG Hj Hk Hne Ht Hu. specialize (Hv Glock).
  pose proof (excl (at_pc 6 8) ts j k t u (at_pc_nonneg _ _) ltac:(lia) Hj Hk ltac:(done)) as H. rewrite !at_pc_1 in H by done. lia.
Qed.

Lemma counter_step N T a v s ts j t v' s' t' :
  1 <= T -> 0 < a -> counter_inv N T a (mkMachine v s ts) -> ts !! j = Some t -> exec code v s t = Some (v', s', t') ->
  counter_inv N T a (mkMachine v' s' (<[j := t']> ts)).
Proof.
  intros HT Ha (ET & Ea & Hv & HL & HG & Hsum & Hloc & Hok) Ht Ex. cbn [sems store threads] in *.
  pose proof (proj1 (Forall_lookup _ _) Hok _ _ Ht) as Hit.
  assert (HL1 : tsum (on_cpu t.(loc).(cpu) 2 10) ts <= 1) by (pose proof (Hv (Llock t.(loc).(cpu))); pose proof (HL t.(loc).(cpu)); lia).
  assert (HG1 : tsum (at_pc 6 8) ts <= 1) by (pose proof (Hv Glock); lia).
  assert (H49 : forall c : Z, 0 <= a * (tsum (on_cpu c 4 9) ts - on_cpu c 4 9 t))
    by (intros c; pose proof (tsum_ge (on_cpu c 4 9) ts j t (on_cpu_nonneg _ _ _) Ht); nia).
  pose proof (fun k u => cpu_alone v ts j k t u Hv HL Ht) as Hcpu.
  pose proof (fun k u => global_alone v ts j k t u Hv HG Ht) as Hglob.
  destruct s as [lo gl T' a'], t as [[] p [it mi cp l0 g0]]. cbn [threshold amt local global] in *. subst T' a'.
  unfold thread_ok in Hit. cbn [pc loc i million cpu lv gv local global] in *.
  destruct Hit as (Hp & Hc & Hmi & Hi0 & HiN & _ & Hlv & Hgv).
  split_pc 14%nat p; try lia; step_cases Ex; bool_to_prop; unfold counter_inv; cbn [sems store threads threshold amt];
    (split; [reflexivity|]; split; [reflexivity|]; split; [intros k; pose proof (Hv k); sem_cases; lia|];
     split; [cpu_cases Ht|]; split; [sums Ht; sem_cases; lia|]; split;
     [rewrite ?tsum_set_local by done; rewrite ?(tsum_step _ _ _ _ _ Ht), ?updates_mk;
      cbn [twice at_pc pc loc i million cpu lv gv Nat.leb Nat.add Nat.sub andb local global set_global set_local]; try lia|]; split;
     [cpu_cases Ht|]).
  all: eapply others; [exact Hok|exact Ht| |];
    [unfold thread_ok; cbn [at_pc pc loc i million cpu lv gv Nat.leb Nat.add Nat.sub andb local global set_local set_global] in *;
     rewrite ?Z.eqb_refl; split_and!; lia|].
  all: intros k u Hne Hk; apply thread_ok_ext; cbn [local global set_local set_global]; intros Hu;
    try (destruct (Z.eqb_spec u.(loc).(cpu) cp); [destruct (Hcpu k u Hk Hne); lia|]); try reflexivity;
    destruct (Hglob k u Hk Hne); lia.
Qed.

Lemma counter_reach ids N T a m :
  0 <= N -> 1 <= T -> 0 < a -> Forall (fun id => 0 <= cpu_of id) ids -> reach code (main ids N T a) m -> counter_inv N T a m.
Proof.
  intros HN HT Ha Hids. apply reach_inv; [by apply counter_init|]. intros. by eapply counter_step.
Qed.

(** ** Termination *)

(** The instructions a thread still executes, at most. *)
Definition remaining (N : Z) (t : thread unit locals) : Z :=
  match t.(pc) with
  | 12%nat => 13 * (N - t.(loc).(i)) + 2
  | 13%nat => 0
  | p => 13 * (N - t.(loc).(i)) + 1 - Z.of_nat p
  end.

Lemma remaining_nonneg N s t : thread_ok N s t -> 0 <= remaining N t.
Proof.
  destruct t as [[] p l]. unfold thread_ok, remaining. cbn [pc loc]. intros (Hp & _ & _ & H0 & H1 & _).
  split_pc 14%nat p; cbn [at_pc pc Nat.leb andb] in *; lia.
Qed.

Lemma remaining_step N T a v s ts j t v' s' t' :
  counter_inv N T a (mkMachine v s ts) -> ts !! j = Some t -> exec code v s t = Some (v', s', t') ->
  tsum (remaining N) (<[j := t']> ts) < tsum (remaining N) ts.
Proof.
  intros (_ & _ & _ & _ & _ & _ & _ & Hok) Ht Ex. cbn [threads] in Hok. pose proof (proj1 (Forall_lookup _ _) Hok _ _ Ht) as Hit.
  rewrite (tsum_step _ _ _ _ _ Ht). destruct t as [[] p [it mi cp l0 g0]]. destruct Hit as (Hp & _ & Hmi & H0 & H1 & _).
  cbn [pc loc i million] in *. split_pc 14%nat p; try lia; step_cases Ex; bool_to_prop;
    cbn [remaining at_pc pc loc i million Nat.leb Nat.add Nat.sub andb] in *; lia.
Qed.

(** A thread that cannot run waits for a lock or has ended; the thread with the
    global lock can run, so can then the ones with a local lock. *)
Lemma counter_stuck N T a v s ts :
  counter_inv N T a (mkMachine v s ts) -> stuck code (mkMachine v s ts) -> Forall (fun t => t.(pc) = 13%nat) ts.
Proof.
  intros (_ & _ & Hv & HL & HG & _ & _ & Hok) Hs%stuck_exec. cbn [sems store threads] in *.
  assert (Hb : Forall (fun t => (t.(pc) = 1%nat /\ v (Llock t.(loc).(cpu)) <= 0) \/ (t.(pc) = 5%nat /\ v Glock <= 0) \/ t.(pc) = 13%nat) ts).
  { apply Forall_lookup. intros k t Ht. pose proof (proj1 (Forall_lookup _ _) Hs _ _ Ht) as Ex.
    destruct (proj1 (Forall_lookup _ _) Hok _ _ Ht) as [Hp _]. destruct t as [[] p l]. cbn [pc loc] in *.
    split_pc 14%nat p; try lia; cbn in Ex; try discriminate Ex; try (destruct (_ <? _) eqn:E in Ex; [discriminate Ex|]);
      bool_to_prop; auto. }
  assert (Hg : v Glock = 1).
  { rewrite (at_pc_none 6 8 ts) in HG; [lia|]. eapply Forall_impl; [exact Hb|]. cbv beta. lia. }
  assert (Hl : forall c, v (Llock c) = 1).
  { intros c. specialize (HL c). rewrite (tsum_zero (on_cpu c 2 10)) in HL; [lia|]. eapply Forall_impl; [exact Hb|].
    intros [[] p l] H. rewrite on_cpu_mk. cbn [pc loc] in H. destruct (cpu l =? c); [|done].
    destruct H as [[-> _]|[[_ H]| ->]]; [done|lia|done]. }
  eapply Forall_impl; [exact Hb|]. cbv beta. intros t [[_ H]|[[_ H]|H]]; [rewrite Hl in H; lia|lia|done].
Qed.

(** What is counted twice is no more than what the processors hold. *)
Lemma twice_le N T a v s ts : counter_inv N T a (mkMachine v s ts) -> tsum twice ts <= tsum s.(local) cpus.
Proof.
  intros (_ & _ & Hv & HL & _ & _ & Hloc & Hok). cbn [sems store threads] in *.
  set (f := fun (t : thread unit locals) (c : Z) => if t.(loc).(cpu) =? c then twice t else 0).
  assert (E : forall t, 0 <= t.(loc).(cpu) < 16 -> twice t = tsum (f t) cpus).
  { intros t Ht. subst f. cbv beta. destruct t as [[] p l]. cbn [loc] in *. set (w := twice _).
    pose proof (tsum_set_local (cpu l) w (mkCounter (fun _ => 0) 0 0 0) Ht) as H. cbn [set_local local] in H.
    rewrite (tsum_const 0), Z.mul_0_l in H. rewrite (tsum_ext _ (fun c => if c =? cpu l then w else 0)); [lia|].
    apply Forall_true. intros c. by rewrite Z.eqb_sym. }
  rewrite (tsum_ext twice (fun t => tsum (f t) cpus)) by (eapply Forall_impl; [exact Hok|]; intros t Ht; apply E, Ht).
  rewrite tsum_swap. apply tsum_le, Forall_true. intros c. destruct (Hloc c) as [H0 _].
  assert (Hone : forall ts', Forall (thread_ok N s) ts' -> tsum (on_cpu c 2 10) ts' <= 1 ->
    tsum (fun t => f t c) ts' <= s.(local) c * tsum (on_cpu c 2 10) ts').
  { induction 1 as [|t ts' Ht _ IH]; [cbn; lia|]. rewrite !tsum_cons. intros H1. pose proof (on_cpu_nonneg c 2 10 t).
    pose proof (tsum_nonneg (on_cpu c 2 10) ts' (on_cpu_nonneg _ _ _)). specialize (IH ltac:(lia)).
    cut (f t c <= s.(local) c * on_cpu c 2 10 t); [lia|]. subst f. cbv beta. destruct t as [[] p l].
    destruct Ht as (_ & _ & _ & _ & _ & _ & Hlv & _). rewrite on_cpu_mk. cbn [pc loc] in *. unfold twice. cbn [pc loc].
    destruct (Z.eqb_spec (cpu l) c) as [<-|]; [|lia].
    destruct (Nat.leb_spec 8 p), (Nat.leb_spec p 9), (Nat.leb_spec 2 p), (Nat.leb_spec p 10); cbn [andb]; try lia. }
  specialize (HL c). specialize (Hv (Llock c)). specialize (Hone ts Hok ltac:(lia)).
  pose proof (tsum_nonneg (on_cpu c 2 10) ts (on_cpu_nonneg _ _ _)). nia.
Qed.

(** C23: the approximate counter, for any number of threads, iterations and
    threshold, under any schedule.  At every moment the value of [get] is at most
    [amt] times the updates made so far, and behind by at most
    [NUMCPUS * (threshold - 1 + amt)].  The program executes at most
    [13 N + 1] instructions per thread, and when no thread can run all have ended
    and no update is lost: what [get] misses is in the local counters, less
    than [threshold] each. *)
Theorem approx_counter_correct ids N T a :
  0 <= N -> 1 <= T -> 0 < a -> Forall (fun id => 0 <= cpu_of id) ids ->
  (forall k m, nsteps (mstep code) k (main ids N T a) m -> Z.of_nat k <= (13 * N + 1) * Z.of_nat (length ids)) /\
  (forall m, reach code (main ids N T a) m ->
     let U := tsum updates m.(threads) in
     a * U - 16 * (T - 1 + a) <= get m.(store) <= a * U /\
     (stuck code m ->
        finished code m /\ U = N * Z.of_nat (length ids) /\ get m.(store) + tsum m.(store).(local) cpus = a * U /\
        forall c, 0 <= m.(store).(local) c < T)).
Proof.
  intros HN HT Ha Hids. pose proof (fun m => counter_reach ids N T a m HN HT Ha Hids) as Hr. split.
  - intros k m Hk. assert (E : tsum (remaining N) (main ids N T a).(threads) = (13 * N + 1) * Z.of_nat (length ids)).
    { cbn [main threads]. rewrite tsum_fmap. cbn [remaining pc loc i]. rewrite tsum_const. lia. }
    rewrite <- E. eapply (steps_bounded _ (counter_inv N T a) (fun m => tsum (remaining N) (threads m)) _ Hr);
      [|by intros; eapply remaining_step|exact Hk].
    intros m' (_ & _ & _ & _ & _ & _ & _ & Hok). rewrite <- (Z.mul_0_l (Z.of_nat (length (threads m')))), <- tsum_const.
    apply tsum_le. eapply Forall_impl; [exact Hok|]. intros t. apply remaining_nonneg.
  - intros m Hm U. specialize (Hr m Hm). pose proof (reach_roles _ _ _ Hm) as Hlen. apply (f_equal length) in Hlen.
    rewrite !length_fmap in Hlen. cbn [main threads] in Hlen. rewrite length_fmap in Hlen. destruct m as [v s ts].
    pose proof (twice_le _ _ _ _ _ _ Hr) as Htw. pose proof (counter_stuck _ _ _ _ _ _ Hr) as Hst.
    destruct Hr as (_ & _ & Hv & HL & _ & Hsum & Hloc & Hok). cbn [sems store threads] in *. unfold get. fold U in Hsum.
    assert (H1 : forall c, tsum (on_cpu c 4 9) ts <= 1).
    { intros c. specialize (HL c). specialize (Hv (Llock c)). cut (tsum (on_cpu c 4 9) ts <= tsum (on_cpu c 2 10) ts); [lia|].
      apply tsum_le, Forall_true. intros [[] p l]. rewrite !on_cpu_mk. destruct (_ =? _); [|lia].
      destruct (Nat.leb_spec 4 p), (Nat.leb_spec p 9), (Nat.leb_spec 2 p), (Nat.leb_spec p 10); cbn; lia. }
    assert (Hle : tsum s.(local) cpus <= 16 * (T - 1 + a)).
    { replace (16 * (T - 1 + a)) with (tsum (fun _ => T - 1 + a) cpus) by (rewrite tsum_const; cbn; lia).
      apply tsum_le, Forall_true. intros c. specialize (Hloc c). specialize (H1 c). nia. }
    assert (H0 : 0 <= tsum twice ts).
    { rewrite <- (Z.mul_0_l (Z.of_nat (length ts))), <- tsum_const. apply tsum_le. eapply Forall_impl; [exact Hok|].
      intros t (_ & _ & _ & _ & _ & _ & Hlv & _). unfold twice. destruct (Nat.leb_spec 8 t.(pc)), (Nat.leb_spec t.(pc) 9); cbn; try lia.
      rewrite Hlv by lia. apply Hloc. }
    split; [lia|]. intros Hs. specialize (Hst Hs). split_and!.
    + eapply Forall_impl; [exact Hst|]. intros t Ht. unfold ended. rewrite Ht. done.
    + unfold U. rewrite <- Hlen, <- tsum_const. apply tsum_ext. apply Forall_lookup. intros k t Ht.
      pose proof (proj1 (Forall_lookup _ _) Hst _ _ Ht) as Hp. destruct (proj1 (Forall_lookup _ _) Hok _ _ Ht) as (_ & _ & _ & _ & _ & Hi & _).
      cbv beta in Hp. destruct t as [[] p l]. cbn [pc loc] in *. subst p. rewrite updates_mk. cbn. rewrite Hi by done. lia.
    + rewrite (tsum_zero twice) in Hsum; [lia|]. eapply Forall_impl; [exact Hst|]. intros t Ht. unfold twice. by rewrite Ht.
    + intros c. specialize (Hloc c). rewrite (tsum_zero (on_cpu c 4 9)) in Hloc; [lia|]. eapply Forall_impl; [exact Hst|].
      intros [[] p l] Ht. cbn in Ht. subst p. rewrite on_cpu_mk. by destruct (_ =? _).
Qed.

(** Two threads on two processors, two iterations each, threshold 3: both have
    made one update and [get] still returns 0. *)
Lemma approx_counter_correct_witness :
  exists m, reach code (main [16; 33] 2 3 1) m /\ tsum updates m.(threads) = 2 /\
    1 * 2 - 16 * (3 - 1 + 1) <= get m.(store) <= 1 * 2.
Proof.
  destruct (approx_counter_correct [16; 33] 2 3 1) as [_ H]; [lia|lia|lia|repeat (apply Forall_cons_2; [vm_compute; congruence|]); constructor|].
  destruct (run_witness code (fun m => tsum updates m.(threads) = 2) [0; 0; 0; 0; 1; 1; 1; 1]%nat (main [16; 33] 2 3 1)) as (m & Hm & E);
    [vm_compute; reflexivity|].
  exists m. split; [exact Hm|]. split; [exact E|]. destruct (H m Hm) as [H1 _]. rewrite E in H1. exact H1.
Defined.

(** An identifier whose [int] is negative can give a negative index. *)
Example cpu_of_negative : cpu_of (-8) = -8.
Proof. reflexivity. Qed.
