(* ===== verification/SimpleCounter.v ===== *)
(** * The counter with one lock

    [29/simple_concurrent_counter.c], on the machine of [Threads]; an increment
    is a load and a store. *)

From Stdlib Require Import ZArith Lia.
From stdpp Require Import base tactics list numbers relations.
From S2P Require Import Prelude Threads.

Local Open Scope Z_scope.

(** ** Definitions *)

Record locals := mkLoc { i : Z; million : Z; v : Z }.

(** The one lock is [tt], the store is [value]. *)
Definition instruction : Type := instr unit locals Z.

Definition increment : list instruction :=
  [ Wait (fun _ => tt);
    Act (fun l s => (mkLoc l.(i) l.(million) s, s));
    Act (fun l s => (l, l.(v) + 1));
    Post (fun _ => tt) ].

Definition thread_function : list instruction :=
  [Unless (fun l _ => l.(i) <? l.(million)) 6] ++ increment ++
  [Act (fun l s => (mkLoc (l.(i) + 1) l.(million) l.(v), s)); Back 6].

Definition code (_ : unit) : list instruction := thread_function.

(** [init] and the threads of [main]. *)
Definition main (threads : nat) (million : Z) : machine unit unit locals Z :=
  mkMachine (fun _ => 1) 0 (replicate threads (mkThread tt 0 (mkLoc 0 million 0))).

(** The increments a thread has made. *)
Definition made (t : thread unit locals) : Z := t.(loc).(i) + at_pc 4 5 t.

Lemma made_mk r p l : made (mkThread r p l) = l.(i) + if ((4 <=? p) && (p <=? 5))%nat then 1 else 0.
Proof. done. Qed.

(** What the thread that is about to store has loaded. *)
Definition loaded (t : thread unit locals) : Z := if (t.(pc) =? 3)%nat then t.(loc).(v) else 0.

Definition inv (N : Z) (m : machine unit unit locals Z) : Prop :=
  0 <= m.(sems) tt /\ m.(sems) tt + tsum (at_pc 2 4) m.(threads) = 1 /\
  m.(store) = tsum made m.(threads) /\
  Forall (fun t => (t.(pc) <= 7)%nat /\ t.(loc).(million) = N /\ 0 <= t.(loc).(i) /\ t.(loc).(i) <= N - at_pc 1 5 t /\
    (t.(pc) <> 7%nat \/ t.(loc).(i) = N) /\ (t.(pc) <> 3%nat \/ t.(loc).(v) = m.(store))) m.(threads).

Lemma simple_step N w s ts j t w' s' t' :
  inv N (mkMachine w s ts) -> ts !! j = Some t -> exec code w s t = Some (w', s', t') ->
  inv N (mkMachine w' s' (<[j := t']> ts)).
Proof.
  intros (Hv & Hm & Hs & Hok) Ht Ex. cbn [sems store threads] in *. pose proof (proj1 (Forall_lookup _ _) Hok _ _ Ht) as Hit.
  pose proof (fun k u (Hk : ts !! k = Some u) (Hne : j <> k) => tsum_ge2 (at_pc 2 4) ts j k t u (at_pc_nonneg _ _) Hne Ht Hk) as H2.
  destruct t as [[] p [it mi lv]]. cbn [pc loc i million v] in *. destruct Hit as (Hp & Hmi & H0 & HN & _ & Hlv).
  split_pc 8%nat p; try lia; step_cases Ex; bool_to_prop; unfold inv; cbn [sems store threads];
    (split; [sem_simpl; lia|]; split; [sums Ht; lia|]; split;
      [rewrite ?(tsum_step _ _ _ _ _ Ht), ?made_mk; cbn [pc loc i Nat.leb Nat.add Nat.sub andb]; lia|]).
  all: apply Forall_lookup; intros k u Hk; destruct (decide (k = j)) as [->|Hne];
    [rewrite list_lookup_insert_eq in Hk by (by eapply lookup_lt_Some); injection Hk as <-;
     cbn [at_pc pc loc i million v Nat.leb Nat.add Nat.sub andb] in *; split_and!; lia|];
    rewrite list_lookup_insert_ne in Hk by done; specialize (H2 k u Hk ltac:(done));
    pose proof (proj1 (Forall_lookup _ _) Hok _ _ Hk) as (? & ? & ? & ? & ? & Hu); cbv beta in *;
    cbn [at_pc pc Nat.leb Nat.add andb] in H2; split_and!; try assumption; try lia.
  destruct (decide (u.(pc) = 3%nat)) as [E|E]; [|by left]. rewrite at_pc_1 in H2 by lia. lia.
Qed.

Definition remaining (N : Z) (t : thread unit locals) : Z :=
  match t.(pc) with
  | 6%nat => 7 * (N - t.(loc).(i)) + 2
  | 7%nat => 0
  | p => 7 * (N - t.(loc).(i)) + 1 - Z.of_nat p
  end.

Lemma simple_reach n N m : 0 <= N -> reach code (main n N) m -> inv N m.
Proof.
  intros HN. apply reach_inv; [|intros; by eapply simple_step]. unfold inv, main. cbn [sems store threads].
  rewrite !tsum_replicate, made_mk. split_and!; try (cbn; lia). apply Forall_replicate. cbn. lia.
Qed.

(** ** Correctness *)

(** The value is the number of
    increments made, runs are bounded, and when no thread can run all have ended
    and the value is the number of threads times the number of iterations. *)
Lemma simple_counter_correct n N :
  0 <= N ->
  (forall k m, nsteps (mstep code) k (main n N) m -> Z.of_nat k <= (7 * N + 1) * Z.of_nat n) /\
  (forall m, reach code (main n N) m -> m.(store) = tsum made m.(threads) /\
     (stuck code m -> finished code m /\ m.(store) = N * Z.of_nat n)).
Proof.
  intros HN. split.
  - intros k m Hk. assert (E : tsum (remaining N) (main n N).(threads) = (7 * N + 1) * Z.of_nat n)
      by (cbn [main threads]; rewrite tsum_replicate; cbn [remaining pc loc i]; lia).
    rewrite <- E. eapply (steps_bounded _ (inv N) (fun m => tsum (remaining N) (threads m)) _ (fun m => simple_reach n N m HN)); [| |exact Hk].
    + intros m' (_ & _ & _ & Hok). rewrite <- (Z.mul_0_l (Z.of_nat (length (threads m')))), <- tsum_const.
      apply tsum_le. eapply Forall_impl; [exact Hok|]. intros [[] p l] H. cbn [pc loc] in H. unfold remaining. cbn [pc loc].
      split_pc 8%nat p; cbn [at_pc pc Nat.leb andb] in H; lia.
    + intros w s ts j t w' s' t' (_ & _ & _ & Hok) Ht Ex. cbn [threads] in *. rewrite (tsum_step _ _ _ _ _ Ht).
      pose proof (proj1 (Forall_lookup _ _) Hok _ _ Ht) as Hit. destruct t as [[] p [it mi lv]]. cbn [pc loc i million] in Hit.
      split_pc 8%nat p; try lia; step_cases Ex; bool_to_prop;
        cbn [remaining at_pc pc loc i million Nat.leb Nat.add Nat.sub andb] in *; lia.
  - intros m Hm. pose proof (reach_roles _ _ _ Hm) as Hlen. apply (f_equal length) in Hlen.
    rewrite !length_fmap in Hlen. cbn [main threads] in Hlen. rewrite length_replicate in Hlen.
    destruct (simple_reach n N m HN Hm) as (Hv & Hx & Hs & Hok). split; [done|]. intros Hst. destruct m as [w s ts].
    apply stuck_exec in Hst. cbn [sems store threads] in *.
    assert (Hb : Forall (fun t => (t.(pc) = 1%nat /\ w tt <= 0) \/ t.(pc) = 7%nat) ts).
    { apply Forall_lookup. intros k t Ht. pose proof (proj1 (Forall_lookup _ _) Hst _ _ Ht) as Ex.
      destruct (proj1 (Forall_lookup _ _) Hok _ _ Ht) as [Hp _]. destruct t as [[] p l]. cbn [pc loc] in *.
      split_pc 8%nat p; try lia; cbn in Ex; try discriminate Ex; try (destruct (_ <? _) eqn:E in Ex; [discriminate Ex|]);
        bool_to_prop; auto. }
    rewrite (at_pc_none 2 4 ts) in Hx by (eapply Forall_impl; [exact Hb|]; cbv beta; lia).
    assert (H7 : Forall (fun t => t.(pc) = 7%nat) ts) by (eapply Forall_impl; [exact Hb|]; cbv beta; lia).
    split; [eapply Forall_impl; [exact H7|]; intros t Ht; unfold ended; by rewrite Ht|].
    rewrite Hs, <- Hlen, <- tsum_const. apply tsum_ext, Forall_lookup. intros k t Ht.
    pose proof (proj1 (Forall_lookup _ _) H7 _ _ Ht) as Hp. pose proof (proj1 (Forall_lookup _ _) Hok _ _ Ht) as Hk.
    destruct t as [[] p l]. cbn [pc loc] in *. subst p. rewrite made_mk. cbn. lia.
Qed.
