(* ===== verification/Benchmark.v ===== *)
(** * The statistics of the benchmark

    [29/benchmark/Appendix.c], a kernel module that measures the cycles of a
    function: the difference of two time stamps, the minimum and maximum of every
    row of measurements, the variance in 64-bit arithmetic with its tests for
    overflow, and what [hello_start] does when memory runs out. *)

From Stdlib Require Import ZArith Lia String.
From stdpp Require Import base tactics numbers list sets.
From S2P Require Import Prelude.

Local Open Scope Z_scope.
Local Open Scope ostep_scope.

(** ** Definitions *)

(** The counter from its two halves. *)
Definition stamp (cycles_high cycles_low : Z) : Z := Z.lor (Z.shiftl cycles_high 32) cycles_low.

(** One measurement of [Filltimes]: the value and whether the error is printed. *)
Definition measure (start end_ : Z) : bool * Z :=
  if u64 (end_ - start) <? 0 then (true, 0) else (false, u64 (end_ - start)).

(** The loop that adds up [f] of the inputs, with its test: [None] for the jump to
    [overflow]; the sum and the one before the last. *)
Fixpoint sum_loop (f : Z -> Z) (inputs : list Z) (acc previous : Z) : option (Z * Z) :=
  match inputs with
  | [] => Some (acc, previous)
  | a :: inputs => if acc <? previous then None else sum_loop f inputs (u64 (acc + f a)) acc
  end.

Inductive var_result := Var (v : Z) | Overflow | Division_by_zero.

Definition var_calc (inputs : list Z) : var_result :=
  let size := Z.of_nat (length inputs) in
  match sum_loop (fun a => a) inputs 0 0 with
  | None => Overflow
  | Some (acc, previous) =>
      let acc := u64 (acc * acc) in
      if acc <? previous then Overflow
      else
        match sum_loop (fun a => u64 (a * a)) inputs 0 0 with
        | None => Overflow
        | Some (temp_var, previous) =>
            let temp_var := u64 (temp_var * size) in
            if temp_var <? previous then Overflow
            else if u64 (u64 size * u64 size) =? 0 then Division_by_zero
            else Var (u64 (temp_var - acc) / u64 (u64 size * u64 size))
        end
  end.

(** [-EINVAL] as the [uint64_t] it is returned as. *)
Definition var_value (r : var_result) : Z := match r with Var v => v | _ => u64 (-22) end.

(** The loop over one row: [min_time] and [max_time]. *)
Fixpoint min_max (row : list Z) (min_time max_time : Z) : Z * Z :=
  match row with
  | [] => (min_time, max_time)
  | t :: row => min_max row (if (min_time =? 0) || (t <? min_time) then t else min_time) (if max_time <? t then t else max_time)
  end.

(** What [hello_start] keeps over the rows. *)
Record stats := mkStats { variances : list Z; min_values : list Z; prev_min : Z; spurious : Z; max_dev_all : Z; tot_var : Z }.

Definition row_step (row : list Z) (s : stats) : stats :=
  let '(min_time, max_time) := min_max row 0 0 in
  let max_dev := u64 (max_time - min_time) in
  let v := var_value (var_calc row) in
  mkStats (s.(variances) ++ [v]) (s.(min_values) ++ [min_time]) min_time
    (if negb (s.(prev_min) =? 0) && (min_time <? s.(prev_min)) then s.(spurious) + 1 else s.(spurious))
    (if s.(max_dev_all) <? max_dev then max_dev else s.(max_dev_all)) (u64 (s.(tot_var) + v)).

Definition rows (times : list (list Z)) : stats := fold_left (fun s row => row_step row s) times (mkStats [] [] 0 0 0 0).

(** What is printed at the end. *)
Record report := mkReport { r_spurious : Z; r_total : Z; r_max_dev : Z; r_var_of_vars : var_result; r_var_of_mins : var_result }.

Definition final (times : list (list Z)) : report :=
  let s := rows times in
  mkReport s.(spurious) (s.(tot_var) / Z.of_nat (length times)) s.(max_dev_all) (var_calc s.(variances)) (var_calc s.(min_values)).

(** The blocks of [kmalloc]. *)
Inductive block := Times | Row (j : nat) | Variances | Min_values.

#[export] Instance block_eq : EqDecision block.
Proof. solve_decision. Defined.

(** The rows up to the first for which there is no memory. *)
Fixpoint alloc_rows (ok : block -> bool) (n j : nat) : option nat :=
  match n with
  | O => None
  | S n => if ok (Row j) then alloc_rows ok n (S j) else Some j
  end.

(** [hello_start] with [bound] rows: the blocks that can be had, and the
    measurements; what is reported, and the blocks that are not given back. *)
Definition hello_start (bound : nat) (ok : block -> bool) (times : list (list Z)) : option report * list block :=
  if negb (ok Times) then (None, [])
  else
    match alloc_rows ok bound 0 with
    | Some j => (None, filter (fun b => b ∉ Row <$> seq 0 j) (Times :: (Row <$> seq 0 j)))
    | None =>
        let held := Times :: (Row <$> seq 0 bound) in
        if negb (ok Variances) then (None, held)
        else if negb (ok Min_values) then (None, held ++ [Variances])
        else (Some (final times), filter (fun b => b ∉ (Row <$> seq 0 bound) ++ [Times; Variances; Min_values]) (held ++ [Variances; Min_values]))
    end.

(** ** Sums *)

Definition sum (f : Z -> Z) (l : list Z) : Z := foldr (fun a s => f a + s) 0 l.

Lemma sum_cons f a l : sum f (a :: l) = f a + sum f l.
Proof. done. Qed.

Lemma sum_nonneg f l : Forall (fun a => 0 <= f a) l -> 0 <= sum f l.
Proof. induction 1; [done|]. rewrite sum_cons. lia. Qed.

(** The sum of the squares of the distances from [a]. *)
Lemma sum_distances a l : 0 <= sum (fun x => x * x) l - 2 * a * sum (fun x => x) l + Z.of_nat (length l) * (a * a).
Proof.
  induction l as [|b l IH]; [cbn; lia|]. rewrite !sum_cons. cbn [length]. pose proof (Z.square_nonneg (b - a)). lia.
Qed.

(** The inequality of Cauchy and Schwarz. *)
Lemma cauchy_schwarz l : sum (fun x => x) l * sum (fun x => x) l <= Z.of_nat (length l) * sum (fun x => x * x) l.
Proof.
  induction l as [|a l IH]; [done|]. rewrite !sum_cons. cbn [length]. pose proof (sum_distances a l). lia.
Qed.

Lemma u64_id x : 0 <= x < 2 ^ 64 -> u64 x = x.
Proof. intros H. unfold u64, wrapu. by apply Z.mod_small. Qed.

(** When the sum fits, the loop computes it and no test fires. *)
Lemma sum_loop_ok f l : forall acc previous, Forall (fun a => 0 <= f a) l -> 0 <= previous <= acc -> acc + sum f l < 2 ^ 64 ->
  exists p, sum_loop f l acc previous = Some (acc + sum f l, p) /\ 0 <= p <= acc + sum f l.
Proof.
  induction l as [|a l IH]; intros acc previous Hl Hp Hs; cbn [sum_loop].
  - exists previous. cbn. rewrite Z.add_0_r. split; [done|lia].
  - apply Forall_cons in Hl as [Ha Hl]. pose proof (sum_nonneg f l Hl). rewrite sum_cons in *.
    rewrite (proj2 (Z.ltb_ge _ _)) by lia. rewrite u64_id by lia.
    destruct (IH (acc + f a) acc Hl ltac:(lia) ltac:(lia)) as (p & E & Hpp). exists p. rewrite E. split; [do 2 f_equal; lia|lia].
Qed.

(** ** The variance *)

(** [n] times the sum of the squares bounds everything that is computed. *)
Lemma var_calc_exact inputs : inputs <> [] -> Forall (fun a => 0 <= a) inputs ->
  let n := Z.of_nat (length inputs) in let s1 := sum (fun a => a) inputs in let s2 := sum (fun a => a * a) inputs in
  n * s2 < 2 ^ 64 -> n * n < 2 ^ 64 -> var_calc inputs = Var ((n * s2 - s1 * s1) / (n * n)).
Proof.
  intros Hne Hp n s1 s2 H2 Hn. assert (Hn1 : 1 <= n) by (unfold n; destruct inputs; [done|cbn [length]; lia]).
  assert (Hq : Forall (fun a => 0 <= a * a) inputs) by (eapply Forall_impl; [exact Hp|]; cbv beta; intros; nia).
  pose proof (sum_nonneg (fun a => a) inputs Hp) as Hs1. pose proof (sum_nonneg (fun a => a * a) inputs Hq) as Hs2. fold s1 in Hs1. fold s2 in Hs2.
  pose proof (cauchy_schwarz inputs) as Hcs. fold s1 s2 n in Hcs.
  assert (Hsq : Forall (fun a => u64 (a * a) = a * a) inputs).
  { apply Forall_lookup. intros i a Ha. apply u64_id. rewrite Forall_forall in Hq. split; [apply Hq; by eapply list_elem_of_lookup_2|].
    enough (a * a <= s2) by nia. clear -Ha Hq. unfold s2. assert (Hq' : Forall (fun a => 0 <= a * a) inputs) by (apply Forall_forall; exact Hq). clear Hq.
    revert i Ha. induction Hq' as [|b l Hb Hl IH]; intros i Ha; [done|]. rewrite sum_cons. pose proof (sum_nonneg _ _ Hl).
    destruct i as [|i]; cbn in Ha; [injection Ha as ->; lia|]. specialize (IH _ Ha). lia. }
  assert (E2 : sum (fun a => u64 (a * a)) inputs = s2).
  { unfold s2. clear -Hsq. induction Hsq as [|a l Ha _ IH]; [done|]. rewrite !sum_cons, Ha, IH. done. }
  unfold var_calc. fold n.
  destruct (sum_loop_ok (fun a => a) inputs 0 0 Hp ltac:(lia)) as (p1 & -> & Hp1); [fold s1; nia|]. rewrite Z.add_0_l. fold s1. fold s1 in Hp1.
  rewrite (u64_id (s1 * s1)) by nia. rewrite (proj2 (Z.ltb_ge _ _)) by nia.
  destruct (sum_loop_ok (fun a => u64 (a * a)) inputs 0 0) as (p2 & -> & Hp2).
  { eapply Forall_impl; [exact Hsq|]. cbv beta. intros a ->. nia. } { lia. } { rewrite E2. nia. }
  rewrite Z.add_0_l, E2 in *. rewrite (u64_id (s2 * n)) by nia. rewrite (proj2 (Z.ltb_ge _ _)) by nia.
  rewrite (u64_id n), (u64_id (n * n)) by nia. rewrite (proj2 (Z.eqb_neq _ _)) by nia. f_equal. rewrite u64_id by nia. f_equal. lia.
Qed.

(** The tests miss an overflow of the last addition and of a product: the variance of
    these numbers is 2^64. *)
Lemma var_calc_missed : var_calc [0; 2 ^ 33] = Var 0 /\ (2 * (2 ^ 33 * 2 ^ 33) - 2 ^ 33 * 2 ^ 33) / (2 * 2) = 2 ^ 64.
Proof. split; vm_compute; reflexivity. Qed.

(** An array without elements has no variance. *)
Lemma var_calc_empty : var_calc [] = Division_by_zero.
Proof. reflexivity. Qed.

(** ** Minimum and maximum *)

(** The least of a row: a zero counts as no value yet. *)
Lemma min_max_ok row : forall mn mx, Forall (fun t => 0 < t) row -> 0 < mn <= mx ->
  let '(a, b) := min_max row mn mx in
  a ∈ mn :: row /\ b ∈ mx :: row /\ Forall (fun t => a <= t <= b) (mn :: mx :: row).
Proof.
  induction row as [|t row IH]; intros mn mx Hr Hm; cbn [min_max].
  - split_and!; [by left|by left|]. repeat (constructor; [lia|]). constructor.
  - apply Forall_cons in Hr as [Ht Hr]. rewrite (proj2 (Z.eqb_neq mn 0)) by lia. cbn [orb].
    specialize (IH (if t <? mn then t else mn) (if mx <? t then t else mx) Hr).
    destruct (min_max row _ _) as [a b]. destruct IH as (H1 & H2 & H3); [destruct (Z.ltb_spec t mn), (Z.ltb_spec mx t); lia|].
    apply Forall_cons in H3 as [Ha H3]. apply Forall_cons in H3 as [Hb H3]. split_and!.
    + destruct (t <? mn); apply elem_of_cons in H1 as [->|?]; [right; left|right; by right|by left|right; by right].
    + destruct (mx <? t); apply elem_of_cons in H2 as [->|?]; [right; left|right; by right|by left|right; by right].
    + repeat (constructor; [destruct (Z.ltb_spec t mn), (Z.ltb_spec mx t); lia|]). exact H3.
Qed.

Lemma min_max_row t row : Forall (fun t => 0 < t) (t :: row) ->
  let '(a, b) := min_max (t :: row) 0 0 in a ∈ t :: row /\ b ∈ t :: row /\ Forall (fun x => a <= x <= b) (t :: row).
Proof.
  intros [Ht Hr]%Forall_cons. cbn [min_max]. cbn [Z.eqb orb]. rewrite (proj2 (Z.ltb_lt 0 t) Ht).
  pose proof (min_max_ok row t t Hr ltac:(lia)) as H. destruct (min_max row t t) as [a b]. destruct H as (H1 & H2 & H3).
  apply Forall_cons in H3 as [_ H3]. done.
Qed.

(** A zero makes the loop forget the values before it. *)
Lemma min_max_zero : min_max [5; 0; 7] 0 0 = (7, 7).
Proof. reflexivity. Qed.

(** ** Time stamps *)

(** Unsigned numbers are not negative: the error of [Filltimes] is never reported, and
    a counter that went back gives a large number. *)
Lemma measure_ok start end_ : 0 <= start < 2 ^ 64 -> 0 <= end_ < 2 ^ 64 ->
  measure start end_ = (false, if start <=? end_ then end_ - start else end_ - start + 2 ^ 64).
Proof.
  intros Hs He. unfold measure. assert (Hu : 0 <= u64 (end_ - start) < 2 ^ 64) by (unfold u64, wrapu; apply Z.mod_pos_bound; lia).
  rewrite (proj2 (Z.ltb_ge _ _)) by lia. f_equal. destruct (Z.leb_spec start end_).
  - apply u64_id. lia.
  - unfold u64, wrapu. rewrite <- (Z.mod_add _ 1) by lia. apply Z.mod_small. lia.
Qed.

Lemma stamp_range hi lo : 0 <= hi < 2 ^ 32 -> 0 <= lo < 2 ^ 32 -> stamp hi lo = hi * 2 ^ 32 + lo.
Proof.
  intros Hh Hl. unfold stamp. rewrite Z.shiftl_mul_pow2 by lia. symmetry. apply Z.add_nocarry_lor. apply Z.bits_inj'. intros i Hi.
  rewrite Z.land_spec, Z.bits_0. destruct (decide (i < 32)) as [H|H]; [by rewrite Z.mul_pow2_bits_low|].
  destruct (decide (lo = 0)) as [->|Hz]; [by rewrite Z.bits_0, andb_false_r|].
  rewrite (Z.bits_above_log2 lo i), andb_false_r; [done|lia|]. apply Z.lt_le_trans with 32; [|lia]. apply Z.log2_lt_pow2; lia.
Qed.

(** ** The rows *)

(** The number of rows whose minimum is below that of the row before. *)
Fixpoint descents (prev : Z) (mins : list Z) : Z :=
  match mins with
  | [] => 0
  | m :: mins => (if negb (prev =? 0) && (m <? prev) then 1 else 0) + descents m mins
  end.

Lemma rows_ok times : forall s,
  let t := fold_left (fun s row => row_step row s) times s in
  let mins := (fun row => (min_max row 0 0).1) <$> times in
  t.(min_values) = s.(min_values) ++ mins /\ t.(variances) = s.(variances) ++ ((fun row => var_value (var_calc row)) <$> times) /\
  t.(spurious) = s.(spurious) + descents s.(prev_min) mins /\
  t.(max_dev_all) = foldl Z.max s.(max_dev_all) ((fun row => u64 ((min_max row 0 0).2 - (min_max row 0 0).1)) <$> times).
Proof.
  induction times as [|row times IH]; intros s; cbn [fold_left fmap list_fmap foldl descents].
  - rewrite !app_nil_r. cbn. split_and!; [done|done|lia|done].
  - specialize (IH (row_step row s)). cbv zeta in IH. destruct IH as (H1 & H2 & H3 & H4). unfold row_step in *.
    destruct (min_max row 0 0) as [mn mx] eqn:Em. cbn [min_values variances spurious prev_min max_dev_all fst snd] in *. rewrite H1, H2, H3, H4.
    split_and!; [by rewrite <- app_assoc|by rewrite <- app_assoc| |].
    + destruct (_ && _); lia.
    + f_equal. destruct (Z.ltb_spec (max_dev_all s) (u64 (mx - mn))); lia.
Qed.

(** ** Memory *)

Lemma alloc_rows_none ok n : forall j, alloc_rows ok n j = None <-> forall i, (j <= i < j + n)%nat -> ok (Row i) = true.
Proof.
  induction n as [|n IH]; intros j; cbn [alloc_rows]; [split; [lia|done]|]. destruct (ok (Row j)) eqn:E.
  - rewrite IH. split; intros H i Hi; [destruct (decide (i = j)) as [->|]; [done|apply H; lia]|apply H; lia].
  - split; [done|]. intros H. rewrite H in E by lia. done.
Qed.

Lemma alloc_rows_some ok n : forall j k, alloc_rows ok n j = Some k -> (j <= k < j + n)%nat /\ ok (Row k) = false.
Proof.
  induction n as [|n IH]; intros j k E; cbn [alloc_rows] in E; [done|]. destruct (ok (Row j)) eqn:Er.
  - apply IH in E. lia || (destruct E; split; [lia|done]).
  - injection E as <-. split; [lia|done].
Qed.

Lemma filter_gone (l l' : list block) : l' ⊆ l -> filter (fun b => b ∉ l) l' = [].
Proof.
  induction l' as [|b l' IH]; intros Hs; [done|]. rewrite filter_cons_False; [apply IH; set_solver|]. intros H. apply H, Hs. by left.
Qed.

(** ** The module *)

(** C40: the benchmark.  The variance is exact, rounded down, when the number of values times the sum of their
    squares is below [2^64].  A measurement is the distance of the time stamps, and
    one of a counter that went back is not noticed.  In a row without zeros the minimum and maximum
    are found.  When there is memory, the report counts the rows whose minimum
    fell and gives everything back; when a row cannot be had, the array of the rows is lost,
    and when a later array cannot, all of it. *)
Theorem benchmark_correct :
  (forall inputs, inputs <> [] -> Forall (fun a => 0 <= a) inputs ->
     let n := Z.of_nat (length inputs) in let s1 := sum (fun a => a) inputs in let s2 := sum (fun a => a * a) inputs in
     n * s2 < 2 ^ 64 -> n * n < 2 ^ 64 -> var_calc inputs = Var ((n * s2 - s1 * s1) / (n * n))) /\
  (forall start end_, 0 <= start < 2 ^ 64 -> 0 <= end_ < 2 ^ 64 ->
     measure start end_ = (false, if start <=? end_ then end_ - start else end_ - start + 2 ^ 64)) /\
  (forall t row, Forall (fun t => 0 < t) (t :: row) ->
     let '(a, b) := min_max (t :: row) 0 0 in a ∈ t :: row /\ b ∈ t :: row /\ Forall (fun x => a <= x <= b) (t :: row)) /\
  (forall bound ok times, let rows_ := Times :: (Row <$> seq 0 bound) in
     match hello_start bound ok times with
     | (Some r, leaked) => leaked = [] /\ r.(r_spurious) = descents 0 ((fun row => (min_max row 0 0).1) <$> times) /\
         r.(r_var_of_mins) = var_calc ((fun row => (min_max row 0 0).1) <$> times) /\
         (forall b, b ∈ rows_ ++ [Variances; Min_values] -> ok b = true)
     | (None, leaked) =>
         (ok Times = false /\ leaked = []) \/ ((exists j, (j < bound)%nat /\ ok (Row j) = false) /\ leaked = [Times]) \/
         (ok Variances = false /\ leaked = rows_) \/ (ok Min_values = false /\ leaked = rows_ ++ [Variances])
     end).
Proof.
  split; [exact var_calc_exact|]. split; [exact measure_ok|]. split; [exact min_max_row|].
  intros bound ok times rows_. unfold hello_start. destruct (ok Times) eqn:Et; cbn [negb]; [|by left].
  destruct (alloc_rows ok bound 0) as [j|] eqn:Ej.
  - apply alloc_rows_some in Ej as [Hj Hok]. right. left. split; [exists j; split; [lia|done]|].
    rewrite filter_cons_True by (rewrite list_elem_of_fmap; by intros (? & ? & _)). f_equal. by apply filter_gone.
  - rewrite alloc_rows_none in Ej. destruct (ok Variances) eqn:Ev; cbn [negb]; [|right; right; by left].
    destruct (ok Min_values) eqn:Em; cbn [negb]; [|right; right; by right]. destruct (rows_ok times (mkStats [] [] 0 0 0 0)) as (H1 & H2 & H3 & _).
    unfold final, rows. cbn [r_spurious r_var_of_mins]. rewrite H1, H3. cbn [min_values spurious prev_min app]. split_and!; [|lia|done|].
    + apply filter_gone. set_solver.
    + intros b. unfold rows_. rewrite !elem_of_app, !elem_of_cons, list_elem_of_fmap, elem_of_nil.
      intros [[->|(i & -> & Hi)]|[->|[->|[]]]]; [done| |done|done]. apply elem_of_seq in Hi. apply Ej. lia.
Qed.
