(* ===== verification/Queue.v ===== *)
(** * The concurrent queue

    [29/concurrent_queue.c]: a list with a dummy node at its head, in a heap.
    The locks only order the operations, each of which runs as a whole here; the
    program calls them from one thread. *)

From Stdlib Require Import ZArith Lia String.
From stdpp Require Import base tactics numbers list gmap.
From S2P Require Import Prelude.

Local Open Scope Z_scope.
Local Open Scope ostep_scope.

(** ** Definitions *)

(** [node_t]; a null pointer is [None]. *)
Record node_t := mkNode { next : option nat; value : Z }.

(** The heap, the next address of [malloc], and [q->head] and [q->tail]. *)
Record queue_t := mkQueue { heap : gmap nat node_t; brk : nat; head : option nat; tail : option nat }.

(** Following a pointer. *)
Definition deref (p : option nat) (h : gmap nat node_t) : outcome string (nat * node_t) :=
  match p with
  | None => Crash "null pointer"%string
  | Some a => match h !! a with None => Crash "freed memory"%string | Some n => Done (a, n) end
  end.

(** [garbage] is what [malloc] left in [value]. *)
Definition Queue_Init (garbage : Z) : queue_t :=
  mkQueue {[0%nat := mkNode None garbage]} 1 (Some 0%nat) (Some 0%nat).

Definition Queue_Enqueue (v : Z) (q : queue_t) : outcome string queue_t :=
  let tmp := q.(brk) in
  let h := <[tmp := mkNode None v]> q.(heap) in
  let* '(t, n) := deref q.(tail) h in
  Done (mkQueue (<[t := mkNode (Some tmp) n.(value)]> h) (S tmp) q.(head) (Some tmp)).

Definition Queue_Dequeue (q : queue_t) : outcome string (Z * queue_t) :=
  let* '(tmp, n) := deref q.(head) q.(heap) in
  match n.(next) with
  | None => Done (-1, q)
  | Some newHead =>
      let* '(_, m) := deref (Some newHead) q.(heap) in
      Done (0, mkQueue (delete tmp q.(heap)) q.(brk) m.(next) q.(tail))
  end.

(** [Queue_Print] frees the nodes it has printed; the loop runs at most once per
    node of the heap. *)
Fixpoint print_loop (fuel : nat) (node : option nat) (h : gmap nat node_t) : outcome string (list Z * gmap nat node_t) :=
  match fuel, node with
  | S fuel, Some _ =>
      let* '(a, n) := deref node h in
      let* '(o, h) := print_loop fuel n.(next) (delete a h) in
      Done (n.(value) :: o, h)
  | _, _ => Done ([], h)
  end.

Definition Queue_Print (q : queue_t) : outcome string (list Z * queue_t) :=
  let* '(o, h) := print_loop (S (size q.(heap))) q.(head) q.(heap) in
  Done (o, mkQueue h q.(brk) q.(head) q.(tail)).

(** [main]; the values it prints. *)
Definition queue_main (garbage : Z) : outcome string (list Z) :=
  let* q := Queue_Enqueue 0 (Queue_Init garbage) in
  let* q := Queue_Enqueue 1 q in
  let* q := Queue_Enqueue 2 q in
  let* q := Queue_Enqueue 3 q in
  let* '(_, q) := Queue_Dequeue q in
  let* '(o, _) := Queue_Print q in
  Done o.

(** ** The list in the heap *)

(** The nodes from [p] on are at the addresses [l] with the values [vs], and the
    last one has no next. *)
Fixpoint chain (h : gmap nat node_t) (p : option nat) (l : list nat) (vs : list Z) : Prop :=
  match l, vs with
  | [], [] => p = None
  | a :: l, v :: vs => p = Some a /\ exists n, h !! a = Some n /\ n.(value) = v /\ chain h n.(next) l vs
  | _, _ => False
  end.

(** The queue holds [vs], its dummy included. *)
Definition holds (q : queue_t) (vs : list Z) : Prop :=
  exists l, chain q.(heap) q.(head) l vs /\ NoDup l /\ last l = q.(tail) /\ vs <> [] /\
    forall a, is_Some (q.(heap) !! a) -> (a < q.(brk))%nat.

Lemma chain_frame h h' l : forall p vs, (forall a, a ∈ l -> h' !! a = h !! a) -> chain h p l vs -> chain h' p l vs.
Proof.
  induction l as [|a l IH]; intros p vs Hh Hc; destruct vs as [|v vs]; try done. destruct Hc as (-> & n & Ha & Hv & Hc).
  split; [done|]. exists n. rewrite Hh by left. split_and!; [done|done|]. apply IH; [|done]. intros b Hb. apply Hh. by right.
Qed.

Lemma chain_some h l p vs a : chain h p l vs -> a ∈ l -> is_Some (h !! a).
Proof.
  revert p vs. induction l as [|b l IH]; intros p vs Hc Ha; [by apply elem_of_nil in Ha|]. destruct vs as [|v vs]; [done|].
  destruct Hc as (_ & n & Hb & _ & Hc). apply elem_of_cons in Ha as [->|Ha]; [by exists n|by eapply IH].
Qed.

Lemma chain_length h l p vs : chain h p l vs -> length l = length vs.
Proof.
  revert p vs. induction l as [|b l IH]; intros p vs Hc; destruct vs as [|v vs]; try done.
  destruct Hc as (_ & n & _ & _ & Hc). cbn. f_equal. by eapply IH.
Qed.

(** A node behind the last one. *)
Lemma chain_snoc h l : forall p vs t n v tmp, chain h p l vs -> NoDup l -> last l = Some t -> h !! t = Some n -> tmp ∉ l ->
  chain (<[t := mkNode (Some tmp) n.(value)]> (<[tmp := mkNode None v]> h)) p (l ++ [tmp]) (vs ++ [v]).
Proof.
  induction l as [|a l IH]; intros p vs t n v tmp Hc Hnd Hl Ht Hf; [done|]. destruct vs as [|w vs]; [done|].
  destruct Hc as (-> & m & Ha & Hw & Hc). apply NoDup_cons in Hnd as [Hal Hnd]. apply not_elem_of_cons in Hf as [Hne Hf].
  cbn [app chain]. split; [done|]. destruct l as [|b l].
  - injection Hl as ->. destruct vs; [|done]. exists (mkNode (Some tmp) n.(value)). rewrite lookup_insert_eq.
    split_and!; [done|cbn; congruence|]. cbn. split; [done|]. exists (mkNode None v).
    rewrite lookup_insert_ne, lookup_insert_eq by done. done.
  - assert (Hat : a <> t).
    { intros ->. apply Hal. change (last (t :: b :: l)) with (last (b :: l)) in Hl. apply last_Some in Hl as [l' ->].
      apply elem_of_app. right. by left. }
    exists m. rewrite !lookup_insert_ne by done. split_and!; [done|done|]. by apply IH.
Qed.

Lemma print_loop_ok l : forall fuel p vs h, chain h p l vs -> NoDup l -> (length l < fuel)%nat ->
  exists h', print_loop fuel p h = Done (vs, h').
Proof.
  induction l as [|a l IH]; intros fuel p vs h Hc Hnd Hf; (destruct fuel as [|fuel]; [cbn in Hf; lia|]); destruct vs as [|v vs]; try done.
  - cbn in Hc. subst p. by eexists.
  - destruct Hc as (-> & n & Ha & <- & Hc). apply NoDup_cons in Hnd as [Hal Hnd]. cbn [print_loop deref]. rewrite Ha. cbn [obind].
    destruct (IH fuel n.(next) vs (delete a h)) as [h' E]; [|done|cbn in Hf; lia|rewrite E; by eexists].
    eapply chain_frame; [|exact Hc]. intros b Hb. apply lookup_delete_ne. by intros ->.
Qed.

(** ** Properties *)

(** The operations of the queue on the list of its values, the dummy node's
    first.  [Queue_Enqueue] adds one at the end and [Queue_Print] prints them
    all, that of the dummy too.  [Queue_Dequeue] refuses a queue with nothing
    behind the dummy, but otherwise drops two nodes instead of one, so that each
    call loses a value; when one value was left the head becomes null, and the
    next call follows a null pointer. *)
Theorem queue_ops q v0 vs :
  holds q (v0 :: vs) ->
  (forall v, exists q', Queue_Enqueue v q = Done q' /\ holds q' (v0 :: vs ++ [v])) /\
  (exists q', Queue_Print q = Done (v0 :: vs, q')) /\
  match vs with
  | [] => Queue_Dequeue q = Done (-1, q)
  | [_] => exists q', Queue_Dequeue q = Done (0, q') /\ exists w, Queue_Dequeue q' = Crash w
  | _ :: v2 :: vs => exists q', Queue_Dequeue q = Done (0, q') /\ holds q' (v2 :: vs)
  end.
Proof.
  intros (l & Hc & Hnd & Hl & _ & Hb). split_and!.
  - intros v. assert (Hf : q.(brk) ∉ l) by (intros H; pose proof (Hb _ (chain_some _ _ _ _ _ Hc H)); lia).
    destruct (last l) as [t|] eqn:El; [|apply last_None in El; by subst l].
    destruct (chain_some _ _ _ _ t Hc) as [n Hn]; [apply last_Some in El as [l' ->]; apply elem_of_app; right; by left|].
    unfold Queue_Enqueue. cbv zeta. rewrite <- Hl. unfold deref. pose proof (Hb t ltac:(by eexists)).
    rewrite lookup_insert_ne by lia. rewrite Hn. cbn [obind].
    eexists. split; [done|]. exists (l ++ [q.(brk)]). cbn [heap head tail brk]. split_and!.
    + by apply (chain_snoc _ _ _ (v0 :: vs)).
    + apply NoDup_app. split_and!; [done| |by apply NoDup_singleton]. intros x Hx Hx'. apply list_elem_of_singleton in Hx' as ->. done.
    + by rewrite last_snoc.
    + done.
    + intros a Ha. destruct (decide (a = q.(brk))) as [->|Hne]; [lia|]. destruct (decide (a = t)) as [->|Hat]; [lia|].
      rewrite !lookup_insert_ne in Ha by done. specialize (Hb a Ha). lia.
  - unfold Queue_Print. destruct (print_loop_ok l (S (size q.(heap))) _ _ _ Hc Hnd) as [h ->]; [|by eexists].
    enough (length l <= size q.(heap))%nat by lia. rewrite <- (size_list_to_set (C:=gset nat) l) by done.
    rewrite <- (size_dom (D:=gset nat) q.(heap)). apply subseteq_size. intros a Ha. apply elem_of_list_to_set in Ha.
    apply elem_of_dom. by eapply chain_some.
  - destruct l as [|a l]; [done|]. destruct Hc as (Eh & n & Ha & Hv & Hc). unfold Queue_Dequeue. rewrite Eh. cbn [deref]. rewrite Ha. cbn [obind].
    destruct vs as [|v1 vs]; [destruct l; [|done]; cbn in Hc; by rewrite Hc|]. destruct l as [|b l]; [done|].
    destruct Hc as (-> & m & Hm & Hv1 & Hc). cbn [deref]. rewrite Hm. cbn [obind].
    destruct vs as [|v2 vs]; [destruct l; [|done]; cbn in Hc; rewrite Hc; eexists; split; [done|]; cbn; by eexists|].
    eexists. split; [done|]. exists l. cbn [heap head tail brk]. apply NoDup_cons in Hnd as [Hal Hnd]. apply not_elem_of_cons in Hal as [_ Hal].
    apply NoDup_cons in Hnd as [_ Hnd]. split_and!; [|done| |done|].
    + eapply chain_frame; [|exact Hc]. intros x Hx. apply lookup_delete_ne. by intros ->.
    + rewrite <- Hl. destruct l; [done|]. done.
    + intros x Hx. apply Hb. apply lookup_delete_is_Some in Hx. tauto.
Qed.

(** A new queue with two values. *)
Lemma queue_ops_witness :
  exists q, holds q [9; 1; 2] /\ exists q', Queue_Dequeue q = Done (0, q') /\ holds q' [2].
Proof.
  set (q := mkQueue {[0%nat := mkNode (Some 1%nat) 9; 1%nat := mkNode (Some 2%nat) 1; 2%nat := mkNode None 2]} 3 (Some 0%nat) (Some 2%nat)).
  assert (H : holds q [9; 1; 2]).
  { exists [0; 1; 2]%nat. split_and!; [|vm_compute; repeat constructor; set_solver|done|done|].
    - split; [done|]. eexists. split_and!; [reflexivity|done|]. split; [done|]. eexists. split_and!; [reflexivity|done|].
      split; [done|]. eexists. split_and!; [reflexivity|done|]. done.
    - intros a [n Ha]. subst q. cbn [heap brk] in *. rewrite !lookup_insert_Some in Ha. rewrite lookup_singleton_Some in Ha. lia. }
  exists q. split; [exact H|]. apply (queue_ops q 9 [1; 2] H).
Defined.

(** [main] prints 1, 2 and 3; with a second call of [Queue_Dequeue] only 3 would
    be left. *)
Example queue_main_prints : queue_main 77 = Done [1; 2; 3].
Proof. reflexivity. Qed.
