(* ===== verification/Lists.v ===== *)
(** * The concurrent linked list

    [29/concurrent-linked-list.c]: a list with one lock, in a heap.  The lock
    makes each operation a whole.  [29/hand-over-hand-locking-list.c] has the same
    insertion. *)

From Stdlib Require Import ZArith Lia String.
From stdpp Require Import base tactics numbers list gmap.
From S2P Require Import Prelude Queue.

Local Open Scope Z_scope.
Local Open Scope ostep_scope.

(** ** Definitions *)

(** The heap, the next address of [malloc] and [L->head]; [value] is the key of
    a node. *)
Record list_t := mkList { heap : gmap nat node_t; brk : nat; head : option nat }.

Definition List_Init (h : gmap nat node_t) (brk : nat) : list_t := mkList h brk None.

(** [malloc] may fail: then nothing is inserted. *)
Definition List_Insert (malloc_ok : bool) (key : Z) (L : list_t) : list_t :=
  if malloc_ok then mkList (<[L.(brk) := mkNode L.(head) key]> L.(heap)) (S L.(brk)) (Some L.(brk)) else L.

Fixpoint lookup_loop (fuel : nat) (key : Z) (curr : option nat) (h : gmap nat node_t) : outcome string Z :=
  match fuel, curr with
  | S fuel, Some _ =>
      let* '(_, n) := deref curr h in
      if n.(value) =? key then Done 0 else lookup_loop fuel key n.(next) h
  | _, _ => Done (-1)
  end.

Definition List_Lookup (key : Z) (L : list_t) : outcome string Z := lookup_loop (S (size L.(heap))) key L.(head) L.(heap).

Fixpoint print_list (fuel : nat) (curr : option nat) (h : gmap nat node_t) : outcome string (list Z) :=
  match fuel, curr with
  | S fuel, Some _ =>
      let* '(_, n) := deref curr h in
      let* o := print_list fuel n.(next) h in Done (n.(value) :: o)
  | _, _ => Done []
  end.

Definition List_Print (L : list_t) : outcome string (list Z) := print_list (S (size L.(heap))) L.(head) L.(heap).

Fixpoint free_loop (fuel : nat) (curr : option nat) (h : gmap nat node_t) : outcome string (gmap nat node_t) :=
  match fuel, curr with
  | S fuel, Some _ => let* '(temp, n) := deref curr h in free_loop fuel n.(next) (delete temp h)
  | _, _ => Done h
  end.

Definition List_Free (L : list_t) : outcome string (gmap nat node_t) := free_loop (S (size L.(heap))) L.(head) L.(heap).

(** The list [main] builds. *)
Fixpoint build (list_length : nat) (L : list_t) : list_t :=
  match list_length with
  | O => L
  | S n => List_Insert true (Z.of_nat n) (build n L)
  end.

(** The keys of the list, and its nodes are new in the heap [h0]. *)
Definition contains (h0 : gmap nat node_t) (L : list_t) (keys : list Z) : Prop :=
  exists l, chain L.(heap) L.(head) l keys /\ NoDup l /\ (forall a, a ∈ l -> h0 !! a = None /\ (a < L.(brk))%nat) /\
    (forall a, (L.(brk) <= a)%nat -> h0 !! a = None) /\ (forall a, a ∉ l -> L.(heap) !! a = h0 !! a).

Lemma contains_size L l keys : chain L.(heap) L.(head) l keys -> NoDup l -> (length l <= size L.(heap))%nat.
Proof.
  intros Hc Hnd. rewrite <- (size_list_to_set (C:=gset nat) l) by done.
  rewrite <- (size_dom (D:=gset nat) L.(heap)). apply subseteq_size. intros a Ha. apply elem_of_list_to_set in Ha.
  apply elem_of_dom. by eapply chain_some.
Qed.

Lemma insert_contains h0 L keys key : contains h0 L keys -> contains h0 (List_Insert true key L) (key :: keys).
Proof.
  intros (l & Hc & Hnd & Hl & Hb & Hh). exists (L.(brk) :: l). cbn [List_Insert heap head brk].
  assert (Hf : L.(brk) ∉ l) by (intros H; destruct (Hl _ H); lia). split_and!.
  - split; [done|]. exists (mkNode L.(head) key). rewrite lookup_insert_eq. split_and!; [done|done|].
    eapply chain_frame; [|exact Hc]. intros a Ha. apply lookup_insert_ne. by intros <-.
  - by apply NoDup_cons.
  - intros a [->|Ha]%elem_of_cons; [split; [apply Hb|]; lia|]. destruct (Hl a Ha). split; [done|lia].
  - intros a Ha. apply Hb. lia.
  - intros a [Hne Ha]%not_elem_of_cons. rewrite lookup_insert_ne by done. by apply Hh.
Qed.

Lemma lookup_ok h key l : forall fuel p keys, chain h p l keys -> (length l < fuel)%nat ->
  lookup_loop fuel key p h = Done (if decide (key ∈ keys) then 0 else -1).
Proof.
  induction l as [|a l IH]; intros fuel p keys Hc Hf; (destruct fuel as [|fuel]; [cbn in Hf; lia|]); destruct keys as [|k keys]; try done.
  - cbn in Hc. by subst p.
  - destruct Hc as (-> & n & Ha & <- & Hc). cbn [lookup_loop deref]. rewrite Ha. cbn [obind].
    destruct (Z.eqb_spec (value n) key) as [<-|Hne]; [by rewrite decide_True by left|].
    rewrite (IH fuel _ keys Hc) by (cbn in Hf; lia). do 2 f_equal. apply decide_ext.
    rewrite elem_of_cons. split; [by right|]. intros [?|?]; [congruence|done].
Qed.

Lemma print_ok h l : forall fuel p keys, chain h p l keys -> (length l < fuel)%nat -> print_list fuel p h = Done keys.
Proof.
  induction l as [|a l IH]; intros fuel p keys Hc Hf; (destruct fuel as [|fuel]; [cbn in Hf; lia|]); destruct keys as [|k keys]; try done.
  - cbn in Hc. by subst p.
  - destruct Hc as (-> & n & Ha & <- & Hc). cbn [print_list deref]. rewrite Ha. cbn [obind].
    rewrite (IH fuel _ keys Hc) by (cbn in Hf; lia). done.
Qed.

Lemma free_ok l : forall fuel p keys h, chain h p l keys -> NoDup l -> (length l < fuel)%nat ->
  exists h', free_loop fuel p h = Done h' /\ (forall a, a ∈ l -> h' !! a = None) /\ (forall a, a ∉ l -> h' !! a = h !! a).
Proof.
  induction l as [|a l IH]; intros fuel p keys h Hc Hnd Hf; (destruct fuel as [|fuel]; [cbn in Hf; lia|]); destruct keys as [|k keys]; try done.
  - cbn in Hc. subst p. exists h. split_and!; [done| |done]. intros a Ha. by apply elem_of_nil in Ha.
  - destruct Hc as (-> & n & Ha & <- & Hc). apply NoDup_cons in Hnd as [Hal Hnd]. cbn [free_loop deref]. rewrite Ha. cbn [obind].
    destruct (IH fuel n.(next) keys (delete a h)) as (h' & E & H1 & H2); [|done|cbn in Hf; lia|].
    + eapply chain_frame; [|exact Hc]. intros b Hb. apply lookup_delete_ne. by intros ->.
    + exists h'. split; [done|]. split.
      * intros b [->|Hb]%elem_of_cons; [|by apply H1]. rewrite H2 by done. apply lookup_delete_eq.
      * intros b [Hne Hb]%not_elem_of_cons. rewrite H2 by done. by apply lookup_delete_ne.
Qed.

(** The list of keys [n - 1, ..., 0]. *)
Lemma build_contains h0 brk n : (forall a, (brk <= a)%nat -> h0 !! a = None) ->
  contains h0 (build n (List_Init h0 brk)) (reverse (Z.of_nat <$> seq 0 n)).
Proof.
  intros Hb. induction n as [|n IH].
  - exists []. split_and!; [done|constructor|intros a Ha; by apply elem_of_nil in Ha|done|done].
  - rewrite seq_S, fmap_app, reverse_app. cbn [build]. apply (insert_contains _ _ _ _ IH).
Qed.

(** The list of [concurrent-linked-list.c].  On a list of [keys],
    [List_Insert] adds the key at the head, [List_Lookup] returns 0 exactly for
    the keys of the list and -1 for the others, [List_Print] prints the keys, and
    [List_Free] gives back every node and nothing else; the list [main] builds
    has the keys [n - 1] to 0. *)
Lemma list_ops h0 L keys :
  contains h0 L keys ->
  (forall key, contains h0 (List_Insert true key L) (key :: keys)) /\
  (forall key, List_Lookup key L = Done (if decide (key ∈ keys) then 0 else -1)) /\
  List_Print L = Done keys /\ List_Free L = Done h0.
Proof.
  intros HL. pose proof HL as (l & Hc & Hnd & Hl & Hb & Hh). pose proof (contains_size L l keys Hc Hnd). split_and!.
  - intros key. by apply insert_contains.
  - intros key. eapply lookup_ok; [exact Hc|lia].
  - eapply print_ok; [exact Hc|lia].
  - unfold List_Free. destruct (free_ok l (S (size L.(heap))) _ _ _ Hc Hnd) as (h' & -> & H1 & H2); [lia|]. f_equal.
    apply map_eq. intros a. destruct (decide (a ∈ l)) as [Ha|Ha].
    + rewrite H1 by done. symmetry. by apply Hl.
    + rewrite H2 by done. by apply Hh.
Qed.

(** The list of [main] for three keys. *)
Lemma list_ops_witness :
  let L := build 3 (List_Init ∅ 0) in
  contains ∅ L [2; 1; 0] /\ List_Lookup 1 L = Done 0 /\ List_Free L = Done ∅.
Proof.
  intros L. assert (H : contains ∅ L [2; 1; 0]) by (apply (build_contains ∅ 0 3); intros; apply lookup_empty).
  destruct (list_ops ∅ L [2; 1; 0] H) as (_ & H2 & _ & H4). split; [exact H|]. split; [|exact H4].
  exact (H2 1).
Defined.
