(* ===== verification/HandOverHand.v ===== *)
(** * Hand-over-hand locking

    [29/hand-over-hand-locking-list.c]: a lock per node.  The program builds the
    list in [main] and then only looks keys up, from several threads: the lookups
    run on the machine of [Threads], where a node is its position in the list. *)

From Stdlib Require Import ZArith Lia.
From stdpp Require Import base tactics list numbers relations.
From S2P Require Import Prelude Threads.

Local Open Scope Z_scope.

(** ** Definitions *)

(** The locals of [List_Lookup]; [curr] and [temp] are positions, and the
    position behind the last node is the null pointer. *)
Record locals := mkLoc { key : Z; rv : Z; curr : nat; temp : nat }.

(** The locks are those of the nodes; the store is the keys of the nodes. *)
Definition instruction : Type := instr nat locals (list Z).

(** [curr != NULL] *)
Definition at_node (l : locals) (keys : list Z) : bool := bool_decide (l.(curr) < length keys)%nat.

Definition List_Lookup : list instruction :=
  [ Act (fun l s => (mkLoc l.(key) (-1) 0 l.(temp), s));
    Unless at_node 11;
    Wait curr;
    Unless at_node 9;
    Unless (fun l s => bool_decide (s !! l.(curr) = Some l.(key))) 3;
    Act (fun l s => (mkLoc l.(key) 0 l.(curr) l.(temp), s));
    Post curr;
    Exit;
    Act (fun l s => (mkLoc l.(key) l.(rv) (S l.(curr)) l.(curr), s));
    Unless at_node 1;
    Wait curr;
    Post temp;
    Back 9 ].

Definition code (_ : unit) : list instruction := List_Lookup.

(** The threads, each with the key it looks up. *)
Definition main (keys ks : list Z) : machine nat unit locals (list Z) :=
  mkMachine (fun _ => 1) keys ((fun k => mkThread tt 0 (mkLoc k 0 0 0)) <$> ks).

(** The locks a thread has. *)
Definition has (n c : nat) (t : thread unit locals) : Z :=
  match t.(pc) with
  | 4%nat | 5%nat | 6%nat | 8%nat => if decide (t.(loc).(curr) = c) then 1 else 0
  | 3%nat | 12%nat => if decide (t.(loc).(curr) = c /\ (c < n)%nat) then 1 else 0
  | 9%nat | 10%nat => if decide (t.(loc).(temp) = c) then 1 else 0
  | 11%nat => (if decide (t.(loc).(temp) = c) then 1 else 0) + (if decide (t.(loc).(curr) = c /\ (c < n)%nat) then 1 else 0)
  | _ => 0
  end.

(** The key is not among the first nodes. *)
Definition passed (keys : list Z) (l : locals) (n : nat) : Prop := l.(rv) = -1 /\ l.(key) ∉ take n keys.

Definition thread_ok (keys : list Z) (t : thread unit locals) : Prop :=
  let l := t.(loc) in let n := length keys in
  match t.(pc) with
  | 0%nat => True
  | 1%nat => l.(curr) = 0%nat /\ l.(rv) = -1
  | 2%nat => (l.(curr) < n)%nat /\ passed keys l l.(curr)
  | 3%nat | 12%nat => (l.(curr) <= n)%nat /\ passed keys l l.(curr)
  | 4%nat => (l.(curr) < n)%nat /\ passed keys l l.(curr)
  | 5%nat => keys !! l.(curr) = Some l.(key)
  | 6%nat | 7%nat => l.(rv) = 0 /\ keys !! l.(curr) = Some l.(key)
  | 8%nat => (l.(curr) < n)%nat /\ passed keys l (S l.(curr))
  | 9%nat | 11%nat => (l.(curr) <= n)%nat /\ l.(curr) = S l.(temp) /\ passed keys l l.(curr)
  | 10%nat => (l.(curr) < n)%nat /\ l.(curr) = S l.(temp) /\ passed keys l l.(curr)
  | 13%nat => (l.(rv) = 0 /\ l.(key) ∈ keys) \/ (l.(rv) = -1 /\ l.(key) ∉ keys)
  | _ => False
  end.

Definition inv (keys : list Z) (m : machine nat unit locals (list Z)) : Prop :=
  m.(store) = keys /\ (forall c, 0 <= m.(sems) c) /\
  (forall c, m.(sems) c + tsum (has (length keys) c) m.(threads) = 1) /\ Forall (thread_ok keys) m.(threads).

Lemma take_not_elem keys n (k : Z) : k ∉ take n keys -> keys !! n <> Some k -> k ∉ take (S n) keys.
Proof.
  intros H1 H2 H3. destruct (keys !! n) as [x|] eqn:E.
  - rewrite (take_S_r _ _ _ E) in H3. apply elem_of_app in H3 as [?|H3]; [done|]. apply list_elem_of_singleton in H3. congruence.
  - apply lookup_ge_None in E. rewrite take_ge in H1 by done. rewrite take_ge in H3 by lia. done.
Qed.

Ltac has_cases Ht :=
  let c := fresh "c" in
  intros c; repeat match goal with H : forall c : nat, _ |- _ => specialize (H c) end;
  rewrite ?(tsum_step _ _ _ _ _ Ht); cbn [has pc loc curr temp Nat.add Nat.sub]; unfold sem_add;
  repeat case_decide; simplify_eq; try lia.

Lemma hand_step keys v s ts j t v' s' t' :
  inv keys (mkMachine v s ts) -> ts !! j = Some t -> exec code v s t = Some (v', s', t') ->
  inv keys (mkMachine v' s' (<[j := t']> ts)).
Proof.
  intros (Es & Hv & HL & Hok) Ht Ex. cbn [sems store threads] in *. subst s. pose proof (proj1 (Forall_lookup _ _) Hok _ _ Ht) as Hit.
  destruct t as [[] p [ky r cu te]]. unfold thread_ok, passed in Hit. cbn [pc loc key rv curr temp] in Hit.
  split_pc 14%nat p; try done; step_cases Ex; unfold at_node in *; cbn [curr key] in *; bool_to_prop; unfold inv;
    cbn [sems store threads]; (split; [done|]; split; [has_cases Ht|]; split; [has_cases Ht|];
    apply Forall_insert_list; [done|]; unfold thread_ok, passed; cbn [pc loc key rv curr temp Nat.add Nat.sub]).
  all: try done; try (split_and!; first [done|lia|tauto]).
  - destruct Hit as [-> ->]. split_and!; [done|done|]. apply not_elem_of_nil.
  - destruct Hit as [-> ->]. right. split; [done|]. destruct keys; [apply not_elem_of_nil|cbn in *; lia].
  - destruct Hit as (_ & -> & Hn). right. by rewrite take_ge in Hn by lia.
  - destruct Hit as (? & ? & Hn). split_and!; [done|done|]. by apply take_not_elem.
  - destruct Hit as [-> Hk]. left. split; [done|]. by eapply list_elem_of_lookup_2.
Qed.

Lemma hand_reach keys ks m : reach code (main keys ks) m -> inv keys m.
Proof.
  apply reach_inv; [|intros; by eapply hand_step]. unfold inv, main. cbn [sems store threads]. split_and!; [done|lia| |].
  - intros c. rewrite tsum_zero; [lia|]. apply Forall_fmap, Forall_true. done.
  - apply Forall_fmap, Forall_true. done.
Qed.

(** The instructions a thread still executes, at most. *)
Definition remaining (n : nat) (t : thread unit locals) : Z :=
  let k := 7 * (Z.of_nat n - Z.of_nat t.(loc).(curr)) in
  match t.(pc) with
  | 0%nat => 7 * Z.of_nat n + 4
  | 1%nat => k + 3
  | 2%nat => k + 2
  | 3%nat => k + 1
  | 4%nat => k
  | 5%nat => 3
  | 6%nat => 2
  | 7%nat => 1
  | 8%nat => k - 1
  | 9%nat => k + 5
  | 10%nat => k + 4
  | 11%nat => k + 3
  | 12%nat => k + 2
  | _ => 0
  end.

Lemma hand_remaining_nonneg keys t : thread_ok keys t -> 0 <= remaining (length keys) t.
Proof.
  destruct t as [[] p l]. unfold thread_ok, remaining, passed. cbn [pc loc]. split_pc 14%nat p; cbv zeta; try lia; done.
Qed.

Lemma hand_remaining_step keys v s ts j t v' s' t' :
  inv keys (mkMachine v s ts) -> ts !! j = Some t -> exec code v s t = Some (v', s', t') ->
  tsum (remaining (length keys)) (<[j := t']> ts) < tsum (remaining (length keys)) ts.
Proof.
  intros (Es & _ & _ & Hok) Ht Ex. cbn [store threads] in *. subst s. pose proof (proj1 (Forall_lookup _ _) Hok _ _ Ht) as Hit.
  rewrite (tsum_step _ _ _ _ _ Ht). destruct t as [[] p [ky r cu te]]. unfold thread_ok, passed in Hit. cbn [pc loc key rv curr temp] in Hit.
  split_pc 14%nat p; try done; step_cases Ex; unfold at_node in *; cbn [curr key] in *; bool_to_prop; unfold remaining;
    cbn [pc loc curr Nat.add Nat.sub]; lia.
Qed.

(** A thread waits for the node it is going to only while another one, further
    on, has it. *)
Lemma no_deadlock keys v ts :
  inv keys (mkMachine v keys ts) -> stuck code (mkMachine v keys ts) -> Forall (fun t => t.(pc) = 13%nat) ts.
Proof.
  intros (_ & Hv & HL & Hok) Hs%stuck_exec. cbn [sems store threads] in *.
  assert (Hb : Forall (fun t => t.(pc) = 13%nat \/ ((t.(pc) = 2 \/ t.(pc) = 10)%nat /\ v t.(loc).(curr) <= 0)) ts).
  { apply Forall_lookup. intros k t Ht. pose proof (proj1 (Forall_lookup _ _) Hs _ _ Ht) as Ex.
    pose proof (proj1 (Forall_lookup _ _) Hok _ _ Ht) as Hit. destruct t as [[] p l]. unfold thread_ok in Hit. cbn [pc loc] in *.
    split_pc 14%nat p; try done; cbn in Ex; try discriminate Ex; try (destruct (_ <? _) eqn:E in Ex; [discriminate Ex|]);
      bool_to_prop; auto. }
  (* no thread waits at a position, from the last one down *)
  assert (Hn : forall d c, (length keys <= c + d)%nat -> Forall (fun t => t.(pc) = 13%nat \/ t.(loc).(curr) <> c) ts).
  { induction d as [|d IH]; intros c Hc; apply Forall_lookup; intros k t Ht;
      pose proof (proj1 (Forall_lookup _ _) Hb _ _ Ht) as Hbt; pose proof (proj1 (Forall_lookup _ _) Hok _ _ Ht) as Hit;
      cbv beta in *; destruct Hbt as [?|[Hp Hvc]]; [by left| |by left|]; right; intros Ec.
    - destruct t as [[] p l]. unfold thread_ok in Hit. cbn [pc loc] in *. destruct Hp as [-> | ->]; cbn in Hit; lia.
    - specialize (IH (S c) ltac:(lia)). pose proof (HL c) as Hsum. rewrite Ec in Hvc. rewrite (tsum_zero (has (length keys) c)) in Hsum; [lia|].
      apply Forall_lookup. intros i u Hu. pose proof (proj1 (Forall_lookup _ _) Hb _ _ Hu) as Hbu.
      pose proof (proj1 (Forall_lookup _ _) IH _ _ Hu) as Hiu. pose proof (proj1 (Forall_lookup _ _) Hok _ _ Hu) as Hou.
      cbv beta in *. destruct u as [[] p l]. unfold thread_ok in Hou. unfold has. cbn [pc loc] in *.
      destruct Hbu as [-> |[[-> | ->] _]]; [done|done|]. cbn in *. case_decide; [|done]. lia. }
  apply Forall_lookup. intros k t Ht.
  pose proof (proj1 (Forall_lookup _ _) (Hn (length keys) t.(loc).(curr) ltac:(lia)) _ _ Ht) as H. cbv beta in H. tauto.
Qed.

(** C24: looking keys up with hand-over-hand locking, from any number of threads
    under any schedule.  A node is locked by at most one thread.  There is no
    deadlock: the program executes at most [7 n + 4] instructions per thread on a
    list of [n] nodes, and when no thread can run all have returned, with 0 for
    the keys of the list and -1 for the others, and every lock is free. *)
Theorem hand_over_hand_correct keys ks :
  (forall k m, nsteps (mstep code) k (main keys ks) m ->
     Z.of_nat k <= (7 * Z.of_nat (length keys) + 4) * Z.of_nat (length ks)) /\
  (forall m, reach code (main keys ks) m ->
     (forall c, tsum (has (length keys) c) m.(threads) <= 1) /\
     (stuck code m -> finished code m /\ (forall c, m.(sems) c = 1) /\
        Forall (fun t => t.(loc).(rv) = if decide (t.(loc).(key) ∈ keys) then 0 else -1) m.(threads))).
Proof.
  split.
  - intros k m Hk. assert (E : tsum (remaining (length keys)) (main keys ks).(threads) = (7 * Z.of_nat (length keys) + 4) * Z.of_nat (length ks)).
    { cbn [main threads]. rewrite tsum_fmap. cbn [remaining pc]. by rewrite tsum_const. }
    rewrite <- E. eapply (steps_bounded _ (inv keys) (fun m => tsum (remaining (length keys)) (threads m)) _ (hand_reach keys ks));
      [|by intros; eapply hand_remaining_step|exact Hk].
    intros m' (_ & _ & _ & Hok). rewrite <- (Z.mul_0_l (Z.of_nat (length (threads m')))), <- tsum_const.
    apply tsum_le. eapply Forall_impl; [exact Hok|]. intros t. apply hand_remaining_nonneg.
  - intros m Hm. pose proof (hand_reach _ _ _ Hm) as Hi. destruct m as [v s ts]. pose proof Hi as (Es & Hv & HL & Hok).
    cbn [sems store threads] in *. subst s. split; [intros c; specialize (HL c); specialize (Hv c); lia|]. intros Hs.
    pose proof (no_deadlock _ _ _ Hi Hs) as H13. split_and!.
    + eapply Forall_impl; [exact H13|]. intros t Ht. unfold ended. by rewrite Ht.
    + intros c. specialize (HL c). rewrite tsum_zero in HL; [lia|]. eapply Forall_impl; [exact H13|]. intros t Ht. unfold has. by rewrite Ht.
    + apply Forall_lookup. intros k t Ht. pose proof (proj1 (Forall_lookup _ _) H13 _ _ Ht) as Hp.
      pose proof (proj1 (Forall_lookup _ _) Hok _ _ Ht) as Hit. unfold thread_ok in Hit. cbv beta in *. rewrite Hp in Hit.
      destruct Hit as [[-> ?]|[-> ?]]; [by rewrite decide_True|by rewrite decide_False].
Qed.
