(* ===== verification/HohMem.v ===== *)
(** * The list with a lock per node in memory

    [29/hand-over-hand-locking-list.c] as [main] runs it: the list is built, looked
    up, printed and freed in a heap whose nodes carry their locks.  [main] is the only
    thread while it builds, prints and frees; the concurrent lookups are in
    [HandOverHand], here they run one after the other.  Locking a locked
    mutex by the same thread never returns, unlocking one that is not locked and
    using a node that was freed are errors. *)

From Stdlib Require Import ZArith Lia String.
From stdpp Require Import base tactics numbers list gmap.
From S2P Require Import Prelude Heap.

Local Open Scope Z_scope.
Local Open Scope ostep_scope.
Local Open Scope mem_scope.

(** ** Definitions *)

(** [node_t] and [list_t] *)
Inductive cell :=
| CNode (next : option nat) (lock : bool) (key : Z)
| CList (head : option nat) (insert_lock : bool).

#[export] Instance cell_eq : EqDecision cell.
Proof. solve_decision. Defined.

Definition load_node (p : nat) : mem cell (option nat * bool * Z) :=
  let! c := load p in match c with CNode nx l k => mret (nx, l, k) | _ => crash "no node" end.

Definition load_list (p : nat) : mem cell (option nat * bool) :=
  let! c := load p in match c with CList hd l => mret (hd, l) | _ => crash "no list" end.

(** [Pthread_mutex_lock(&p->lock)] *)
Definition lock_node (p : nat) : mem cell unit :=
  let! '(nx, l, k) := load_node p in if l then crash "deadlock" else store p (CNode nx true k).

(** [Pthread_mutex_unlock(&p->lock)] *)
Definition unlock_node (p : nat) : mem cell unit :=
  let! '(nx, l, k) := load_node p in if l then store p (CNode nx false k) else crash "not locked".

Definition lock_opt (curr : option nat) : mem cell unit := match curr with Some p => lock_node p | None => mret tt end.

Definition List_Init (L : nat) : mem cell unit :=
  let! '(_, l) := load_list L in
  let! _ := store L (CList None l) in
  let! '(hd, _) := load_list L in
  store L (CList hd false).

(** [malloc] leaves the fields of a node as they are: here its lock is taken. *)
Definition List_Insert (malloc_ok : bool) (L : nat) (key : Z) : mem cell unit :=
  if malloc_ok then
    let! new := malloc (CNode None true 0) in
    let! '(nx, l, _) := load_node new in
    let! _ := store new (CNode nx l key) in
    let! '(nx, _, k) := load_node new in
    let! _ := store new (CNode nx false k) in
    let! '(hd, l) := load_list L in
    let! _ := (if l then crash "deadlock" else store L (CList hd true)) in
    let! '(_, l, k) := load_node new in
    let! '(hd, _) := load_list L in
    let! _ := store new (CNode hd l k) in
    let! '(_, l) := load_list L in
    let! _ := store L (CList (Some new) l) in
    let! '(hd, l) := load_list L in
    if l then store L (CList hd false) else crash "not locked"
  else fun _ => Fail "malloc"%string.

Fixpoint lookup_loop (fuel : nat) (key : Z) (curr : option nat) : mem cell Z :=
  match fuel, curr with
  | O, _ => crash "fuel"
  | S _, None => mret (-1)
  | S fuel, Some p =>
      let! '(nx, _, k) := load_node p in
      if k =? key then let! _ := unlock_node p in mret 0
      else
        let! _ := lock_opt nx in
        let! _ := unlock_node p in
        lookup_loop fuel key nx
  end.

Definition List_Lookup (fuel : nat) (L : nat) (key : Z) : mem cell Z :=
  let! '(hd, _) := load_list L in
  match hd with
  | None => mret (-1)
  | Some p => let! _ := lock_node p in lookup_loop fuel key hd
  end.

Fixpoint print_loop (fuel : nat) (curr : option nat) : mem cell (list Z) :=
  match fuel, curr with
  | O, _ => crash "fuel"
  | S _, None => mret []
  | S fuel, Some p =>
      let! '(nx, _, k) := load_node p in
      let! _ := lock_opt nx in
      let! _ := unlock_node p in
      let! out := print_loop fuel nx in mret (k :: out)
  end.

Definition List_Print (fuel : nat) (L : nat) : mem cell (list Z) :=
  let! '(hd, _) := load_list L in
  match hd with
  | None => mret []
  | Some p => let! _ := lock_node p in print_loop fuel hd
  end.

Fixpoint free_loop (fuel : nat) (curr : option nat) : mem cell unit :=
  match fuel, curr with
  | O, _ => crash "fuel"
  | S _, None => mret tt
  | S fuel, Some p =>
      let! '(nx, _, _) := load_node p in
      let! _ := unlock_node p in
      let! _ := mfree p in
      let! _ := lock_opt nx in
      free_loop fuel nx
  end.

(** An empty list is not freed. *)
Definition List_Free (fuel : nat) (L : nat) : mem cell unit :=
  let! '(hd, _) := load_list L in
  match hd with
  | None => mret tt
  | Some p =>
      let! _ := lock_node p in
      let! _ := free_loop fuel hd in
      mfree L
  end.

(** [for (int i = 0; i < list_length; i++) List_Insert(list, i)] *)
Fixpoint insert_all (keys : list Z) (L : nat) : mem cell unit :=
  match keys with
  | [] => mret tt
  | k :: keys => let! _ := List_Insert true L k in insert_all keys L
  end.

(** The lookups of [i] threads. *)
Fixpoint lookups (i fuel L : nat) : mem cell (list Z) :=
  match i with
  | O => mret []
  | S i => let! r := List_Lookup fuel L 0 in let! rs := lookups i fuel L in mret (r :: rs)
  end.

(** The rounds of [main]: what is printed in each. *)
Fixpoint rounds (counts : list nat) (print : bool) (fuel L : nat) : mem cell (list (list Z)) :=
  match counts with
  | [] => mret []
  | i :: counts =>
      let! _ := lookups i fuel L in
      let! out := (if print then List_Print fuel L else mret []) in
      let! outs := rounds counts print fuel L in mret (out :: outs)
  end.

Definition main (list_length thread_count : nat) (print : bool) : mem cell (list (list Z)) :=
  let! L := malloc (CList None true) in
  let! _ := List_Init L in
  let! _ := insert_all (Z.of_nat <$> seq 0 list_length) L in
  let! outs := rounds (seq 1 thread_count) print (S list_length) L in
  let! _ := List_Free (S list_length) L in
  mret outs.

(** ** The nodes of a list *)

(** The cells of the nodes, none of them locked. *)
Inductive lseg : option nat -> list Z -> list (nat * cell) -> Prop :=
| lseg_nil : lseg None [] []
| lseg_cons a nx k ks P : lseg nx ks P -> lseg (Some a) (k :: ks) ((a, CNode nx false k) :: P).

Section triples.
Context {B : Type}.
Implicit Types (Q : B -> list (nat * cell) -> Prop) (P X : list (nat * cell)).

Lemma t_load_hoh p nx l key P (k : _ -> mem cell B) Q : (p, CNode nx l key) ∈ P -> triple P (k (nx, l, key)) Q -> triple P (mbnd (load_node p) k) Q.
Proof. intros Hi Hk. unfold load_node. apply triple_assoc. by eapply triple_load; [exact Hi|]. Qed.

Lemma t_load_list p hd l P (k : _ -> mem cell B) Q : (p, CList hd l) ∈ P -> triple P (k (hd, l)) Q -> triple P (mbnd (load_list p) k) Q.
Proof. intros Hi Hk. unfold load_list. apply triple_assoc. by eapply triple_load; [exact Hi|]. Qed.

Lemma t_lock_node p nx key P X (k : _ -> mem cell B) Q : P ≡ₚ (p, CNode nx false key) :: X ->
  triple ((p, CNode nx true key) :: X) (k tt) Q -> triple P (mbnd (lock_node p) k) Q.
Proof. intros Hp Hk. unfold lock_node. apply triple_assoc. eapply t_load_hoh; [rewrite Hp; left|]. by eapply triple_store. Qed.

Lemma t_unlock_node p nx key P X (k : _ -> mem cell B) Q : P ≡ₚ (p, CNode nx true key) :: X ->
  triple ((p, CNode nx false key) :: X) (k tt) Q -> triple P (mbnd (unlock_node p) k) Q.
Proof. intros Hp Hk. unfold unlock_node. apply triple_assoc. eapply t_load_hoh; [rewrite Hp; left|]. by eapply triple_store. Qed.

End triples.

(** ** The loops *)

(** The list in memory, with the first node locked, behind a loop. *)
Definition unlocked {A} (r : A) (a : nat) (nx : option nat) (k : Z) (P : list (nat * cell)) (out : A) (l : list (nat * cell)) : Prop :=
  out = r /\ l ≡ₚ (a, CNode nx false k) :: P.

Lemma hoh_print_ok nx ks P : lseg nx ks P -> forall fuel a k, (length ks < fuel)%nat ->
  triple ((a, CNode nx true k) :: P) (print_loop (S fuel) (Some a)) (unlocked (k :: ks) a nx k P).
Proof.
  induction 1 as [|b nx k' ks P Hl IH]; intros fuel a k Hf.
  - cbn [print_loop]. eapply t_load_hoh; [left|]. cbn [lock_opt]. apply triple_bret. eapply t_unlock_node; [reflexivity|].
    destruct fuel; [cbn in Hf; lia|]. apply triple_bret. apply triple_ret. by split.
  - cbn [print_loop]. fold print_loop. eapply t_load_hoh; [left|]. cbn [lock_opt].
    eapply t_lock_node; [apply perm_swap|]. eapply t_unlock_node; [apply perm_swap|]. cbn [length] in Hf.
    destruct fuel as [|fuel]; [lia|].
    eapply (triple_call _ [(a, CNode (Some b) false k)]); [apply (IH fuel b k'); lia|apply (Permutation_app_comm [_])|].
    intros out l [-> Hp]. apply triple_ret. split; [done|]. rewrite Hp. symmetry. apply (Permutation_app_comm [_]).
Qed.

Lemma lookup_loop_ok key nx ks P : lseg nx ks P -> forall fuel a k, (length ks < fuel)%nat ->
  triple ((a, CNode nx true k) :: P) (lookup_loop (S fuel) key (Some a)) (unlocked (if decide (key ∈ k :: ks) then 0 else -1) a nx k P).
Proof.
  induction 1 as [|b nx k' ks P Hl IH]; intros fuel a k Hf; cbn [lookup_loop]; (eapply t_load_hoh; [left|]); destruct (Z.eqb_spec k key) as [->|Hne].
  1, 3: eapply t_unlock_node; [reflexivity|]; apply triple_ret; split; [by rewrite decide_True by left|done].
  - cbn [lock_opt]. apply triple_bret. eapply t_unlock_node; [reflexivity|]. destruct fuel; [cbn in Hf; lia|]. apply triple_ret.
    split; [|done]. rewrite decide_False; [done|]. intros [?|?%elem_of_nil]%elem_of_cons; congruence.
  - cbn [lock_opt]. eapply t_lock_node; [apply perm_swap|]. eapply t_unlock_node; [apply perm_swap|]. cbn [length] in Hf.
    destruct fuel as [|fuel]; [lia|]. eapply (triple_tail _ [(a, CNode (Some b) false k)]); [apply (IH fuel b k'); lia|apply (Permutation_app_comm [_])|].
    intros out l [-> Hp]. split; [|rewrite Hp; symmetry; apply (Permutation_app_comm [_])].
    f_equal. apply decide_ext. rewrite (elem_of_cons (k' :: ks)). split; [by right|]. intros [?|?]; [congruence|done].
Qed.

Lemma free_loop_ok nx ks P : lseg nx ks P -> forall fuel a k, (length ks < fuel)%nat ->
  triple ((a, CNode nx true k) :: P) (free_loop (S fuel) (Some a)) (fun _ l => l = []).
Proof.
  induction 1 as [|b nx k' ks P Hl IH]; intros fuel a k Hf; cbn [free_loop]; (eapply t_load_hoh; [left|]);
    (eapply t_unlock_node; [reflexivity|]); (eapply triple_free; [reflexivity|]); cbn [lock_opt]; cbn [length] in Hf; (destruct fuel as [|fuel]; [lia|]).
  - apply triple_bret. by apply triple_ret.
  - eapply t_lock_node; [reflexivity|]. apply (IH fuel b k'). lia.
Qed.

(** ** The operations *)

(** A list with these keys whose locks are free. *)
Definition is_list (L : nat) (ks : list Z) (l : list (nat * cell)) : Prop :=
  exists hd P, lseg hd ks P /\ l ≡ₚ (L, CList hd false) :: P.

Lemma Init_ok L hd l : triple [(L, CList hd l)] (List_Init L) (fun _ c => is_list L [] c).
Proof.
  unfold List_Init. eapply t_load_list; [left|]. eapply triple_store; [reflexivity|]. eapply t_load_list; [left|].
  apply triple_eta. eapply triple_store; [reflexivity|]. apply triple_ret. exists None, []. split; [constructor|done].
Qed.

Lemma Insert_ok L key ks c : is_list L ks c -> triple c (List_Insert true L key) (fun _ => is_list L (key :: ks)).
Proof.
  intros (hd & P & Hl & Hc). apply (triple_perm _ _ _ _ Hc). unfold List_Insert. apply triple_malloc. intros p.
  eapply t_load_hoh; [left|]. eapply triple_store; [reflexivity|]. eapply t_load_hoh; [left|]. eapply triple_store; [reflexivity|].
  eapply t_load_list; [right; left|]. cbn iota. eapply triple_store; [apply perm_swap|]. eapply t_load_hoh; [right; left|].
  eapply t_load_list; [left|]. eapply triple_store; [apply perm_swap|]. eapply t_load_list; [right; left|].
  eapply triple_store; [apply perm_swap|]. eapply t_load_list; [left|]. cbn iota. apply triple_eta. eapply triple_store; [reflexivity|].
  apply triple_ret. exists (Some p), ((p, CNode hd false key) :: P). split; [by constructor|done].
Qed.

(** A loop over a list that is not empty, behind the lock of its first node. *)
Lemma over_nodes {A} L ks c (fuel : nat) (loop : nat -> option nat -> mem cell A) (none r : A) :
  is_list L ks c -> (ks = [] -> r = none) ->
  (forall nx k ks' P a, ks = k :: ks' -> lseg nx ks' P -> triple ((a, CNode nx true k) :: P) (loop fuel (Some a)) (unlocked r a nx k P)) ->
  triple c (let! '(hd, _) := load_list L in match hd with None => mret none | Some p => let! _ := lock_node p in loop fuel hd end)
    (fun out l => out = r /\ is_list L ks l).
Proof.
  intros (hd & P & Hl & Hc) Hn Hloop. apply (triple_perm _ _ _ _ Hc). eapply t_load_list; [left|]. destruct Hl as [|a nx k ks P Hl].
  - apply triple_ret. split; [symmetry; by apply Hn|]. exists None, []. split; [constructor|done].
  - eapply t_lock_node; [apply perm_swap|].
    eapply (triple_tail _ [(L, CList (Some a) false)]); [exact (Hloop nx k ks P a eq_refl Hl)|apply perm_skip, Permutation_cons_append|].
    intros out l [-> Hp]. split; [done|]. exists (Some a), ((a, CNode nx false k) :: P). split; [by constructor|].
    rewrite Hp. symmetry. apply (Permutation_app_comm [_]).
Qed.

Lemma Print_ok fuel L ks c : is_list L ks c -> (length ks < fuel)%nat -> triple c (List_Print fuel L) (fun out l => out = ks /\ is_list L ks l).
Proof.
  intros Hl Hf. destruct fuel as [|fuel]; [lia|]. apply (over_nodes L ks c _ print_loop); [exact Hl|done|].
  intros nx k ks' P a -> HP. apply hoh_print_ok; [exact HP|]. cbn in Hf. lia.
Qed.

Lemma Lookup_ok fuel L key ks c : is_list L ks c -> (length ks < fuel)%nat ->
  triple c (List_Lookup fuel L key) (fun r l => r = (if decide (key ∈ ks) then 0 else -1) /\ is_list L ks l).
Proof.
  intros Hl Hf. destruct fuel as [|fuel]; [lia|]. apply (over_nodes L ks c _ (fun fuel => lookup_loop fuel key)); [exact Hl| |].
  - intros ->. by rewrite decide_False by apply not_elem_of_nil.
  - intros nx k ks' P a -> HP. apply lookup_loop_ok; [exact HP|]. cbn in Hf. lia.
Qed.

(** The list itself is given back only with a node. *)
Lemma Free_ok fuel L ks c : is_list L ks c -> (length ks < fuel)%nat ->
  triple c (List_Free fuel L) (fun _ l => l = if decide (ks = []) then [(L, CList None false)] else []).
Proof.
  intros (hd & P & Hl & Hc) Hf. apply (triple_perm _ _ _ _ Hc). destruct fuel as [|fuel]; [lia|].
  unfold List_Free. eapply t_load_list; [left|]. destruct Hl as [|a nx k ks P Hl].
  - apply triple_ret. by rewrite decide_True.
  - eapply t_lock_node; [apply perm_swap|].
    eapply (triple_call _ [(L, CList (Some a) false)]); [apply (free_loop_ok nx ks P Hl fuel a k)|apply perm_skip, Permutation_cons_append|].
    + cbn in Hf. lia.
    + intros [] l ->. cbn [app]. apply triple_eta. eapply triple_free; [reflexivity|]. apply triple_ret. by rewrite decide_False.
Qed.

Lemma insert_all_ok L keys : forall ks c, is_list L ks c -> triple c (insert_all keys L) (fun _ => is_list L (reverse keys ++ ks)).
Proof.
  induction keys as [|k keys IH]; intros ks c Hc; [by apply triple_ret|]. cbn [insert_all].
  eapply (triple_call c []); [by apply Insert_ok|by rewrite app_nil_r|]. intros [] l Hl. rewrite app_nil_r, reverse_cons, <- app_assoc. by apply IH.
Qed.

Lemma lookups_ok L ks fuel i : (length ks < fuel)%nat -> forall c, is_list L ks c ->
  triple c (lookups i fuel L) (fun rs l => rs = replicate i (if decide (0 ∈ ks) then 0 else -1) /\ is_list L ks l).
Proof.
  intros Hf. induction i as [|i IH]; intros c Hc; [by apply triple_ret|]. cbn [lookups].
  eapply (triple_call c []); [by apply Lookup_ok|by rewrite app_nil_r|]. intros r l [-> Hl]. rewrite app_nil_r.
  eapply (triple_call l []); [by apply IH|by rewrite app_nil_r|]. intros rs l' [-> Hl']. rewrite app_nil_r. by apply triple_ret.
Qed.

Lemma rounds_ok L ks fuel print counts : (length ks < fuel)%nat -> forall c, is_list L ks c ->
  triple c (rounds counts print fuel L) (fun outs l => outs = replicate (length counts) (if print : bool then ks else []) /\ is_list L ks l).
Proof.
  intros Hf. induction counts as [|i counts IH]; intros c Hc; [by apply triple_ret|]. cbn [rounds].
  eapply (triple_call c []); [by apply lookups_ok|by rewrite app_nil_r|]. intros r l [_ Hl]. rewrite app_nil_r.
  eapply (triple_call l [] _ _ _ (fun out l => out = (if print then ks else []) /\ is_list L ks l)); [|by rewrite app_nil_r|].
  - destruct print; [by apply Print_ok|by apply triple_ret].
  - intros out l' [-> Hl']. rewrite app_nil_r. eapply (triple_call l' []); [by apply IH|by rewrite app_nil_r|].
    intros outs l2 [-> Hl2]. rewrite app_nil_r. by apply triple_ret.
Qed.

(** ** The program *)

(** The program, for every length of the list and number of threads: it never
    waits for a lock it has, never uses a node it has freed and never unlocks what
    is not locked; every round prints the keys from the last one inserted down to
    0; at the end nothing is left of the memory, but for the list itself when it has no
    nodes. *)
Lemma hoh_memory list_length thread_count print :
  exists L h, main list_length thread_count print ∅ =
      Done (replicate thread_count (if print : bool then reverse (Z.of_nat <$> seq 0 list_length) else []), h) /\
    h = if decide (list_length = 0%nat) then {[L := CList None false]} else ∅.
Proof.
  assert (Ht : triple [] (main list_length thread_count print) (fun outs l =>
    outs = replicate thread_count (if print : bool then reverse (Z.of_nat <$> seq 0 list_length) else []) /\
    exists L, l = if decide (list_length = 0%nat) then [(L, CList None false)] else [])).
  { unfold main. apply triple_malloc. intros L. set (keys := reverse (Z.of_nat <$> seq 0 list_length)).
    assert (Hk : length keys = list_length) by (unfold keys; by rewrite length_reverse, length_fmap, length_seq).
    eapply triple_first; [apply Init_ok|]. intros ? l Hl. rewrite app_nil_r.
    eapply (triple_call l []); [exact (insert_all_ok L _ [] l Hl)|by rewrite app_nil_r|]. intros ? l1 Hl1. rewrite !app_nil_r in *.
    eapply (triple_call l1 []); [apply (rounds_ok L keys (S list_length)); [lia|exact Hl1]|by rewrite app_nil_r|]. intros outs l2 [-> Hl2]. rewrite app_nil_r.
    eapply (triple_call l2 []); [apply (Free_ok (S list_length) L keys); [exact Hl2|lia]|by rewrite app_nil_r|].
    intros ? l3 ->. rewrite app_nil_r. apply triple_ret. split; [by rewrite length_seq|]. exists L.
    destruct (decide (keys = [])) as [E|E]; [rewrite decide_True; [done|by rewrite <- Hk, E]|].
    rewrite decide_False; [done|]. intros E0. rewrite E0 in Hk. by destruct keys. }
  destruct (Ht ∅ []) as (outs & h & l & E & [-> [L ->]] & [_ Hh]); [by split; [constructor|]|]. exists L, h. split; [exact E|].
  rewrite Hh, app_nil_r. by destruct (decide (list_length = 0%nat)).
Qed.
