(* ===== verification/Vector.v ===== *)
(** * The vector

    [14/vector.h]: an array that grows by doubling and shrinks by halving.  The
    block of memory is the list of its cells; the cells that [realloc] adds hold
    an argument of the operation. *)

From Stdlib Require Import ZArith Lia String.
From stdpp Require Import base tactics numbers list.
From S2P Require Import Prelude.

Local Open Scope Z_scope.
Local Open Scope ostep_scope.

(** ** Definitions *)

(** [struct vector] *)
Record vector := mkVector { data : list Z; size : Z; capacity : Z }.

(** [realloc(data, n * sizeof(int))] *)
Definition realloc (n junk : Z) (d : list Z) : list Z := resize (Z.to_nat n) junk d.

(** [data[i] = x] *)
Definition store (i x : Z) (d : list Z) : outcome string (list Z) :=
  if (0 <=? i) && (i <? Z.of_nat (length d)) then Done (<[Z.to_nat i := x]> d) else Crash "outside of the block"%string.

Definition vector_insertAtEnd (junk : Z) (v : vector) (value : Z) : outcome string vector :=
  let v := if v.(size) =? v.(capacity)
           then let c := s32 (v.(capacity) * 2) in mkVector (realloc c junk v.(data)) v.(size) c
           else v in
  let* d := store v.(size) value v.(data) in
  Done (mkVector d (s32 (v.(size) + 1)) v.(capacity)).

Definition vector_deleteAtEnd (junk : Z) (v : vector) : outcome string vector :=
  let n := s32 (v.(size) - 1) in
  let* d := store n 0 v.(data) in
  if n =? Z.quot v.(capacity) 4
  then let c := Z.quot v.(capacity) 2 in Done (mkVector (realloc c junk d) n c)
  else Done (mkVector d n v.(capacity)).

Definition vector_free (v : vector) : vector := mkVector [] 0 0.

(** [main] up to its output. *)
Definition vector_main (junk : Z) : outcome string vector :=
  let v := mkVector [4] 1 1 in
  let* v := vector_insertAtEnd junk v 5 in
  let* v := vector_insertAtEnd junk v 6 in
  let* v := vector_insertAtEnd junk v 7 in
  vector_deleteAtEnd junk v.

(** ** Correctness *)

(** The elements. *)
Definition elements (v : vector) : list Z := take (Z.to_nat v.(size)) v.(data).

(** The block has [capacity] cells, of which more than a fourth is used, or it is
    empty with one cell. *)
Definition vector_ok (v : vector) : Prop :=
  0 <= v.(size) <= v.(capacity) /\ 0 < v.(capacity) < 1073741824 /\ Z.of_nat (length v.(data)) = v.(capacity) /\
  (v.(capacity) < 4 * v.(size) \/ v.(size) = 0 /\ v.(capacity) = 1).

Lemma store_Done i x d : 0 <= i < Z.of_nat (length d) -> store i x d = Done (<[Z.to_nat i := x]> d).
Proof. intros H. unfold store. by rewrite (proj2 (Z.leb_le _ _)), (proj2 (Z.ltb_lt _ _)) by lia. Qed.

(** Storing behind [n] elements of a block. *)
Lemma take_insert_end (d : list Z) n x : (n < length d)%nat -> take (S n) (<[n := x]> d) = take n d ++ [x].
Proof.
  intros H. rewrite (take_S_r _ _ x) by (by apply list_lookup_insert_eq). by rewrite take_insert_ge by lia.
Qed.

Lemma insert_correct junk v x : vector_ok v -> v.(capacity) < 536870912 ->
  exists v', vector_insertAtEnd junk v x = Done v' /\ vector_ok v' /\ elements v' = elements v ++ [x] /\ v'.(size) = v.(size) + 1.
Proof.
  intros (Hs & Hc & Hl & Hr) Hb. unfold vector_insertAtEnd. destruct v as [d n c]. cbn [data size capacity] in *.
  destruct (Z.eqb_spec n c) as [->|Hne].
  - cbn [data size capacity]. rewrite (s32_small (c * 2)) by lia. unfold realloc.
    assert (Hlen : length (resize (Z.to_nat (c * 2)) junk d) = Z.to_nat (c * 2)) by apply length_resize.
    rewrite store_Done by lia. cbn [obind]. rewrite s32_small by lia.
    eexists. split; [done|]. split_and!; [unfold vector_ok; cbn [data size capacity]; rewrite length_insert, Hlen; lia| |done].
    unfold elements. cbn [data size]. replace (Z.to_nat (c + 1)) with (S (Z.to_nat c)) by lia.
    rewrite take_insert_end by (rewrite Hlen; lia). f_equal. rewrite take_resize_le by lia. rewrite resize_le by lia. done.
  - cbn [data size capacity]. rewrite store_Done by lia. cbn [obind]. rewrite s32_small by lia.
    eexists. split; [done|]. split_and!; [unfold vector_ok; cbn [data size capacity]; rewrite length_insert; lia| |done].
    unfold elements. cbn [data size]. replace (Z.to_nat (n + 1)) with (S (Z.to_nat n)) by lia. by rewrite take_insert_end by lia.
Qed.

Lemma delete_correct junk v : vector_ok v -> 0 < v.(size) -> 1 < v.(capacity) ->
  exists v' x, vector_deleteAtEnd junk v = Done v' /\ vector_ok v' /\ elements v = elements v' ++ [x] /\ v'.(size) = v.(size) - 1.
Proof.
  intros (Hs & Hc & Hl & Hr) Hp Hc1. unfold vector_deleteAtEnd. destruct v as [d n c]. cbn [data size capacity] in *.
  rewrite s32_small by lia. rewrite store_Done by lia. cbn [obind].
  destruct (lookup_lt_is_Some_2 d (Z.to_nat (n - 1))) as [x Hx]; [lia|].
  assert (He : take (Z.to_nat n) d = take (Z.to_nat (n - 1)) d ++ [x]).
  { replace (Z.to_nat n) with (S (Z.to_nat (n - 1))) by lia. by apply take_S_r. }
  rewrite !Z.quot_div_nonneg by lia.
  pose proof (Z.div_mod c 4 ltac:(lia)). pose proof (Z.mod_pos_bound c 4 ltac:(lia)).
  pose proof (Z.div_mod c 2 ltac:(lia)). pose proof (Z.mod_pos_bound c 2 ltac:(lia)).
  destruct (Z.eqb_spec (n - 1) (c / 4)) as [E|E].
  - eexists _, x. split; [done|]. unfold realloc. split_and!; [unfold vector_ok; cbn [data size capacity]; rewrite length_resize; lia| |done].
    unfold elements. cbn [data size]. rewrite He. f_equal. rewrite take_resize_le by lia. rewrite resize_le by (rewrite length_insert; lia).
      by rewrite take_insert_ge by lia.
  - eexists _, x. split; [done|]. split_and!; [unfold vector_ok; cbn [data size capacity]; rewrite length_insert; lia| |done].
    unfold elements. cbn [data size]. rewrite He. f_equal. by rewrite take_insert_ge by lia.
Qed.

(** Every insertion and deletion works on the list of the elements, keeps the
    block less than four times as large as what is in it, and stays inside it; but
    a vector of capacity 1 that is emptied has capacity 0, which doubling does not
    change, and the next insertion writes outside of its block. *)
Lemma vector_ops junk :
  (forall v x, vector_ok v -> v.(capacity) < 536870912 ->
     exists v', vector_insertAtEnd junk v x = Done v' /\ vector_ok v' /\ elements v' = elements v ++ [x]) /\
  (forall v, vector_ok v -> 0 < v.(size) -> 1 < v.(capacity) ->
     exists v' x, vector_deleteAtEnd junk v = Done v' /\ vector_ok v' /\ elements v = elements v' ++ [x]) /\
  (exists v, vector_main junk = Done v /\ vector_ok v /\ elements v = [4; 5; 6]) /\
  (forall x y, exists v, vector_deleteAtEnd junk (mkVector [x] 1 1) = Done v /\
     vector_insertAtEnd junk v y = Crash "outside of the block"%string).
Proof.
  split_and!.
  - intros v x H Hb. destruct (insert_correct junk v x H Hb) as (v' & ? & ? & ? & _). by exists v'.
  - intros v H Hp Hc. destruct (delete_correct junk v H Hp Hc) as (v' & x & ? & ? & ? & _). by exists v', x.
  - eexists. split; [vm_compute; reflexivity|]. split; [|reflexivity]. unfold vector_ok. cbn. lia.
  - intros x y. eexists. split; reflexivity.
Qed.
