(* ===== verification/Crc.v ===== *)
(** * The cyclic redundancy check

    [45/crc.c] and [45/crc_orig.c].  A register is an [unsigned short], a number
    below [2^16]; a message is a list of bytes.  [good_crc] appends the bits of
    the message to the register and 16 zero bits at the end, [bad_crc] compares
    them with the top bit of the register. *)

From Stdlib Require Import ZArith Lia.
From stdpp Require Import base tactics list numbers.
From S2P Require Import Prelude.

Local Open Scope Z_scope.

(** ** Definitions *)

Definition POLY : Z := 0x1021.

(** One bit of the message: [crc << 1] in an [unsigned short], plus the bit,
    xored with the polynomial when the top bit was set. *)
Definition crc_bit (crc : Z) (bit : bool) : Z :=
  let xor_flag := negb (Z.land crc 0x8000 =? 0) in
  let crc := u16 (Z.shiftl crc 1) in
  let crc := if bit then u16 (crc + 1) else crc in
  if xor_flag then Z.lxor crc POLY else crc.

(** The bits of a character, [ch & v] for [v = 0x80, 0x40 .. 1]. *)
Definition byte_bits (ch : Z) : list bool :=
  (fun j => negb (Z.land ch (Z.shiftr 0x80 j) =? 0)) <$> [0; 1; 2; 3; 4; 5; 6; 7].

(** [update_good_crc], and the body of the loop of [crc.c]. *)
Definition update_good_crc (crc : Z) (ch : Z) : Z := foldl crc_bit crc (byte_bits ch).

(** [augment_message_for_good_crc], and the second loop of [crc.c]. *)
Definition augment_message_for_good_crc (crc : Z) : Z := foldl crc_bit crc (replicate 16 false).

(** One round of [update_bad_crc]: the register and the shifted character. *)
Definition bad_round (s : Z * Z) : Z * Z :=
  let '(bad_crc, ch) := s in
  let xor_flag := negb (Z.land (Z.lxor bad_crc ch) 0x8000 =? 0) in
  let bad_crc := u16 (Z.shiftl bad_crc 1) in
  (if xor_flag then Z.lxor bad_crc POLY else bad_crc, u16 (Z.shiftl ch 1)).

Definition update_bad_crc (bad_crc : Z) (ch : Z) : Z :=
  (Nat.iter 8 bad_round (bad_crc, u16 (Z.shiftl ch 8))).1.

(** [while ((ch = text[i]) != 0)]: the text up to its end. *)
Fixpoint until_nul (text : list Z) : list Z :=
  match text with
  | [] => []
  | ch :: text => if ch =? 0 then [] else ch :: until_nul text
  end.

(** [go]: [good_crc], [bad_crc] and [text_length]. *)
Definition go (text : list Z) : Z * Z * Z :=
  let '(good_crc, bad_crc, text_length) :=
    foldl (fun '(g, b, n) ch => (update_good_crc g ch, update_bad_crc b ch, u16 (n + 1))) (0xffff, 0xffff, 0) (until_nul text) in
  (augment_message_for_good_crc good_crc, bad_crc, text_length).

(** [repeat_character]: the text becomes [n] times [ch]. *)
Definition repeat_character (ch : Z) (n : nat) : list Z := replicate n (u8 ch) ++ [0].

(** [main] of [crc.c] on the bytes of the file. *)
Definition crc_main (file : list Z) : Z :=
  augment_message_for_good_crc (foldl update_good_crc 0xffff file).

(** ** Polynomials over GF(2)

    A polynomial is a number, its coefficients the bits.  [clmul q p] is the
    product of the polynomial with the coefficients [q], highest first, and
    [p]. *)

Definition clmul (q : list bool) (p : Z) : Z :=
  foldl (fun acc (b : bool) => Z.lxor (2 * acc) (if b then p else 0)) 0 q.

(** The generator polynomial x^16 + x^12 + x^5 + 1. *)
Definition generator : Z := 0x11021.

(** The polynomial with the coefficients [bs] behind those of [x]. *)
Definition append_bits (x : Z) (bs : list bool) : Z := foldl (fun acc (b : bool) => 2 * acc + Z.b2z b) x bs.

Definition message_bits (file : list Z) : list bool := file ≫= byte_bits.

Definition reg (r : Z) : Prop := 0 <= r < 65536.

(** A register after one zero bit. *)
Definition shift0 (r : Z) : Z := crc_bit r false.

(** ** Bits of a register *)

Lemma reg_testbit r i : reg r -> 16 <= i -> Z.testbit r i = false.
Proof.
  intros [H0 H1] Hi. destruct (Z.eq_dec r 0) as [->|Hne]; [apply Z.testbit_0_l|].
  apply Z.bits_above_log2; [lia|]. apply Z.log2_lt_pow2; [lia|].
  apply Z.lt_le_trans with (2 ^ 16); [exact H1|]. apply Z.pow_le_mono_r; lia.
Qed.

Lemma reg_intro r : 0 <= r -> (forall i, 16 <= i -> Z.testbit r i = false) -> reg r.
Proof.
  intros H0 H. split; [done|]. destruct (Z.eq_dec r 0); [lia|].
  destruct (Z_lt_dec r 65536) as [|Hge]; [done|]. exfalso.
  assert (Hl : 16 <= Z.log2 r) by (apply Z.log2_le_pow2; lia).
  specialize (H (Z.log2 r) Hl). rewrite Z.bit_log2 in H by lia. done.
Qed.

(** The test of the top bit. *)
Lemma land_8000 r : negb (Z.land r 0x8000 =? 0) = Z.testbit r 15.
Proof.
  change 0x8000 with (2 ^ 15). destruct (Z.testbit r 15) eqn:E.
  - destruct (Z.eqb_spec (Z.land r (2 ^ 15)) 0) as [H|]; [|done].
    assert (H' : Z.testbit (Z.land r (2 ^ 15)) 15 = true) by (rewrite Z.land_spec, E; done). by rewrite H in H'.
  - destruct (Z.eqb_spec (Z.land r (2 ^ 15)) 0) as [|H]; [done|]. destruct H. apply Z.bits_inj'. intros i Hi.
    rewrite Z.land_spec, Z.bits_0. destruct (Z.eq_dec i 15) as [->|Hne]; [by rewrite E|].
    rewrite Z.pow2_bits_false by lia. apply andb_false_r.
Qed.

Lemma reg_top r : reg r -> Z.testbit r 15 = (32768 <=? r).
Proof.
  intros [H0 H1]. destruct (Z.leb_spec 32768 r).
  - apply Z.testbit_true; [lia|]. change (2 ^ 15) with 32768.
    replace (r / 32768) with 1; [done|]. apply Z.div_unique with (r - 32768); lia.
  - apply Z.testbit_false; [lia|]. change (2 ^ 15) with 32768. by rewrite Z.div_small by lia.
Qed.

(** Adding a number to a disjoint one is xor. *)
Lemma add_lxor_16 x : reg x -> 65536 + x = Z.lxor 65536 x.
Proof.
  intros Hx. rewrite <- Z.add_nocarry_lxor; [done|]. apply Z.bits_inj'. intros i Hi. rewrite Z.land_spec, Z.bits_0.
  change 65536 with (2 ^ 16). destruct (Z.eq_dec i 16) as [->|Hne]; [rewrite (reg_testbit x) by (done || lia); apply andb_false_r|].
  by rewrite Z.pow2_bits_false by lia.
Qed.

(** One bit, as an operation on the bits: shift in the bit, subtract the
    generator when the result has degree 16. *)
Lemma crc_bit_lxor r b :
  reg r -> crc_bit r b = Z.lxor (2 * r + Z.b2z b) (if Z.testbit r 15 then generator else 0).
Proof.
  intros Hr. unfold crc_bit. rewrite land_8000. rewrite Z.shiftl_mul_pow2 by lia. change (2 ^ 1) with 2.
  assert (E : (if b then u16 (u16 (r * 2) + 1) else u16 (r * 2)) = u16 (2 * r + Z.b2z b)).
  { unfold u16, wrapu. destruct b; cbn [Z.b2z]; [|f_equal; lia].
    rewrite Z.add_mod_idemp_l by lia. f_equal. lia. }
  rewrite E. unfold u16, wrapu. change (2 ^ 16) with 65536. rewrite reg_top by done. unfold reg in Hr.
  assert (Hb : 0 <= Z.b2z b <= 1) by (destruct b; cbn; lia). destruct (Z.leb_spec 32768 r).
  - replace ((2 * r + Z.b2z b) mod 65536) with (2 * r + Z.b2z b - 65536) by (apply Z.mod_unique with 1; lia).
    set (x := 2 * r + Z.b2z b - 65536). replace (2 * r + Z.b2z b) with (65536 + x) by (unfold x; lia).
    rewrite add_lxor_16 by (unfold x, reg; lia). rewrite (Z.lxor_comm 65536 x), Z.lxor_assoc. done.
  - rewrite Z.lxor_0_r, Z.mod_small by lia. done.
Qed.

Lemma lxor_reg a b : reg a -> reg b -> reg (Z.lxor a b).
Proof.
  intros Ha Hb. apply reg_intro; [apply Z.lxor_nonneg; unfold reg in *; lia|]. intros i Hi.
  rewrite Z.lxor_spec, (reg_testbit a), (reg_testbit b) by done. done.
Qed.

Lemma crc_bit_reg r b : reg r -> reg (crc_bit r b).
Proof.
  intros Hr. unfold crc_bit. rewrite land_8000. pose proof (u16_range (Z.shiftl r 1)). pose proof (u16_range (u16 (Z.shiftl r 1) + 1)).
  assert (H1 : reg (if b then u16 (u16 (Z.shiftl r 1) + 1) else u16 (Z.shiftl r 1))) by (destruct b; unfold reg; lia).
  destruct (Z.testbit r 15); [|done]. by apply lxor_reg.
Qed.

Lemma crc_bits_reg bs : forall r, reg r -> reg (foldl crc_bit r bs).
Proof. induction bs as [|b bs IH]; intros r Hr; cbn; [done|]. by apply IH, crc_bit_reg. Qed.

#[local] Hint Resolve lxor_reg crc_bit_reg crc_bits_reg : ostep.

(** ** Linearity *)

Lemma double_b2z r b : 2 * r + Z.b2z b = Z.lxor (2 * r) (Z.b2z b).
Proof.
  apply Z.bits_inj'. intros i Hi. rewrite Z.lxor_spec. destruct (Z.eq_dec i 0) as [->|Hne].
  - rewrite Z.testbit_0_r, Z.testbit_even_0. destruct b; done.
  - replace i with (Z.succ (i - 1)) by lia. rewrite Z.testbit_succ_r, Z.testbit_even_succ by lia.
    destruct b; cbn [Z.b2z]; [|rewrite Z.bits_0; by rewrite xorb_false_r].
    rewrite (Z.bits_above_log2 1) by (cbn; lia). by rewrite xorb_false_r.
Qed.

Lemma double_lxor a b : 2 * Z.lxor a b = Z.lxor (2 * a) (2 * b).
Proof. rewrite !(Z.mul_comm 2), <- !(Z.shiftl_mul_pow2 _ 1) by lia. apply Z.shiftl_lxor. Qed.

Lemma b2z_xorb b d : Z.b2z (xorb b d) = Z.lxor (Z.b2z b) (Z.b2z d).
Proof. by destruct b, d. Qed.

Lemma if_xorb (b d : bool) g : (if xorb b d then g else 0) = Z.lxor (if b then g else 0) (if d then g else 0).
Proof. destruct b, d; cbn [xorb]; by rewrite ?Z.lxor_nilpotent, ?Z.lxor_0_l, ?Z.lxor_0_r. Qed.

(** Two numbers with the same bits, up to the order of the xors. *)
Ltac lxor_bits :=
  apply Z.bits_inj'; intros i Hi; rewrite !Z.lxor_spec;
  repeat match goal with |- context [Z.testbit ?x i] => destruct (Z.testbit x i) end; done.

Lemma crc_bit_linear a c b d :
  reg a -> reg c -> crc_bit (Z.lxor a c) (xorb b d) = Z.lxor (crc_bit a b) (crc_bit c d).
Proof.
  intros Ha Hc. rewrite !crc_bit_lxor by auto with ostep.
  rewrite !double_b2z, double_lxor, Z.lxor_spec, if_xorb, b2z_xorb. lxor_bits.
Qed.

Lemma crc_bits_linear bs : forall ds a c,
  reg a -> reg c -> length bs = length ds ->
  foldl crc_bit (Z.lxor a c) (zip_with xorb bs ds) = Z.lxor (foldl crc_bit a bs) (foldl crc_bit c ds).
Proof.
  induction bs as [|b bs IH]; intros [|d ds] a c Ha Hc Hl; try done. cbn [foldl zip_with].
  rewrite crc_bit_linear by done. apply IH; auto with ostep.
Qed.

(** Zero bits lose nothing. *)
Lemma shift0_zero r : reg r -> crc_bit r false = 0 -> r = 0.
Proof.
  intros Hr. rewrite crc_bit_lxor by done. cbn [Z.b2z]. rewrite Z.add_0_r. intros H. apply Z.lxor_eq in H.
  destruct (Z.testbit r 15); [unfold generator in H|]; lia.
Qed.

Lemma shifts_zero k : forall r, reg r -> foldl crc_bit r (replicate k false) = 0 -> r = 0.
Proof.
  induction k as [|k IH]; intros r Hr; cbn; [done|]. intros H. apply shift0_zero; [done|]. apply IH; auto with ostep.
Qed.

Lemma zeros_zero k : foldl crc_bit 0 (replicate k false) = 0.
Proof. induction k as [|k IH]; [done|exact IH]. Qed.

(** While the register has room, bits are just appended. *)
Lemma crc_append bs : forall x k, 0 <= x < 2 ^ k -> 0 <= k -> k + Z.of_nat (length bs) <= 16 ->
  foldl crc_bit x bs = append_bits x bs /\ 0 <= append_bits x bs < 65536.
Proof.
  induction bs as [|b bs IH]; intros x k Hx Hk Hl; cbn [foldl append_bits length] in *.
  - split; [done|]. assert (2 ^ k <= 2 ^ 16) by (apply Z.pow_le_mono_r; lia). change (append_bits x []) with x. lia.
  - assert (Hk15 : 2 ^ k <= 2 ^ 15) by (apply Z.pow_le_mono_r; lia).
    assert (Hb : 0 <= Z.b2z b <= 1) by (destruct b; cbn; lia).
    assert (E : crc_bit x b = 2 * x + Z.b2z b).
    { rewrite crc_bit_lxor, reg_top by (unfold reg; lia). destruct (Z.leb_spec 32768 x); [lia|]. apply Z.lxor_0_r. }
    rewrite E. apply (IH _ (k + 1)); [|lia|lia]. rewrite Z.pow_add_r by lia. lia.
Qed.

Lemma append_bits_ge bs : forall x, 0 <= x -> x <= append_bits x bs.
Proof.
  induction bs as [|b bs IH]; intros x Hx; [done|]. change (append_bits x (b :: bs)) with (append_bits (2 * x + Z.b2z b) bs).
  assert (0 <= Z.b2z b) by (destruct b; cbn; lia). specialize (IH (2 * x + Z.b2z b) ltac:(lia)). lia.
Qed.

Lemma append_bits_zero bs : append_bits 0 bs = 0 -> Forall (fun b => b = false) bs.
Proof.
  induction bs as [|[] bs IH]; intros H; [done| |].
  - change (append_bits 1 bs = 0) in H. pose proof (append_bits_ge bs 1 ltac:(lia)). lia.
  - constructor; [done|]. by apply IH.
Qed.

Lemma zip_xorb_self bs : zip_with xorb bs bs = replicate (length bs) false.
Proof. induction bs as [|[] bs IH]; cbn; by rewrite ?IH. Qed.

Lemma zip_xorb_false a : forall b, length a = length b -> Forall (fun x => x = false) (zip_with xorb a b) -> a = b.
Proof.
  induction a as [|x a IH]; intros [|y b] Hl; try done. cbn [zip_with]. intros H. apply Forall_cons_1 in H as [Hxy H].
  f_equal; [by destruct x, y|]. apply IH; [by injection Hl|done].
Qed.

(** ** Remainders *)

Lemma clmul_snoc q b p : clmul (q ++ [b]) p = Z.lxor (2 * clmul q p) (if b then p else 0).
Proof. unfold clmul. by rewrite foldl_app. Qed.

Lemma append_snoc x bs b : append_bits x (bs ++ [b]) = 2 * append_bits x bs + Z.b2z b.
Proof. unfold append_bits. by rewrite foldl_app. Qed.

Lemma crc_remainder x bs : reg x ->
  exists q, append_bits x bs = Z.lxor (clmul q generator) (foldl crc_bit x bs).
Proof.
  intros Hx. induction bs as [|b bs [q Hq]] using rev_ind; [by exists []|].
  set (r := foldl crc_bit x bs) in *. exists (q ++ [Z.testbit r 15]).
  rewrite foldl_app. cbn [foldl]. fold r. rewrite crc_bit_lxor by (unfold r; auto with ostep).
  rewrite append_snoc, clmul_snoc, Hq, !double_b2z, double_lxor. lxor_bits.
Qed.

Lemma good_crc_bits file r : foldl update_good_crc r file = foldl crc_bit r (message_bits file).
Proof. revert r; induction file as [|ch file IH]; intros r; [done|]. cbn [foldl message_bits mbind list_bind].
  unfold message_bits in IH. rewrite IH. unfold update_good_crc at 1. by rewrite foldl_app. Qed.

Lemma crc_main_bits file : crc_main file = foldl crc_bit 0xffff (message_bits file ++ replicate 16 false).
Proof. unfold crc_main, augment_message_for_good_crc. by rewrite good_crc_bits, foldl_app. Qed.

(** ** Bursts *)

(** Two bit strings that differ only within 16 consecutive bits leave
    different registers. *)
Lemma burst_register r pre a b post :
  reg r -> length a = length b -> (length a <= 16)%nat -> a <> b ->
  foldl crc_bit r (pre ++ a ++ post) <> foldl crc_bit r (pre ++ b ++ post).
Proof.
  intros Hr Hl H16 Hne E. apply Hne, zip_xorb_false; [done|]. apply append_bits_zero.
  rewrite !foldl_app in E. set (r1 := foldl crc_bit r pre) in *. assert (Hr1 : reg r1) by (unfold r1; auto with ostep).
  set (x := foldl crc_bit r1 a) in *. set (y := foldl crc_bit r1 b) in *.
  assert (Hx : reg x) by (unfold x; auto with ostep). assert (Hy : reg y) by (unfold y; auto with ostep).
  pose proof (crc_bits_linear post post x y Hx Hy eq_refl) as L2. rewrite E, Z.lxor_nilpotent, zip_xorb_self in L2.
  apply shifts_zero in L2; [|auto with ostep].
  pose proof (crc_bits_linear a b r1 r1 Hr1 Hr1 Hl) as L1. rewrite Z.lxor_nilpotent in L1. fold x y in L1. rewrite L2 in L1.
  destruct (crc_append (zip_with xorb a b) 0 0) as [E1 _]; [lia|lia| |congruence].
  rewrite length_zip_with. lia.
Qed.

(** ** The other algorithm *)

(** One bit of [bad_crc]. *)
Definition direct_bit (d : Z) (b : bool) : Z :=
  if xorb (Z.testbit d 15) b then Z.lxor (u16 (Z.shiftl d 1)) POLY else u16 (Z.shiftl d 1).

Lemma bad_round_eq d c : bad_round (d, c) = (direct_bit d (Z.testbit c 15), u16 (Z.shiftl c 1)).
Proof. unfold bad_round, direct_bit. by rewrite land_8000, Z.lxor_spec. Qed.

Lemma u16_shift_bit c i : 0 < i < 16 -> Z.testbit (u16 (Z.shiftl c 1)) i = Z.testbit c (i - 1).
Proof.
  intros Hi. unfold u16, wrapu. rewrite Z.mod_pow2_bits_low by lia. by rewrite Z.shiftl_spec by lia.
Qed.

Lemma u16_shift8_bit c i : 8 <= i < 16 -> Z.testbit (u16 (Z.shiftl c 8)) i = Z.testbit c (i - 8).
Proof.
  intros Hi. unfold u16, wrapu. rewrite Z.mod_pow2_bits_low by lia. by rewrite Z.shiftl_spec by lia.
Qed.

Lemma land_pow2_bit ch n : 0 <= n -> negb (Z.land ch (2 ^ n) =? 0) = Z.testbit ch n.
Proof.
  intros Hn. destruct (Z.testbit ch n) eqn:E.
  - destruct (Z.eqb_spec (Z.land ch (2 ^ n)) 0) as [H|]; [|done].
    assert (H' : Z.testbit (Z.land ch (2 ^ n)) n = true) by (rewrite Z.land_spec, E, Z.pow2_bits_true by lia; done).
    by rewrite H, Z.bits_0 in H'.
  - destruct (Z.eqb_spec (Z.land ch (2 ^ n)) 0) as [|H]; [done|]. destruct H. apply Z.bits_inj'. intros i Hi.
    rewrite Z.land_spec, Z.bits_0. destruct (Z.eq_dec i n) as [->|Hne]; [by rewrite E|].
    rewrite Z.pow2_bits_false by lia. apply andb_false_r.
Qed.

Lemma byte_bits_test ch : byte_bits ch = (fun n => Z.testbit ch n) <$> [7; 6; 5; 4; 3; 2; 1; 0].
Proof.
  unfold byte_bits. cbn [fmap list_fmap]. rewrite <- !land_pow2_bit by lia. done.
Qed.

Lemma update_bad_bits d ch : update_bad_crc d ch = foldl direct_bit d (byte_bits ch).
Proof.
  unfold update_bad_crc, Nat.iter. rewrite byte_bits_test. cbn [nat_rect fmap list_fmap foldl].
  rewrite !bad_round_eq. cbn [fst]. rewrite !u16_shift_bit, !u16_shift8_bit by lia. done.
Qed.

(** 16 zero bits. *)
Definition zeros16 (r : Z) : Z := augment_message_for_good_crc r.

Lemma zeros16_linear a c : reg a -> reg c -> zeros16 (Z.lxor a c) = Z.lxor (zeros16 a) (zeros16 c).
Proof.
  intros Ha Hc. unfold zeros16, augment_message_for_good_crc. by rewrite <- crc_bits_linear by done.
Qed.

Lemma zeros_shift k : forall r,
  foldl crc_bit (crc_bit r false) (replicate k false) = crc_bit (foldl crc_bit r (replicate k false)) false.
Proof. induction k as [|k IH]; intros r; [done|]. cbn [replicate foldl]. apply IH. Qed.

Lemma zeros16_shift r : zeros16 (crc_bit r false) = crc_bit (zeros16 r) false.
Proof. apply zeros_shift. Qed.

Lemma zeros16_reg r : reg r -> reg (zeros16 r).
Proof. intros. unfold zeros16, augment_message_for_good_crc. auto with ostep. Qed.

(** The register of [bad_crc] is 16 zero bits ahead of that of [good_crc]. *)
Lemma direct_ahead r b : reg r -> direct_bit (zeros16 r) b = zeros16 (crc_bit r b).
Proof.
  intros Hr. assert (Hb : reg (Z.b2z b)) by (destruct b; unfold reg; cbn; lia).
  assert (E : crc_bit r b = Z.lxor (crc_bit r false) (Z.b2z b)).
  { rewrite !crc_bit_lxor by done. cbn [Z.b2z]. rewrite Z.add_0_r, double_b2z. lxor_bits. }
  rewrite E, zeros16_linear, zeros16_shift by auto with ostep. pose proof (zeros16_reg r Hr) as Hd.
  set (d := zeros16 r) in *. unfold crc_bit, direct_bit. rewrite land_8000. cbv zeta.
  destruct b; cbn [Z.b2z]; [change (zeros16 1) with POLY|change (zeros16 0) with 0; rewrite Z.lxor_0_r];
    destruct (Z.testbit d 15); cbn [xorb]; try done. by rewrite Z.lxor_assoc, Z.lxor_nilpotent, Z.lxor_0_r.
Qed.

Lemma directs_ahead bs : forall r, reg r -> foldl direct_bit (zeros16 r) bs = zeros16 (foldl crc_bit r bs).
Proof.
  induction bs as [|b bs IH]; intros r Hr; [done|]. cbn [foldl]. rewrite direct_ahead by done. apply IH. auto with ostep.
Qed.

Lemma bad_crc_bits text d : foldl update_bad_crc d text = foldl direct_bit d (message_bits text).
Proof. revert d; induction text as [|ch text IH]; intros d; [done|]. cbn [foldl message_bits mbind list_bind].
  unfold message_bits in IH. rewrite IH, update_bad_bits. by rewrite foldl_app. Qed.

Lemma go_fold text g b n :
  foldl (fun '(g, b, n) ch => (update_good_crc g ch, update_bad_crc b ch, u16 (n + 1))) (g, b, u16 n) text =
  (foldl update_good_crc g text, foldl update_bad_crc b text, u16 (n + Z.of_nat (length text))).
Proof.
  revert g b n; induction text as [|ch text IH]; intros g b n; cbn [foldl length]; [by rewrite Z.add_0_r|].
  replace (u16 (u16 n + 1)) with (u16 (n + 1)) by (unfold u16, wrapu; by rewrite Z.add_mod_idemp_l by lia).
  rewrite IH. replace (n + 1 + Z.of_nat (length text)) with (n + Z.of_nat (S (length text))) by lia. done.
Qed.

Lemma go_eq text :
  go text = (crc_main (until_nul text), foldl update_bad_crc 0xffff (until_nul text), u16 (Z.of_nat (length (until_nul text)))).
Proof.
  unfold go, crc_main. pose proof (go_fold (until_nul text) 0xffff 0xffff 0) as E. change (u16 0) with 0 in E. by rewrite E.
Qed.

(** ** Properties *)

(** C38: the CRC of a file, by [crc.c] and as the [good_crc] of [crc_orig.c], is
    the remainder, a polynomial of degree less than 16, of the message behind
    sixteen ones and before sixteen zeros, divided by the generator. *)
Theorem crc_is_remainder file :
  0 <= crc_main file < 65536 /\
  (exists q, append_bits 0xffff (message_bits file ++ replicate 16 false) =
             Z.lxor (clmul q generator) (crc_main file)) /\
  (go (file ++ [0])).1.1 = crc_main (until_nul (file ++ [0])).
Proof.
  assert (Hr : reg 0xffff) by (unfold reg; lia). split_and!.
  - rewrite crc_main_bits. by apply crc_bits_reg.
  - rewrite crc_main_bits. by apply crc_bits_reg.
  - rewrite crc_main_bits. by apply crc_remainder.
  - by rewrite go_eq.
Qed.

(** C39: burst errors are detected: two files of the same length that differ,
    but only within sixteen consecutive bits, have different CRCs. *)
Theorem crc_detects_bursts f g pre a b post :
  message_bits f = pre ++ a ++ post -> message_bits g = pre ++ b ++ post ->
  length a = length b -> (length a <= 16)%nat -> a <> b -> crc_main f <> crc_main g.
Proof.
  intros Hf Hg Hl H16 Hne. rewrite !crc_main_bits, Hf, Hg, <- !app_assoc. apply burst_register; [unfold reg; lia|done..].
Qed.

(** The files [a1] and [b2] differ within ten consecutive bits. *)
Lemma crc_detects_bursts_witness : crc_main [97; 49] <> crc_main [98; 50].
Proof.
  apply (crc_detects_bursts [97; 49] [98; 50] (replicate 1 false ++ [true; true; false; false; false])
    [false; true; false; false; true; true; false; false; false; true]
    [true; false; false; false; true; true; false; false; true; false] []);
    [vm_compute; reflexivity|vm_compute; reflexivity|reflexivity|cbn; lia|discriminate].
Defined.

(** The [bad_crc] of [crc_orig.c] is the same check with another start: it
    is the CRC of the text when the register starts at [0x84cf] instead of
    [0xffff], for every text. *)
Lemma bad_crc_is_shifted text :
  (go text).1.2 = augment_message_for_good_crc (foldl update_good_crc 0x84cf (until_nul text)).
Proof.
  rewrite go_eq. cbn [fst snd]. rewrite bad_crc_bits, good_crc_bits. change 0xffff with (zeros16 0x84cf).
  rewrite directs_ahead by (unfold reg; lia). unfold zeros16. reflexivity.
Qed.

(** The values in the comment of [crc_orig.c] for the text 123456789. *)
Example crc_check_values : go [49; 50; 51; 52; 53; 54; 55; 56; 57; 0] = (0xe5cc, 0x29b1, 9).
Proof. vm_compute. reflexivity. Qed.

Example crc_empty : go [0] = (0x1d0f, 0xffff, 0).
Proof. vm_compute. reflexivity. Qed.
