(* ===== verification/Csum.v ===== *)
(** * Checksums of files

    [45/check-xor.c], [45/check-fletcher.c], [45/create-csum.c] and
    [45/check-csum.c].  A file that is read is the list of the results of the
    calls of [read] up to the end of the file: the bytes of a block, or [None]
    for the result [-1]. *)

From Stdlib Require Import ZArith Lia.
From stdpp Require Import base tactics numbers list.
From S2P Require Import Prelude.

Local Open Scope Z_scope.

(** ** Definitions *)

Definition BUFFSIZE : nat := 4096.

(** [xor ^= buff[0] - '0'] in an [unsigned char], [buff[0]] a signed [char]. *)
Definition check_xor (file : list Z) : Z :=
  foldl (fun x c => if c =? 10 then x else u8 (Z.lxor x (s8 c - 48))) 0 file.

Definition check_fletcher (file : list Z) : Z * Z :=
  foldl (fun '(a, b) c => if c =? 10 then (a, b)
                          else let a := Z.rem (s8 c - 48 + a) 255 in (a, Z.rem (a + b) 255)) (0, 0) file.

(** What [read] returns for a file that can be read. *)
Fixpoint read_blocks (fuel : nat) (file : list Z) : list (option (list Z)) :=
  match fuel, file with
  | S fuel, _ :: _ => Some (take BUFFSIZE file) :: read_blocks fuel (drop BUFFSIZE file)
  | _, _ => []
  end.

(** [for (size_t i = 0; i < count; i++) xor ^= buff[i];] *)
Definition xor_block (x : Z) (blk : list Z) : Z := foldl (fun x c => u8 (Z.lxor x c)) x blk.

(** [create-csum.c]: the bytes written, with [xor] on entry. *)
Fixpoint create_csum (xor : Z) (reads : list (option (list Z))) : list Z :=
  match reads with
  | Some blk :: reads => let xor := xor_block xor blk in xor :: create_csum xor reads
  | _ => []
  end.

(** [check-csum.c]: whether it reports that the file is fine.  At the end of the
    checksums [read] leaves [buff_b] as it is. *)
Fixpoint check_csum (xor buff_b : Z) (reads : list (option (list Z))) (csum : list Z) : bool :=
  match reads with
  | Some blk :: reads =>
      let xor := xor_block xor blk in
      let buff_b := match csum with b :: _ => b | [] => buff_b end in
      if xor =? buff_b then check_csum xor buff_b reads (tail csum) else false
  | _ => true
  end.

(** ** Xor *)

Definition byte (x : Z) : Prop := 0 <= x < 256.

Definition block_ok (r : option (list Z)) : Prop := match r with Some blk => Forall byte blk | None => False end.

(** The xor of a block. *)
Definition bxor (r : option (list Z)) : Z := match r with Some blk => foldr Z.lxor 0 blk | None => 0 end.

Lemma byte_bits_high x i : byte x -> 8 <= i -> Z.testbit x i = false.
Proof.
  intros [H0 H1] Hi. destruct (Z.eq_dec x 0) as [->|]; [apply Z.testbit_0_l|].
  apply Z.bits_above_log2; [lia|]. apply Z.log2_lt_pow2; [lia|].
  apply Z.lt_le_trans with (2 ^ 8); [exact H1|]. apply Z.pow_le_mono_r; lia.
Qed.

Lemma lxor_byte a b : byte a -> byte b -> byte (Z.lxor a b).
Proof.
  intros Ha Hb. assert (H0 : 0 <= Z.lxor a b) by (apply Z.lxor_nonneg; unfold byte in *; lia).
  split; [done|]. destruct (Z.eq_dec (Z.lxor a b) 0); [lia|].
  destruct (Z_lt_dec (Z.lxor a b) 256) as [|Hge]; [done|]. exfalso.
  assert (Hl : 8 <= Z.log2 (Z.lxor a b)) by (apply Z.log2_le_pow2; lia).
  pose proof (Z.bit_log2 (Z.lxor a b) ltac:(lia)) as Hb1.
  by rewrite Z.lxor_spec, (byte_bits_high a), (byte_bits_high b) in Hb1.
Qed.

Lemma xor_block_lxor blk : forall x, byte x -> Forall byte blk ->
  xor_block x blk = Z.lxor x (foldr Z.lxor 0 blk) /\ byte (xor_block x blk).
Proof.
  unfold xor_block. induction blk as [|c blk IH]; intros x Hx Hb; cbn [foldl foldr].
  - rewrite Z.lxor_0_r. done.
  - apply Forall_cons_1 in Hb as [Hc Hb]. rewrite u8_small by (by apply lxor_byte).
    destruct (IH (Z.lxor x c)) as [-> H2]; [by apply lxor_byte|done|]. rewrite <- Z.lxor_assoc in *. done.
Qed.

Lemma lxor_cancel x a b : Z.lxor x a = Z.lxor x b -> a = b.
Proof.
  intros H. apply (f_equal (Z.lxor x)) in H. by rewrite <- !Z.lxor_assoc, Z.lxor_nilpotent, !Z.lxor_0_l in H.
Qed.

Lemma check_created rs : forall gs x b,
  byte x -> Forall block_ok rs -> Forall block_ok gs -> length rs = length gs ->
  check_csum x b gs (create_csum x rs) = true <-> Forall2 (fun r g => bxor r = bxor g) rs gs.
Proof.
  induction rs as [|r rs IH]; intros [|g gs] x b Hx Hr Hg Hl; try done.
  apply Forall_cons_1 in Hr as [Hr Hrs], Hg as [Hg Hgs]. destruct r as [r|], g as [g|]; try done.
  destruct (xor_block_lxor r x Hx Hr) as [Er Br], (xor_block_lxor g x Hx Hg) as [Eg Bg].
  cbn [create_csum check_csum tail]. rewrite Forall2_cons. cbn [bxor]. destruct (Z.eqb_spec (xor_block x g) (xor_block x r)) as [E|E].
  - rewrite E, IH by (done || by injection Hl). rewrite Er, Eg in E. apply lxor_cancel in E. split; [intros H2; by split|by intros [_ H2]].
  - split; [done|]. intros [H _]. destruct E. by rewrite Er, Eg, H.
Qed.

(** ** Blocks of a file *)

Lemma read_blocks_ok file : forall fuel, Forall byte file -> Forall block_ok (read_blocks fuel file).
Proof.
  intros fuel; revert file; induction fuel as [|fuel IH]; intros file Hf; [constructor|]. destruct file as [|c file]; [constructor|].
  cbn [read_blocks]. constructor; [by apply Forall_take|]. apply IH. by apply Forall_drop.
Qed.

Lemma read_blocks_length fuel : forall f g, length f = length g ->
  length (read_blocks fuel f) = length (read_blocks fuel g).
Proof.
  induction fuel as [|fuel IH]; intros f g H; [done|]. destruct f as [|x f], g as [|y g]; try done.
  cbn [read_blocks length]. f_equal. apply IH. rewrite !length_drop. cbn in *. lia.
Qed.

(** Every byte is read. *)
Lemma read_blocks_all fuel : forall file, (length file <= fuel)%nat ->
  mjoin (from_option id [] <$> read_blocks fuel file) = file.
Proof.
  induction fuel as [|fuel IH]; intros file H; [by destruct file; cbn in *; [|lia]|]. destruct file as [|c file]; [done|].
  cbn [read_blocks]. rewrite fmap_cons. change (mjoin (?x :: ?l)) with (x ++ mjoin l). rewrite IH.
  - cbn [from_option id]. apply take_drop.
  - rewrite length_drop. cbn [length] in *. unfold BUFFSIZE. lia.
Qed.

(** ** Fletcher *)

(** The sums without the reduction. *)
Definition plain_sums (xs : list Z) : Z * Z := foldl (fun '(a, b) x => (a + x, b + (a + x))) (0, 0) xs.

Definition digits (file : list Z) : list Z := (fun c => c - 48) <$> filter (fun c => c <> 10) file.

Lemma fletcher_fold file : forall a b a' b',
  Forall (fun c => c = 10 \/ 48 <= c < 128) file -> a = a' mod 255 -> b = b' mod 255 -> 0 <= a' -> 0 <= b' ->
  let '(x, y) := foldl (fun '(a, b) c => if c =? 10 then (a, b)
                     else let a := Z.rem (s8 c - 48 + a) 255 in (a, Z.rem (a + b) 255)) (a, b) file in
  let '(x', y') := foldl (fun '(a, b) x => (a + x, b + (a + x))) (a', b') (digits file) in
  x = x' mod 255 /\ y = y' mod 255.
Proof.
  induction file as [|c file IH]; intros a b a' b' Hf Ha Hb Ha0 Hb0; [done|]. apply Forall_cons_1 in Hf as [Hc Hf].
  unfold digits. cbn [foldl]. destruct (Z.eqb_spec c 10) as [->|Hne].
  - rewrite filter_cons_False by lia. by apply IH.
  - rewrite filter_cons_True by done. rewrite fmap_cons. cbn [foldl].
    assert (E1 : s8 c = c) by (unfold s8; apply wraps_small; cbn; lia). rewrite E1.
    assert (E2 : Z.rem (c - 48 + a) 255 = (a' + (c - 48)) mod 255).
    { rewrite Z.rem_mod_nonneg by (subst a; pose proof (Z.mod_pos_bound a' 255); lia).
      rewrite Ha, Z.add_mod_idemp_r by lia. f_equal. lia. }
    apply IH; [done| | |lia|lia].
    + rewrite E2. done.
    + rewrite E2. rewrite Z.rem_mod_nonneg.
      * rewrite Hb, <- Z.add_mod by lia. f_equal. lia.
      * subst b. pose proof (Z.mod_pos_bound (a' + (c - 48)) 255). pose proof (Z.mod_pos_bound b' 255). lia.
      * lia.
Qed.

(** ** Properties *)

(** A checksum file made by [create-csum] accepts exactly the files of the
    same length every block of which has the same xor: the file itself passes,
    and a file is reported as corrupted as soon as the xor of a block changed. *)
Theorem csum_detects f g :
  Forall byte f -> Forall byte g -> length f = length g ->
  let blocks file := read_blocks (length file) file in
  (check_csum 0 0 (blocks g) (create_csum 0 (blocks f)) = true <->
   Forall2 (fun r r' => bxor r = bxor r') (blocks f) (blocks g)) /\
  check_csum 0 0 (blocks f) (create_csum 0 (blocks f)) = true /\
  mjoin (from_option id [] <$> blocks f) = f.
Proof.
  intros Hf Hg Hl blocks. assert (H0 : byte 0) by (unfold byte; lia). split_and!.
  - apply check_created; [done|by apply read_blocks_ok..|]. unfold blocks. rewrite <- Hl. by apply read_blocks_length.
  - apply check_created; [done|by apply read_blocks_ok..|done|]. clear. induction (blocks f); by constructor.
  - by apply read_blocks_all.
Qed.

Lemma csum_detects_witness :
  check_csum 0 0 (read_blocks 3 [1; 2; 7]) (create_csum 0 (read_blocks 3 [1; 2; 3])) <> true.
Proof.
  intros H. apply (csum_detects [1; 2; 3] [1; 2; 7]) in H;
    [|repeat (apply Forall_cons_2; [unfold byte; lia|]); constructor..|reflexivity].
  inversion H as [|? ? ? ? E]. vm_compute in E. discriminate E.
Defined.

(** On a text of digits the Fletcher checksum is the pair of the sum and of
    the sum of the partial sums, modulo 255; the reduction in every step loses
    nothing. *)
Lemma fletcher_sums file :
  Forall (fun c => c = 10 \/ 48 <= c < 128) file ->
  check_fletcher file = ((plain_sums (digits file)).1 mod 255, (plain_sums (digits file)).2 mod 255).
Proof.
  intros Hf. pose proof (fletcher_fold file 0 0 0 0 Hf eq_refl eq_refl ltac:(lia) ltac:(lia)) as H.
  unfold check_fletcher, plain_sums in *. destruct (foldl _ (0, 0) file) as [x y].
  destruct (foldl _ (0, 0) (digits file)) as [x' y']. destruct H as [-> ->]. done.
Qed.

Example fletcher_1234 : check_fletcher [49; 50; 51; 52; 10] = (10, 20).
Proof. vm_compute. reflexivity. Qed.

(** [check-csum] takes an error while reading the file for its end: if the
    first [read] fails the file is reported as fine, whatever the checksums. *)
Lemma check_csum_ignores_errors csum : check_csum 0 0 [None] csum = true.
Proof. done. Qed.
