(* ===== verification/Cstring.v ===== *)
(** * Arrays of characters

    The functions of the C library that the small programs use on strings: an
    array is the list of its bytes, a string ends at the first NUL, and reading
    or writing past the end of an array is a [Crash]. *)

From Stdlib Require Import ZArith Lia String.
From stdpp Require Import base tactics numbers list.
From S2P Require Import Prelude.

Local Open Scope Z_scope.
Local Open Scope ostep_scope.

(** ** Definitions *)

Definition past_end {A} : outcome string A := Crash "past the end of an array"%string.

(** What [printf("%s", a)] writes. *)
Fixpoint cstr (a : list Z) : outcome string (list Z) :=
  match a with
  | [] => past_end
  | c :: a => if c =? 0 then Done [] else let* s := cstr a in Done (c :: s)
  end.

Fixpoint strlen (a : list Z) : outcome string nat :=
  match a with
  | [] => past_end
  | c :: a => if c =? 0 then Done 0%nat else let* n := strlen a in Done (S n)
  end.

(** [strcmp(a, b) == 0] *)
Fixpoint strcmp_eq (a b : list Z) : outcome string bool :=
  match a, b with
  | x :: a, y :: b => if x =? y then if x =? 0 then Done true else strcmp_eq a b else Done false
  | _, _ => past_end
  end.

Fixpoint strcpy (dst src : list Z) : outcome string (list Z) :=
  match dst, src with
  | _ :: dst, x :: src => if x =? 0 then Done (0 :: dst) else let* r := strcpy dst src in Done (x :: r)
  | _, _ => past_end
  end.

(** [memset(a, 0, n)] for an [n] inside the array. *)
Definition memset0 (n : nat) (a : list Z) : list Z := replicate n 0 ++ drop n a.

(** [isspace] *)
Definition isspace (c : Z) : bool := (c =? 32) || ((9 <=? c) && (c <=? 13)).

(** [sprintf("%d", n)].  A number has no more decimal digits than binary ones. *)
Fixpoint digits (fuel : nat) (n : Z) : list Z :=
  match fuel with
  | O => []
  | S fuel => if n <? 10 then [48 + n] else digits fuel (n / 10) ++ [48 + n mod 10]
  end.

Definition decimal (n : Z) : list Z :=
  let digits n := digits (S (Z.to_nat (Z.log2 n))) n in
  if n <? 0 then 45 :: digits (- n) else digits n.

(** [atoi], for numbers that fit an [int]. *)
Definition isdigit (c : Z) : bool := (48 <=? c) && (c <=? 57).

Fixpoint digits_value (acc : Z) (a : list Z) : outcome string Z :=
  match a with
  | [] => past_end
  | c :: a => if isdigit c then digits_value (acc * 10 + (c - 48)) a else Done acc
  end.

Fixpoint atoi (a : list Z) : outcome string Z :=
  match a with
  | [] => past_end
  | c :: r =>
      if isspace c then atoi r
      else if c =? 45 then let* n := digits_value 0 r in Done (- n)
      else if c =? 43 then digits_value 0 r
      else digits_value 0 a
  end.

(** ** Lemmas *)

Definition byte (x : Z) : Prop := 0 <= x < 256.

(** A string in an array. *)
Lemma cstr_app s rest : Forall (fun c => c <> 0) s -> cstr (s ++ 0 :: rest) = Done s.
Proof.
  induction 1 as [|c s Hc _ IH]; [done|]. cbn [app cstr]. apply Z.eqb_neq in Hc. by rewrite Hc, IH.
Qed.

(** The four bytes of an [int] in network order, and back. *)
Definition be32 (x : Z) : list Z :=
  [u8 (Z.shiftr x 24); u8 (Z.shiftr x 16); u8 (Z.shiftr x 8); u8 x].

Definition of_be32 (a b c d : Z) : Z := s32 (((a * 256 + b) * 256 + c) * 256 + d).

Lemma be32_bytes x : Forall byte (be32 x).
Proof. unfold be32, byte. repeat (constructor; [apply u8_range|]). constructor. Qed.

Lemma of_be32_be32 x : -2147483648 <= x < 2147483648 ->
  of_be32 (u8 (Z.shiftr x 24)) (u8 (Z.shiftr x 16)) (u8 (Z.shiftr x 8)) (u8 x) = x.
Proof.
  intros H. unfold of_be32. rewrite !Z.shiftr_div_pow2 by lia. unfold u8, wrapu, s32, wraps.
  change (2 ^ 24) with (256 * 256 * 256). change (2 ^ 16) with (256 * 256). change (2 ^ 8) with 256. change (2 ^ 32) with 4294967296.
  change (2 ^ (32 - 1)) with 2147483648. rewrite <- !Z.div_div by lia.
  pose proof (Z.div_mod x 256 ltac:(lia)). pose proof (Z.div_mod (x / 256) 256 ltac:(lia)).
  pose proof (Z.div_mod (x / 256 / 256) 256 ltac:(lia)). pose proof (Z.div_mod (x / 256 / 256 / 256) 256 ltac:(lia)).
  set (q := x / 256 / 256 / 256 / 256) in *.
  match goal with |- (?y + _) mod _ - _ = _ => replace y with (x + - q * 4294967296) by lia end.
  replace (x + - q * 4294967296 + 2147483648) with (x + 2147483648 + - q * 4294967296) by lia.
  rewrite Z.mod_add by lia. rewrite Z.mod_small; lia.
Qed.

(** ** Lines *)

(** The string in an array that ends with a NUL behind [l]. *)
Fixpoint upto_nul (l : list Z) : list Z :=
  match l with
  | [] => []
  | c :: l => if c =? 0 then [] else c :: upto_nul l
  end.

(** [getline]: the line with its newline, and the rest of the file. *)
Fixpoint getline (f : list Z) : list Z * list Z :=
  match f with
  | [] => ([], [])
  | c :: f => if c =? 10 then ([c], f) else let '(l, r) := getline f in (c :: l, r)
  end.

(** [strstr(l, p) != NULL] *)
Fixpoint starts (p l : list Z) : bool :=
  match p, l with
  | [], _ => true
  | x :: p, y :: l => (x =? y) && starts p l
  | _, _ => false
  end.

Fixpoint strstr (l p : list Z) : bool :=
  starts p l || match l with [] => false | _ :: l => strstr l p end.

Lemma cstr_nul l : cstr (l ++ [0]) = Done (upto_nul l).
Proof. induction l as [|c l IH]; [done|]. cbn [app cstr upto_nul]. destruct (c =? 0); [done|]. by rewrite IH. Qed.

Lemma upto_nul_id l : Forall (fun c => c <> 0) l -> upto_nul l = l.
Proof. induction 1 as [|c l Hc _ IH]; [done|]. cbn. apply Z.eqb_neq in Hc. by rewrite Hc, IH. Qed.

Lemma starts_iff p l : starts p l = true <-> exists r, l = p ++ r.
Proof.
  revert l. induction p as [|x p IH]; intros l; cbn [starts]; [split; eauto|]. destruct l as [|y l].
  - split; [done|]. intros [r Hr]. done.
  - rewrite andb_true_iff, IH, Z.eqb_eq. split.
    + intros [-> [r ->]]. by exists r.
    + intros [r Hr]. injection Hr as -> ->. eauto.
Qed.

Lemma strstr_iff l p : strstr l p = true <-> exists a b, l = a ++ p ++ b.
Proof.
  induction l as [|c l IH]; cbn [strstr]; rewrite orb_true_iff, starts_iff.
  - split; [intros [[r Hr]|?]; [by exists [], r|done]|]. intros (a & b & H). symmetry in H.
    apply app_eq_nil in H as [-> H]. left. by exists b.
  - rewrite IH. split.
    + intros [[r Hr]|(a & b & ->)]; [by exists [], r|by exists (c :: a), b].
    + intros (a & b & H). destruct a as [|x a]; [left; by exists b|]. injection H as -> ->. right. by exists a, b.
Qed.

(** The lines of a text. *)
Fixpoint lines (f : list Z) : list (list Z) :=
  match f with
  | [] => []
  | c :: f => if c =? 10 then [c] :: lines f else match lines f with [] => [[c]] | l :: ls => (c :: l) :: ls end
  end.

(** A line: only its last character may be a newline; and the last line alone
    may lack it. *)
Definition full_line (l : list Z) : Prop := exists a, l = a ++ [10] /\ 10 ∉ a.

Fixpoint are_lines (ls : list (list Z)) : Prop :=
  match ls with
  | [] => True
  | [l] => full_line l \/ (l <> [] /\ 10 ∉ l)
  | l :: ls => full_line l /\ are_lines ls
  end.

Lemma lines_join f : mjoin (lines f) = f.
Proof.
  induction f as [|c f IH]; [done|]. cbn [lines]. destruct (c =? 10).
  - change (mjoin ([c] :: lines f)) with ([c] ++ mjoin (lines f)). by rewrite IH.
  - destruct (lines f) as [|l ls]; [by rewrite <- IH|]. rewrite <- IH. done.
Qed.

Lemma are_lines_cons l ls : full_line l -> are_lines ls -> are_lines (l :: ls).
Proof. intros Hl Hls. destruct ls; [by left|done]. Qed.

Lemma full_line_cons c l : c <> 10 -> full_line l -> full_line (c :: l).
Proof. intros Hc (a & -> & Ha). exists (c :: a). split; [done|]. rewrite elem_of_cons. intros [?|?]; [congruence|done]. Qed.

Lemma lines_are_lines f : are_lines (lines f).
Proof.
  induction f as [|c f IH]; [done|]. cbn [lines]. destruct (Z.eqb_spec c 10) as [->|Hc].
  - apply are_lines_cons; [|done]. exists []. split; [done|]. apply not_elem_of_nil.
  - destruct (lines f) as [|l ls]; [right; split; [done|]; rewrite elem_of_cons; intros [?|H]; [congruence|by apply elem_of_nil in H]|].
    destruct ls as [|l2 ls]; cbn [are_lines] in *.
    + destruct IH as [IH|[_ IH]]; [left; by apply full_line_cons|right]. split; [done|].
      rewrite elem_of_cons. intros [?|?]; [congruence|done].
    + destruct IH as [H1 H2]. split; [by apply full_line_cons|done].
Qed.

(** Only the lines of a text are lines that join to it. *)
Lemma lines_full l f : full_line l -> lines (l ++ f) = l :: lines f.
Proof.
  intros (a & -> & Ha). rewrite <- app_assoc. cbn [app]. induction a as [|c a IH]; [done|]. cbn [app lines].
  rewrite not_elem_of_cons in Ha. destruct Ha as [Hc Ha]. rewrite (proj2 (Z.eqb_neq c 10)) by congruence. by rewrite IH.
Qed.

Lemma lines_last l : l <> [] -> 10 ∉ l -> lines l = [l].
Proof.
  intros Hne Hl. destruct l as [|c l]; [done|]. clear Hne. revert c Hl. induction l as [|d l IH]; intros c Hl;
    apply not_elem_of_cons in Hl as [Hc Hl]; cbn [lines]; rewrite (proj2 (Z.eqb_neq c 10)) by congruence; [done|].
  specialize (IH d Hl). cbn [lines] in IH. rewrite IH. done.
Qed.

Lemma lines_unique ls : are_lines ls -> lines (mjoin ls) = ls.
Proof.
  induction ls as [|l ls IH]; [done|]. intros H. change (mjoin (l :: ls)) with (l ++ mjoin ls). destruct ls as [|l2 ls].
  - change (mjoin []) with (@nil Z). destruct H as [H|[H1 H2]].
    + by rewrite lines_full.
    + rewrite app_nil_r. by apply lines_last.
  - destruct H as [H1 H2]. rewrite lines_full by done. by rewrite IH.
Qed.

(** [getline] takes the first line, and its rest is shorter. *)
Lemma getline_ok c f : let '(l, r) := getline (c :: f) in lines (c :: f) = l :: lines r /\ (length r <= length f)%nat.
Proof.
  revert c. induction f as [|d f IH]; intros c; cbn [getline lines].
  - by destruct (c =? 10).
  - destruct (c =? 10); [done|]. specialize (IH d). cbn [getline lines] in IH.
    destruct (if d =? 10 then _ else _) as [l r]. destruct IH as [E Hl]. rewrite E. split; [done|]. cbn. lia.
Qed.

(** ** Decimal numbers *)

Lemma digits_spec fuel : forall n, 0 <= n -> n < 10 \/ Z.log2 n < Z.of_nat fuel -> fuel <> 0%nat ->
  Forall (fun c => isdigit c = true) (digits fuel n) /\ digits fuel n <> [] /\
  forall acc l, digits_value acc (digits fuel n ++ l) = digits_value (acc * 10 ^ Z.of_nat (length (digits fuel n)) + n) l.
Proof.
  assert (Hd : forall k, 0 <= k < 10 -> isdigit (48 + k) = true).
  { intros k Hk. unfold isdigit. apply andb_true_iff. rewrite !Z.leb_le. lia. }
  induction fuel as [|fuel IH]; intros n Hn Hf Hz; [done|]. cbn [digits]. destruct (Z.ltb_spec n 10) as [Hs|Hs].
  - split_and!; [by constructor; [apply Hd; lia|]|done|]. intros acc l. cbn [app digits_value length]. rewrite Hd by lia. f_equal. lia.
  - pose proof (Z.div_mod n 10 ltac:(lia)) as Hdm. pose proof (Z.mod_pos_bound n 10 ltac:(lia)) as Hm.
    assert (H10 : Z.log2 (n / 10) < Z.log2 n).
    { assert (Z.log2 (n / 10) <= Z.log2 (n / 2)) by (apply Z.log2_le_mono; apply Z.div_le_compat_l; lia).
      pose proof (Z.log2_shiftr n 1 ltac:(lia)) as E. rewrite Z.shiftr_div_pow2 in E by lia. change (2 ^ 1) with 2 in E.
      pose proof (Z.log2_le_mono 10 n ltac:(lia)) as Hl. change (Z.log2 10) with 3 in Hl. lia. }
    destruct (IH (n / 10)) as (I1 & I2 & I3); [lia|lia|pose proof (Z.log2_le_mono 10 n ltac:(lia)) as Hl; change (Z.log2 10) with 3 in Hl; lia|].
    split_and!; [apply Forall_app; split; [done|by constructor; [apply Hd|]]|intros E; by apply app_eq_nil in E as [_ E]|].
    intros acc l. rewrite <- app_assoc, I3. cbn [app digits_value]. rewrite Hd by lia. f_equal. rewrite length_app, Nat2Z.inj_add, Z.pow_add_r by lia.
    change (10 ^ Z.of_nat (length [48 + n mod 10])) with 10. lia.
Qed.

Lemma decimal_digits n : 0 <= n -> Forall (fun c => isdigit c = true) (decimal n) /\ decimal n <> [].
Proof.
  intros Hn. unfold decimal. rewrite (proj2 (Z.ltb_ge n 0)) by lia.
  destruct (digits_spec (S (Z.to_nat (Z.log2 n))) n Hn) as (H1 & H2 & _); [pose proof (Z.log2_nonneg n); lia|done|done].
Qed.

Lemma length_decimal n : 0 <= n < 2147483648 -> (length (decimal n) <= 32)%nat.
Proof.
  intros Hn. assert (Hd : forall fuel m, (length (digits fuel m) <= fuel)%nat).
  { induction fuel as [|fuel IH]; intros m; [done|]. cbn [digits]. destruct (m <? 10); [cbn; lia|]. rewrite length_app. cbn. specialize (IH (m / 10)). lia. }
  unfold decimal. rewrite (proj2 (Z.ltb_ge n 0)) by lia. etrans; [apply Hd|].
  assert (Z.log2 n <= Z.log2 2147483647) by (apply Z.log2_le_mono; lia). change (Z.log2 2147483647) with 30 in *. lia.
Qed.

(** [atoi] reads back what [sprintf] writes. *)
Lemma atoi_decimal n rest : 0 <= n -> atoi (decimal n ++ 0 :: rest) = Done n.
Proof.
  intros Hn. destruct (decimal_digits n Hn) as [Hd Hne].
  assert (E : atoi (decimal n ++ 0 :: rest) = digits_value 0 (decimal n ++ 0 :: rest)).
  { destruct (decimal n) as [|c l]; [done|]. apply Forall_cons in Hd as [Hc _]. cbn [app atoi]. unfold isdigit in Hc. bool_to_prop.
    unfold isspace. rewrite (proj2 (Z.eqb_neq c 32)), (proj2 (Z.leb_gt c 13)), andb_false_r by lia. cbn [orb].
    by rewrite (proj2 (Z.eqb_neq c 45)), (proj2 (Z.eqb_neq c 43)) by lia. }
  rewrite E. unfold decimal. rewrite (proj2 (Z.ltb_ge n 0)) by lia.
  destruct (digits_spec (S (Z.to_nat (Z.log2 n))) n Hn) as (_ & _ & ->); [pose proof (Z.log2_nonneg n); lia|done|]. cbn [digits_value].
  by replace (isdigit 0) with false by done.
Qed.

Lemma decimal_inj n m : 0 <= n -> 0 <= m -> decimal n = decimal m -> n = m.
Proof. intros Hn Hm E. pose proof (atoi_decimal n [] Hn) as H. rewrite E, atoi_decimal in H by done. congruence. Qed.
