(* ===== verification/Rle.v ===== *)
(** * Run-length encoding

    The specification that the compressors of [initial-utilities] and of
    [concurrency-pzip] implement: a text is cut into its runs, each a count and
    a character. *)

From Stdlib Require Import ZArith Lia.
From stdpp Require Import base tactics numbers list.
From S2P Require Import Prelude.

Local Open Scope Z_scope.

Abbreviation run := (Z * Z)%type.

(** The runs of a text. *)
Fixpoint rle (l : list Z) : list run :=
  match l with
  | [] => []
  | c :: l =>
      match rle l with
      | (n, d) :: rs => if c =? d then (n + 1, d) :: rs else (1, c) :: (n, d) :: rs
      | [] => [(1, c)]
      end
  end.

Definition unrun (r : run) : list Z := replicate (Z.to_nat r.1) r.2.

Definition unrle (rs : list run) : list Z := rs ≫= unrun.

(** Every run is there, and longer than zero; neighbours differ. *)
Fixpoint runs_ok (rs : list run) : Prop :=
  match rs with
  | [] => True
  | r :: rs => 0 < r.1 /\ (match rs with s :: _ => r.2 <> s.2 | [] => True end) /\ runs_ok rs
  end.

Lemma unrle_cons r rs : unrle (r :: rs) = unrun r ++ unrle rs.
Proof. done. Qed.

Lemma unrle_app rs1 rs2 : unrle (rs1 ++ rs2) = unrle rs1 ++ unrle rs2.
Proof. apply bind_app. Qed.

Lemma unrun_succ n c : 0 <= n -> unrun (n + 1, c) = c :: unrun (n, c).
Proof. intros H. unfold unrun. cbn [fst snd]. by rewrite Z2Nat.inj_add, Nat.add_comm by lia. Qed.

(** The runs of a text are in order and give it back. *)
Lemma rle_ok l : runs_ok (rle l) /\ unrle (rle l) = l.
Proof.
  induction l as [|c l [IH1 IH2]]; [done|]. cbn [rle]. destruct (rle l) as [|[n d] rs] eqn:E.
  - subst l. cbn. split_and!; [lia|done..].
  - destruct IH1 as (Hn & Hd & IH1). destruct (Z.eqb_spec c d) as [->|Hne].
    + split; [cbn [runs_ok]; split_and!; [cbn in *; lia|exact Hd|exact IH1]|].
      rewrite unrle_cons, unrun_succ by (cbn in Hn; lia). rewrite unrle_cons in IH2. by rewrite <- IH2.
    + split; [cbn [runs_ok]; split_and!; [cbn; lia|exact Hne|exact Hn|exact Hd|exact IH1]|].
      rewrite unrle_cons. change (unrun (1, c)) with [c]. by rewrite IH2.
Qed.

Lemma rle_unrun n c l :
  0 < n -> match rle l with (m, d) :: _ => c <> d | [] => True end -> rle (unrun (n, c) ++ l) = (n, c) :: rle l.
Proof.
  intros Hn Hd. unfold unrun. cbn [fst snd]. rewrite <- (Z2Nat.id n) at 2 by lia.
  assert (Hp : (0 < Z.to_nat n)%nat) by lia. destruct (Z.to_nat n) as [|k]; [lia|]. clear n Hn Hp.
  induction k as [|k IH].
  - cbn. destruct (rle l) as [|[m d] rs]; [done|]. by rewrite (proj2 (Z.eqb_neq c d)).
  - change (rle (c :: (replicate (S k) c ++ l)) = (Z.of_nat (S (S k)), c) :: rle l). cbn [rle]. rewrite IH.
    rewrite Z.eqb_refl. do 2 f_equal. lia.
Qed.

(** Only the runs of a text are in order and give it back. *)
Lemma rle_unique rs : runs_ok rs -> rle (unrle rs) = rs.
Proof.
  induction rs as [|[n c] rs IH]; [done|]. intros (Hn & Hc & Hrs). rewrite unrle_cons. specialize (IH Hrs).
  rewrite rle_unrun; [by rewrite IH|done|]. rewrite IH. by destruct rs as [|[m d] rs].
Qed.

Lemma rle_is rs l : runs_ok rs -> unrle rs = l -> rle l = rs.
Proof. intros H <-. by apply rle_unique. Qed.

(** Putting a run behind runs. *)
Lemma runs_ok_snoc rs r s : runs_ok (rs ++ [r]) -> 0 < s.1 -> r.2 <> s.2 -> runs_ok (rs ++ [r; s]).
Proof.
  intros H Hs Hne. induction rs as [|q rs IH]; [cbn in *; tauto|]. destruct H as (Hq & Hd & H).
  cbn [app runs_ok]. split_and!; [done|by destruct rs|by apply IH].
Qed.

(** Two texts: their runs one behind the other when the characters at the seam
    differ, with the two runs at the seam joined when they are the same. *)
Lemma runs_ok_app rs r s ss :
  runs_ok (rs ++ [r]) -> runs_ok (s :: ss) -> r.2 <> s.2 -> runs_ok (rs ++ r :: s :: ss).
Proof.
  intros H (Hs & Hd & Hss) Hne. induction rs as [|q rs IH]; [cbn in *; tauto|]. destruct H as (Hq & Hd' & H).
  cbn [app runs_ok]. split_and!; [done|by destruct rs|by apply IH].
Qed.

Lemma runs_ok_join rs n m c ss :
  runs_ok (rs ++ [(n, c)]) -> runs_ok ((m, c) :: ss) -> runs_ok (rs ++ (n + m, c) :: ss).
Proof.
  intros H (Hm & Hd & Hss). induction rs as [|q rs IH]; [cbn in *; split_and!; [lia|done|done]|].
  destruct H as (Hq & Hd' & H). cbn [app runs_ok]. split_and!; [done|by destruct rs|by apply IH].
Qed.

Lemma unrun_add n m c : 0 <= n -> 0 <= m -> unrun (n + m, c) = unrun (n, c) ++ unrun (m, c).
Proof. intros. unfold unrun. cbn [fst snd]. by rewrite Z2Nat.inj_add, replicate_add by lia. Qed.

Lemma rle_app_diff a b rs r s ss :
  rle a = rs ++ [r] -> rle b = s :: ss -> r.2 <> s.2 -> rle (a ++ b) = rs ++ r :: s :: ss.
Proof.
  intros Ha Hb Hne. destruct (rle_ok a) as [Oa Ua], (rle_ok b) as [Ob Ub]. rewrite Ha in *. rewrite Hb in *.
  apply rle_is; [by apply runs_ok_app|]. rewrite <- Ua, <- Ub, !unrle_app, !unrle_cons, app_nil_r, !app_assoc. done.
Qed.

Lemma rle_app_same a b rs n m c ss :
  rle a = rs ++ [(n, c)] -> rle b = (m, c) :: ss -> rle (a ++ b) = rs ++ (n + m, c) :: ss.
Proof.
  intros Ha Hb. destruct (rle_ok a) as [Oa Ua], (rle_ok b) as [Ob Ub]. rewrite Ha in *. rewrite Hb in *.
  assert (Hn : 0 < n) by (clear -Oa; induction rs as [|q rs IH]; [apply Oa|apply IH, Oa]).
  pose proof (proj1 Ob) as Hm. cbn [fst] in Hm. apply rle_is; [by apply runs_ok_join|].
  rewrite <- Ua, <- Ub, !unrle_app, !unrle_cons, app_nil_r, unrun_add, !app_assoc by lia. done.
Qed.

Lemma rle_nil l : rle l = [] -> l = [].
Proof. intros H. destruct (rle_ok l) as [_ U]. rewrite H in U. by symmetry. Qed.

(** The text so far as its finished runs and the run that is still growing: one
    more character. *)
Lemma rle_snoc_same a rs n c : rle a = rs ++ [(n, c)] -> rle (a ++ [c]) = rs ++ [(n + 1, c)].
Proof. intros H. by apply (rle_app_same a [c] rs n 1 c []). Qed.

Lemma rle_snoc_diff a rs n c d : rle a = rs ++ [(n, c)] -> c <> d -> rle (a ++ [d]) = rs ++ [(n, c); (1, d)].
Proof. intros H Hne. by apply (rle_app_diff a [d] rs (n, c) (1, d) []). Qed.

(** The counts of the runs lie between one and the length of the text. *)
Lemma rle_counts l : Forall (fun r => 0 < r.1 <= Z.of_nat (length l)) (rle l).
Proof.
  destruct (rle_ok l) as [O U]. assert (H : forall rs, runs_ok rs -> Forall (fun r => 0 < r.1 <= Z.of_nat (length (unrle rs))) rs);
    [|specialize (H _ O); by rewrite U in H].
  clear O U. intros rs O. induction rs as [|[n c] rs IH]; [constructor|].
  destruct O as (Hn & _ & O). rewrite unrle_cons, length_app. unfold unrun at 1. rewrite length_replicate. cbn [fst snd] in *.
  constructor; [cbn; lia|]. eapply Forall_impl; [exact (IH O)|]. cbn. lia.
Qed.
