(* ===== verification/Pzip.v ===== *)
(** * The parallel compressor

    [projects/concurrency-pzip/pzip.c], as it is compiled, with
    [ALLOW_MULTIPLE_JOBS].  The main thread cuts the files into jobs of a page
    each, the workers compress them in order, and the main thread joins the runs
    at the borders of the pages.  The counts are [int]s, and adding beyond them is
    undefined.  An entry of [works] that no job was stored in is [None]: it is what
    [malloc] returned, and reading it is undefined. *)

From Stdlib Require Import ZArith Lia String.
From stdpp Require Import base tactics numbers list.
From S2P Require Import Prelude Rle.

Local Open Scope Z_scope.
Local Open Scope ostep_scope.

(** ** Definitions *)

Definition INT_MAX : Z := 2147483647.

(** The sum of two [int]s that are not negative. *)
Definition int_add (a b : Z) : outcome string Z :=
  if a + b <=? INT_MAX then Done (a + b) else Crash "overflow of an int"%string.

(** The loop of [compress]: the list from [head], [previous_count] and
    [previous_character]. *)
Fixpoint compress_loop (addr : list Z) (results : list run) (previous_count previous_character : Z) :
    outcome string (list run * Z * Z) :=
  match addr with
  | [] => Done (results, previous_count, previous_character)
  | character :: addr =>
      if character =? previous_character then
        let* previous_count := int_add previous_count 1 in
        compress_loop addr results previous_count previous_character
      else compress_loop addr (if previous_count =? 0 then results else results ++ [(previous_count, previous_character)]) 1 character
  end.

(** One job: the results of a chunk. *)
Definition compress (addr : list Z) : outcome string (list run) :=
  let* '(results, previous_count, previous_character) := compress_loop addr [] 0 0 in
  Done (results ++ [(previous_count, previous_character)]).

(** The jobs that the workers take, in the order of [use_ptr]. *)
Fixpoint compress_all (chunks : list (list Z)) : outcome string (list (list run)) :=
  match chunks with
  | [] => Done []
  | c :: chunks => let* r := compress c in let* rs := compress_all chunks in Done (r :: rs)
  end.

(** What is written: a run, or a line of the debug output. *)
Inductive out := WriteFile (count character : Z) | Connect (character : Z).

(** The state of the final loop: [last_count], [last_character] and the
    output. *)
Record fin := mkFin { last_count : Z; last_character : Z; output : list out }.

Definition writeFile (count character : Z) (s : fin) : fin :=
  mkFin s.(last_count) s.(last_character) (s.(output) ++ [WriteFile count character]).

Definition set_last (count character : Z) (s : fin) : fin := mkFin count character s.(output).

(** One result of a chunk: whether it is the first, whether there is a next one
    and whether the chunk is the last one. *)
Definition final_result (first has_next last_chunk : bool) (r : run) (s : fin) : outcome string fin :=
  let '(count, character) := r in
  if first && has_next then
    if character =? s.(last_character) then
      let s := mkFin s.(last_count) s.(last_character) (s.(output) ++ [Connect character]) in
      let* n := int_add count s.(last_count) in Done (writeFile n character s)
    else
      let s := if 0 <? s.(last_count) then writeFile s.(last_count) s.(last_character) s else s in
      Done (writeFile count character s)
  else if negb has_next then
    if negb first then
      Done (if last_chunk then writeFile count character s else set_last count character s)
    else if character =? s.(last_character) then
      if negb last_chunk then let* n := int_add s.(last_count) count in Done (set_last n s.(last_character) s)
      else let* n := int_add count s.(last_count) in Done (writeFile n character s)
    else
      let s := if 0 <? s.(last_count) then writeFile s.(last_count) s.(last_character) s else s in
      Done (if negb last_chunk then set_last count character s else writeFile count character s)
  else Done (writeFile count character s).

(** [while (result != NULL)] *)
Fixpoint final_chunk (first last_chunk : bool) (results : list run) (s : fin) : outcome string fin :=
  match results with
  | [] => Done s
  | r :: results =>
      let* s := final_result first (match results with [] => false | _ => true end) last_chunk r s in
      final_chunk false last_chunk results s
  end.

(** [for (long long i = 0; i < chunks; i++)] *)
Fixpoint final_loop (works : list (option (list run))) (s : fin) : outcome string fin :=
  match works with
  | [] => Done s
  | None :: _ => Crash "uninitialised work"%string
  | Some results :: works =>
      let* s := final_chunk true (match works with [] => true | _ => false end) results s in final_loop works s
  end.

(** The chunks of a file. *)
Fixpoint split_pages (fuel page : nat) (file : list Z) : list (list Z) :=
  match fuel, file with
  | S fuel, _ :: _ => take page file :: split_pages fuel page (drop page file)
  | _, _ => []
  end.

Definition jobs (page : nat) (files : list (list Z)) : list (list Z) :=
  files ≫= fun file => split_pages (length file) page file.

(** [chunks += (sb.st_size / page_size + 1);] *)
Definition num_chunks (page : nat) (files : list (list Z)) : nat :=
  foldl (fun n file => n + (length file / page + 1))%nat 0%nat files.

(** [works] when the main thread starts the final loop: the workers have done
    [done] jobs before they were cancelled, for which nothing makes the main thread
    wait. *)
Definition works (page done : nat) (files : list (list Z)) : outcome string (list (option (list run))) :=
  let js := jobs page files in
  let* rs := compress_all (take done js) in
  Done ((Some <$> rs) ++ replicate (length (drop done js)) (Some []) ++ replicate (num_chunks page files - length js) None).

Definition pzip (page done : nat) (files : list (list Z)) : outcome string (list out) :=
  let* ws := works page done files in
  let* s := final_loop ws (mkFin 0 0 []) in Done s.(output).

(** The runs written. *)
Definition written_runs (l : list out) : list run :=
  l ≫= fun o => match o with WriteFile n c => [(n, c)] | Connect _ => [] end.

(** ** The compressed chunk *)

Lemma int_add_ok a b : a + b <= INT_MAX -> int_add a b = Done (a + b).
Proof. intros H. unfold int_add. by rewrite (proj2 (Z.leb_le _ _) H). Qed.

(** A run of a text that is not too long is an [int]. *)
Lemma run_int l rs n c rs' : rle l = rs ++ (n, c) :: rs' -> Z.of_nat (length l) <= INT_MAX -> 0 < n <= INT_MAX.
Proof. intros E Hl. pose proof (rle_counts l) as H. rewrite E, Forall_app, Forall_cons in H. cbn in H. lia. Qed.

Lemma compress_loop_ok addr : forall a rs n c,
  rle a = rs ++ [(n, c)] -> Z.of_nat (length (a ++ addr)) <= INT_MAX ->
  exists results pc pch, compress_loop addr rs n c = Done (results, pc, pch) /\ rle (a ++ addr) = results ++ [(pc, pch)].
Proof.
  induction addr as [|d addr IH]; intros a rs n c H Hl; cbn [compress_loop]; [exists rs, n, c; by rewrite app_nil_r|].
  replace (a ++ d :: addr) with ((a ++ [d]) ++ addr) in * by (by rewrite <- app_assoc).
  assert (Hl' : Z.of_nat (length (a ++ [d])) <= INT_MAX) by (rewrite length_app in Hl; lia).
  assert (Hn : (n =? 0) = false).
  { apply Z.eqb_neq. rewrite length_app in Hl'. pose proof (run_int a rs n c [] H ltac:(lia)). lia. }
  destruct (Z.eqb_spec d c) as [->|Hne].
  - pose proof (rle_snoc_same a rs n c H) as Hs. rewrite int_add_ok by (pose proof (run_int _ _ _ _ _ Hs Hl'); lia). cbn [obind]. by apply IH.
  - rewrite Hn. apply IH; [|done]. rewrite <- app_assoc. by apply rle_snoc_diff.
Qed.

Lemma compress_rle addr : addr <> [] -> Z.of_nat (length addr) <= INT_MAX -> compress addr = Done (rle addr).
Proof.
  intros Hne Hl. destruct addr as [|c addr]; [done|]. unfold compress. cbn [compress_loop].
  assert (E : (if c =? 0 then let* n := int_add 0 1 in compress_loop addr [] n 0
    else compress_loop addr (if 0 =? 0 then [] else [] ++ [(0, 0)]) 1 c) = compress_loop addr [] 1 c) by (by destruct (Z.eqb_spec c 0) as [->|]).
  rewrite E. destruct (compress_loop_ok addr [c] [] 1 c eq_refl Hl) as (rs & n & d & -> & H). cbn [obind]. cbn [app] in H. by rewrite H.
Qed.

Lemma compress_all_rle chunks : Forall (fun c => c <> []) chunks -> Z.of_nat (length (mjoin chunks)) <= INT_MAX ->
  compress_all chunks = Done (rle <$> chunks).
Proof.
  induction 1 as [|c chunks Hc _ IH]; intros Hl; [done|]. change (mjoin (c :: chunks)) with (c ++ mjoin chunks) in Hl.
  rewrite length_app in Hl. cbn [compress_all]. rewrite compress_rle by (done || lia). cbn [obind]. by rewrite IH by lia.
Qed.

(** ** Joining the chunks *)

Lemma written_app l1 l2 : written_runs (l1 ++ l2) = written_runs l1 ++ written_runs l2.
Proof. apply bind_app. Qed.

(** What is to be shown of a chunk: [results] are those of the text so far. *)
Definition joined (lc : bool) (s' : fin) (results : list run) : Prop :=
  if lc then written_runs s'.(output) = results
  else written_runs s'.(output) ++ [(s'.(last_count), s'.(last_character))] = results.

Lemma final_chunk_cons first lc r results s : final_chunk first lc (r :: results) s =
  let* s := final_result first (match results with [] => false | _ => true end) lc r s in final_chunk false lc results s.
Proof. done. Qed.

(** Results behind the first one. *)
Lemma final_rest lc results : forall s, results <> [] ->
  exists s', final_chunk false lc results s = Done s' /\ joined lc s' (written_runs s.(output) ++ results).
Proof.
  induction results as [|[m d] results IH]; intros s Hl; [done|]. cbn [final_chunk]. destruct results as [|r results].
  - cbn [final_result andb negb obind final_chunk]. eexists. split; [done|].
    destruct lc; unfold joined; cbn [writeFile set_last output last_count last_character]; [by rewrite written_app|done].
  - cbn [final_result andb negb obind]. destruct (IH (writeFile m d s)) as (s' & E & Hj); [done|]. exists s'. split; [exact E|].
    unfold joined in *. cbn [writeFile output] in Hj. by rewrite written_app, <- app_assoc in Hj.
Qed.

(** The text read so far is what was written, and the run that is pending. *)
Definition pending (s : fin) (a : list Z) : Prop :=
  (a = [] /\ s.(last_count) = 0 /\ written_runs s.(output) = []) \/
  (0 < s.(last_count) /\ rle a = written_runs s.(output) ++ [(s.(last_count), s.(last_character))]).

(** The first result meets the pending run. *)
Lemma final_first lc m d rest s a chunk :
  pending s a -> rle chunk = (m, d) :: rest -> Z.of_nat (length (a ++ chunk)) <= INT_MAX ->
  exists s', final_chunk true lc ((m, d) :: rest) s = Done s' /\ joined lc s' (rle (a ++ chunk)).
Proof.
  intros Hp Hc Hl.
  assert (Hsum : d = s.(last_character) -> m + s.(last_count) <= INT_MAX).
  { intros ->. destruct Hp as [(-> & -> & _)|[_ Ha]].
    - pose proof (run_int chunk [] m _ rest Hc Hl). lia.
    - pose proof (run_int _ _ _ _ _ (rle_app_same a chunk _ _ m _ rest Ha Hc) Hl). lia. }
  assert (Hw : d <> s.(last_character) \/ s.(last_count) = 0 ->
    written_runs (output (if 0 <? s.(last_count) then writeFile s.(last_count) s.(last_character) s else s)) ++ (m, d) :: rest = rle (a ++ chunk)).
  { intros Hd. destruct Hp as [(-> & H0 & Hw)|[H0 Ha]].
    - rewrite H0. change (0 <? 0) with false. cbn iota. cbn [app]. by rewrite Hw, Hc.
    - rewrite (proj2 (Z.ltb_lt _ _) H0). destruct Hd as [Hd|]; [|lia]. rewrite (rle_app_diff a chunk _ _ (m, d) _ Ha Hc) by (cbn; congruence).
      cbn [writeFile output]. rewrite written_app. cbn. by rewrite <- app_assoc. }
  assert (Hs : d = s.(last_character) -> written_runs s.(output) ++ (m + s.(last_count), d) :: rest = rle (a ++ chunk)).
  { intros ->. destruct Hp as [(-> & H0 & Ho)|[H0 Ha]]; [cbn [app]; by rewrite Ho, H0, Z.add_0_r, Hc|].
    by rewrite (rle_app_same a chunk _ _ m _ _ Ha Hc), (Z.add_comm m). }
  rewrite final_chunk_cons. destruct rest as [|r rest]; unfold final_result; cbn [andb negb].
  - destruct (Z.eqb_spec d s.(last_character)) as [Ed|Hne].
    + specialize (Hsum Ed). specialize (Hs Ed). destruct lc; cbn [negb].
      * rewrite int_add_ok by done. eexists. split; [done|]. unfold joined. cbn [writeFile output]. by rewrite written_app.
      * rewrite int_add_ok by lia. eexists. split; [done|]. unfold joined. cbn [set_last output last_count last_character].
        by rewrite <- Hs, <- Ed, (Z.add_comm m).
    + specialize (Hw (or_introl Hne)). cbn [obind]. eexists. split; [done|].
      destruct lc; unfold joined; cbn [negb writeFile set_last output last_count last_character]; [by rewrite written_app|done].
  - destruct (Z.eqb_spec d s.(last_character)) as [Ed|Hne].
    + cbn [last_count]. rewrite int_add_ok by (by apply Hsum). cbn [obind].
      match goal with |- context [final_chunk false lc (r :: rest) ?s1] => destruct (final_rest lc (r :: rest) s1) as (s' & E & Hj) end; [done|].
      exists s'. split; [exact E|]. rewrite <- (Hs Ed). cbn [writeFile output] in Hj. rewrite !written_app in Hj. cbn in Hj. by rewrite app_nil_r, <- app_assoc in Hj.
    + cbn [obind].
      match goal with |- context [final_chunk false lc (r :: rest) ?s1] => destruct (final_rest lc (r :: rest) s1) as (s' & E & Hj) end; [done|].
      exists s'. split; [exact E|]. rewrite <- (Hw (or_introl Hne)). cbn [writeFile output] in Hj. rewrite written_app, <- app_assoc in Hj. exact Hj.
Qed.

Lemma final_nothing k s : final_loop (replicate k (Some [])) s = Done s.
Proof. revert s. induction k as [|k IH]; intros s; [done|]. cbn [replicate final_loop final_chunk obind]. apply IH. Qed.

(** The runs of the whole text when every chunk was compressed; else the run at the
    end of those that were stays pending. *)
Definition expected (k : nat) (a : list Z) : list run := if (k =? 0)%nat then rle a else removelast (rle a).

(** The whole final loop, on compressed chunks and [k] more that are not. *)
Lemma final_loop_ok k chunks : forall s a,
  (chunks = [] -> k <> 0%nat) -> Forall (fun c => c <> []) chunks -> pending s a -> Z.of_nat (length (a ++ mjoin chunks)) <= INT_MAX ->
  exists s', final_loop ((Some <$> (rle <$> chunks)) ++ replicate k (Some [])) s = Done s' /\
    written_runs s'.(output) = expected k (a ++ mjoin chunks).
Proof.
  induction chunks as [|c chunks IH]; intros s a Hne Hall Hp Hl.
  - exists s. change (mjoin []) with (@nil Z). rewrite app_nil_r. cbn [fmap list_fmap app]. split; [apply final_nothing|].
    unfold expected. rewrite (proj2 (Nat.eqb_neq k 0) (Hne eq_refl)).
    destruct Hp as [(-> & _ & ->)|[_ ->]]; [done|]. by rewrite removelast_last.
  - apply Forall_cons in Hall as [Hc Hall]. change (mjoin (c :: chunks)) with (c ++ mjoin chunks) in *.
    destruct (rle c) as [|[m d] rest] eqn:Ec; [by apply rle_nil in Ec|].
    assert (Hlc : Z.of_nat (length (a ++ c)) <= INT_MAX) by (rewrite app_assoc, length_app in Hl; lia).
    pose proof (fun lc => final_first lc m d rest s a c Hp Ec Hlc) as Hf. rewrite !fmap_cons, Ec. cbn [app final_loop].
    assert (Hmore : (chunks = [] -> k <> 0%nat) -> exists s', obind (final_chunk true false ((m, d) :: rest) s)
      (final_loop ((Some <$> (rle <$> chunks)) ++ replicate k (Some []))) = Done s' /\ written_runs s'.(output) = expected k (a ++ c ++ mjoin chunks)).
    { intros Hk. destruct (Hf false) as (s1 & E1 & Hj). unfold joined in Hj. rewrite E1. cbn [obind]. rewrite app_assoc.
      apply IH; [done|done| |by rewrite <- app_assoc]. right. symmetry in Hj. split; [|done]. apply (run_int _ _ _ _ _ Hj Hlc). }
    destruct chunks as [|c2 chunks]; [destruct k as [|k]|].
    + destruct (Hf true) as (s1 & E1 & Hj). cbn [fmap list_fmap app replicate]. rewrite E1. exists s1. split; [done|].
      change (mjoin []) with (@nil Z). rewrite app_nil_r. exact Hj.
    + by apply Hmore.
    + by apply Hmore.
Qed.

(** An entry without a job is read whatever comes in front of it. *)
Lemma int_add_no_fail a b w : int_add a b <> Fail w.
Proof. unfold int_add. by case_match. Qed.

Lemma final_chunk_no_fail lc results w : forall first s, final_chunk first lc results s <> Fail w.
Proof.
  induction results as [|[n c] results IH]; intros first s; [done|]. cbn [final_chunk].
  destruct (final_result _ _ _ _ _) as [s1|w'|] eqn:E; [apply IH| |done]. unfold final_result in E.
  repeat (case_match; try done); exfalso; destruct (int_add _ _) eqn:Ei; try done; by apply int_add_no_fail in Ei.
Qed.

Lemma final_loop_none ws rest : forall s, exists w, final_loop ((Some <$> ws) ++ None :: rest) s = Crash w.
Proof.
  induction ws as [|r ws IH]; intros s; [by eexists|]. rewrite fmap_cons. cbn [app final_loop].
  match goal with |- context [final_chunk ?f ?l ?r ?s] => destruct (final_chunk f l r s) as [s1|w|w] eqn:E end; cbn [obind];
    [apply IH|by apply final_chunk_no_fail in E|by eexists].
Qed.

(** ** Jobs *)

Lemma split_pages_ok page fuel : forall file, (0 < page)%nat -> (length file <= fuel)%nat ->
  mjoin (split_pages fuel page file) = file /\ Forall (fun c => c <> []) (split_pages fuel page file).
Proof.
  induction fuel as [|fuel IH]; intros file Hp Hl; [by destruct file; [|cbn in Hl; lia]|].
  destruct file as [|x file]; [split; [done|constructor]|]. cbn [split_pages].
  destruct (IH (drop page (x :: file)) Hp) as [H1 H2]; [rewrite length_drop; cbn [length] in *; lia|].
  split.
  - change (mjoin (?c :: ?l)) with (c ++ mjoin l). rewrite H1. apply take_drop.
  - constructor; [|done]. destruct page; [lia|done].
Qed.

(** A file whose size is not a multiple of the page size has as many jobs as
    chunks. *)
Lemma split_pages_length page fuel : forall file, (0 < page)%nat -> (length file <= fuel)%nat ->
  (length file mod page <> 0)%nat -> length (split_pages fuel page file) = (length file / page + 1)%nat.
Proof.
  induction fuel as [|fuel IH]; intros file Hp Hl Hm.
  - destruct file; [|cbn in Hl; lia]. cbn in Hm. rewrite Nat.Div0.mod_0_l in Hm. done.
  - destruct file as [|x file]; [cbn in Hm; rewrite Nat.Div0.mod_0_l in Hm; done|]. cbn [split_pages length].
    destruct (Nat.lt_ge_cases (S (length file)) page) as [Hs|Hs].
    + rewrite (Nat.div_small (S (length file))) by lia. rewrite drop_ge by (cbn [length]; lia). by destruct fuel.
    + rewrite IH; [|done|rewrite length_drop; cbn [length] in *; lia|].
      * rewrite length_drop. cbn [length]. replace (S (length file)) with ((S (length file) - page) + 1 * page)%nat at 2 by lia.
        rewrite Nat.div_add by lia. lia.
      * rewrite length_drop. cbn [length] in *. intros Hz. apply Hm.
        replace (S (length file)) with ((S (length file) - page) + 1 * page)%nat by lia. by rewrite Nat.Div0.mod_add.
Qed.

(** A multiple of the page size has one job less than chunks. *)
Lemma split_pages_multiple page fuel : forall file, (0 < page)%nat -> (length file <= fuel)%nat ->
  (length file mod page = 0)%nat -> length (split_pages fuel page file) = (length file / page)%nat.
Proof.
  induction fuel as [|fuel IH]; intros file Hp Hl Hm.
  - destruct file; [|cbn in Hl; lia]. cbn. by rewrite Nat.Div0.div_0_l.
  - destruct file as [|x file]; [cbn; by rewrite Nat.Div0.div_0_l|]. cbn [split_pages length].
    assert (Hs : (page <= S (length file))%nat).
    { destruct (Nat.lt_ge_cases (S (length file)) page) as [Hs|]; [|done]. cbn [length] in Hm. rewrite Nat.mod_small in Hm; lia. }
    assert (Esub : S (length file) = ((S (length file) - page) + 1 * page)%nat) by lia.
    rewrite IH; [|done|rewrite length_drop; cbn [length] in *; lia|rewrite length_drop; cbn [length] in *].
    + rewrite length_drop. cbn [length]. rewrite Esub at 2. rewrite Nat.div_add by lia. lia.
    + rewrite Esub, Nat.Div0.mod_add in Hm. exact Hm.
Qed.

Lemma jobs_ok page files : (0 < page)%nat -> mjoin (jobs page files) = mjoin files /\ Forall (fun c => c <> []) (jobs page files).
Proof.
  intros Hp. induction files as [|f files [I1 I2]]; [done|].
  destruct (split_pages_ok page (length f) f Hp) as [S1 S2]; [done|]. unfold jobs in *. rewrite bind_cons. split.
  - by rewrite join_app, S1, I1.
  - by apply Forall_app.
Qed.

Lemma num_chunks_cons page f files : num_chunks page (f :: files) = (length f / page + 1 + num_chunks page files)%nat.
Proof.
  assert (H : forall fs k, foldl (fun n file => n + (length file / page + 1))%nat k fs = (k + num_chunks page fs)%nat).
  { unfold num_chunks. induction fs as [|g fs IH]; intros k; cbn; [lia|]. rewrite (IH (k + _)%nat), (IH (_ / _ + 1)%nat). lia. }
  unfold num_chunks at 1. cbn [foldl]. rewrite H. lia.
Qed.

(** As many jobs as chunks, but for the files that fill their pages. *)
Lemma jobs_chunks page files : (0 < page)%nat ->
  num_chunks page files = (length (jobs page files) + length (filter (fun f : list Z => (length f mod page = 0)%nat) files))%nat.
Proof.
  intros Hp. induction files as [|f files IH]; [done|]. rewrite num_chunks_cons, IH. unfold jobs. rewrite bind_cons, length_app, filter_cons.
  case_decide as Hm; [rewrite split_pages_multiple by done|rewrite split_pages_length by done]; cbn [length]; lia.
Qed.

(** ** Properties *)

(** C37: whatever number of jobs the workers have done, in order, when they are
    cancelled, with less than 2^31 bytes in the files.  When some file fills its last page, an entry
    without a job is read, which is undefined.  When none does, the program ends;
    when all jobs were done, the runs written are those of all the files together,
    the runs across pages and files included, and give the files back; else they
    are the runs of the chunks that were done but for the last. *)
Theorem pzip_correct page finished files :
  (0 < page)%nat -> files <> [] -> (finished <= length (jobs page files))%nat -> Z.of_nat (length (mjoin files)) <= INT_MAX ->
  (Exists (fun f => (length f mod page = 0)%nat) files -> exists w, pzip page finished files = Crash w) /\
  (Forall (fun f => (length f mod page <> 0)%nat) files -> exists o, pzip page finished files = Done o /\
     if (finished =? length (jobs page files))%nat
     then written_runs o = rle (mjoin files) /\ unrle (written_runs o) = mjoin files
     else written_runs o = removelast (rle (mjoin (take finished (jobs page files))))).
Proof.
  intros Hp Hne Hfin Hl. destruct (jobs_ok page files Hp) as [J1 J2]. pose proof (jobs_chunks page files Hp) as J3. rewrite <- J1 in Hl |- *.
  unfold pzip, works. set (js := jobs page files) in *.
  assert (Hlt : Z.of_nat (length (mjoin (take finished js))) <= INT_MAX).
  { rewrite <- (take_drop finished js), join_app, length_app in Hl. lia. }
  rewrite compress_all_rle by (by apply Forall_take || exact Hlt). cbn [obind]. rewrite length_drop. split.
  - intros Hx. assert (H0 : filter (fun f : list Z => (length f mod page = 0)%nat) files <> []).
    { apply Exists_exists in Hx as (f & Hf & Hm). intros E. apply (elem_of_nil f). rewrite <- E. by apply list_elem_of_filter. }
    destruct (filter _ files) as [|f0 fs0]; [done|]. rewrite J3. cbn [length].
    replace (length js + S (length fs0) - length js)%nat with (S (length fs0)) by lia. cbn [replicate]. rewrite <- fmap_replicate, app_assoc, <- fmap_app.
    destruct (final_loop_none ((rle <$> take finished js) ++ replicate (length js - finished) []) (replicate (length fs0) None) (mkFin 0 0 [])) as [w ->].
    by exists w.
  - intros Hf. assert (H0 : filter (fun f : list Z => (length f mod page = 0)%nat) files = [])
      by (clear -Hf; induction Hf as [|f fs Hm _ IH]; [done|]; by rewrite filter_cons, decide_False).
    rewrite H0, Nat.add_0_r in J3. rewrite J3, Nat.sub_diag, app_nil_r.
    assert (Hjs : js <> []). { intros E. rewrite E in J3. destruct files as [|f fs]; [done|]. rewrite num_chunks_cons in J3. cbn in J3. lia. }
    destruct (final_loop_ok (length js - finished) (take finished js) (mkFin 0 0 []) []) as (s & -> & Hw);
      [|by apply Forall_take|by left|exact Hlt|].
    + intros E Ek. rewrite take_ge in E by lia. done.
    + cbn [obind]. eexists. split; [done|]. rewrite Hw. unfold expected. cbn [app]. destruct (Nat.eqb_spec finished (length js)) as [->|Hn].
      * rewrite Nat.sub_diag, firstn_all. split; [done|]. apply rle_ok.
      * by rewrite (proj2 (Nat.eqb_neq _ 0)) by lia.
Qed.

(** The example of the comment, with pages of four bytes: seven times [a], then
    [b]; and the same when the third job was not done. *)
Lemma pzip_correct_witness :
  (exists o, pzip 4 3 [[97; 97; 97; 97; 97]; [97; 97; 98]] = Done o /\
    written_runs o = rle [97; 97; 97; 97; 97; 97; 97; 98] /\
    unrle (written_runs o) = [97; 97; 97; 97; 97; 97; 97; 98]) /\
  (exists o, pzip 4 2 [[97; 97; 97; 97; 97]; [97; 97; 98]] = Done o /\ written_runs o = []) /\
  exists w, pzip 4 1 [[97; 97; 97; 97]] = Crash w.
Proof.
  split_and!.
  - apply (pzip_correct 4 3 [[97; 97; 97; 97; 97]; [97; 97; 98]]);
      [lia|discriminate|cbn; lia|cbn; unfold INT_MAX; lia|repeat (apply Forall_cons_2; [cbn; lia|]); constructor].
  - apply (pzip_correct 4 2 [[97; 97; 97; 97; 97]; [97; 97; 98]]);
      [lia|discriminate|cbn; lia|cbn; unfold INT_MAX; lia|repeat (apply Forall_cons_2; [cbn; lia|]); constructor].
  - apply (pzip_correct 4 1 [[97; 97; 97; 97]]); [lia|discriminate|cbn; lia|cbn; unfold INT_MAX; lia|by left].
Defined.
