(* ===== verification/Wzip.v ===== *)
(** * The compressor and its inverse

    [projects/initial-utilities/wzip/wzip.c] and [wunzip/wunzip.c].  The arrays
    and the counter are not initialised by the programs: what they hold at the
    start is an argument of the model. *)

From Stdlib Require Import ZArith Lia String.
From stdpp Require Import base tactics numbers list.
From S2P Require Import Prelude Cstring Rle.

Local Open Scope Z_scope.
Local Open Scope ostep_scope.

(** ** Definitions *)

(** The locals of [main] of [wzip], and what was written. *)
Record zst := mkZst { buff : list Z; oldBuff : list Z; count : Z; stdout : list Z }.

Definition writeFile (s : zst) : zst :=
  mkZst s.(buff) s.(oldBuff) s.(count) (s.(stdout) ++ be32 s.(count) ++ take 1 s.(oldBuff)).

(** [fread(buff, 1, 1, fp)] that reads [c]. *)
Definition fread1 (c : Z) (buff : list Z) : list Z := c :: drop 1 buff.

(** The body of the loop of [wzip], when a character was read. *)
Definition wzip_char (c : Z) (s : zst) : outcome string zst :=
  let s := mkZst (fread1 c s.(buff)) s.(oldBuff) s.(count) s.(stdout) in
  let* eq := strcmp_eq s.(buff) s.(oldBuff) in
  if (eq : bool) then
    if s.(count) =? 2147483647 then Crash "overflow of an int"%string
    else Done (mkZst s.(buff) s.(oldBuff) (s.(count) + 1) s.(stdout))
  else
    let s := if default 0 (head s.(oldBuff)) =? 0 then s else writeFile s in
    let* old := strcpy s.(oldBuff) s.(buff) in
    Done (mkZst s.(buff) old 1 s.(stdout)).

(** The arguments: the text of a file, or [None] if it cannot be opened. *)
Fixpoint wzip_files (files : list (option (list Z))) (s : zst) : outcome string zst :=
  match files with
  | [] => Done s
  | None :: _ => Fail "wzip: cannot open file"%string
  | Some f :: files => let* s := ofold wzip_char f s in wzip_files files s
  end.

Definition wzip (s : zst) (files : list (option (list Z))) : outcome string (list Z) :=
  match files with
  | [] => Fail "wzip: file1 [file2 ...]"%string
  | _ => let* s := wzip_files files s in Done (writeFile s).(stdout)
  end.

(** One file of [wunzip]: a run is four bytes and a character; when less than
    four bytes are left [fread] fails, and when the character is missing [buff]
    stays as [memset] left it. *)
Fixpoint wunzip_file (fuel : nat) (f buff : list Z) : outcome string (list Z * list Z) :=
  match fuel, f with
  | S fuel, a :: b :: c :: d :: f =>
      let count := of_be32 a b c d in
      let* n := strlen buff in
      let buff := memset0 n buff in
      let '(buff, f) := match f with x :: f => (fread1 x buff, f) | [] => (buff, []) end in
      let* s := (if u64 count =? 0 then Done [] else cstr buff) in
      let* '(o, buff) := wunzip_file fuel f buff in
      Done (mjoin (replicate (Z.to_nat (u64 count)) s) ++ o, buff)
  | _, _ => Done ([], buff)
  end.

Fixpoint wunzip_files (files : list (option (list Z))) (buff : list Z) : outcome string (list Z) :=
  match files with
  | [] => Done []
  | None :: _ => Fail "wunzip: cannot open file"%string
  | Some f :: files =>
      let* '(o, buff) := wunzip_file (length f) f buff in
      let* o' := wunzip_files files buff in Done (o ++ o')
  end.

Definition wunzip (buff : list Z) (files : list (option (list Z))) : outcome string (list Z) :=
  match files with
  | [] => Fail "wunzip: file1 [file2 ...]"%string
  | _ => wunzip_files files buff
  end.

(** ** The compressed text *)

Definition encode (rs : list run) : list Z := rs ≫= fun r => be32 r.1 ++ [r.2].

(** The runs that are written: a run of NULs only at the end. *)
Definition nonzero (r : run) : Prop := r.2 <> 0.

Global Instance nonzero_dec r : Decision (nonzero r).
Proof. unfold nonzero. apply _. Defined.

Fixpoint kept (rs : list run) : list run :=
  match rs with
  | [] => []
  | [r] => [r]
  | r :: rs => if decide (nonzero r) then r :: kept rs else kept rs
  end.

Lemma kept_snoc rs r : kept (rs ++ [r]) = filter nonzero rs ++ [r].
Proof.
  induction rs as [|q rs IH]; [done|]. cbn [app kept]. rewrite filter_cons, IH.
  destruct (rs ++ [r]) eqn:E; [by destruct rs|]. by destruct (decide (nonzero q)).
Qed.

Lemma encode_app rs1 rs2 : encode (rs1 ++ rs2) = encode rs1 ++ encode rs2.
Proof. apply bind_app. Qed.

(** The state when [a] has been read. *)
Definition reading (s : zst) (a : list Z) : Prop :=
  exists rs n c x, rle a = rs ++ [(n, c)] /\ s = mkZst [x; 0] [c; 0] n (encode (filter nonzero rs)).

Lemma strcmp_1 c d : strcmp_eq [d; 0] [c; 0] = Done (d =? c).
Proof. cbn. destruct (Z.eqb_spec d c); [|done]. by destruct (d =? 0). Qed.

Lemma strcpy_1 c d : strcpy [c; 0] [d; 0] = Done [d; 0].
Proof. cbn. by destruct (Z.eqb_spec d 0) as [->|]. Qed.

Lemma wzip_char_ok a s d :
  reading s a -> Z.of_nat (length a) < 2147483647 -> exists s', wzip_char d s = Done s' /\ reading s' (a ++ [d]).
Proof.
  intros (rs & n & c & x & Ha & ->) Hl. unfold wzip_char. cbn [buff oldBuff count stdout].
  change (fread1 d [x; 0]) with [d; 0]. rewrite strcmp_1. cbn [obind].
  destruct (Z.eqb_spec d c) as [->|Hne].
  - assert (Hn : n <= Z.of_nat (length a)).
    { pose proof (rle_counts a) as H. rewrite Ha in H. apply Forall_app in H as [_ H]. apply Forall_cons in H as [H _]. cbn in H. lia. }
    rewrite (proj2 (Z.eqb_neq n _)) by lia. eexists. split; [done|]. exists rs, (n + 1), c, c.
    split; [by apply rle_snoc_same|done].
  - change (default 0 (head [c; 0])) with c. set (s1 := if c =? 0 then mkZst [d; 0] [c; 0] n _ else writeFile _).
    assert (E : s1 = mkZst [d; 0] [c; 0] n (encode (filter nonzero (rs ++ [(n, c)])))).
    { subst s1. rewrite list.filter_app, encode_app. destruct (Z.eqb_spec c 0) as [->|Hc].
      - rewrite (filter_cons_False nonzero) by (intros H; by destruct H). cbn. by rewrite app_nil_r.
      - rewrite (filter_cons_True nonzero) by done. done. }
    rewrite E. cbn [oldBuff buff stdout]. rewrite strcpy_1. cbn [obind]. eexists. split; [done|].
    exists (rs ++ [(n, c)]), 1, d, d. split; [|done]. rewrite <- app_assoc. by apply rle_snoc_diff.
Qed.

Lemma wzip_first c x y n : c <> 0 -> wzip_char c (mkZst [x; 0] [0; y] n []) = Done (mkZst [c; 0] [c; 0] 1 []).
Proof. by destruct c. Qed.

Lemma wzip_text f : forall a s, reading s a -> Z.of_nat (length (a ++ f)) < 2147483648 ->
  exists s', ofold wzip_char f s = Done s' /\ reading s' (a ++ f).
Proof.
  induction f as [|d f IH]; intros a s Hs Hl; [exists s; rewrite app_nil_r; done|].
  rewrite length_app in Hl. cbn [length] in Hl. destruct (wzip_char_ok a s d Hs) as (s1 & E & Hs1); [lia|].
  destruct (IH (a ++ [d]) s1 Hs1) as (s2 & E2 & Hs2); [rewrite !length_app; cbn; lia|].
  exists s2. cbn [ofold]. rewrite E. cbn [obind]. split; [done|]. by rewrite <- app_assoc in Hs2.
Qed.

Lemma wzip_files_fold files s : wzip_files (Some <$> files) s = ofold wzip_char (mjoin files) s.
Proof.
  revert s. induction files as [|f files IH]; intros s; [done|]. change (mjoin (f :: files)) with (f ++ mjoin files).
  rewrite ofold_app. cbn [fmap list_fmap wzip_files]. destruct (ofold wzip_char f s); cbn; [apply IH|done..].
Qed.

(** ** Back *)

(** What a run makes [wunzip] print. *)
Definition printed (r : run) : list Z := if r.2 =? 0 then [] else unrun r.

Lemma printed_runs rs : filter (fun c => c <> 0) (unrle rs) = rs ≫= printed.
Proof.
  induction rs as [|[n c] rs IH]; [done|]. rewrite unrle_cons, list.filter_app, bind_cons, IH. f_equal. unfold printed, unrun.
  cbn [fst snd]. destruct (Z.eqb_spec c 0) as [->|Hc].
  - apply filter_none, Forall_replicate. tauto.
  - apply filter_all, Forall_replicate. done.
Qed.

Lemma printed_kept rs : kept rs ≫= printed = rs ≫= printed.
Proof.
  induction rs as [|[n c] rs IH]; [done|]. destruct rs as [|r rs]; [done|]. rewrite (bind_cons printed).
  change (kept _) with (if decide (nonzero (n, c)) then (n, c) :: kept (r :: rs) else kept (r :: rs)).
  destruct (decide (nonzero (n, c))) as [H|H]; [by rewrite bind_cons, IH|]. rewrite IH. unfold nonzero in H. cbn in H.
  unfold printed at 2. cbn [snd]. destruct (Z.eqb_spec c 0); [done|tauto].
Qed.

(** The array of [wunzip] holds a string, and a NUL behind its first byte or a
    first byte that [memset] will find. *)
Definition buff_ok (b : list Z) : Prop :=
  exists x y r n, b = x :: y :: r /\ strlen b = Done n /\ (x <> 0 \/ y = 0).

Lemma strlen_drop n b : strlen b = Done n -> exists r, drop n b = 0 :: r.
Proof.
  revert n. induction b as [|c b IH]; intros n H; [done|]. cbn [strlen] in H. destruct (Z.eqb_spec c 0) as [->|Hc].
  - injection H as <-. by eexists.
  - apply obind_Done in H as (m & Hm & H). injection H as <-. apply (IH m Hm).
Qed.

Lemma memset_ok b : buff_ok b -> exists n r, strlen b = Done n /\ drop 1 (memset0 n b) = 0 :: r.
Proof.
  intros (x & y & r & n & -> & Hn & Hxy). exists n. rewrite Hn. unfold memset0. destruct n as [|[|n]].
  - destruct (strlen_drop _ _ Hn) as [q Hq]. cbn in Hq. injection Hq as -> _. destruct Hxy as [?| ->]; [done|]. eexists; split; reflexivity.
  - destruct (strlen_drop _ _ Hn) as [q Hq]. cbn [drop] in Hq. injection Hq as -> _. eexists; split; reflexivity.
  - eexists; split; reflexivity.
Qed.

Lemma join_single n (c : Z) : mjoin (replicate n [c]) = replicate n c.
Proof. induction n as [|n IH]; [done|]. change (mjoin (replicate (S n) [c])) with ([c] ++ mjoin (replicate n [c])). by rewrite IH. Qed.

Lemma join_nil n : mjoin (replicate n (@nil Z)) = [].
Proof. induction n as [|n IH]; [done|]. exact IH. Qed.

Lemma wunzip_encode rs : forall fuel b, (length (encode rs) <= fuel)%nat -> buff_ok b ->
  Forall (fun r => 0 < r.1 < 2147483648) rs -> exists b', wunzip_file fuel (encode rs) b = Done (rs ≫= printed, b').
Proof.
  induction rs as [|[n c] rs IH]; intros fuel b Hf Hb Hrs; [exists b; by destruct fuel|].
  apply Forall_cons in Hrs as [Hn Hrs]. cbn [fst] in Hn. destruct fuel as [|fuel]; [cbn in Hf; lia|].
  change (encode ((n, c) :: rs)) with (be32 n ++ c :: encode rs) in *. unfold be32 in *. cbn [app length] in *. cbn [wunzip_file].
  rewrite of_be32_be32 by lia. destruct (memset_ok b Hb) as (k & r & -> & Hd). cbn [obind]. unfold fread1. rewrite Hd.
  assert (Hu : u64 n = n) by (apply (wrapu_small 64); lia). rewrite Hu, (proj2 (Z.eqb_neq n 0)) by lia.
  destruct (IH fuel (c :: 0 :: r)) as (b' & Hb'); [lia| |done|].
  { exists c, 0, r, (if c =? 0 then 0%nat else 1%nat). split_and!; [done|cbn; by destruct (c =? 0)|by right]. }
  exists b'. rewrite bind_cons. unfold printed at 1. cbn [fst snd]. cbn [cstr].
  change (0 =? 0) with true. destruct (Z.eqb_spec c 0) as [->|Hc]; cbn [obind].
  - rewrite Hb'. cbn [obind]. by rewrite join_nil.
  - rewrite Hb'. cbn [obind]. by rewrite join_single.
Qed.

(** ** Properties *)



(** Without the assumptions on the arrays: leftover bytes are printed with
    every character, and a text that starts with NULs makes [wzip] count from
    the value it finds. *)
Example wunzip_leftover : wunzip [0; 88; 0; 0; 0] [Some [0; 0; 0; 2; 97]] = Done [97; 88; 97; 88].
Proof. reflexivity. Qed.

Example wzip_leftover : wzip (mkZst [7; 0] [0; 0] 41 []) [Some [0; 0]] = Done [0; 0; 0; 43; 0].
Proof. reflexivity. Qed.

Example wzip_empty : wzip (mkZst [7; 0] [0; 0] 41 []) [Some []] = Done [0; 0; 0; 41; 0].
Proof. reflexivity. Qed.
