(* ===== verification/Textutils.v ===== *)
(** * wcat, wgrep and reverse

    [projects/initial-utilities/wcat/wcat.c], [wgrep/wgrep.c] and
    [projects/initial-reverse/reverse.c].  A file is the list of its bytes; what
    [wcat] and [wgrep] can open is an argument of the model, [reverse] works on
    a small file system because it writes. *)

From Stdlib Require Import ZArith Lia String.
From stdpp Require Import base tactics numbers list strings.
From S2P Require Import Prelude Cstring.

Local Open Scope Z_scope.
Local Open Scope ostep_scope.

(** ** wcat *)

Definition BUFFER_SIZE : nat := 1024.

(** [fgets(buff, size + 1, fp)]: at most [size] characters, up to a newline. *)
Fixpoint fgets (size : nat) (f : list Z) : list Z * list Z :=
  match size, f with
  | S size, c :: f => if c =? 10 then ([c], f) else let '(l, r) := fgets size f in (c :: l, r)
  | _, _ => ([], f)
  end.

(** The string [line: ] *)
Definition line_prefix : list Z := [108; 105; 110; 101; 58; 32].

Fixpoint wcat_loop (fuel : nat) (f : list Z) : list Z :=
  match fuel, f with
  | S fuel, _ :: _ => let '(l, f) := fgets (BUFFER_SIZE - 1) f in line_prefix ++ upto_nul l ++ wcat_loop fuel f
  | _, _ => []
  end.

Fixpoint wcat (files : list (option (list Z))) : outcome string (list Z) :=
  match files with
  | [] => Done []
  | None :: _ => Fail "wcat: cannot open file"%string
  | Some f :: files => let* o := wcat files in Done (wcat_loop (length f) f ++ o)
  end.

(** ** wgrep *)

Fixpoint wgrep_loop (fuel : nat) (term f : list Z) : list Z :=
  match fuel, f with
  | S fuel, _ :: _ =>
      let '(line, f) := getline f in
      (if strstr (upto_nul line) term then upto_nul line else []) ++ wgrep_loop fuel term f
  | _, _ => []
  end.

(** [args] are the arguments behind the name of the program. *)
Definition wgrep (fopen : list Z -> option (list Z)) (stdin : list Z) (args : list (list Z)) : outcome string (list Z) :=
  match args with
  | [] => Fail "wgrep: searchterm [file ...]"%string
  | [term] => Done (wgrep_loop (length stdin) term stdin)
  | term :: path :: _ =>
      match fopen path with
      | None => Fail "wgrep: cannot open file"%string
      | Some f => Done (wgrep_loop (length f) term f)
      end
  end.

(** ** reverse *)

(** The file system: the inode of a name, what an inode holds, the next free
    inode; and the standard output. *)
Record files := mkFiles { inode : string -> option nat; content : nat -> list Z; fresh : nat; stdout : list Z }.

Definition set_content (i : nat) (l : list Z) (st : files) : files :=
  mkFiles st.(inode) (fun j => if decide (j = i) then l else st.(content) j) st.(fresh) st.(stdout).

Definition set_stdout (l : list Z) (st : files) : files := mkFiles st.(inode) st.(content) st.(fresh) l.

(** The loop that stores the lines, last one first. *)
Fixpoint read_lines (fuel : nat) (f : list Z) (head : list (list Z)) : list (list Z) :=
  match fuel, f with
  | S fuel, _ :: _ => let '(line, f) := getline f in read_lines fuel f (upto_nul line :: head)
  | _, _ => head
  end.

(** [while (head != NULL) fprintf(out, "%s", head->line)] *)
Fixpoint print_lines (head : list (list Z)) : list Z :=
  match head with
  | [] => []
  | line :: next => line ++ print_lines next
  end.

Definition reverse_text (f : list Z) : list Z := print_lines (read_lines (length f) f []).

Section reverse.
(** Whether a name may be opened for reading and for writing. *)
Context (may_read may_write : string -> bool).

(** [fopen(path, "r")]: the inode. *)
Definition fopen_r (path : string) (st : files) : option nat :=
  if may_read path then st.(inode) path else None.

(** [fopen(path, "w")]: the file is emptied, or made. *)
Definition fopen_w (path : string) (st : files) : option (nat * files) :=
  if may_write path then
    match st.(inode) path with
    | Some i => Some (i, set_content i [] st)
    | None =>
        Some (st.(fresh), mkFiles (fun p => if decide (p = path) then Some st.(fresh) else st.(inode) p)
          (fun j => if decide (j = st.(fresh)) then [] else st.(content) j) (S st.(fresh)) st.(stdout))
    end
  else None.

(** [main]: the arguments behind the name of the program; an error comes with
    the files as they are then. *)
Definition reverse_main (stdin : list Z) (args : list string) (st : files) : outcome (string * files) files :=
  match args with
  | [] => Done (set_stdout (st.(stdout) ++ reverse_text stdin) st)
  | [a] =>
      match fopen_r a st with
      | None => Fail ("reverse: cannot open file"%string, st)
      | Some i => Done (set_stdout (st.(stdout) ++ reverse_text (st.(content) i)) st)
      end
  | [a; b] =>
      match fopen_r a st with
      | None => Fail ("reverse: cannot open file"%string, st)
      | Some i =>
          match fopen_w b st with
          | None => Fail ("reverse: cannot open file"%string, st)
          | Some (j, st) =>
              if decide (i = j) then Fail ("reverse: input and output file must differ"%string, st)
              else Done (set_content j (reverse_text (st.(content) i)) st)
          end
      end
  | _ => Fail ("usage: reverse <input> <output>"%string, st)
  end.

End reverse.

(** ** Lemmas *)

Lemma fgets_ok size f : f = fst (fgets size f) ++ snd (fgets size f) /\ (length (fst (fgets size f)) <= size)%nat.
Proof.
  revert f. induction size as [|size IH]; intros [|c f]; cbn [fgets]; try (split; [done|cbn; lia]).
  destruct (c =? 10); [split; [done|cbn; lia]|]. destruct (IH f) as [H1 H2]. destruct (fgets size f) as [l r]. cbn in *.
  split; [by rewrite H1 at 1|lia].
Qed.

Lemma fgets_some size c f : fst (fgets (S size) (c :: f)) <> [].
Proof. cbn [fgets]. destruct (c =? 10); [done|]. by destruct (fgets size f). Qed.

(** What [wcat] prints is the file, cut into pieces of at most 1023 characters
    with the words [line: ] before each. *)
Lemma wcat_pieces fuel f : (length f <= fuel)%nat -> Forall (fun c => c <> 0) f ->
  exists ps, mjoin ps = f /\ Forall (fun p => p <> [] /\ (length p <= 1023)%nat) ps /\
    wcat_loop fuel f = ps ≫= fun p => line_prefix ++ p.
Proof.
  revert f. induction fuel as [|fuel IH]; intros [|c f] Hl Hz; try (exists []; done); [cbn in Hl; lia|].
  unfold wcat_loop; fold wcat_loop. destruct (fgets_ok (BUFFER_SIZE - 1) (c :: f)) as [E Hlen].
  assert (Hne : fst (fgets (BUFFER_SIZE - 1) (c :: f)) <> []) by (apply fgets_some).
  destruct (fgets (BUFFER_SIZE - 1) (c :: f)) as [l r]. cbn [fst snd] in *. rewrite E in Hz. apply Forall_app in Hz as [Hz1 Hz2].
  destruct (IH r) as (ps & H1 & H2 & H3); [|done|].
  { apply (f_equal length) in E. rewrite length_app in E. destruct l; [done|]. cbn in *. lia. }
  exists (l :: ps). split_and!.
  - change (mjoin (l :: ps)) with (l ++ mjoin ps). by rewrite H1.
  - by constructor.
  - rewrite bind_cons, H3, upto_nul_id by done. by rewrite <- app_assoc.
Qed.

Lemma wgrep_loop_ok term fuel f : (length f <= fuel)%nat ->
  wgrep_loop fuel term f = mjoin (filter (fun l => strstr l term = true) (upto_nul <$> lines f)).
Proof.
  revert f. induction fuel as [|fuel IH]; intros [|c f] Hl; try done; [cbn in Hl; lia|].
  unfold wgrep_loop; fold wgrep_loop. pose proof (getline_ok c f) as H. destruct (getline (c :: f)) as [l r]. destruct H as [E Hr].
  rewrite E, fmap_cons, filter_cons, IH by (cbn in Hl; lia). by destruct (strstr (upto_nul l) term).
Qed.

Lemma read_lines_ok fuel : forall f head, (length f <= fuel)%nat ->
  read_lines fuel f head = reverse (upto_nul <$> lines f) ++ head.
Proof.
  induction fuel as [|fuel IH]; intros [|c f] head Hl; try done; [cbn in Hl; lia|].
  unfold read_lines; fold read_lines. pose proof (getline_ok c f) as H. destruct (getline (c :: f)) as [l r]. destruct H as [E Hr].
  rewrite E, fmap_cons, reverse_cons, <- app_assoc, IH by (cbn in Hl; lia). done.
Qed.

Lemma reverse_text_eq f : reverse_text f = mjoin (reverse (upto_nul <$> lines f)).
Proof.
  unfold reverse_text. rewrite read_lines_ok, app_nil_r by done.
  induction (reverse (upto_nul <$> lines f)) as [|l ls IH]; [done|]. change (mjoin (l :: ls)) with (l ++ mjoin ls). by rewrite <- IH.
Qed.

Lemma Forall_mjoin (P : Z -> Prop) ls : Forall P (mjoin ls) <-> Forall (Forall P) ls.
Proof.
  induction ls as [|l ls IH]; [done|]. change (mjoin (l :: ls)) with (l ++ mjoin ls). by rewrite Forall_app, Forall_cons, IH.
Qed.

Lemma lines_no_nul g : Forall (fun c => c <> 0) g -> upto_nul <$> lines g = lines g.
Proof.
  intros Hg. rewrite <- (list_fmap_id (lines g)) at 2. apply list_fmap_ext. intros i l Hl. apply upto_nul_id.
  rewrite <- (lines_join g) in Hg. rewrite Forall_mjoin in Hg. exact (proj1 (Forall_lookup _ _) Hg i l Hl).
Qed.

(** Reversing texts of full lines without NULs twice. *)
Lemma reverse_text_twice f :
  Forall (fun c => c <> 0) f -> Forall full_line (lines f) -> reverse_text (reverse_text f) = f.
Proof.
  intros Hz Hf.
  assert (Hr : lines (reverse_text f) = reverse (lines f)).
  { rewrite reverse_text_eq, lines_no_nul by done. apply lines_unique. apply Forall_reverse in Hf.
    induction Hf as [|l ls H _ IH]; [done|]. by apply are_lines_cons. }
  rewrite (reverse_text_eq (reverse_text f)), lines_no_nul, Hr, reverse_involutive; [apply lines_join|].
  rewrite reverse_text_eq, lines_no_nul by done. rewrite Forall_mjoin. apply Forall_reverse. rewrite <- Forall_mjoin, lines_join. done.
Qed.

(** ** Properties *)

(** [wgrep] prints, in order, exactly the lines of its input that contain
    the search term; the input is the file that the second argument names,
    whatever arguments follow, or the standard input.  The lines are the pieces
    of the text that end with a newline, the last one perhaps without. *)
Lemma wgrep_correct fopen stdin term rest input :
  Forall (fun c => c <> 0) input ->
  match rest with [] => Some stdin | path :: _ => fopen path end = Some input ->
  wgrep fopen stdin (term :: rest) = Done (mjoin (filter (fun l => strstr l term = true) (lines input))) /\
  (forall l, strstr l term = true <-> exists a b, l = a ++ term ++ b) /\
  are_lines (lines input) /\ mjoin (lines input) = input.
Proof.
  intros Hz Hi. split_and!; [|intros l; apply strstr_iff|apply lines_are_lines|apply lines_join].
  unfold wgrep. destruct rest as [|path more]; [injection Hi as ->|rewrite Hi]; by rewrite wgrep_loop_ok, lines_no_nul.
Qed.

(** The lines [ab] and [b] of three, for the term [b]. *)
Lemma wgrep_correct_witness :
  wgrep (fun _ => None) [97; 98; 10; 97; 10; 98] [[98]] = Done [97; 98; 10; 98] /\
  are_lines (lines [97; 98; 10; 97; 10; 98]).
Proof.
  destruct (wgrep_correct (fun _ => None) [97; 98; 10; 97; 10; 98] [98] [] [97; 98; 10; 97; 10; 98]) as (H1 & _ & H2 & _);
    [repeat (apply Forall_cons_2; [lia|]); constructor|reflexivity|].
  split; [exact H1|exact H2].
Defined.

(** [reverse a b] writes the lines of [a] to [b] in reverse order and
    leaves everything else alone, and reversing the result gives back a text of
    full lines without NULs.  But when both names are the same file it is
    emptied before the error is reported. *)
Theorem reverse_correct may_read may_write stdin a b st i :
  (forall p k, st.(inode) p = Some k -> (k < st.(fresh))%nat) ->
  may_read a = true -> may_write b = true -> st.(inode) a = Some i ->
  (st.(inode) b <> Some i -> exists j st',
     reverse_main may_read may_write stdin [a; b] st = Done st' /\ st'.(inode) b = Some j /\
     st'.(content) j = mjoin (reverse (upto_nul <$> lines (st.(content) i))) /\
     (forall p, p <> b -> st'.(inode) p = st.(inode) p) /\
     (forall k, k <> j -> st'.(content) k = st.(content) k) /\
     (Forall (fun c => c <> 0) (st.(content) i) -> Forall full_line (lines (st.(content) i)) ->
        reverse_text (st'.(content) j) = st.(content) i)) /\
  (st.(inode) b = Some i -> exists st',
     reverse_main may_read may_write stdin [a; b] st = Fail ("reverse: input and output file must differ"%string, st') /\
     st'.(content) i = []).
Proof.
  intros Hfresh Ha Hb Hi. unfold reverse_main, fopen_r, fopen_w. rewrite Ha, Hb, Hi. split.
  - intros Hne. destruct (st.(inode) b) as [j|] eqn:Ej.
    + rewrite decide_False by congruence. eexists j, _. split; [done|]. cbn [inode content set_content]. rewrite decide_True, decide_False by congruence.
      rewrite reverse_text_eq. split_and!; [done|done|done| |].
      * intros k Hk. by rewrite !decide_False.
      * intros Hz Hf. rewrite <- reverse_text_eq. by apply reverse_text_twice.
    + pose proof (Hfresh a i Hi). rewrite decide_False by lia. eexists _, _. split; [done|]. cbn [inode content set_content].
      rewrite !decide_True, decide_False by (done || lia). rewrite reverse_text_eq. split_and!; [done|done| | |].
      * intros p Hp. by rewrite decide_False.
      * intros k Hk. by rewrite !decide_False.
      * intros Hz Hf. rewrite <- reverse_text_eq. by apply reverse_text_twice.
  - intros ->. rewrite decide_True by done. eexists. split; [done|]. cbn. by rewrite decide_True.
Qed.

(** A file of two lines is reversed into a new one. *)
Lemma reverse_correct_witness :
  let st := mkFiles (fun p => if decide (p = "a"%string) then Some 0%nat else None) (fun _ => [97; 10; 98; 10]) 1 [] in
  exists j st', reverse_main (fun _ => true) (fun _ => true) [] ["a"%string; "b"%string] st = Done st' /\
    st'.(inode) "b"%string = Some j /\ st'.(content) j = [98; 10; 97; 10].
Proof.
  intros st. destruct (reverse_correct (fun _ => true) (fun _ => true) [] "a"%string "b"%string st 0%nat) as [H _];
    [|reflexivity..|].
  - intros p k. cbn. destruct (decide (p = "a"%string)); [|discriminate]. intros H. injection H as <-. lia.
  - destruct H as (j & st' & H1 & H2 & H3 & _); [discriminate|]. exists j, st'. split; [exact H1|]. split; [exact H2|]. exact H3.
Defined.
