(* ===== verification/Mytail.v ===== *)
(** * The last lines of a file

    [39/mytail.c]: the file is read backwards, character by character, until
    enough newlines are found, and written from there. *)

From Stdlib Require Import ZArith Lia String.
From stdpp Require Import base tactics numbers list.
From S2P Require Import Prelude Cstring.

Local Open Scope Z_scope.
Local Open Scope ostep_scope.

(** ** Definitions *)

(** The loop, with the position [pos] in the file: [lines] and the position at its
    end.  At the start of the file the second [lseek] fails, and the position
    stays behind the character that was read. *)
Fixpoint scan_back (f : list Z) (pos : nat) (lines : Z) : Z * nat :=
  if 0 <? lines then
    let lines := if default 0 (f !! pos) =? 10 then s32 (lines - 1) else lines in
    match pos with
    | O => (lines, 1%nat)
    | S pos => scan_back f pos lines
    end
  else (lines, pos).

(** [main] with the number [atoi] gives for the first argument, and the file, if
    there is one. *)
Definition mytail (arg : Z) (file : option (list Z)) : outcome string (list Z) :=
  let lines := s32 (s32 (arg * -1) + 1) in
  match file with
  | None => Fail "stat"%string
  | Some [] => Fail "lseek"%string
  | Some f =>
      let '(lines, pos) := scan_back f (length f - 1) lines in
      let start := if lines =? 0 then (pos + 2)%nat else 0%nat in
      let text := drop start f in
      cstr (text ++ replicate (length f - length text) 0)
  end.

(** ** Correctness *)

(** The number of newlines. *)
Definition newlines (l : list Z) : Z := Z.of_nat (length (filter (fun c => c = 10) l)).

Lemma newlines_snoc l c : newlines (l ++ [c]) = newlines l + (if c =? 10 then 1 else 0).
Proof.
  unfold newlines. rewrite filter_app, length_app. destruct (Z.eqb_spec c 10) as [->|Hc].
  - rewrite (filter_cons_True _ 10 []) by done. cbn. lia.
  - rewrite filter_cons_False by done. cbn. lia.
Qed.

(** Back over [b], which does not have enough newlines. *)
Lemma scan_over a : a <> [] -> forall b rest lines, newlines b < lines < 2147483648 ->
  scan_back (a ++ b ++ rest) (length a + length b - 1) lines = scan_back (a ++ b ++ rest) (length a - 1) (lines - newlines b).
Proof.
  intros Ha b. induction b as [|c b IH] using rev_ind; intros rest lines Hl.
  - cbn [length]. rewrite Nat.add_0_r. unfold newlines. cbn. by rewrite Z.sub_0_r.
  - rewrite newlines_snoc in Hl |- *. rewrite length_app, <- !app_assoc. cbn [app length]. assert (0 < length a)%nat by (destruct a; [done|cbn; lia]).
    assert (0 <= newlines b) by (unfold newlines; lia).
    replace (length a + (length b + 1) - 1)%nat with (S (length a + length b - 1))%nat by lia. cbn [scan_back].
    rewrite (proj2 (Z.ltb_lt 0 lines)) by (destruct (c =? 10); lia).
    assert (E : (a ++ b ++ c :: rest) !! S (length a + length b - 1) = Some c).
    { rewrite app_assoc. apply list_lookup_middle. rewrite length_app. lia. }
    rewrite E. change (default 0 (Some c)) with c. destruct (c =? 10).
    + rewrite s32_small by lia. rewrite (IH (c :: rest)) by lia. f_equal. lia.
    + rewrite (IH (c :: rest)) by lia. f_equal. lia.
Qed.

Lemma newlines_app l1 l2 : newlines (l1 ++ l2) = newlines l1 + newlines l2.
Proof. unfold newlines. rewrite filter_app, length_app. lia. Qed.

Lemma newlines_full l : full_line l -> newlines l = 1.
Proof.
  intros (a & -> & Ha). rewrite newlines_snoc. change (10 =? 10) with true. cut (newlines a = 0); [lia|]. induction a as [|c a IH]; [done|].
  apply not_elem_of_cons in Ha as [Hc Ha]. unfold newlines in *. rewrite filter_cons_False by congruence. by apply IH.
Qed.

Lemma newlines_lines ls : Forall full_line ls -> newlines (mjoin ls) = Z.of_nat (length ls).
Proof.
  induction 1 as [|l ls Hl _ IH]; [done|]. change (mjoin (l :: ls)) with (l ++ mjoin ls).
  rewrite newlines_app, newlines_full, IH by done. cbn [length]. lia.
Qed.

(** When there are not enough newlines the scan ends with some left to find. *)
Lemma scan_all f : forall p lines, newlines (take (S p) f) < lines < 2147483648 -> (p < length f)%nat -> 0 < (scan_back f p lines).1.
Proof.
  induction p as [|p IH]; intros lines Hl Hp; destruct (lookup_lt_is_Some_2 f _ Hp) as [c Hc];
    rewrite (take_S_r _ _ _ Hc), newlines_snoc in Hl; cbn [scan_back].
  - assert (0 <= newlines (take 0 f)) by (unfold newlines; lia).
    rewrite (proj2 (Z.ltb_lt 0 lines)) by (destruct (c =? 10); lia). rewrite Hc. change (default 0 (Some c)) with c.
    destruct (c =? 10); cbn [fst]; [rewrite s32_small by lia|]; lia.
  - assert (0 <= newlines (take (S p) f)) by (unfold newlines; lia).
    rewrite (proj2 (Z.ltb_lt 0 lines)) by (destruct (c =? 10); lia). rewrite Hc. change (default 0 (Some c)) with c.
    apply IH; [|lia]. destruct (c =? 10); [rewrite s32_small by lia|]; lia.
Qed.

(** Lines end with a newline. *)
Lemma lines_end ls : Forall full_line ls -> ls <> [] -> exists a, mjoin ls = a ++ [10].
Proof.
  intros H Hne. induction H as [|l ls (a & -> & _) _ IH]; [done|]. change (mjoin ((a ++ [10]) :: ls)) with ((a ++ [10]) ++ mjoin ls).
  destruct ls as [|l2 ls]; [exists a; by rewrite app_nil_r|]. destruct IH as [a2 ->]; [done|]. exists ((a ++ [10]) ++ a2). by rewrite app_assoc.
Qed.

(** The scan finds the newline before the last [newlines b] lines. *)
Lemma scan_found a b : newlines b < 2147483647 ->
  scan_back ((a ++ [10]) ++ b) (length ((a ++ [10]) ++ b) - 1) (newlines b + 1) = (0, if decide (a = []) then 1%nat else (length a - 1)%nat).
Proof.
  intros Hb. assert (0 <= newlines b) by (unfold newlines; lia).
  pose proof (scan_over (a ++ [10]) ltac:(by destruct a) b [] (newlines b + 1) ltac:(lia)) as H0.
  rewrite app_nil_r in H0. rewrite (length_app (a ++ [10]) b), H0. replace (newlines b + 1 - newlines b) with 1 by lia.
  rewrite length_app. cbn [length]. replace (length a + 1 - 1)%nat with (length a) by lia.
  assert (E : ((a ++ [10]) ++ b) !! length a = Some 10) by (rewrite <- app_assoc; by apply list_lookup_middle).
  destruct a as [|c a]; [done|]. rewrite decide_False by done. cbn [length] in E |- *. cbn [scan_back]. change (0 <? 1) with true. cbn iota.
  rewrite E. change (default 0 (Some 10) =? 10) with true. cbn iota. rewrite s32_small by lia.
  replace (S (length a) - 1)%nat with (length a) by lia. by destruct (length a).
Qed.

(** ** Properties *)

(** The last [k] of the lines of a file without NULs are written, when there are
    more than [k] and the newline before them is not the first character of the
    file; if it is, the text starts two characters late.  With [k] lines or less
    the whole file is read into an array that has no room for the NUL behind it. *)
Lemma mytail_correct ls k : Forall full_line ls -> Forall (fun c => c <> 0) (mjoin ls) -> ls <> [] -> Z.of_nat k < 2147483647 ->
  let text := mytail (- Z.of_nat k) (Some (mjoin ls)) in
  if (k <? length ls)%nat then
    text = Done (if decide (mjoin (take (length ls - k) ls) = [10]) then drop 3 (mjoin ls) else mjoin (drop (length ls - k) ls))
  else exists w, text = Crash w.
Proof.
  intros Hf Hz Hne Hk. cbv zeta. unfold mytail. replace (- Z.of_nat k * -1) with (Z.of_nat k) by lia.
  rewrite (s32_small (Z.of_nat k)) by lia. rewrite s32_small by lia.
  destruct (lines_end ls Hf Hne) as [a0 Ea0]. assert (Hpos : (0 < length (mjoin ls))%nat) by (rewrite Ea0, length_app; cbn; lia).
  assert (Hcstr : forall n, (0 < n)%nat ->
    cstr (drop n (mjoin ls) ++ replicate (length (mjoin ls) - length (drop n (mjoin ls))) 0) = Done (drop n (mjoin ls))).
  { intros n Hn. rewrite length_drop. replace (length (mjoin ls) - (length (mjoin ls) - n))%nat with (S (Nat.min n (length (mjoin ls)) - 1)) by lia.
    cbn [replicate]. apply cstr_app. by apply Forall_drop. }
  destruct (mjoin ls) as [|c0 f0] eqn:Ef; [cbn in Hpos; lia|]. rewrite <- Ef in *.
  destruct (Nat.ltb_spec k (length ls)) as [Hlt|Hge].
  - destruct (lines_end (take (length ls - k) ls)) as [a Ha]; [by apply Forall_take|intros E; apply (f_equal length) in E; rewrite length_take in E; cbn in E; lia|].
    assert (E : mjoin ls = (a ++ [10]) ++ mjoin (drop (length ls - k) ls)) by (rewrite <- Ha, <- join_app; by rewrite take_drop).
    set (b := mjoin (drop (length ls - k) ls)) in *.
    assert (Hb : newlines b = Z.of_nat k) by (unfold b; rewrite newlines_lines, length_drop by (by apply Forall_drop); lia).
    rewrite Ha. pose proof (scan_found a b ltac:(lia)) as Hs. rewrite Hb, <- E in Hs. rewrite Hs. cbn [Z.eqb].
    destruct (decide (a = [])) as [->|Hn].
    + rewrite decide_True by done. apply (Hcstr 3%nat). lia.
    + rewrite decide_False by (intros Hx; apply (f_equal length) in Hx; rewrite length_app in Hx; destruct a; [done|cbn in Hx; lia]).
      rewrite Hcstr by lia. f_equal. rewrite E. rewrite drop_app_ge by (rewrite length_app; destruct a; [done|cbn; lia]).
      rewrite length_app. cbn [length]. destruct a; [done|]. cbn [length].
      replace (S (length a) - 1 + 2 - (S (length a) + 1))%nat with 0%nat by lia. done.
  - pose proof (scan_all (mjoin ls) (length (mjoin ls) - 1) (Z.of_nat k + 1)) as Hs.
    replace (S (length (mjoin ls) - 1)) with (length (mjoin ls)) in Hs by lia. rewrite take_ge, newlines_lines in Hs by (done || lia).
    specialize (Hs ltac:(lia) ltac:(lia)). destruct (scan_back _ _ _) as [l p]. cbn [fst] in Hs. rewrite (proj2 (Z.eqb_neq l 0)) by lia.
    rewrite !drop_0. rewrite Nat.sub_diag. cbn [replicate]. rewrite app_nil_r. clear -Hz. revert Hz. generalize (mjoin ls). intros f1 Hz.
    induction Hz as [|c f Hc _ IH]; [by eexists|].
    cbn [cstr]. rewrite (proj2 (Z.eqb_neq c 0)) by done. destruct IH as [w ->]. by eexists.
Qed.
