(* ===== verification/Request.v ===== *)
(** * Requests of the web server

    [projects/concurrency-webserver/request.c] with [readline] of [io_helper.c]:
    reading a request from a connection and deciding what to serve.  A connection
    is the list of the results of [read]: a byte, or [None] for an error; behind
    the list is the end of the file.  What [stat] returns and what the calls of
    [write] do are arguments.  An array of characters is a list of its length. *)

From Stdlib Require Import ZArith Lia String Ascii.
From stdpp Require Import base tactics numbers list.
From S2P Require Import Prelude Cstring.

Local Open Scope Z_scope.
Local Open Scope ostep_scope.

(** ** Definitions *)

Definition MAXBUF : nat := 512.

Definition SMALL_BUF : nat := 50.

(** The bytes of a string of the source. *)
Fixpoint bytes (s : string) : list Z :=
  match s with
  | EmptyString => []
  | String c s => Z.of_nat (nat_of_ascii c) :: bytes s
  end.

(** [s] at the start of an array, with and without a NUL behind it. *)
Definition put_string (s buf : list Z) : list Z := s ++ 0 :: drop (S (length s)) buf.

Definition put_bytes (s buf : list Z) : list Z := s ++ drop (length s) buf.

Definition stream := list (option Z).

(** The loop of [readline]: [n] characters [acc] have been read, [k] more fit. *)
Fixpoint readline_loop (k : nat) (acc : list Z) (buf : list Z) (s : stream) : Z * list Z * stream :=
  match k with
  | O => (Z.of_nat (length acc), put_string acc buf, s)
  | S k =>
      match s with
      | Some c :: s =>
          if c =? 10 then (Z.of_nat (length acc), put_string (acc ++ [c]) buf, s)
          else readline_loop k (acc ++ [c]) buf s
      | [] =>
          if (length acc =? 1)%nat then (0, put_bytes acc buf, [])
          else (Z.of_nat (length acc), put_string acc buf, [])
      | None :: s => (-1, put_bytes acc buf, s)
      end
  end.

Definition readline (buf : list Z) (s : stream) : Z * list Z * stream := readline_loop (MAXBUF - 1) [] buf s.

(** [strcmp(buf, "\r\n") == 0] *)
Definition is_crlf (buf : list Z) : outcome string bool := strcmp_eq buf [13; 10; 0].

(** [request_read_headers]: [None] when the fuel runs out. *)
Fixpoint request_read_headers (fuel : nat) (buf : list Z) (s : stream) : option (outcome string (Z * stream)) :=
  match fuel with
  | O => None
  | S fuel =>
      let '(r, buf, s) := readline buf s in
      if r =? -1 then Some (Done (-1, s))
      else
        match is_crlf buf with
        | Done true => Some (Done (0, s))
        | Done false => request_read_headers fuel buf s
        | Fail e => Some (Fail e)
        | Crash e => Some (Crash e)
        end
  end.

(** [index(uri, '?')]: what is before the character and what is behind it. *)
Fixpoint index_of (c : Z) (s : list Z) : option (list Z * list Z) :=
  match s with
  | [] => None
  | x :: s => if x =? c then Some ([], s) else
      match index_of c s with None => None | Some (a, b) => Some (x :: a, b) end
  end.

(** A string written to an array of [size] characters. *)
Definition fits (size : nat) (s : list Z) : outcome string (list Z) :=
  if (length s <? size)%nat then Done s else Crash "overflow of an array"%string.

Definition last_is (c : Z) (s : list Z) : bool := match last s with Some x => x =? c | None => false end.

(** [is_static], [filename] and [cgiargs]. *)
Definition request_parse_uri (uri : list Z) : outcome string (bool * list Z * list Z) :=
  if negb (strstr uri (bytes "cgi")) then
    let* filename := fits MAXBUF (bytes "." ++ uri) in
    let* filename := (if last_is 47 uri then fits MAXBUF (filename ++ bytes "index.html") else Done filename) in
    Done (true, filename, [])
  else
    let '(uri, cgiargs) := match index_of 63 uri with Some (a, b) => (a, b) | None => (uri, []) end in
    let* filename := fits MAXBUF (bytes "." ++ uri) in
    Done (false, filename, cgiargs).

Definition request_get_filetype (filename : list Z) : string :=
  if strstr filename (bytes ".html") then "text/html"
  else if strstr filename (bytes ".gif") then "image/gif"
  else if strstr filename (bytes ".jpg") then "image/jpeg"
  else "text/plain".

(** What [stat] says of a file. *)
Record stat_t := mkStat { isreg : bool; rusr : bool; xusr : bool; st_size : Z }.

Inductive result := OK | NotFound | Forbidden | Error.

(** [Buffer_t] *)
Record Buffer_t := mkBuffer { fd : Z; is_static : bool; size : Z; pathname : list Z; cgiargs : list Z; handling : Z }.

(** [%s] of [sscanf]: a word and the rest. *)
Fixpoint skip_space (s : list Z) : list Z :=
  match s with
  | c :: s' => if isspace c then skip_space s' else s
  | [] => []
  end.

Fixpoint word (s : list Z) : list Z * list Z :=
  match s with
  | c :: s' => if isspace c then ([], s) else let '(w, r) := word s' in (c :: w, r)
  | [] => ([], [])
  end.

(** The second word of the line, [uri]; [None] when [sscanf] leaves it as it was. *)
Definition scan_uri (line : list Z) : option (list Z) :=
  let '(method, s) := word (skip_space line) in
  let '(uri, _) := word (skip_space s) in
  match uri with [] => None | _ => Some uri end.

(** The other direction of a connection: what was sent, and what the next calls of
    [write] do: fail, or send so many bytes of what they are given.  Behind the
    list a call sends all of them. *)
Record socket := mkSocket { s_out : list Z; s_writes : list (option nat) }.

Definition sock_write (bs : list Z) (k : socket) : bool * socket :=
  match k.(s_writes) with
  | [] => (true, mkSocket (k.(s_out) ++ bs) [])
  | Some n :: ws => (true, mkSocket (k.(s_out) ++ take n bs) ws)
  | None :: ws => (false, mkSocket k.(s_out) ws)
  end.

(** [if (write(fd, buf, strlen(buf)) == -1) return -1;], one text after the other. *)
Fixpoint sock_writes (texts : list (list Z)) (k : socket) : Z * socket :=
  match texts with
  | [] => (0, k)
  | t :: texts => let '(ok, k) := sock_write t k in if ok then sock_writes texts k else (-1, k)
  end.

Definition crlf : list Z := [13; 10].

(** The body of an error message. *)
Definition error_body (cause errnum shortmsg longmsg : list Z) : list Z :=
  bytes "<!doctype html>" ++ crlf ++ bytes "<head>" ++ crlf ++ bytes "  <title>OSTEP WebServer Error</title>" ++ crlf ++
  bytes "</head>" ++ crlf ++ bytes "<body>" ++ crlf ++
  bytes "  <h2>" ++ errnum ++ bytes ": " ++ shortmsg ++ bytes "</h2>" ++ crlf ++
  bytes "  <p>" ++ longmsg ++ bytes ": " ++ cause ++ bytes "</p>" ++ crlf ++
  bytes "</body>" ++ crlf ++ bytes "</html>" ++ crlf.

Definition request_error (cause : list Z) (errnum shortmsg longmsg : string) (k : socket) : outcome string (Z * socket) :=
  let* body := fits MAXBUF (error_body cause (bytes errnum) (bytes shortmsg) (bytes longmsg)) in
  Done (sock_writes
    [ bytes "HTTP/1.0 " ++ bytes errnum ++ bytes " " ++ bytes shortmsg ++ crlf;
      bytes "Content-Type: text/html" ++ crlf;
      bytes "Content-Length: " ++ decimal (Z.of_nat (length body)) ++ crlf ++ crlf;
      body ] k).

(** [if (request_error(...) == -1) return Error; return code;] *)
Definition reply (cause : list Z) (errnum shortmsg longmsg : string) (code : result) (k : socket) : outcome string (result * socket) :=
  let* '(r, k) := request_error cause errnum shortmsg longmsg k in
  Done (if r =? -1 then Error else code, k).

Section pre_handle.
Context (stat : list Z -> option stat_t).

(** [pre_handle_request] behind the reading of the request. *)
Definition handle_uri (conn : Z) (uri : list Z) (reqBuf : Buffer_t) (k : socket) : outcome string (result * Buffer_t * socket) :=
  let* '(static, filename, args) := request_parse_uri uri in
  match stat filename with
  | None => let* '(r, k) := reply filename "404" "Not found" "server could not find this file" NotFound k in Done (r, reqBuf, k)
  | Some sbuf =>
      if negb sbuf.(isreg) || negb (if (static : bool) then sbuf.(rusr) else sbuf.(xusr)) then
        let* '(r, k) := reply filename "403" "Forbidden"
                          (if (static : bool) then "server could not read this file" else "server could not run this CGI program") Forbidden k in
        Done (r, reqBuf, k)
      else
        let* path := fits SMALL_BUF filename in
        let* args := fits SMALL_BUF args in
        Done (OK, mkBuffer conn static sbuf.(st_size) path args 0, k)
  end.

Definition pre_handle_request (fuel : nat) (conn : Z) (buf hbuf : list Z) (s : stream) (reqBuf : Buffer_t) (k : socket) :
    option (outcome string (result * Buffer_t * socket)) :=
  let '(r, buf, s) := readline buf s in
  if r =? -1 then Some (Done (Error, reqBuf, k))
  else
    match scan_uri (upto_nul buf) with
    | None => Some (Crash "uri is not initialised"%string)
    | Some uri =>
        if strstr uri (bytes "..") then
          Some (let* '(_, k) := request_error uri "403" "Forbidden" "server could not read this file" k in Done (Forbidden, reqBuf, k))
        else
          match request_read_headers fuel hbuf s with
          | None => None
          | Some (Done (r, _)) => Some (if r =? -1 then Done (Error, reqBuf, k) else handle_uri conn uri reqBuf k)
          | Some (Fail e) => Some (Fail e)
          | Some (Crash e) => Some (Crash e)
          end
    end.

End pre_handle.

(** ** Reading lines *)

(** A line that fits into the array: not a byte of it is NUL, and only the last
    one is a newline. *)
Definition good_line (l : list Z) : Prop := full_line l /\ Forall (fun c => c <> 0) l /\ (length l <= MAXBUF - 1)%nat.

Lemma readline_loop_line a : forall k acc buf s, 10 ∉ a -> (length a < k)%nat ->
  readline_loop k acc buf ((Some <$> a ++ [10]) ++ s) = (Z.of_nat (length (acc ++ a)), put_string (acc ++ a ++ [10]) buf, s).
Proof.
  induction a as [|c a IH]; intros k acc buf s Ha Hk; (destruct k as [|k]; [cbn in Hk; lia|]); cbn [app fmap list_fmap readline_loop].
  - by rewrite app_nil_r.
  - apply not_elem_of_cons in Ha as [Hc Ha]. rewrite (proj2 (Z.eqb_neq c 10)) by congruence.
    change (fmap Some (a ++ [10])) with (Some <$> (a ++ [10])).
    rewrite (IH k (acc ++ [c]) buf s Ha) by (cbn in Hk; lia). by rewrite <- !app_assoc.
Qed.

Lemma readline_line l buf s : good_line l ->
  exists n, 0 <= n /\ readline buf ((Some <$> l) ++ s) = (n, put_string l buf, s).
Proof.
  intros ((a & -> & Ha) & _ & Hl). unfold readline. rewrite length_app in Hl. cbn [length] in Hl.
  rewrite (readline_loop_line a (MAXBUF - 1) [] buf s Ha) by lia. eexists. split; [|done]. lia.
Qed.

Lemma readline_eof buf : readline buf [] = (0, put_string [] buf, []).
Proof. done. Qed.

Lemma strcmp_strings a b r : Forall (fun c => c <> 0) a -> Forall (fun c => c <> 0) b ->
  strcmp_eq (a ++ 0 :: r) (b ++ [0]) = Done (bool_decide (a = b)).
Proof.
  intros Ha. revert b. induction Ha as [|x a Hx _ IH]; intros b Hb; destruct Hb as [|y b Hy Hb]; cbn [app strcmp_eq].
  - done.
  - rewrite (proj2 (Z.eqb_neq 0 y)) by congruence. done.
  - rewrite (proj2 (Z.eqb_neq x 0)) by done. done.
  - destruct (Z.eqb_spec x y) as [->|Hne].
    + rewrite (proj2 (Z.eqb_neq y 0)) by done. rewrite (IH b Hb). f_equal. apply bool_decide_ext. split; [by intros ->|]. congruence.
    + f_equal. symmetry. apply bool_decide_eq_false. congruence.
Qed.

Lemma is_crlf_string l buf : Forall (fun c => c <> 0) l -> is_crlf (put_string l buf) = Done (bool_decide (l = crlf)).
Proof. intros Hl. apply (strcmp_strings l crlf); [done|]. repeat (constructor; [lia|]). constructor. Qed.

Lemma good_crlf : good_line crlf.
Proof.
  split_and!; [exists [13]; split; [done|by rewrite list_elem_of_singleton]|repeat (constructor; [lia|]); constructor|cbn; lia].
Qed.

Lemma fmap_join_cons (l : list Z) ls s :
  (Some <$> mjoin (l :: ls)) ++ s = (Some <$> l) ++ (Some <$> mjoin ls) ++ s.
Proof. change (mjoin (l :: ls)) with (l ++ mjoin ls). by rewrite fmap_app, <- app_assoc. Qed.

(** The headers are read up to the empty line. *)
Lemma read_headers_ok hs : forall fuel buf s, Forall good_line hs -> crlf ∉ hs -> (length hs < fuel)%nat ->
  request_read_headers fuel buf ((Some <$> mjoin hs) ++ (Some <$> crlf) ++ s) = Some (Done (0, s)).
Proof.
  induction hs as [|h hs IH]; intros fuel buf s Hg Hn Hf; (destruct fuel as [|fuel]; [cbn in Hf; lia|]); cbn [request_read_headers].
  - destruct (readline_line crlf buf s good_crlf) as (n & Hn0 & E). change ((Some <$> mjoin []) ++ ?x) with x. rewrite E.
    rewrite (proj2 (Z.eqb_neq n (-1))) by lia. rewrite is_crlf_string by (apply good_crlf). by rewrite bool_decide_eq_true_2.
  - apply Forall_cons in Hg as [Hh Hg]. apply not_elem_of_cons in Hn as [Hne Hn]. rewrite fmap_join_cons.
    destruct (readline_line h buf ((Some <$> mjoin hs) ++ (Some <$> crlf) ++ s) Hh) as (n & Hn0 & E). rewrite E.
    rewrite (proj2 (Z.eqb_neq n (-1))) by lia. rewrite is_crlf_string by (apply Hh). rewrite bool_decide_eq_false_2 by congruence.
    apply IH; [done|done|cbn in Hf; lia].
Qed.

(** Without an empty line the loop goes on at the end of the file. *)
Lemma read_headers_eof fuel : forall buf, request_read_headers fuel buf [] = None.
Proof.
  induction fuel as [|fuel IH]; intros buf; [done|]. cbn [request_read_headers]. rewrite readline_eof. cbn [Z.eqb].
  rewrite is_crlf_string by constructor. by rewrite bool_decide_eq_false_2.
Qed.

Lemma read_headers_loops hs : forall fuel buf, Forall good_line hs -> crlf ∉ hs ->
  request_read_headers fuel buf (Some <$> mjoin hs) = None.
Proof.
  induction hs as [|h hs IH]; intros fuel buf Hg Hn; [apply read_headers_eof|]. destruct fuel as [|fuel]; [done|].
  apply Forall_cons in Hg as [Hh Hg]. apply not_elem_of_cons in Hn as [Hne Hn]. cbn [request_read_headers].
  change (mjoin (h :: hs)) with (h ++ mjoin hs). rewrite fmap_app.
  destruct (readline_line h buf (Some <$> mjoin hs) Hh) as (n & Hn0 & E). rewrite E.
  rewrite (proj2 (Z.eqb_neq n (-1))) by lia. rewrite is_crlf_string by (apply Hh). rewrite bool_decide_eq_false_2 by congruence.
  by apply IH.
Qed.

(** ** The request line *)

Definition is_word (w : list Z) : Prop := w <> [] /\ Forall (fun c => isspace c = false /\ c <> 0) w.

Lemma word_ok w r : Forall (fun c => isspace c = false /\ c <> 0) w -> match r with c :: _ => isspace c = true | [] => True end ->
  word (w ++ r) = (w, r).
Proof.
  intros Hw Hr. induction Hw as [|c w [Hc _] _ IH]; [destruct r as [|c r]; [done|]; cbn; by rewrite Hr|].
  cbn [app word]. by rewrite Hc, IH.
Qed.

Lemma skip_word w r : is_word w -> skip_space (w ++ r) = w ++ r.
Proof. intros [Hne Hw]. destruct Hw as [|c w [Hc _] _]; [done|]. cbn. by rewrite Hc. Qed.

(** The line [method uri version], with the end of line [e]. *)
Definition request_line (e method uri version : list Z) : list Z := method ++ 32 :: uri ++ 32 :: version ++ e.

Definition line_end (e : list Z) : Prop := e = [10] \/ e = crlf.

Lemma scan_uri_ok e method uri version : is_word method -> is_word uri ->
  scan_uri (request_line e method uri version) = Some uri.
Proof.
  intros Hm Hu. unfold scan_uri, request_line. rewrite skip_word by done. rewrite word_ok by (done || apply Hm).
  cbn [skip_space]. change (isspace 32) with true. cbn iota. rewrite skip_word by done. rewrite word_ok by (done || apply Hu).
  destruct uri; [by destruct Hu|done].
Qed.

Lemma word_no_newline w : is_word w -> 10 ∉ w.
Proof. intros [_ Hw] H. rewrite Forall_forall in Hw. by destruct (Hw 10 H). Qed.

Lemma request_line_good e method uri version : line_end e -> is_word method -> is_word uri -> is_word version ->
  (length method + length uri + length version + 4 <= 511)%nat -> good_line (request_line e method uri version).
Proof.
  intros He Hm Hu Hv Hl.
  assert (Ee : exists c, e = c ++ [10] /\ (10 ∉ c) /\ Forall (fun c => c <> 0) e /\ (length e <= 2)%nat).
  { destruct He as [->| ->]; [exists []|exists [13]]; (split; [done|]; split; [rewrite ?list_elem_of_singleton; intros Hx; by (apply elem_of_nil in Hx || lia)|]; split; [repeat (constructor; [lia|]); constructor|cbn; lia]). }
  destruct Ee as (c & Ec & Hc & Hz0 & Hle). unfold good_line, request_line. split_and!.
  - exists (method ++ 32 :: uri ++ 32 :: version ++ c). split.
    + rewrite Ec, <- app_assoc. cbn [app]. rewrite <- app_assoc. cbn [app]. by rewrite <- app_assoc.
    + pose proof (word_no_newline _ Hm). pose proof (word_no_newline _ Hu). pose proof (word_no_newline _ Hv).
      rewrite elem_of_app, elem_of_cons, elem_of_app, elem_of_cons, elem_of_app. intros [?|[?|[?|[?|[?|?]]]]]; done.
  - assert (Hz : forall w, is_word w -> Forall (fun c => c <> 0) w) by (intros w [_ Hw]; eapply Forall_impl; [exact Hw|]; by intros ? [_ ?]).
    apply Forall_app. split; [by apply Hz|]. constructor; [lia|]. apply Forall_app. split; [by apply Hz|]. constructor; [lia|].
    apply Forall_app. split; [by apply Hz|done].
  - change (MAXBUF - 1)%nat with 511%nat. rewrite !length_app. cbn [length]. rewrite !length_app. cbn [length]. rewrite length_app. lia.
Qed.

Lemma upto_nul_string l r : Forall (fun c => c <> 0) l -> upto_nul (l ++ 0 :: r) = l.
Proof. induction 1 as [|c l Hc _ IH]; [done|]. cbn. rewrite (proj2 (Z.eqb_neq c 0)) by done. by rewrite IH. Qed.

(** ** What is served *)

Lemma fits_Done n s r : fits n s = Done r -> r = s /\ (length s < n)%nat.
Proof. unfold fits. destruct (Nat.ltb_spec (length s) n); [|done]. intros [= <-]. done. Qed.

(** No two dots one behind the other. *)
Lemma strstr_false l p : strstr l p = false <-> ~ exists a b, l = a ++ p ++ b.
Proof. rewrite <- strstr_iff. by destruct (strstr l p). Qed.

(** A dot before a text that does not start with one. *)
Lemma dot_prefix x l : x <> 46 -> strstr (46 :: x :: l) (bytes "..") = strstr (x :: l) (bytes "..").
Proof.
  intros Hx. change (strstr (46 :: x :: l) (bytes "..")) with (((46 =? x) && true) || strstr (x :: l) (bytes "..")).
  by rewrite (proj2 (Z.eqb_neq 46 x)) by congruence.
Qed.

(** A text without two dots, that does not end with one, before another one. *)
Lemma dots_app l suffix :
  last l <> Some 46 -> strstr l (bytes "..") = false -> strstr suffix (bytes "..") = false ->
  strstr (l ++ suffix) (bytes "..") = false.
Proof.
  intros Hl H1 H2. induction l as [|c l IH]; [done|]. cbn [app]. change (strstr (c :: l ++ suffix) ?p) with (starts p (c :: l ++ suffix) || strstr (l ++ suffix) p).
  change (strstr (c :: l) ?p) with (starts p (c :: l) || strstr l p) in H1. apply orb_false_iff in H1 as [S1 H1].
  destruct l as [|d l].
  - cbn [app]. rewrite H2, orb_false_r. change (starts (bytes "..") (c :: suffix)) with ((46 =? c) && starts [46] suffix).
    rewrite (proj2 (Z.eqb_neq 46 c)); [done|]. intros <-. by apply Hl.
  - rewrite IH by done. rewrite orb_false_r. exact S1.
Qed.

(** The paths of requests for [/...] without [..] have no [..] either. *)
Lemma index_of_Some c l a b : index_of c l = Some (a, b) -> l = a ++ c :: b /\ c ∉ a.
Proof.
  revert a. induction l as [|y l IH]; intros a Ei; [done|]. cbn in Ei. destruct (Z.eqb_spec y c) as [->|Hy].
  - injection Ei as <- <-. split; [done|]. apply not_elem_of_nil.
  - destruct (index_of c l) as [[a' b']|]; [|done]. injection Ei as <- <-. destruct (IH a' eq_refl) as [-> Hn]. split; [done|].
    apply not_elem_of_cons. by split.
Qed.

Lemma index_of_None c l : index_of c l = None -> c ∉ l.
Proof.
  induction l as [|y l IH]; intros E; [apply not_elem_of_nil|]. cbn in E. destruct (Z.eqb_spec y c) as [|Hy]; [done|].
  destruct (index_of c l) as [[]|]; [done|]. apply not_elem_of_cons. split; [done|by apply IH].
Qed.

(** The file that a uri names: for a static one the uri behind a dot, and an index
    for a directory; for a program the uri up to the question mark behind a dot. *)
Definition names_path (uri : list Z) (static : bool) (path args : list Z) : Prop :=
  static = negb (strstr uri (bytes "cgi")) /\
  if static then path = bytes "." ++ uri ++ (if last_is 47 uri then bytes "index.html" else []) /\ args = []
  else exists u, path = bytes "." ++ u /\ (63 ∉ u) /\ (uri = u /\ args = [] \/ uri = u ++ 63 :: args).

Lemma parse_names uri static filename args : request_parse_uri uri = Done (static, filename, args) -> names_path uri static filename args.
Proof.
  unfold request_parse_uri, names_path. destruct (negb (strstr uri (bytes "cgi"))).
  - intros (f & [-> _]%fits_Done & H)%obind_Done. destruct (last_is 47 uri).
    + apply obind_Done in H as (f & [-> _]%fits_Done & H). injection H as <- <- <-. split; [done|]. split; reflexivity.
    + cbn [obind] in H. injection H as <- <- <-. rewrite app_nil_r. split; [done|]. split; reflexivity.
  - destruct (index_of 63 uri) as [[a b]|] eqn:E; intros (f & [-> _]%fits_Done & H)%obind_Done; injection H as <- <- <-; (split; [done|]).
    + destruct (index_of_Some _ _ _ _ E) as [-> Hn]. exists a. split_and!; [done|done|by right].
    + exists uri. split_and!; [done|by apply index_of_None|by left].
Qed.

(** Such a file is below the current directory when the uri starts with a slash. *)
Lemma names_below uri static path args : head uri = Some 47 -> names_path uri static path args -> bytes "./" `prefix_of` path.
Proof.
  intros Hh [_ H]. destruct uri as [|x uri]; [done|]. injection Hh as ->. destruct static.
  - destruct H as [-> _]. by eexists.
  - destruct H as (u & -> & Hn & [[<- _]|E]); [by eexists|]. destruct u as [|y u]; [discriminate E|]. injection E as <- _. by eexists.
Qed.

Lemma parse_confined uri static filename args :
  head uri = Some 47 -> strstr uri (bytes "..") = false -> request_parse_uri uri = Done (static, filename, args) ->
  strstr filename (bytes "..") = false.
Proof.
  intros Hh Hd H. destruct uri as [|x uri]; [done|]. injection Hh as ->. unfold request_parse_uri in H.
  assert (Hdot : forall l, strstr (47 :: l) (bytes "..") = false -> strstr (bytes "." ++ 47 :: l) (bytes "..") = false)
    by (intros l Hl; change (bytes "." ++ 47 :: l) with (46 :: 47 :: l); by rewrite dot_prefix).
  destruct (negb (strstr (47 :: uri) (bytes "cgi"))).
  - apply obind_Done in H as (f & Hf & H). apply fits_Done in Hf as [-> _]. unfold last_is in H.
    destruct (last (47 :: uri)) as [c|] eqn:El; [|by apply last_None in El]. destruct (Z.eqb_spec c 47) as [->|Hc].
    + apply obind_Done in H as (f & Hf & H). apply fits_Done in Hf as [-> _]. injection H as _ <- _.
      apply (dots_app (46 :: 47 :: uri) (bytes "index.html")); [|by apply Hdot|done]. intros Hx. change (last (47 :: uri) = Some 46) in Hx. congruence.
    + cbn [obind] in H. injection H as _ <- _. by apply Hdot.
  - destruct (match index_of 63 (47 :: uri) with Some (a, b) => (a, b) | None => (47 :: uri, []) end) as [u ar] eqn:E.
    apply obind_Done in H as (f & Hf & H). apply fits_Done in Hf as [-> _]. injection H as _ <- _. cbn [index_of] in E.
    change (47 =? 63) with false in E. cbn iota in E. destruct (index_of 63 uri) as [[a b]|] eqn:Ei; injection E as <- _; [|by apply Hdot].
    apply Hdot. apply strstr_false. intros (p & q & Hpq). apply strstr_false in Hd. apply Hd.
    destruct (index_of_Some _ _ _ _ Ei) as [Hi _].
    exists p, (q ++ 63 :: b). rewrite Hi. change (47 :: a ++ 63 :: b) with ((47 :: a) ++ 63 :: b). rewrite Hpq. by rewrite <- !app_assoc.
Qed.

Lemma handle_uri_OK stat conn uri b k b' k' :
  handle_uri stat conn uri b k = Done (OK, b', k') ->
  k' = k /\ exists static filename args st, request_parse_uri uri = Done (static, filename, args) /\ stat filename = Some st /\
    isreg st = true /\ (if static then rusr st else xusr st) = true /\
    b' = mkBuffer conn static (st_size st) filename args 0 /\ (length filename < SMALL_BUF)%nat /\ (length args < SMALL_BUF)%nat.
Proof.
  intros H. unfold handle_uri in H. apply obind_Done in H as ([[static filename] args] & Hp & H).
  assert (Hr : forall c e s l code x, code <> OK -> (let* '(r, k) := reply c e s l code k in Done (r, b, k)) <> Done (OK, b', x)).
  { intros c e sh l code x Hc Hx. apply obind_Done in Hx as ([r k1] & Hx & [= -> _ _]). unfold reply in Hx.
    apply obind_Done in Hx as ([z k2] & _ & [= Hz _]). by destruct (z =? -1). }
  destruct (stat filename) as [st|] eqn:Es; [|by apply Hr in H].
  destruct (isreg st) eqn:Er; cbn [negb orb] in H; [|by apply Hr in H].
  destruct (if static then rusr st else xusr st) eqn:Ep; cbn [negb] in H; [|by apply Hr in H].
  apply obind_Done in H as (f & Hf & H). apply obind_Done in H as (a & Ha & H).
  apply fits_Done in Hf as [-> Hf]. apply fits_Done in Ha as [-> Ha]. injection H as <- <-. split; [done|]. by exists static, filename, args, st.
Qed.

(** ** Short requests are answered *)

Lemma fits_ok n s : (length s < n)%nat -> fits n s = Done s.
Proof. intros H. unfold fits. by rewrite (proj2 (Nat.ltb_lt _ _) H). Qed.

(** The texts of an error without the cause. *)
Lemma length_error_body cause errnum shortmsg longmsg :
  length (error_body cause errnum shortmsg longmsg) = (128 + length errnum + length shortmsg + length longmsg + length cause)%nat.
Proof. unfold error_body. rewrite !length_app. change (length crlf) with 2%nat. cbn [length bytes]. lia. Qed.

Lemma request_error_short cause errnum shortmsg longmsg k :
  (length cause + length (bytes errnum) + length (bytes shortmsg) + length (bytes longmsg) <= 383)%nat ->
  exists r k', request_error cause errnum shortmsg longmsg k = Done (r, k').
Proof.
  intros H. unfold request_error. rewrite fits_ok by (rewrite length_error_body; unfold MAXBUF; lia). cbn [obind].
  destruct (sock_writes _ k) as [r k']. by exists r, k'.
Qed.

Lemma parse_short uri : (length uri <= 38)%nat -> exists static filename args,
  request_parse_uri uri = Done (static, filename, args) /\ (length filename < SMALL_BUF)%nat /\ (length args < SMALL_BUF)%nat.
Proof.
  intros H. unfold request_parse_uri. destruct (negb _).
  - rewrite fits_ok by (rewrite length_app; cbn; unfold MAXBUF; lia). cbn [obind]. destruct (last_is 47 uri).
    + rewrite fits_ok by (rewrite !length_app; cbn; unfold MAXBUF; lia). cbn [obind]. eexists _, _, _. split; [done|].
      rewrite !length_app. cbn. unfold SMALL_BUF. lia.
    + eexists _, _, _. split; [done|]. rewrite length_app. cbn. unfold SMALL_BUF. lia.
  - assert (Hi : forall u a b, index_of 63 u = Some (a, b) -> (length a + length b < length u)%nat).
    { induction u as [|x u IH]; intros a b E; [done|]. cbn in E. destruct (x =? 63); [injection E as <- <-; cbn; lia|].
      destruct (index_of 63 u) as [[a' b']|]; [|done]. injection E as <- <-. cbn. specialize (IH a' b' eq_refl). lia. }
    destruct (match index_of 63 uri with Some (a, b) => (a, b) | None => (uri, []) end) as [u a] eqn:E.
    assert (Hl : (length u <= 38 /\ length a <= 38)%nat).
    { destruct (index_of 63 uri) as [[x y]|] eqn:Ei; injection E as <- <-; [specialize (Hi _ _ _ Ei); lia|cbn; lia]. }
    rewrite fits_ok by (rewrite length_app; cbn; unfold MAXBUF; lia). cbn [obind]. eexists _, _, _. split; [done|].
    rewrite length_app. cbn. unfold SMALL_BUF. lia.
Qed.

Lemma handle_uri_returns stat conn uri b k : (length uri <= 38)%nat -> exists r, handle_uri stat conn uri b k = Done r.
Proof.
  intros H. unfold handle_uri. destruct (parse_short uri H) as (static & filename & args & -> & Hf & Ha). cbn [obind].
  assert (Hr : forall e s l code, (length (bytes e) + length (bytes s) + length (bytes l) <= 300)%nat ->
    exists r, (let* '(r, k) := reply filename e s l code k in Done (r, b, k)) = Done r).
  { intros e s l code Hl. unfold reply. destruct (request_error_short filename e s l k) as (r & k' & ->); [unfold SMALL_BUF in Hf; lia|].
    by eexists. }
  destruct (stat filename) as [st|]; [|apply Hr; cbn; lia]. destruct (negb (isreg st) || _).
  - apply Hr. destruct static; cbn; lia.
  - rewrite !fits_ok by done. by eexists.
Qed.

(** A request of a line, headers and an empty line is read to its end. *)
Lemma pre_handle_reads stat conn buf hbuf b k e method uri version hs rest :
  line_end e -> is_word method -> is_word uri -> is_word version ->
  (length method + length uri + length version + 4 <= 511)%nat -> Forall good_line hs -> crlf ∉ hs ->
  pre_handle_request stat (S (length hs)) conn buf hbuf
    ((Some <$> request_line e method uri version) ++ (Some <$> mjoin hs) ++ (Some <$> crlf) ++ rest) b k =
  Some (if strstr uri (bytes "..")
    then let* '(_, k) := request_error uri "403" "Forbidden" "server could not read this file" k in Done (Forbidden, b, k)
    else handle_uri stat conn uri b k).
Proof.
  intros He Hm Hu Hv Hl Hg Hn. unfold pre_handle_request. pose proof (request_line_good _ _ _ _ He Hm Hu Hv Hl) as Hgl.
  destruct (readline_line _ buf ((Some <$> mjoin hs) ++ (Some <$> crlf) ++ rest) Hgl) as (n & Hn0 & ->).
  rewrite (proj2 (Z.eqb_neq n (-1))) by lia. unfold put_string. rewrite upto_nul_string by (apply Hgl).
  rewrite scan_uri_ok by done. destruct (strstr uri (bytes "..")); [done|]. by rewrite read_headers_ok by (done || lia).
Qed.

(** ** Properties *)

(** C26: a request of a line [method uri version], headers and an empty line is
    read to its end.  A uri with [..] is forbidden; otherwise the answer is that
    of [handle_uri].  When the uri starts with a slash and the answer is [OK],
    the file is regular, exists with the permission that is needed, its size is
    the one [stat] gave, and its path is the one the uri names: it begins with [./] and
    has no [..], so that it is below the directory of the server; nothing has been sent.  A uri of at most 38 characters is always
    answered: no array overflows. *)
Theorem request_handled stat conn buf hbuf b k e method uri version hs rest :
  line_end e -> is_word method -> is_word uri -> is_word version ->
  (length method + length uri + length version + 4 <= 511)%nat -> Forall good_line hs -> crlf ∉ hs ->
  let s := (Some <$> request_line e method uri version) ++ (Some <$> mjoin hs) ++ (Some <$> crlf) ++ rest in
  let answer := if strstr uri (bytes "..")
    then let* '(_, k) := request_error uri "403" "Forbidden" "server could not read this file" k in Done (Forbidden, b, k)
    else handle_uri stat conn uri b k in
  pre_handle_request stat (S (length hs)) conn buf hbuf s b k = Some answer /\
  (head uri = Some 47 -> forall b' k', answer = Done (OK, b', k') ->
     exists st, stat b'.(pathname) = Some st /\ isreg st = true /\ (if b'.(is_static) then rusr st else xusr st) = true /\
       b'.(size) = st_size st /\ b'.(fd) = conn /\ names_path uri b'.(is_static) b'.(pathname) b'.(cgiargs) /\
       bytes "./" `prefix_of` b'.(pathname) /\ strstr b'.(pathname) (bytes "..") = false /\
       (length b'.(pathname) < SMALL_BUF)%nat /\ k' = k) /\
  ((length uri <= 38)%nat -> exists r, answer = Done r).
Proof.
  intros He Hm Hu Hv Hl Hg Hn s answer. split_and!.
  - by apply pre_handle_reads.
  - intros Hh b' k' H. subst answer. destruct (strstr uri (bytes "..")) eqn:Ed.
    { by apply obind_Done in H as ([r k1] & _ & [=]). }
    destruct (handle_uri_OK _ _ _ _ _ _ _ H) as (-> & static & filename & args & st & Hp & Hs & Hr & Hx & -> & Hf & _).
    exists st. cbn [pathname is_static size fd cgiargs]. pose proof (parse_names _ _ _ _ Hp) as Hnm. split_and!; try done; [by eapply names_below|by eapply parse_confined].
  - intros Hs. subst answer. destruct (strstr uri (bytes "..")); [|by apply handle_uri_returns].
    destruct (request_error_short uri "403" "Forbidden" "server could not read this file" k) as (r & k' & ->); [cbn; lia|]. by eexists.
Qed.

Lemma is_word_dec w : w <> [] -> forallb (fun c => negb (isspace c) && negb (c =? 0)) w = true -> is_word w.
Proof.
  intros Hne Hf. split; [exact Hne|]. apply Forall_forall. intros c Hc. rewrite forallb_forall in Hf.
  specialize (Hf c ltac:(by apply list_elem_of_In)). apply andb_true_iff in Hf as [H1 H2].
  split; [by destruct (isspace c)|]. intros ->. discriminate H2.
Qed.

(** [GET /a HTTP/1.0] with one header. *)
Lemma request_handled_witness :
  let stat := fun f => if decide (f = bytes "./a") then Some (mkStat true true false 7) else None in
  pre_handle_request stat 2 3 [] []
    ((Some <$> request_line crlf (bytes "GET") (bytes "/a") (bytes "HTTP/1.0")) ++
     (Some <$> mjoin [bytes "Host: x" ++ crlf]) ++ (Some <$> crlf) ++ []) (mkBuffer 0 false 0 [] [] 0) (mkSocket [] []) =
  Some (Done (OK, mkBuffer 3 true 7 (bytes "./a") [] 0, mkSocket [] [])).
Proof.
  intros stat.
  destruct (request_handled stat 3 [] [] (mkBuffer 0 false 0 [] [] 0) (mkSocket [] []) crlf (bytes "GET") (bytes "/a") (bytes "HTTP/1.0")
    [bytes "Host: x" ++ crlf] []) as [H _].
  - by right.
  - apply is_word_dec; [discriminate|reflexivity].
  - apply is_word_dec; [discriminate|reflexivity].
  - apply is_word_dec; [discriminate|reflexivity].
  - vm_compute. lia.
  - constructor; [|constructor]. split_and!.
    + exists (bytes "Host: x" ++ [13]). split; [reflexivity|]. vm_compute. intros H.
      repeat (apply elem_of_cons in H as [H|H]; [discriminate|]). by apply elem_of_nil in H.
    + vm_compute. repeat (constructor; [discriminate|]). constructor.
    + vm_compute. lia.
  - intros H. apply list_elem_of_singleton in H. discriminate.
  - exact H.
Defined.

(** Four ways to break the server.  A uri that starts with [./] leads out of
    the directory of the server, since only a dot is put before it; a client that
    sends headers without an empty line and closes the connection keeps the
    master thread in [request_read_headers] for ever; the path of a file that
    exists, when it has 50 characters or more, is copied over the end of
    [pathname]; and the path of one that does not, when it has 341 or more, over
    the end of the body of the message. *)
Lemma request_defects :
  (forall stat conn b k n, stat (bytes "../x") = Some (mkStat true true false n) ->
     pre_handle_request stat 1 conn [] [] (Some <$> bytes "GET ./x HTTP/1.0" ++ crlf ++ crlf) b k =
     Some (Done (OK, mkBuffer conn true n (bytes "../x") [] 0, k))) /\
  (forall fuel buf hs, Forall good_line hs -> crlf ∉ hs -> request_read_headers fuel buf (Some <$> mjoin hs) = None) /\
  (forall stat conn b k uri filename args n, request_parse_uri uri = Done (true, filename, args) ->
     stat filename = Some (mkStat true true false n) -> (50 <= length filename)%nat ->
     handle_uri stat conn uri b k = Crash "overflow of an array"%string) /\
  (forall stat conn b k uri static filename args, request_parse_uri uri = Done (static, filename, args) ->
     stat filename = None -> (341 <= length filename)%nat ->
     handle_uri stat conn uri b k = Crash "overflow of an array"%string).
Proof.
  split_and!.
  - intros stat conn b k n Hs. unfold pre_handle_request.
    assert (E1 : readline [] (Some <$> bytes "GET ./x HTTP/1.0" ++ crlf ++ crlf) = (17, bytes "GET ./x HTTP/1.0" ++ crlf ++ [0], Some <$> crlf))
      by (vm_compute; reflexivity).
    rewrite E1. cbn [Z.eqb]. assert (E2 : scan_uri (upto_nul (bytes "GET ./x HTTP/1.0" ++ crlf ++ [0])) = Some (bytes "./x")) by (vm_compute; reflexivity).
    rewrite E2. assert (E3 : strstr (bytes "./x") (bytes "..") = false) by (vm_compute; reflexivity). rewrite E3.
    assert (E4 : request_read_headers 1 [] (Some <$> crlf) = Some (Done (0, []))) by (vm_compute; reflexivity). rewrite E4.
    cbn [Z.eqb]. unfold handle_uri. assert (E5 : request_parse_uri (bytes "./x") = Done (true, bytes "../x", [])) by (vm_compute; reflexivity).
    rewrite E5. cbn [obind]. rewrite Hs. reflexivity.
  - intros fuel buf hs. apply read_headers_loops.
  - intros stat conn b k uri filename args n Hp Hs Hl. unfold handle_uri. rewrite Hp. cbn [obind]. rewrite Hs.
    cbn [isreg rusr negb orb]. unfold fits at 1. destruct (Nat.ltb_spec (length filename) SMALL_BUF) as [H|_]; [unfold SMALL_BUF in H; lia|done].
  - intros stat conn b k uri static filename args Hp Hs Hl. unfold handle_uri. rewrite Hp. cbn [obind]. rewrite Hs.
    unfold reply, request_error. unfold fits at 1. rewrite length_error_body. cbn [length bytes].
    destruct (Nat.ltb_spec (128 + 3 + 9 + 31 + length filename) MAXBUF) as [H|_]; [unfold MAXBUF in H; lia|done].
Qed.
