(* ===== verification/Processes.v ===== *)
(** * Processes, pipes and signals

    The exercises of chapters 5 and 6 ([5/1.c] to [5/10.c] and the second half of
    [6/1.c]) on a machine of Unix processes: [fork], [exec], [wait], one pipe, the
    signal [SIGUSR1], a shared file, and the buffer of [stdout], which a process
    writes out at the end of a line on a terminal and when it exits elsewhere.  A step of the machine is one
    command of one process.  A program is the list of its commands; [check]
    tries all the schedules of a program without loops. *)

From Stdlib Require Import ZArith Lia String.
From stdpp Require Import base tactics list numbers relations.
From S2P Require Import Prelude Cstring Request.

Local Open Scope string_scope.
Local Open Scope Z_scope.

(** ** The machine *)

Definition BUFSIZ : nat := Z.to_nat 8192.

(** The two ends of the pipe. *)
Inductive pipe_end := RD | WR.

(** [x] is the variable of [1.c], [mem] the array of a program, [ret] the last
    result of [wait], [wexited] whether that child ended by itself, [kids] the
    results of [fork]. *)
Record vars := mkVars { x : Z; mem : list Z; ret : Z; wexited : bool; kids : list Z }.

(** What [printf] prints: the format and its arguments. *)
Definition line : Type := string * list Z.

Inductive cmd :=
| Printf (fmt : string) (args : Z -> vars -> list Z) (** of the parent and the variables *)
| Set_x (v : Z)
| Fork (child : list cmd)
| Exec (output : line)
| Wait (** [wait(NULL)] *)
| Waitpid (i : nat) (** [waitpid(rc[i], ...)] *)
| Sigaction
| Block (** [sigprocmask(SIG_BLOCK, ...)] *)
| KillParent (** [kill(getppid(), SIGUSR1)] *)
| While_flag (** [while (sigflag == 0) sigsuspend(&old_mask);] *)
| Sigsuspend
| Suspended (** inside [sigsuspend] *)
| Pipe
| Close (e : pipe_end)
| Write (bs : list Z)
| Read (n : nat) (** into an array with [mem] in it *)
| Close_stdout
| Putc (c : Z) (** [fputc] and [fflush] *)
| Reread (** [fseek] to the start and [fread] of the file into the array *)
| Subreaper
| Sleep.

Record proc := mkProc {
  pid : Z; ppid : Z; code : list cmd; zombie : bool; killed : bool; v : vars;
  obuf : list line; out_open : bool; rd_open : bool; wr_open : bool;
  handler : bool; blocked : bool; pending : bool; sigflag : bool; reaper : bool }.

(** [tty]: the output is a terminal; [room]: whether [fork] can succeed; [file]:
    the bytes of the file, whose offset the processes share. *)
Record sys := mkSys { procs : list proc; next_pid : Z; pipe : list Z; screen : list line; file : list Z; tty : bool; room : bool }.

Definition set_code (c : list cmd) (p : proc) : proc :=
  mkProc p.(pid) p.(ppid) c p.(zombie) p.(killed) p.(v) p.(obuf) p.(out_open) p.(rd_open) p.(wr_open) p.(handler) p.(blocked) p.(pending) p.(sigflag) p.(reaper).
Definition set_vars (w : vars) (p : proc) : proc :=
  mkProc p.(pid) p.(ppid) p.(code) p.(zombie) p.(killed) w p.(obuf) p.(out_open) p.(rd_open) p.(wr_open) p.(handler) p.(blocked) p.(pending) p.(sigflag) p.(reaper).
Definition set_obuf (o : list line) (p : proc) : proc :=
  mkProc p.(pid) p.(ppid) p.(code) p.(zombie) p.(killed) p.(v) o p.(out_open) p.(rd_open) p.(wr_open) p.(handler) p.(blocked) p.(pending) p.(sigflag) p.(reaper).
Definition set_fds (o r w : bool) (p : proc) : proc :=
  mkProc p.(pid) p.(ppid) p.(code) p.(zombie) p.(killed) p.(v) p.(obuf) o r w p.(handler) p.(blocked) p.(pending) p.(sigflag) p.(reaper).
Definition set_sig (h b pd f : bool) (p : proc) : proc :=
  mkProc p.(pid) p.(ppid) p.(code) p.(zombie) p.(killed) p.(v) p.(obuf) p.(out_open) p.(rd_open) p.(wr_open) h b pd f p.(reaper).
Definition set_parent (pp : Z) (p : proc) : proc :=
  mkProc p.(pid) pp p.(code) p.(zombie) p.(killed) p.(v) p.(obuf) p.(out_open) p.(rd_open) p.(wr_open) p.(handler) p.(blocked) p.(pending) p.(sigflag) p.(reaper).

Definition set_procs (ps : list proc) (s : sys) : sys := mkSys ps s.(next_pid) s.(pipe) s.(screen) s.(file) s.(tty) s.(room).
Definition show (ls : list line) (s : sys) : sys := mkSys s.(procs) s.(next_pid) s.(pipe) (s.(screen) ++ ls) s.(file) s.(tty) s.(room).
Definition set_pipe (bs : list Z) (s : sys) : sys := mkSys s.(procs) s.(next_pid) bs s.(screen) s.(file) s.(tty) s.(room).
Definition set_file (bs : list Z) (s : sys) : sys := mkSys s.(procs) s.(next_pid) s.(pipe) s.(screen) bs s.(tty) s.(room).

(** Process [i] becomes [p]. *)
Definition put (i : nat) (p : proc) (s : sys) : sys := set_procs (<[i := p]> s.(procs)) s.

(** Writing the buffer out; on a closed descriptor it is lost. *)
Definition flush (i : nat) (p : proc) (s : sys) : sys :=
  put i (set_obuf [] p) (if p.(out_open) then show p.(obuf) s else s).

(** A signal is delivered to a process that is suspended for it, is kept while it is
    blocked, and otherwise runs the handler or ends the process. *)
Definition signal (p : proc) : proc :=
  match p.(code) with
  | Suspended :: rest => set_code rest (set_sig p.(handler) p.(blocked) p.(pending) true p)
  | _ =>
  if p.(blocked) then set_sig p.(handler) true true p.(sigflag) p
  else if p.(handler) then set_sig true false p.(pending) true p
  else mkProc p.(pid) p.(ppid) [] true true p.(v) [] false false false p.(handler) p.(blocked) p.(pending) p.(sigflag) p.(reaper)
  end.

(** The children of a process that ends go to the nearest subreaper, here the
    first process if it is one, or to process 1. *)
Definition new_parent (s : sys) : Z := match s.(procs) with p :: _ => if p.(reaper) && negb p.(zombie) then p.(pid) else 1 | [] => 1 end.

Definition do_exit (i : nat) (p : proc) (s : sys) : sys :=
  let s := flush i p s in
  let dead := mkProc p.(pid) p.(ppid) [] true false p.(v) [] false false false p.(handler) p.(blocked) p.(pending) p.(sigflag) false in
  let s := put i dead s in
  set_procs ((fun q => if q.(ppid) =? p.(pid) then set_parent (new_parent s) q else q) <$> s.(procs)) s.

(** The child of [wait] to collect: [Some None] when there is none, [None] when the
    call blocks.  A collected child has parent 0. *)
Definition collect (me : Z) (want : option Z) (s : sys) : option (option (nat * proc)) :=
  let mine q := (q.(ppid) =? me) && match want with Some c => q.(pid) =? c | None => true end in
  match list_find (fun q => mine q && q.(zombie) = true) s.(procs) with
  | Some (j, q) => Some (Some (j, q))
  | None => if existsb mine s.(procs) then None else Some None
  end.

Definition do_wait (want : option Z) (i : nat) (p : proc) (s : sys) : option sys :=
  let set r w := set_vars (mkVars p.(v).(x) p.(v).(mem) r w p.(v).(kids)) p in
  match collect p.(pid) want s with
  | None => None
  | Some None => Some (put i (set (-1) p.(v).(wexited)) s)
  | Some (Some (j, q)) => Some (put i (set q.(pid) (negb q.(killed))) (put j (set_parent 0 q) s))
  end.

(** A command of process [i], which goes on with [p]; [None] when it blocks. *)
Definition exec_cmd (c : cmd) (i : nat) (p : proc) (s : sys) : option sys :=
  match c with
  | Printf fmt args =>
      let p := set_obuf (p.(obuf) ++ [(fmt, args p.(ppid) p.(v))]) p in
      Some (if s.(tty) then flush i p s else put i p s)
  | Set_x n => Some (put i (set_vars (mkVars n p.(v).(mem) p.(v).(ret) p.(v).(wexited) p.(v).(kids)) p) s)
  | Fork child =>
      if s.(room) then
        let c := mkProc s.(next_pid) p.(pid) child false false p.(v) p.(obuf) p.(out_open) p.(rd_open) p.(wr_open)
                   p.(handler) p.(blocked) false p.(sigflag) false in
        let p := set_vars (mkVars p.(v).(x) p.(v).(mem) p.(v).(ret) p.(v).(wexited) (p.(v).(kids) ++ [s.(next_pid)])) p in
        Some (mkSys (<[i := p]> s.(procs) ++ [c]) (s.(next_pid) + 1) s.(pipe) s.(screen) s.(file) s.(tty) s.(room))
      else Some (put i (set_code [] p) s)
  | Exec output => Some (put i (set_code [] (set_obuf [output] p)) s)
  | Wait => do_wait None i p s
  | Waitpid k => match p.(v).(kids) !! k with Some c => do_wait (Some c) i p s | None => do_wait None i p s end
  | Sigaction => Some (put i (set_sig true p.(blocked) p.(pending) p.(sigflag) p) s)
  | Block => Some (put i (set_sig p.(handler) true p.(pending) p.(sigflag) p) s)
  | KillParent =>
      let s := put i p s in
      Some (set_procs ((fun q => if (q.(pid) =? p.(ppid)) && negb q.(zombie) then signal q else q) <$> s.(procs)) s)
  | While_flag => Some (put i (if p.(sigflag) then p else set_code (Sigsuspend :: While_flag :: p.(code)) p) s)
  | Sigsuspend =>
      Some (put i (if p.(pending) then set_sig p.(handler) p.(blocked) false true p else set_code (Suspended :: p.(code)) p) s)
  | Suspended => None
  | Pipe => Some (put i (set_fds p.(out_open) true true p) s)
  | Close RD => Some (put i (set_fds p.(out_open) false p.(wr_open) p) s)
  | Close WR => Some (put i (set_fds p.(out_open) p.(rd_open) false p) s)
  | Write bs => Some (put i p (set_pipe (s.(pipe) ++ bs) s))
  | Read n =>
      if (n =? 0)%nat then Some (put i p s)
      else if bool_decide (s.(pipe) = []) && existsb (fun q => q.(wr_open)) s.(procs) then None
      else
        let got := take n s.(pipe) in
        Some (put i (set_vars (mkVars p.(v).(x) (got ++ drop (length got) p.(v).(mem)) p.(v).(ret) p.(v).(wexited) p.(v).(kids)) p) (set_pipe (drop n s.(pipe)) s))
  | Close_stdout => Some (put i (set_fds false p.(rd_open) p.(wr_open) p) s)
  | Putc c => Some (put i p (set_file (s.(file) ++ [c]) s))
  | Reread =>
      let got := take BUFSIZ s.(file) in
      Some (put i (set_vars (mkVars p.(v).(x) (got ++ drop (length got) p.(v).(mem))%list p.(v).(ret) p.(v).(wexited) p.(v).(kids)) p) s)
  | Subreaper => Some (put i (mkProc p.(pid) p.(ppid) p.(code) p.(zombie) p.(killed) p.(v) p.(obuf) p.(out_open) p.(rd_open) p.(wr_open)
                                p.(handler) p.(blocked) p.(pending) p.(sigflag) true) s)
  | Sleep => Some (put i p s)
  end.

(** A step of process [i]: its next command, or its exit. *)
Definition pstep (i : nat) (s : sys) : option sys :=
  match s.(procs) !! i with
  | None => None
  | Some p =>
      if p.(zombie) then None
      else match p.(code) with
           | [] => Some (do_exit i p s)
           | c :: rest => exec_cmd c i (set_code rest p) s
           end
  end.

Inductive sstep : sys -> sys -> Prop :=
| sstep_intro i s s' : pstep i s = Some s' -> sstep s s'.

Definition no_step (s : sys) : Prop := forall s', ~ sstep s s'.

(** The first process; process 1 is not among them. *)
Definition start (tty room : bool) (mem : list Z) (code : list cmd) : sys :=
  mkSys [mkProc 10 2 code false false (mkVars 0 mem 0 false []) [] true false false false false false false false] 11 [] [] [] tty room.

(** ** All the schedules *)

Definition nexts (s : sys) : list sys := omap (fun i => pstep i s) (seq 0 (length s.(procs))).

(** Every run ends within [fuel] steps, in a state with [P]. *)
Fixpoint check (fuel : nat) (P : sys -> Prop) (s : sys) : Prop :=
  match nexts s with
  | [] => P s
  | ss => match fuel with O => False | S fuel => foldr (fun s Q => check fuel P s /\ Q) True ss end
  end.

Lemma sstep_nexts s s' : sstep s s' <-> s' ∈ nexts s.
Proof.
  unfold nexts. rewrite list_elem_of_omap. split.
  - intros [i s1 s2 H]. exists i. split; [|done]. apply elem_of_seq. unfold pstep in H.
    destruct (procs s1 !! i) as [p|] eqn:E; [|done]. apply lookup_lt_Some in E. lia.
  - intros (i & _ & H). by econstructor.
Qed.

Lemma check_all fuel P s ss : foldr (fun s Q => check fuel P s /\ Q) True ss -> s ∈ ss -> check fuel P s.
Proof. induction ss as [|s1 ss IH]; intros H; [by intros ?%elem_of_nil|]. destruct H as [H1 H2]. intros [->|Hs]%elem_of_cons; [done|by apply IH]. Qed.

(** What a program does under every schedule: it ends, after a bounded number of steps,
    and then [P] holds. *)
Definition always (bound : nat) (P : sys -> Prop) (s : sys) : Prop :=
  (forall k s', nsteps sstep k s s' -> (k <= bound)%nat) /\ (forall s', rtc sstep s s' -> no_step s' -> P s').

Lemma check_sound fuel P : forall s, check fuel P s -> always fuel P s.
Proof.
  unfold always. induction fuel as [|fuel IH]; intros s Hc; cbn [check] in Hc; destruct (nexts s) as [|s1 ss] eqn:En; try done.
  1, 2: assert (Hn : no_step s) by (intros s' H%sstep_nexts; rewrite En in H; by apply elem_of_nil in H); split;
    [intros k s' Hk; destruct Hk as [|? ? ? ? Hs]; [lia|by destruct (Hn _ Hs)]|intros s' Hr _; inversion Hr as [|? ? ? Hs]; subst; [done|by destruct (Hn _ Hs)]].
  rewrite <- En in Hc. split.
  - intros k s' Hk. destruct Hk as [|k a b c Hs Hk]; [lia|]. apply sstep_nexts in Hs. destruct (IH b) as [H _]; [by eapply check_all|].
    apply H in Hk. lia.
  - intros s' Hr Hst. inversion Hr as [|? b ? Hs Hr']; subst.
    + exfalso. apply (Hst s1). apply sstep_nexts. rewrite En. by left.
    + apply sstep_nexts in Hs. destruct (IH b) as [_ H]; [by eapply check_all|]. by apply H.
Qed.

(** ** The programs *)

Definition no_args (_ : Z) (_ : vars) : list Z := [].
Definition say (text : string) : cmd := Printf text no_args.

(** [1.c] *)
Definition main_1 : list cmd :=
  [ Set_x 100;
    Fork [ Printf "x in child process before changing: %d" (fun _ w => [w.(x)]); Set_x 101; Printf "x in child process: %d" (fun _ w => [w.(x)]) ];
    Set_x 102; Printf "x in parent process: %d" (fun _ w => [w.(x)]); Wait ].

(** [2.c]: the characters up to the length of the two strings, and those behind that
    are not zero, with their positions. *)
Definition chars_shown (n : nat) (buf : list Z) : list Z :=
  imap (fun i c => (i, c)) (take (n + 100) buf) ≫= fun '(i, c) => if (n <? i)%nat && (c =? 0) then [] else [Z.of_nat i; c].

Definition tail_2 (n : nat) : list cmd :=
  [ Wait; Putc 0; say "file contents:"; Reread; Printf "%ldth char:%d" (fun _ w => chars_shown n w.(mem)); Printf "%s" (fun _ w => upto_nul w.(mem)) ].

Definition main_2 (child_says parent_says : list Z) : list cmd :=
  (Fork (Putc <$> child_says) :: (Putc <$> parent_says) ++ tail_2 (length child_says + length parent_says))%list.

(** [3.c] with [-s] and with [-p] *)
Definition wait_with_signal : list cmd :=
  [ say "wait with signal"; Sigaction; Block; Fork [ say "hello"; KillParent ]; While_flag; say "goodbye" ].

Definition wait_with_pipe : list cmd :=
  [ say "wait with pipe"; Pipe; Fork [ say "hello"; Close RD; Write [99]; Close WR ]; Close WR; Read 1; Close RD; say "goodbye" ].

(** [4.c]: the value of [PATH], and what [ls] prints. *)
Definition main_4 (path : option (list Z)) (ls : list Z) : list cmd :=
  match path with
  | None => []
  | Some path =>
      if (800 <=? length path)%nat then []
      else
        let run name := Fork [ say name; Exec ("%s", ls) ] in
        [ Printf "PATH: %s" (fun _ _ => path); run "execl:"; Wait; run "execlp:"; Wait; run "execle:"; Wait; run "execv:"; Wait;
          run "execvp:"; Wait; run "execve:"; say "Use __GNU_LIBRARY__"; Wait; run "execvpe:"; Wait; run "fexecve:" ]
  end.

(** [5.c] *)
Definition main_5 : list cmd :=
  [ Fork [ Wait; Printf "child wait return: %d" (fun _ w => [w.(ret)]) ]; Wait; Printf "parent wait return: %d" (fun _ w => [w.(ret)]) ].

(** [6.c] *)
Definition main_6 : list cmd :=
  [ Fork [ Wait; Printf "child wait return: %d" (fun _ w => [w.(ret)]) ]; Waitpid 0; Printf "parent wait return: %d" (fun _ w => [w.(ret)]);
    Printf "if the child terminated normally: %s" (fun _ w => [Z.b2z w.(wexited)]) ].

(** [7.c] *)
Definition main_7 : list cmd :=
  [ Fork [ Close_stdout; say "child calls printf()." ]; Wait; say "parent calls printf()." ].

(** [8.c]: the array is printed up to its first zero. *)
Definition hello_8 : list Z := bytes "First child says hello.".

Definition main_8 : list cmd :=
  [ Pipe; Fork [ Close RD; Write hello_8 ];
    Fork [ Close WR; Read BUFSIZ; Printf "Second child print: %s" (fun _ w => upto_nul w.(mem)) ];
    Waitpid 0; Waitpid 1 ].

(** [9.c] *)
Definition main_9 (has_prctl : bool) : list cmd :=
  [ say "main process id" ] ++ (if has_prctl then [ Subreaper ] else []) ++
  [ Fork [ Fork [ Sleep; Printf "third process's parent pid: %d" (fun pp _ => [pp]) ] ];
    Printf "second process id: %d" (fun _ w => w.(kids)); Waitpid 0 ] ++ (if has_prctl then [ Wait ] else []).

(** [10.c]: [posix_spawnp] runs [ls] in a child. *)
Definition main_10 (ls : list Z) : list cmd :=
  [ Fork [ Exec ("%s", ls) ]; Printf "PID of child: %d" (fun _ w => w.(kids)); Wait; say "Done" ].

(** All processes have ended, and [P] holds of the lines of the output. *)
Definition ended_with (P : list line -> Prop) (s : sys) : Prop := forallb zombie s.(procs) = true /\ P s.(screen).

(** [l] is made of the lines of [a] and [b], each in its order. *)
Inductive merge {A} : list A -> list A -> list A -> Prop :=
| merge_nil : merge [] [] []
| merge_l c a b l : merge a b l -> merge (c :: a) b (c :: l)
| merge_r c a b l : merge a b l -> merge a (c :: b) (c :: l).

Ltac all_schedules := apply check_sound; vm_compute; repeat split; try reflexivity.

(** [1.c]: the copies of [x] are separate. *)
Lemma main_1_ok tty : always 10 (ended_with (merge
  [("x in child process before changing: %d", [100]); ("x in child process: %d", [101])] [("x in parent process: %d", [102])])) (start tty true [] main_1).
Proof. destruct tty; all_schedules; repeat constructor. Qed.

(** [3.c] on a terminal: no signal is lost, and the parent comes second. *)
Lemma signal_ok g : always 13 (ended_with (eq [("wait with signal", []); ("hello", []); ("goodbye", [])])) (start true true g wait_with_signal).
Proof. all_schedules. Qed.

Lemma pipe_ok : always 13 (ended_with (eq [("wait with pipe", []); ("hello", []); ("goodbye", [])])) (start true true [0] wait_with_pipe).
Proof. all_schedules. Qed.

(** A run along a schedule. *)
Fixpoint run (sched : list nat) (s : sys) : option sys :=
  match sched with [] => Some s | i :: sched => match pstep i s with Some s' => run sched s' | None => None end end.

Lemma run_rtc sched : forall s s', run sched s = Some s' -> rtc sstep s s'.
Proof.
  induction sched as [|i sched IH]; intros s s' E; cbn in E; [by injection E as <-|]. destruct (pstep i s) as [s1|] eqn:Ei; [|done].
  eapply rtc_l; [by econstructor|by apply IH].
Qed.

Lemma run_to (P : sys -> Prop) sched s : match run sched s with Some s' => P s' | None => False end -> exists s', rtc sstep s s' /\ P s'.
Proof. destruct (run sched s) as [s'|] eqn:E; [|done]. intros H. exists s'. split; [by eapply run_rtc|done]. Qed.

(** Elsewhere the lines stay in the buffers: the first one is printed twice, and the
    parent can come first. *)
Lemma signal_buffered : exists s, rtc sstep (start false true [] wait_with_signal) s /\
  s.(screen) = [("wait with signal", []); ("goodbye", []); ("wait with signal", []); ("hello", [])].
Proof.
  apply (run_to (fun s => s.(screen) = _) [0;0;0;0;1;1;0;0;0;0;0;1]%nat). vm_compute. reflexivity.
Qed.

(** [4.c]: every call of [exec] lists the directory, one after the other; the
    headings are printed on a terminal only: [exec] throws the buffer away. *)
Definition headings : list string := ["execl:"; "execlp:"; "execle:"; "execv:"; "execvp:"; "execve:"; "execvpe:"; "fexecve:"].

Lemma main_4_ok tty path ls : (length path < 800)%nat ->
  always 42 (ended_with (merge [("PATH: %s", path); ("Use __GNU_LIBRARY__", [])]
    (headings ≫= fun h => ((if tty : bool then [(h, [])] else []) ++ [("%s", ls)])%list))) (start tty true [] (main_4 (Some path) ls)).
Proof.
  intros Hp. unfold main_4. rewrite (proj2 (Nat.leb_gt _ _) Hp). destruct tty; all_schedules; repeat constructor.
Qed.

(** [5.c] and [6.c]: a child without children does not wait; the parent gets the
    number of its child. *)
Lemma main_5_ok tty : always 7 (ended_with (eq [("child wait return: %d", [-1]); ("parent wait return: %d", [11])])) (start tty true [] main_5).
Proof. destruct tty; all_schedules. Qed.

Lemma main_6_ok tty : always 8 (ended_with (eq
  [("child wait return: %d", [-1]); ("parent wait return: %d", [11]); ("if the child terminated normally: %s", [1])])) (start tty true [] main_6).
Proof. destruct tty; all_schedules. Qed.

(** [7.c]: what the child prints is lost. *)
Lemma main_7_ok tty : always 7 (ended_with (eq [("parent calls printf().", [])])) (start tty true [] main_7).
Proof. destruct tty; all_schedules. Qed.

(** [8.c]: the second child prints the message and what is in the array behind it,
    up to a zero; nothing writes that zero. *)
Lemma main_8_ok tty g :
  always 13 (ended_with (eq [("Second child print: %s", (hello_8 ++ upto_nul (drop (length hello_8) g))%list)])) (start tty true g main_8).
Proof. destruct tty; all_schedules. Qed.

(** [9.c]: every process ends and is collected by the first one; the parent that the
    third one sees is the second or the first. *)
Lemma main_9_ok tty :
  always 14 (fun s => (fun p => (p.(pid), p.(ppid), p.(zombie))) <$> s.(procs) = [(10, 2, true); (11, 0, true); (12, 0, true)] /\
    (("third process's parent pid: %d", [10]) ∈ s.(screen) \/ ("third process's parent pid: %d", [11]) ∈ s.(screen))) (start tty true [] (main_9 true)).
Proof. destruct tty; all_schedules; first [left; solve [repeat constructor] | right; solve [repeat constructor]]. Qed.

(** [10.c] *)
Lemma main_10_ok tty ls : always 7 (ended_with (fun o => merge [("PID of child: %d", [11]); ("Done", [])] [("%s", ls)] o /\
  (tty = true -> last o = Some ("Done", [])))) (start tty true [] (main_10 ls)).
Proof. destruct tty; all_schedules; repeat constructor; discriminate. Qed.

(** When [fork] fails a program ends at once. *)
Lemma no_room tty : always 10 (ended_with (eq [])) (start tty false [] main_5) /\
  always 10 (ended_with (eq [("wait with signal", [])])) (start tty false [] wait_with_signal) /\
  always 10 (ended_with (eq [("wait with pipe", [])])) (start tty false [] wait_with_pipe).
Proof. split_and!; destruct tty; all_schedules; repeat constructor. Qed.

(** ** Two processes that write to one file *)

Lemma always_step n P s : nexts s <> [] -> Forall (always n P) (nexts s) -> always (S n) P s.
Proof.
  intros Hne H. rewrite Forall_forall in H. split.
  - intros k s' Hk. destruct Hk as [|k a b c Hs Hk]; [lia|]. apply sstep_nexts in Hs. destruct (H b Hs) as [H1 _]. apply H1 in Hk. lia.
  - intros s' Hr Hst. inversion Hr as [|? b ? Hs Hr']; subst.
    + destruct (nexts s') as [|b bs] eqn:E; [done|]. destruct (Hst b). apply sstep_nexts. rewrite E. by left.
    + apply sstep_nexts in Hs. destruct (H b Hs) as [_ H2]. by apply H2.
Qed.

Lemma always_le n m P s : (n <= m)%nat -> always n P s -> always m P s.
Proof. intros Hnm [H1 H2]. split; [|done]. intros k s' Hk. apply H1 in Hk. lia. Qed.

Lemma always_mono n (P Q : sys -> Prop) s : (forall s, P s -> Q s) -> always n P s -> always n Q s.
Proof. intros H [H1 H2]. split; [exact H1|]. intros s' Hr Hs. apply H. by apply H2. Qed.

Lemma merge_snoc_l {A} (c : A) a b l : merge a b l -> merge (a ++ [c])%list b (l ++ [c])%list.
Proof. induction 1; cbn; by repeat constructor. Qed.

Lemma merge_snoc_r {A} (c : A) a b l : merge a b l -> merge a (b ++ [c])%list (l ++ [c])%list.
Proof. induction 1; cbn; by repeat constructor. Qed.

Lemma merge_length {A} (a b l : list A) : merge a b l -> length l = (length a + length b)%nat.
Proof. induction 1; cbn; lia. Qed.

Lemma merge_forall {A} (P : A -> Prop) a b l : merge a b l -> Forall P a -> Forall P b -> Forall P l.
Proof. induction 1; intros Ha Hb; [done| |]; [apply Forall_cons in Ha as [? ?]|apply Forall_cons in Hb as [? ?]]; constructor; auto. Qed.

Section two_writers.
Variables (tty : bool) (g child_says parent_says : list Z).

Let n : nat := (length child_says + length parent_says)%nat.

(** The parent behind [fork], and the child. *)
Definition parent_2 (r : list Z) : proc :=
  mkProc 10 2 ((Putc <$> r) ++ tail_2 n)%list false false (mkVars 0 g 0 false [11]) [] true false false false false false false false.
Definition child_2 (r : list Z) : proc :=
  mkProc 11 10 (Putc <$> r) false false (mkVars 0 g 0 false []) [] true false false false false false false false.
Definition dead_2 : proc := mkProc 11 10 [] true false (mkVars 0 g 0 false []) [] false false false false false false false false.

Definition writing (r1 r2 f : list Z) : sys := mkSys [parent_2 r2; child_2 r1] 12 [] [] f tty true.
Definition waiting (r2 f : list Z) : sys := mkSys [parent_2 r2; dead_2] 12 [] [] f tty true.

(** What is printed when the file is [f]. *)
Definition shown_2 (f : list Z) : list line :=
  let buf := (take BUFSIZ (f ++ [0]) ++ drop (length (take BUFSIZ (f ++ [0]))) g)%list in
  [("file contents:", []); ("%ldth char:%d", chars_shown n buf); ("%s", upto_nul buf)].

Definition result_2 (s : sys) : Prop :=
  exists f, merge child_says parent_says f /\ s.(file) = (f ++ [0])%list /\ s.(screen) = shown_2 f /\ forallb zombie s.(procs) = true.

Lemma waiting_ends f : merge child_says parent_says f -> always 7 result_2 (waiting [] f).
Proof.
  intros Hm. apply (always_mono _ (fun s => s.(file) = (f ++ [0])%list /\ s.(screen) = shown_2 f /\ forallb zombie s.(procs) = true)).
  - intros s Hs. by exists f.
  - apply check_sound. unfold waiting. generalize tty. intros []; cbv -[chars_shown upto_nul BUFSIZ take drop]; repeat split.
Qed.

Lemma writing_ends k : forall d1 d2 r1 r2 f, merge d1 d2 f -> (d1 ++ r1)%list = child_says -> (d2 ++ r2)%list = parent_says ->
  k = (length r1 + length r2)%nat -> always (k + 8) result_2 (writing r1 r2 f) /\ (r1 = [] -> always (k + 7) result_2 (waiting r2 f)).
Proof.
  induction k as [k IH] using lt_wf_ind. intros d1 d2 r1 r2 f Hm H1 H2 ->.
  assert (Hw : r1 = [] -> always (length r1 + length r2 + 7) result_2 (waiting r2 f)).
  { intros ->. destruct r2 as [|c r2].
    - rewrite app_nil_r in H1, H2. subst d1 d2. by apply waiting_ends.
    - apply (always_step (length r2 + 7)); [done|]. constructor; [|constructor].
      apply (IH (length r2) ltac:(cbn; lia) d1 (d2 ++ [c])%list [] r2 (f ++ [c])%list); [by apply merge_snoc_r|done|by rewrite <- app_assoc|done|done]. }
  split; [|exact Hw].
  assert (Hc : forall c r, r2 = c :: r -> always (length r1 + length r + 8) result_2 (writing r1 r (f ++ [c])%list)).
  { intros c r ->. apply (IH (length r1 + length r)%nat ltac:(cbn; lia) d1 (d2 ++ [c])%list r1 r); [by apply merge_snoc_r|done|by rewrite <- app_assoc|done]. }
  assert (Hd : forall c r, r1 = c :: r -> always (length r + length r2 + 8) result_2 (writing r r2 (f ++ [c])%list)).
  { intros c r ->. apply (IH (length r + length r2)%nat ltac:(cbn; lia) (d1 ++ [c])%list d2 r r2); [by apply merge_snoc_l|by rewrite <- app_assoc|done|done]. }
  destruct r1 as [|c1 r1], r2 as [|c2 r2]; cbn [length Nat.add] in *.
  - apply always_step; [done|]. constructor; [|constructor]. by apply Hw.
  - apply always_step; [done|]. constructor; [by apply Hc|]. constructor; [|constructor]. apply (always_le (S (length r2 + 7))); [lia|]. by apply Hw.
  - apply always_step; [done|]. constructor; [|constructor]. by apply (Hd c1 r1).
  - apply always_step; [done|]. constructor; [apply (always_le (S (length r1 + length r2 + 8))); [lia|]; by apply Hc|].
    constructor; [|constructor]. by apply (Hd c1 r1).
Qed.

End two_writers.

(** [2.c]: whatever the order of the writes, no character is lost or overwritten: the file is a merge of the
    two texts, and the parent prints it. *)
Lemma main_2_ok tty g child_says parent_says : Forall (fun c => c <> 0) child_says -> Forall (fun c => c <> 0) parent_says ->
  (length child_says + length parent_says < BUFSIZ)%nat ->
  always (length child_says + length parent_says + 9)
    (fun s => exists f, merge child_says parent_says f /\ s.(file) = (f ++ [0])%list /\ last s.(screen) = Some ("%s", f) /\ forallb zombie s.(procs) = true)
    (start tty true g (main_2 child_says parent_says)).
Proof.
  intros Hz1 Hz2 Hl. rewrite Nat.add_succ_r. apply always_step; [done|]. constructor; [|constructor].
  apply (always_mono _ (result_2 g child_says parent_says)).
  - intros s (f & Hm & Hf & Hs & Hz). exists f. split_and!; [done|done| |done]. clear Hz. rewrite Hs. unfold shown_2. cbn [last].
    rewrite take_ge by (rewrite length_app, (merge_length _ _ _ Hm); cbn; lia). rewrite <- app_assoc. cbn [app]. do 2 f_equal.
    pose proof (merge_forall _ _ _ _ Hm Hz1 Hz2) as Hz. generalize (drop (length (f ++ [0])) g). clear -Hz.
    induction Hz as [|c f Hc _ IH]; intros r; [done|]. cbn [app upto_nul]. apply Z.eqb_neq in Hc. by rewrite Hc, IH.
  - apply (writing_ends tty g child_says parent_says _ [] [] child_says parent_says []); [constructor|done|done|done].
Qed.

(** ** Switches between processes

    The second half of [6/1.c]: reading and writing no bytes does not block. *)
Fixpoint ping (nloops : nat) (a b : cmd) : list cmd := match nloops with O => [] | S n => a :: b :: ping n a b end.

Definition main_switch (nloops : nat) : list cmd :=
  Pipe :: Fork (ping nloops (Read 0) (Write [])) :: (ping nloops (Write []) (Read 0) ++ [say "context switch: %f microseconds"])%list.

(** The parent can run its loop to the end while the child has not run at all. *)
Lemma no_switch nloops : exists s, rtc sstep (start true true [] (main_switch nloops)) s /\
  code <$> s.(procs) = [[]; ping nloops (Read 0) (Write [])] /\ s.(screen) = [("context switch: %f microseconds", [])].
Proof.
  set (child := mkProc 11 10 (ping nloops (Read 0) (Write [])) false false (mkVars 0 [] 0 false []) [] true true true false false false false false).
  set (parent c := mkProc 10 2 c false false (mkVars 0 [] 0 false [11]) [] true true true false false false false false).
  set (st c := mkSys [parent c; child] 12 [] [] [] true true).
  assert (Hl : forall n tl, rtc sstep (st (ping n (Write []) (Read 0) ++ tl)%list) (st tl)).
  { induction n as [|n IH]; intros tl; [done|]. eapply rtc_l; [by apply (sstep_intro 0)|]. eapply rtc_l; [by apply (sstep_intro 0)|]. apply IH. }
  exists (mkSys [parent []; child] 12 [] [("context switch: %f microseconds", [])] [] true true). split; [|done].
  eapply rtc_l; [by apply (sstep_intro 0)|]. eapply rtc_l; [by apply (sstep_intro 0)|]. etrans; [apply Hl|]. apply rtc_once. by apply (sstep_intro 0).
Qed.

(** ** The exercises *)

(** C35: the exercises on processes, under every schedule: all of them end, after a
    bounded number of steps, with no process left over.  [fork] copies the variables ([1.c]).  Two
    processes that write to one file lose nothing, and the file is a merge of
    their texts ([2.c]).  A child that signals or writes to a pipe is always
    heard, since the signal is blocked until the parent suspends itself, and on a
    terminal its line comes first ([3.c]).  Every call of [exec] lists the directory,
    with its heading on a terminal only ([4.c]).  A child without
    children does not wait ([5.c], [6.c]), what it prints on a closed descriptor is
    lost ([7.c]), a message through a pipe is printed whole, with the array
    behind it ([8.c]), a subreaper collects the children of its child ([9.c]), and
    a spawned program is waited for ([10.c]). *)
Theorem process_exercises tty g ls :
  let hello := (bytes "child says hello." ++ [10])%list in let goodbye := (bytes "parent says goodbye." ++ [10])%list in
  always 10 (ended_with (merge [("x in child process before changing: %d", [100]); ("x in child process: %d", [101])]
    [("x in parent process: %d", [102])])) (start tty true [] main_1) /\
  always 48 (fun s => exists f, merge hello goodbye f /\ s.(file) = (f ++ [0])%list /\ last s.(screen) = Some ("%s", f) /\
    forallb zombie s.(procs) = true) (start tty true g (main_2 hello goodbye)) /\
  always 13 (ended_with (eq [("wait with signal", []); ("hello", []); ("goodbye", [])])) (start true true g wait_with_signal) /\
  always 13 (ended_with (eq [("wait with pipe", []); ("hello", []); ("goodbye", [])])) (start true true [0] wait_with_pipe) /\
  (forall path, (length path < 800)%nat -> always 42 (ended_with (merge [("PATH: %s", path); ("Use __GNU_LIBRARY__", [])]
    (headings ≫= fun h => ((if tty : bool then [(h, [])] else []) ++ [("%s", ls)])%list))) (start tty true [] (main_4 (Some path) ls))) /\
  always 7 (ended_with (eq [("child wait return: %d", [-1]); ("parent wait return: %d", [11])])) (start tty true [] main_5) /\
  always 8 (ended_with (eq [("child wait return: %d", [-1]); ("parent wait return: %d", [11]);
    ("if the child terminated normally: %s", [1])])) (start tty true [] main_6) /\
  always 7 (ended_with (eq [("parent calls printf().", [])])) (start tty true [] main_7) /\
  always 13 (ended_with (eq [("Second child print: %s", (hello_8 ++ upto_nul (drop (length hello_8) g))%list)])) (start tty true g main_8) /\
  always 14 (fun s => (fun p => (p.(pid), p.(ppid), p.(zombie))) <$> s.(procs) = [(10, 2, true); (11, 0, true); (12, 0, true)] /\
    (("third process's parent pid: %d", [10]) ∈ s.(screen) \/ ("third process's parent pid: %d", [11]) ∈ s.(screen))) (start tty true [] (main_9 true)) /\
  always 7 (ended_with (fun o => merge [("PID of child: %d", [11]); ("Done", [])] [("%s", ls)] o /\
    (tty = true -> last o = Some ("Done", [])))) (start tty true [] (main_10 ls)).
Proof.
  cbv zeta. split_and!; [apply main_1_ok| |apply signal_ok|apply pipe_ok|intros path; apply main_4_ok|apply main_5_ok|apply main_6_ok|apply main_7_ok
    |apply main_8_ok|apply main_9_ok|apply main_10_ok].
  apply (main_2_ok tty g (bytes "child says hello." ++ [10])%list (bytes "parent says goodbye." ++ [10])%list).
  - by repeat (constructor; [done|]).
  - by repeat (constructor; [done|]).
  - apply Nat.ltb_lt. vm_compute. reflexivity.
Qed.
