(* ===== verification/FileTools.v ===== *)
(** * Listing files

    [39/myfind.c], [39/myls.c] and [39/stat.c]: the names below a directory to a
    depth, the names in a directory, the type of a file.  A directory is the list
    of what [readdir] gives for it, [.] and [..] included; whether a name matches
    the pattern is an argument, as are the results of [stat].  A path is built in an
    array of 1024 bytes. *)

From Stdlib Require Import ZArith Lia String.
From stdpp Require Import base tactics numbers list.
From S2P Require Import Prelude Cstring Request.

Local Open Scope Z_scope.
Local Open Scope ostep_scope.

(** ** Definitions *)

Definition STRINGSIZE : nat := 1024.

(** The result of [opendir]. *)
Inductive opening := Opened | Denied | Failed.

Inductive fnode := File | Dir (o : opening) (entries : list (list Z * fnode)).

Inductive output := Found (path : list Z) | NoPermission (path : list Z).

(** [filePath]: the path of an entry; a path without characters has no last one. *)
Definition join_path (pathname name : list Z) : outcome string (list Z) :=
  match last pathname with
  | None => past_end
  | Some c =>
      let p := (if c =? 47 then pathname else pathname ++ [47]) ++ name in
      if (length p <? STRINGSIZE)%nat then Done p else past_end
  end.

(** [strncmp(name, ".", 1) != 0 && strncmp(name, "..", 2) != 0] *)
Definition shown (name : list Z) : bool := negb (starts (bytes ".") name) && negb (starts (bytes "..") name).

Section find.
Context (maxDepth : Z) (matches : list Z -> bool).

(** The loop of [find_dir] over the entries, with the call for a directory. *)
Section entries.
Variable find_dir : fnode -> list Z -> outcome string (list output).

Definition find_entry (pathname name : list Z) (n : fnode) : outcome string (list output) :=
  let* filePath := join_path pathname name in
  if shown name then
    let* below := match n with Dir _ _ => find_dir n filePath | File => Done [] end in
    Done ((if matches name then [Found filePath] else []) ++ below)
  else Done [].

Fixpoint find_entries (pathname : list Z) (es : list (list Z * fnode)) : outcome string (list output) :=
  match es with
  | [] => Done []
  | (name, n) :: es =>
      let* out := find_entry pathname name n in
      let* rest := find_entries pathname es in
      Done (out ++ rest)
  end.
End entries.

Fixpoint find_dir (currentDepth : Z) (n : fnode) (pathname : list Z) {struct n} : outcome string (list output) :=
  if maxDepth <? currentDepth then Done []
  else
    match n with
    | File => Fail "opendir"%string
    | Dir Denied _ => Done [NoPermission pathname]
    | Dir Failed _ => Fail "opendir"%string
    | Dir Opened es => find_entries (find_dir (currentDepth + 1)) pathname es
    end.

(** [main] of [myfind.c] for the options that [getopt] gives: the depth and, if
    there is a path, whether it exists. *)
Definition find_main (argc : nat) (pathname : list Z) (n : option fnode) : outcome string (list output) :=
  if maxDepth <? 0 then Fail "Max depth must be positive."%string
  else if negb (argc =? 6)%nat then Fail "Usage"%string
  else
    match n with
    | None => Fail "stat"%string
    | Some n =>
        let* below := match n with Dir _ _ => find_dir 1 n pathname | File => Done [] end in
        Done ((if matches pathname then [Found pathname] else []) ++ below)
    end.
End find.

(** *** Listing a directory *)

(** A line of [myls]: the name, and with [-l] what [stat] gives. *)
Definition ls_line (A : Type) : Type := option A * list Z.

Section ls.
Context {A : Type} (stat : list Z -> option A).

(** The path of an entry, always with a slash. *)
Definition ls_path (pathname name : list Z) : outcome string (list Z) :=
  let p := pathname ++ [47] ++ name in if (length p <? STRINGSIZE)%nat then Done p else past_end.

Fixpoint ls_entries (long : bool) (pathname : list Z) (names : list (list Z)) : outcome string (list (ls_line A)) :=
  match names with
  | [] => Done []
  | name :: names =>
      let* info := (if long then
        let* p := ls_path pathname name in
        match stat p with None => Fail "stat"%string | Some a => Done (Some a) end else Done None) in
      let* rest := ls_entries long pathname names in
      Done ((info, name) :: rest)
  end.

(** [main] of [myls.c] after the options: [dir] is what [opendir] and [readdir] give
    when [pathname] is a directory. *)
Definition ls_main (long : bool) (pathname : list Z) (dir : option (option (list (list Z)))) : outcome string (list (ls_line A)) :=
  match stat pathname with
  | None => Fail "stat"%string
  | Some a =>
      match dir with
      | Some None => Fail "opendir"%string
      | Some (Some names) => ls_entries long pathname names
      | None => Done [(if long then Some a else None, pathname)]
      end
  end.
End ls.

(** *** The type of a file *)

Definition S_IFMT : Z := 61440.

(** The name that [stat.c] prints for [st_mode]. *)
Definition file_type (st_mode : Z) : string :=
  (match Z.land st_mode S_IFMT with
   | 24576 => "block device"
   | 8192 => "character device"
   | 16384 => "directory"
   | 4096 => "FIFO/pipe"
   | 40960 => "symbolic link"
   | 32768 => "regular file"
   | 49152 => "socket"
   | _ => "unknown?"
   end)%string.

(** The bits that are printed as the mode. *)
Definition mode_bits (st_mode : Z) : Z := Z.land st_mode (Z.lnot S_IFMT).

(** ** What is below a directory *)

(** The node that names lead to, through directories that can be opened. *)
Fixpoint reaches (n : fnode) (names : list (list Z)) (n' : fnode) : Prop :=
  match names with
  | [] => n' = n
  | name :: names => exists es c, n = Dir Opened es /\ (name, c) ∈ es /\ shown name = true /\ reaches c names n'
  end.

Fixpoint path_of (pathname : list Z) (names : list (list Z)) : outcome string (list Z) :=
  match names with
  | [] => Done pathname
  | name :: names => let* p := join_path pathname name in path_of p names
  end.

(** Induction on trees of directories. *)
Section fnode_ind.
Variable P : fnode -> Prop.
Hypothesis HFile : P File.
Hypothesis HDir : forall o es, Forall (fun e => P e.2) es -> P (Dir o es).

Fixpoint fnode_tree_ind (n : fnode) : P n :=
  match n with
  | File => HFile
  | Dir o es =>
      HDir o es ((fix go (es : list (list Z * fnode)) : Forall (fun e => P e.2) es :=
        match es with
        | [] => Forall_nil_2 (fun e => P e.2)
        | e :: es => Forall_cons_2 (fun e => P e.2) e es (fnode_tree_ind e.2) (go es)
        end) es)
  end.
End fnode_ind.

Section find_facts.
Context (maxDepth : Z) (matches : list Z -> bool).

(** What [find_dir] should print. *)
Definition should_find (depth : Z) (n : fnode) (pathname p : list Z) : Prop :=
  exists names name n', reaches n (names ++ [name]) n' /\ path_of pathname (names ++ [name]) = Done p /\
    depth + Z.of_nat (length names) <= maxDepth /\ matches name = true.

Lemma find_entries_in fd pathname es out : find_entries matches fd pathname es = Done out ->
  forall x, x ∈ out <-> exists name n o, (name, n) ∈ es /\ find_entry matches fd pathname name n = Done o /\ x ∈ o.
Proof.
  revert out. induction es as [|[name n] es IH]; intros out E x; cbn [find_entries] in E.
  - injection E as <-. split; [by intros ?%elem_of_nil|intros (? & ? & ? & H & _); by apply elem_of_nil in H].
  - apply obind_Done in E as (o & Eo & E). apply obind_Done in E as (rest & Er & E). injection E as <-. rewrite elem_of_app, (IH rest Er x). split.
    + intros [H|(name' & n' & o' & H & H')]; [exists name, n, o; split; [left|done]|exists name', n', o'; split; [by right|done]].
    + intros (name' & n' & o' & H & Eo' & Hx). apply elem_of_cons in H as [H|H]; [injection H as -> ->; left; congruence|right; by exists name', n', o'].
Qed.

Lemma find_entries_each fd pathname es out name n : find_entries matches fd pathname es = Done out -> (name, n) ∈ es ->
  exists o, find_entry matches fd pathname name n = Done o.
Proof.
  revert out. induction es as [|[a b] es IH]; intros out E Hin; [by apply elem_of_nil in Hin|]. cbn [find_entries] in E.
  apply obind_Done in E as (o & Eo & E). apply obind_Done in E as (r & Er & _). apply elem_of_cons in Hin as [[= -> ->]|Hin]; [by exists o|by eapply IH].
Qed.

Lemma find_dir_sound n : forall depth pathname out, find_dir maxDepth matches depth n pathname = Done out ->
  forall p, Found p ∈ out <-> should_find depth n pathname p.
Proof.
  induction n as [|o es IH] using fnode_tree_ind; intros depth pathname out E p; cbn [find_dir] in E.
  { destruct (Z.ltb_spec maxDepth depth); [|done]. injection E as <-. split; [by intros ?%elem_of_nil|].
    intros (names & name & n' & Hr & _). destruct names; by destruct Hr as (? & ? & ? & _). }
  destruct (Z.ltb_spec maxDepth depth) as [Hd|Hd].
  { injection E as <-. split; [by intros ?%elem_of_nil|]. intros (names & name & n' & _ & _ & H & _). lia. }
  destruct o; [|injection E as <-|done].
  2:{ split; [intros H; by apply list_elem_of_singleton in H|]. intros (names & name & n' & Hr & _). destruct names; destruct Hr as (? & ? & [=] & _). }
  rewrite (find_entries_in _ _ _ _ E). rewrite Forall_forall in IH. split.
  - intros (name & n & o & Hin & Eo & Hp). unfold find_entry in Eo. apply obind_Done in Eo as (fp & Ej & Eo). destruct (shown name) eqn:Hs; [|injection Eo as <-; by apply elem_of_nil in Hp].
    apply obind_Done in Eo as (below & Eb & Eo). injection Eo as <-. apply elem_of_app in Hp as [Hp|Hp].
    + destruct (matches name) eqn:Hm; [|by apply elem_of_nil in Hp]. apply list_elem_of_singleton in Hp. injection Hp as ->.
      exists [], name, n. cbn [app reaches path_of length]. rewrite Ej. split_and!; [by exists es, n|done|lia|done].
    + destruct n as [|o' es']; [injection Eb as <-; by apply elem_of_nil in Hp|].
      apply (IH (name, Dir o' es') Hin _ _ _ Eb) in Hp as (names & nm & n' & Hr & Hpath & Hd' & Hm).
      exists (name :: names), nm, n'. cbn [app reaches path_of length]. rewrite Ej. split_and!; [by exists es, (Dir o' es')|done|lia|done].
  - intros (names & nm & n' & Hr & Hpath & Hd' & Hm). destruct names as [|name names]; cbn [app reaches path_of length] in *.
    + destruct Hr as (es0 & c & [= <-] & Hin & Hs & ->). apply obind_Done in Hpath as (fp & Ej & [= ->]).
      destruct (find_entries_each _ _ _ _ _ _ E Hin) as [o Eo]. exists nm, c, o. split_and!; [done|done|]. unfold find_entry in Eo. rewrite Ej in Eo. cbn [obind] in Eo. rewrite Hs in Eo.
      apply obind_Done in Eo as (below & _ & Eo). injection Eo as <-. rewrite Hm. left.
    + destruct Hr as (es0 & c & [= <-] & Hin & Hs & Hr). apply obind_Done in Hpath as (fp & Ej & Hpath).
      destruct (find_entries_each _ _ _ _ _ _ E Hin) as [o Eo]. exists name, c, o. split_and!; [done|done|]. unfold find_entry in Eo. rewrite Ej in Eo. cbn [obind] in Eo. rewrite Hs in Eo.
      apply obind_Done in Eo as (below & Eb & Eo). injection Eo as <-. apply elem_of_app. right.
      destruct c as [|o' es']; [destruct names; by destruct Hr as (? & ? & ? & _)|].
      apply (IH (name, Dir o' es') Hin _ _ _ Eb). exists names, nm, n'. split_and!; [done|done|lia|done].
Qed.

(** The paths fit into their array, and no directory fails to open in another way
    than by its permissions. *)
Definition manageable (depth : Z) (n : fnode) (pathname : list Z) : Prop :=
  forall names o es p, reaches n names (Dir o es) -> depth + Z.of_nat (length names) <= maxDepth -> path_of pathname names = Done p ->
    o <> Failed /\ (o = Opened -> Forall (fun e => exists q, join_path p e.1 = Done q) es).

Lemma find_dir_total n : forall depth pathname, n <> File -> manageable depth n pathname -> exists out, find_dir maxDepth matches depth n pathname = Done out.
Proof.
  induction n as [|o es IH] using fnode_tree_ind; intros depth pathname Hn Hm; [done|]. cbn [find_dir].
  destruct (Z.ltb_spec maxDepth depth) as [Hd|Hd]; [by eexists|]. destruct (Hm [] o es pathname eq_refl ltac:(cbn; lia) eq_refl) as [Ho Hj].
  destruct o; [|by eexists|done]. specialize (Hj eq_refl).
  assert (Hsub : forall name c fp, (name, c) ∈ es -> shown name = true -> join_path pathname name = Done fp -> manageable (depth + 1) c fp).
  { intros name c fp Hin Hs Ej names o' es' p Hr Hd' Hp. apply (Hm (name :: names) o' es' p); [by exists es, c|cbn [length]; lia|]. cbn [path_of]. by rewrite Ej. }
  clear Hm. revert Hsub. induction es as [|[name c] es IHes]; intros Hsub; [by eexists|]. apply Forall_cons in IH as [Hc IH]. apply Forall_cons in Hj as [[fp Ej] Hj].
  cbn [find_entries]. unfold find_entry. cbn [fst snd] in *. rewrite Ej. cbn [obind].
  destruct IHes as [rest Er]; [done|done|done|intros; eapply Hsub; [by right|done|done]|].
  destruct (shown name) eqn:Hs; [|cbn [obind]; rewrite Er; by eexists].
  destruct c as [|o' es']; [cbn [obind]; rewrite Er; by eexists|].
  destruct (Hc (depth + 1) fp) as [below Eb]; [done|apply (Hsub name); [left|done|done]|]. rewrite Eb. cbn [obind]. rewrite Er. by eexists.
Qed.

End find_facts.

(** [myfind] of a directory prints its path and that of everything below it, as far
    as the depth goes, that is reached by names not beginning with a dot and
    through directories that can be opened, if its own name matches; and nothing
    else.  It returns when the paths fit into their array. *)
Lemma find_correct maxDepth matches pathname n : 0 <= maxDepth -> n <> File -> manageable maxDepth 1 n pathname ->
  exists out, find_main maxDepth matches 6 pathname (Some n) = Done out /\
    forall p, Found p ∈ out <-> (p = pathname /\ matches pathname = true) \/ should_find maxDepth matches 1 n pathname p.
Proof.
  intros Hd Hn Hm. destruct (find_dir_total maxDepth matches n 1 pathname Hn Hm) as [below Eb].
  unfold find_main. rewrite (proj2 (Z.ltb_ge _ _)) by lia. cbn [Nat.eqb negb].
  destruct n as [|o es]; [done|]. rewrite Eb. cbn [obind]. eexists. split; [reflexivity|]. intros p.
  rewrite elem_of_app, (find_dir_sound maxDepth matches _ _ _ _ Eb). split; (intros [H|H]; [left|by right]).
  - destruct (matches pathname); [|by apply elem_of_nil in H]. apply list_elem_of_singleton in H. injection H as ->. done.
  - destruct H as [-> ->]. left.
Qed.

(** A directory with a file, a hidden file and a directory with a file. *)
Lemma find_correct_witness :
  exists out, find_main 1 (fun _ => true) 6 (bytes "d") (Some (Dir Opened [(bytes ".", File); (bytes ".x", File); (bytes "a", File); (bytes "b", Dir Opened [(bytes "c", File)])])) = Done out /\
    Found (bytes "d/a") ∈ out.
Proof.
  destruct (find_correct 1 (fun _ => true) (bytes "d") (Dir Opened [(bytes ".", File); (bytes ".x", File); (bytes "a", File); (bytes "b", Dir Opened [(bytes "c", File)])])) as (out & E & H); [lia|discriminate| |].
  - intros [|name names] o es p Hr Hd Hp; [|cbn [length] in Hd; lia]. cbn [reaches] in Hr. injection Hr as -> ->. injection Hp as <-. split; [discriminate|]. intros _.
    repeat (constructor; [eexists; vm_compute; reflexivity|]). constructor.
  - exists out. split; [exact E|]. apply H. right. exists [], (bytes "a"), File. split; [|by split].
    eexists _, File. split; [reflexivity|]. split; [do 2 right; left|done].
Defined.

(** [myls] prints the names of a directory in the order of [readdir]. *)
Lemma ls_correct {A} (stat : list Z -> option A) long pathname names out : ls_entries stat long pathname names = Done out ->
  out.*2 = names /\ (long = true -> forall i name, names !! i = Some name -> exists a, out !! i = Some (Some a, name) /\ stat (pathname ++ [47] ++ name) = Some a).
Proof.
  revert out. induction names as [|name names IH]; intros out E; cbn [ls_entries] in E; [injection E as <-; by split; [|intros _ [|]]|].
  apply obind_Done in E as (info & Ei & E). apply obind_Done in E as (rest & Er & E). injection E as <-. destruct (IH rest Er) as [H1 H2].
  split; [cbn; by rewrite H1|]. intros -> [|i] nm Hi; [|by apply H2]. injection Hi as <-. apply obind_Done in Ei as (p & Ep & Ei).
  unfold ls_path in Ep. set (q := pathname ++ [47] ++ name) in *. cbv zeta in Ep. destruct (length q <? STRINGSIZE)%nat; [|discriminate]. injection Ep as <-.
  cbv beta in Ei. destruct (stat q) as [a|] eqn:Ea; [|discriminate]. injection Ei as <-. by exists a.
Qed.
