(* ===== verification/WebClient.v ===== *)
(** * A request and its answer

    What the workers of [projects/concurrency-webserver] send, [request_serve_static]
    and [request_serve_dynamic] of [request.c] and the CGI program [spin.c], and
    the client [wclient.c], which sends a request and prints the answer line by
    line.  The files are a function from paths to their contents; the output of a
    CGI program is an argument. *)

From Stdlib Require Import ZArith Lia String.
From stdpp Require Import base tactics numbers list.
From S2P Require Import Prelude Cstring Request.

Local Open Scope Z_scope.
Local Open Scope ostep_scope.

(** ** Definitions *)

(** *** The worker *)

(** [open], [mmap] and [close]: the bytes of the mapping, up to the end of the
    last page of the file; a mapping without bytes is an error. *)
Definition map_file (content : option (list Z)) (filesize : Z) : option (list Z) :=
  match content with
  | None => None
  | Some c => if filesize <=? 0 then None else Some (take (Z.to_nat filesize) (c ++ replicate (Z.to_nat (- Z.of_nat (length c) mod 4096)) 0))
  end.

Definition static_headers (filesize : Z) (filetype : list Z) : list (list Z) :=
  [ bytes "HTTP/1.0 200 OK" ++ crlf; bytes "Server: OSTEP WebServer" ++ crlf;
    bytes "Content-Length: " ++ decimal filesize ++ crlf; bytes "Content-Type: " ++ filetype ++ crlf ].

(** [filesize] is an [int], the size of a file is not. *)
Definition request_serve_static (fs : list Z -> option (list Z)) (filename : list Z) (size : Z) (k : socket) : outcome string (Z * socket) :=
  let filesize := s32 size in
  match map_file (fs filename) filesize with
  | None => Done (-1, k)
  | Some srcp =>
      let* buf := fits MAXBUF (mjoin (static_headers filesize (bytes (request_get_filetype filename))) ++ crlf) in
      Done (sock_writes [buf; srcp] k)
  end.

(** The child runs the program with the connection as its standard output; the
    parent waits for it. *)
Definition request_serve_dynamic (cgi : list Z -> list Z -> list Z) (filename cgiargs : list Z) (k : socket) : Z * socket :=
  let '(r, k) := sock_writes [bytes "HTTP/1.0 200 OK" ++ crlf ++ bytes "Server: OSTEP WebServer" ++ crlf] k in
  if r =? -1 then (-1, k) else (0, mkSocket (k.(s_out) ++ cgi filename cgiargs) k.(s_writes)).

(** The part of [workerThread] behind the choice of a request. *)
Definition worker_serve (fs : list Z -> option (list Z)) (cgi : list Z -> list Z -> list Z) (b : Buffer_t) (k : socket) :
    outcome string socket :=
  if b.(is_static) then let* '(_, k) := request_serve_static fs b.(pathname) b.(size) k in Done k
  else Done (request_serve_dynamic cgi b.(pathname) b.(cgiargs) k).2.

(** [spin.c]: [query] is the variable [QUERY_STRING], [spun] the number of seconds
    as [%.2f] shows it. *)
Definition spin_main (query : option (list Z)) (spun : list Z) : outcome string (list Z) :=
  let* content := fits (Z.to_nat 8192)
    (bytes "<p>Welcome to the CGI program (" ++ default (bytes "(null)") query ++ bytes ")</p>" ++ crlf ++
     bytes "<p>My only purpose is to waste time on the server!</p>" ++ crlf ++
     bytes "<p>I spun for " ++ spun ++ bytes " seconds</p>" ++ crlf) in
  Done (bytes "Content-length: " ++ decimal (Z.of_nat (length content)) ++ crlf ++
        bytes "Content-type: text/html" ++ crlf ++ crlf ++ content).

(** *** The client *)

(** [MAXBUF] of [wclient.c] *)
Definition CLIENT_BUF : nat := Z.to_nat 8192.

(** [gethostname] is told that [hostname] is ten times as long as it is. *)
Definition client_send (filename hostname : list Z) : outcome string (list Z) :=
  let* hostname := fits (CLIENT_BUF / 10) hostname in
  fits CLIENT_BUF (bytes "GET " ++ filename ++ bytes " HTTP/1.1" ++ [10] ++ bytes "host: " ++ hostname ++ [10] ++ crlf).

Definition client_readline (buf : list Z) (s : stream) : outcome string (Z * list Z * stream) :=
  let '(n, buf, s) := readline_loop (CLIENT_BUF - 1) [] buf s in
  if n <? 0 then Fail "assert(rc >= 0)"%string else Done (n, buf, s).

(** The first loop of [client_print]: what is printed, and the state behind it. *)
Fixpoint print_headers (fuel : nat) (buf : list Z) (s : stream) (out : list Z) : option (outcome string (list Z * list Z * stream)) :=
  match fuel with
  | O => None
  | S fuel =>
      match (let* '(n, buf, s) := client_readline buf s in
             let* blank := is_crlf buf in
             let* text := if negb blank && (0 <? n) then cstr buf else Done [] in
             Done (negb blank && (0 <? n), text, buf, s)) with
      | Done (true, text, buf, s) => print_headers fuel buf s (out ++ bytes "Header: " ++ text)
      | Done (false, _, buf, s) => Some (Done (out, buf, s))
      | Fail e => Some (Fail e)
      | Crash e => Some (Crash e)
      end
  end.

(** The second one. *)
Fixpoint print_body (fuel : nat) (buf : list Z) (s : stream) (out : list Z) : option (outcome string (list Z)) :=
  match fuel with
  | O => None
  | S fuel =>
      match (let* '(n, buf, s) := client_readline buf s in
             let* text := if 0 <? n then cstr buf else Done [] in
             Done (0 <? n, text, buf, s)) with
      | Done (true, text, buf, s) => print_body fuel buf s (out ++ text)
      | Done (false, _, _, _) => Some (Done out)
      | Fail e => Some (Fail e)
      | Crash e => Some (Crash e)
      end
  end.

Definition client_print (fuel : nat) (buf : list Z) (s : stream) : option (outcome string (list Z)) :=
  match print_headers fuel buf s [] with
  | Some (Done (out, buf, s)) => print_body fuel buf s out
  | Some (Fail e) => Some (Fail e)
  | Some (Crash e) => Some (Crash e)
  | None => None
  end.

(** [main] of [wclient.c]: the files the threads ask for.  Without threads the
    array of the names has a size that wraps around. *)
Definition client_files (argc : Z) (filename : list Z) (threads : Z) : outcome string (list (list Z)) :=
  if negb (argc =? 5) then Fail "Usage"%string
  else if u32 threads =? 0 then Crash "no room for the names"%string
  else
    let* names := ofold (fun i l => let* f := fits CLIENT_BUF (filename ++ decimal (s32 (u32 threads - 1 - Z.of_nat i))) in Done (l ++ [f]))
                    (seq 0 (Z.to_nat (u32 threads - 1))) [] in
    Done (bytes "/spin.cgi?1" :: names).

(** ** The client reads lines *)

(** What the client prints of a body: [readline] returns 0 for a line of one
    character, which ends the loop. *)
Fixpoint visible (ls : list (list Z)) : list Z :=
  match ls with
  | [] => []
  | l :: ls => if (length l =? 1)%nat then [] else l ++ visible ls
  end.

(** A line that fits the array of the client. *)
Definition short_line (l : list Z) : Prop := Forall (fun c => c <> 0) l /\ (S (length l) < CLIENT_BUF)%nat.

Lemma client_buf_large : (1000 < CLIENT_BUF)%nat.
Proof. unfold CLIENT_BUF. lia. Qed.

Lemma client_readline_full l buf s : full_line l -> (length l < CLIENT_BUF)%nat ->
  client_readline buf ((Some <$> l) ++ s) = Done (Z.of_nat (length l) - 1, put_string l buf, s).
Proof.
  intros (a & -> & Ha) Hl. rewrite length_app in Hl. cbn [length] in Hl. unfold client_readline.
  rewrite (readline_loop_line a (CLIENT_BUF - 1) [] buf s Ha) by lia. cbn [app]. rewrite (proj2 (Z.ltb_ge _ _)) by lia.
  repeat f_equal. rewrite length_app. cbn [length]. lia.
Qed.

Lemma readline_loop_last a : forall k acc buf, 10 ∉ a -> (length a < k)%nat ->
  readline_loop k acc buf (Some <$> a) = readline_loop (k - length a) (acc ++ a) buf [].
Proof.
  induction a as [|c a IH]; intros k acc buf Ha Hk; [cbn; by rewrite app_nil_r, Nat.sub_0_r|].
  apply not_elem_of_cons in Ha as [Hc Ha]. destruct k as [|k]; [cbn in Hk; lia|]. cbn [fmap list_fmap readline_loop].
  rewrite (proj2 (Z.eqb_neq c 10)) by congruence. change (list_fmap Z (option Z) Some a) with (Some <$> a).
  rewrite IH by (done || cbn in Hk; lia). rewrite <- app_assoc. done.
Qed.

Lemma client_readline_last l buf : 10 ∉ l -> (S (length l) < CLIENT_BUF)%nat ->
  client_readline buf (Some <$> l) =
  Done (if (length l =? 1)%nat then (0, put_bytes l buf, []) else (Z.of_nat (length l), put_string l buf, [])).
Proof.
  intros Hl Hn. unfold client_readline. rewrite readline_loop_last by (done || lia). cbn [app].
  destruct (CLIENT_BUF - 1 - length l)%nat as [|r] eqn:Er; [lia|]. cbn [readline_loop].
  destruct (length l =? 1)%nat; [done|]. by rewrite (proj2 (Z.ltb_ge _ _)) by lia.
Qed.

(** A header is a line that the client prints. *)
Definition header (h : list Z) : Prop := full_line h /\ short_line h /\ (2 <= length h)%nat.

Lemma print_headers_ok hs : forall fuel buf s out,
  Forall header hs -> crlf ∉ hs -> (length hs < fuel)%nat ->
  exists buf', print_headers fuel buf ((Some <$> mjoin hs) ++ (Some <$> crlf) ++ s) out =
    Some (Done (out ++ (hs ≫= fun h => bytes "Header: " ++ h), buf', s)).
Proof.
  induction hs as [|h hs IH]; intros fuel buf s out Hg Hn Hf; (destruct fuel as [|fuel]; [cbn in Hf; lia|]); cbn [print_headers].
  - change ((Some <$> mjoin []) ++ ?x) with x. rewrite client_readline_full by (apply good_crlf || pose proof client_buf_large; cbn; lia). cbn [obind].
    rewrite is_crlf_string by (apply good_crlf). rewrite bool_decide_eq_true_2 by done. cbn. rewrite app_nil_r. by eexists.
  - apply Forall_cons in Hg as [(Hh & [Hz Hl] & H2) Hg]. apply not_elem_of_cons in Hn as [Hne Hn]. rewrite fmap_join_cons.
    rewrite client_readline_full by (done || lia). cbn [obind]. rewrite is_crlf_string by done. rewrite bool_decide_eq_false_2 by congruence.
    cbn [obind negb andb]. rewrite (proj2 (Z.ltb_lt _ _)) by lia. unfold put_string at 1. rewrite cstr_app by done. cbn [obind].
    destruct (IH fuel (put_string h buf) s (out ++ bytes "Header: " ++ h) Hg Hn ltac:(cbn in Hf; lia)) as (buf' & ->).
    exists buf'. cbn [mbind list_bind]. by rewrite <- !app_assoc.
Qed.

Lemma print_body_step fuel buf s out n buf' s' : client_readline buf s = Done (n, buf', s') ->
  print_body (S fuel) buf s out = if 0 <? n then
    match cstr buf' with Done t => print_body fuel buf' s' (out ++ t) | Fail e => Some (Fail e) | Crash e => Some (Crash e) end
  else Some (Done out).
Proof. intros E. cbn [print_body]. rewrite E. cbn [obind]. destruct (0 <? n); [|done]. by destruct (cstr buf'). Qed.

Lemma print_body_ok ls : forall fuel buf out, are_lines ls -> Forall short_line ls -> (length ls < fuel)%nat ->
  print_body fuel buf (Some <$> mjoin ls) out = Some (Done (out ++ visible ls)).
Proof.
  induction ls as [|l ls IH]; intros fuel buf out Ha Hs Hf; (destruct fuel as [|fuel]; [cbn in Hf; lia|]).
  - rewrite (print_body_step _ _ _ _ 0 (put_string [] buf) []) by done. cbn. by rewrite app_nil_r.
  - apply Forall_cons in Hs as [[Hz Hl] Hs]. change (mjoin (l :: ls)) with (l ++ mjoin ls).
    assert (Hc : full_line l /\ are_lines ls \/ ls = [] /\ l <> [] /\ 10 ∉ l) by (destruct ls; [destruct Ha as [?|[??]]; [by left|by right]|left; exact Ha]).
    assert (Hd : forall n s', client_readline buf (Some <$> l ++ mjoin ls) = Done (n, put_string l buf, s') -> 0 < n -> s' = (Some <$> mjoin ls) -> are_lines ls ->
      print_body (S fuel) buf (Some <$> l ++ mjoin ls) out = Some (Done (out ++ l ++ visible ls))).
    { intros n s' E Hn -> Hls. rewrite (print_body_step _ _ _ _ _ _ _ E). rewrite (proj2 (Z.ltb_lt _ _) Hn). unfold put_string at 1.
      rewrite cstr_app by done. rewrite IH by (done || cbn in Hf; lia). by rewrite <- app_assoc. }
    cbn [visible]. destruct Hc as [[Hfl Hls]|(-> & Hne & Hnl)].
    + assert (E : client_readline buf (Some <$> l ++ mjoin ls) = Done (Z.of_nat (length l) - 1, put_string l buf, Some <$> mjoin ls))
        by (rewrite fmap_app; apply client_readline_full; [done|lia]).
      destruct (Nat.eqb_spec (length l) 1) as [H1|H1].
      * rewrite (print_body_step _ _ _ _ _ _ _ E). rewrite H1. cbn. by rewrite app_nil_r.
      * apply (Hd _ _ E); [|done|done]. destruct Hfl as (a & -> & _). rewrite length_app in H1 |- *. cbn [length] in H1 |- *. lia.
    + change (mjoin []) with (@nil Z) in *. rewrite app_nil_r in *. pose proof (client_readline_last l buf Hnl Hl) as E.
      destruct (Nat.eqb_spec (length l) 1) as [H1|H1].
      * rewrite (print_body_step _ _ _ _ _ _ _ E). cbn. by rewrite app_nil_r.
      * apply (Hd _ _ E); [|done|done]. destruct l; [done|cbn; lia].
Qed.

(** A text without lines of one character is printed whole. *)
Lemma visible_all ls : Forall (fun l => length l <> 1%nat) ls -> visible ls = mjoin ls.
Proof. induction 1 as [|l ls Hl _ IH]; [done|]. cbn [visible]. rewrite (proj2 (Nat.eqb_neq _ _) Hl), IH. done. Qed.

(** Whatever the server sends, the client comes to the end: a line that does not
    end a loop takes something from the connection. *)
Lemma readline_consumes k : forall acc buf s n buf' s', readline_loop k acc buf s = (n, buf', s') ->
  n <= Z.of_nat (length acc) + (Z.of_nat (length s) - Z.of_nat (length s')) /\ (length s' <= length s)%nat.
Proof.
  induction k as [|k IH]; intros acc buf s n buf' s' E; cbn [readline_loop] in E; [injection E as <- _ <-; lia|].
  destruct s as [|[c|] s].
  - destruct (length acc =? 1)%nat; injection E as <- _ <-; cbn; lia.
  - destruct (c =? 10); [injection E as <- _ <-; cbn [length]; lia|]. apply IH in E. rewrite length_app in E. cbn [length] in *. lia.
  - injection E as <- _ <-. cbn [length]. lia.
Qed.

Lemma client_readline_consumes buf s n buf' s' : client_readline buf s = Done (n, buf', s') -> (length s' <= length s)%nat /\ (0 < n -> (length s' < length s)%nat).
Proof.
  unfold client_readline. destruct (readline_loop _ _ _ _) as [[m b] t] eqn:E. destruct (m <? 0); [done|]. intros [= -> -> ->].
  apply readline_consumes in E. cbn [length] in E. split; [lia|]. intros Hn. lia.
Qed.

Lemma print_body_returns fuel : forall buf s out, (length s < fuel)%nat -> exists r, print_body fuel buf s out = Some r.
Proof.
  induction fuel as [|fuel IH]; intros buf s out Hf; [lia|].
  destruct (client_readline buf s) as [[[n b] t]|e|e] eqn:E; [|cbn [print_body]; rewrite E; by eexists|cbn [print_body]; rewrite E; by eexists].
  rewrite (print_body_step _ _ _ _ _ _ _ E). apply client_readline_consumes in E as [_ E]. destruct (Z.ltb_spec 0 n) as [Hn|]; [|by eexists].
  destruct (cstr b); [apply IH; lia|by eexists|by eexists].
Qed.

Lemma print_headers_returns fuel : forall buf s out, (length s < fuel)%nat -> exists r, print_headers fuel buf s out = Some r /\
  match r with Done (_, _, s') => (length s' <= length s)%nat | _ => True end.
Proof.
  induction fuel as [|fuel IH]; intros buf s out Hf; [lia|]. cbn [print_headers].
  destruct (client_readline buf s) as [[[n b] t]|e|e] eqn:E; [|by eexists|by eexists]. apply client_readline_consumes in E as [H1 H2].
  cbn [obind]. destruct (is_crlf b) as [blank|e|e]; [|by eexists|by eexists]. cbn [obind].
  destruct (negb blank && (0 <? n)) eqn:En; [|by eexists]. destruct (cstr b) as [text|e|e]; [|by eexists|by eexists]. cbn [obind].
  bool_to_prop. destruct (IH b t (out ++ bytes "Header: " ++ text)) as (r & -> & Hr); [lia|]. exists r. split; [done|].
  destruct r as [[[? ?] s']| |]; [lia|done|done].
Qed.

Lemma client_returns fuel buf s : (length s < fuel)%nat -> exists r, client_print fuel buf s = Some r.
Proof.
  intros Hf. unfold client_print. destruct (print_headers_returns fuel buf s [] Hf) as (r & -> & Hr).
  destruct r as [[[out b] t]| |]; [apply print_body_returns; lia|by eexists|by eexists].
Qed.

(** ** Property *)

(** Text without a newline and without a NUL. *)
Definition is_text (s : list Z) : Prop := Forall (fun c => c <> 10 /\ c <> 0) s.

Lemma text_dec s : forallb (fun c => negb (c =? 10) && negb (c =? 0)) s = true -> is_text s.
Proof.
  rewrite forallb_forall. intros H. apply Forall_forall. intros c Hc. specialize (H c ltac:(by apply list_elem_of_In)). bool_to_prop. lia.
Qed.

Lemma text_spec s : is_text s -> (10 ∉ s) /\ Forall (fun c => c <> 0) s.
Proof.
  intros H. split; [intros Hx; unfold is_text in H; rewrite Forall_forall in H; by destruct (H 10 Hx)|]. eapply Forall_impl; [exact H|]. by intros c [_ ?].
Qed.

Lemma header_ok p q : is_text p -> is_text q -> p <> [] -> (length p + length q <= 100)%nat ->
  header (p ++ q ++ crlf) /\ p ++ q ++ crlf <> crlf.
Proof.
  intros Hp Hq Hne Hl. pose proof client_buf_large. assert (Hs : is_text (p ++ q)) by (by apply Forall_app).
  rewrite app_assoc. assert (Hl2 : (length (p ++ q) <= 100)%nat) by (rewrite length_app; lia).
  assert (Hne2 : p ++ q <> []) by (by destruct p). destruct (text_spec _ Hs) as [H10 Hz]. generalize dependent (p ++ q). intros s _ Hl2 Hne2 H10 Hz.
  unfold header, short_line. rewrite length_app. cbn [length crlf]. split_and!; try lia.
  - exists (s ++ [13]). split; [by rewrite <- app_assoc|]. rewrite elem_of_app, list_elem_of_singleton. intros [?|?]; [done|lia].
  - apply Forall_app. split; [done|repeat (constructor; [lia|]); constructor].
  - intros E. apply (f_equal length) in E. rewrite length_app in E. destruct s; [done|]. cbn in E. lia.
Qed.

Lemma decimal_text n : 0 <= n -> is_text (decimal n).
Proof.
  intros Hn. destruct (decimal_digits n Hn) as [Hd _]. eapply Forall_impl; [exact Hd|]. unfold isdigit. intros c Hc. cbv beta in Hc. bool_to_prop. lia.
Qed.

Lemma filetype_text f : is_text (bytes (request_get_filetype f)) /\ (length (bytes (request_get_filetype f)) <= 10)%nat.
Proof.
  unfold request_get_filetype. destruct (strstr f _); [|destruct (strstr f _); [|destruct (strstr f _)]];
    (split; [by apply text_dec|cbn; lia]).
Qed.

Lemma static_headers_ok n f : 0 <= n < 2147483648 -> let hs := static_headers n (bytes (request_get_filetype f)) in
  Forall header hs /\ (crlf ∉ hs) /\ (length (mjoin hs) <= 200)%nat.
Proof.
  intros Hn. pose proof (length_decimal n Hn) as Hl. destruct (filetype_text f) as [Ht1 Ht2].
  destruct (header_ok (bytes "HTTP/1.0 200 OK") []) as [A1 A2]; [by apply text_dec|constructor|done|cbn; lia|].
  destruct (header_ok (bytes "Server: OSTEP WebServer") []) as [B1 B2]; [by apply text_dec|constructor|done|cbn; lia|].
  destruct (header_ok (bytes "Content-Length: ") (decimal n)) as [C1 C2]; [by apply text_dec|apply decimal_text; lia|done|cbn; lia|].
  destruct (header_ok (bytes "Content-Type: ") _ ltac:(by apply text_dec) Ht1) as [D1 D2]; [done|cbn; lia|].
  cbn zeta. unfold static_headers. split; [|split].
  - by repeat (constructor; [done|]).
  - rewrite !elem_of_cons, elem_of_nil. intros [E|[E|[E|[E|[]]]]]; by symmetry in E.
  - change (length ((bytes "HTTP/1.0 200 OK" ++ crlf) ++ (bytes "Server: OSTEP WebServer" ++ crlf) ++
      (bytes "Content-Length: " ++ decimal n ++ crlf) ++ (bytes "Content-Type: " ++ bytes (request_get_filetype f) ++ crlf) ++ []) <= 200)%nat.
    rewrite !length_app. cbn [length bytes crlf]. lia.
Qed.

(** What the client sends is a request as the server reads it. *)
Lemma client_send_ok uri host : (length uri <= 100)%nat -> (length host <= 100)%nat ->
  client_send uri host = Done (request_line [10] (bytes "GET") uri (bytes "HTTP/1.1") ++ mjoin [bytes "host: " ++ host ++ [10]] ++ crlf).
Proof.
  intros Hu Hh. pose proof client_buf_large. unfold client_send.
  rewrite fits_ok by (apply Nat.le_lt_trans with 100%nat; [done|apply Nat.ltb_lt; by vm_compute]). cbn [obind].
  rewrite fits_ok by (rewrite !length_app; cbn [length bytes crlf]; lia). f_equal. unfold request_line, mjoin, list_join.
  rewrite !app_nil_r. cbn [app bytes]. by rewrite <- !app_assoc.
Qed.

Lemma host_line_good host : is_text host -> (length host <= 100)%nat -> good_line (bytes "host: " ++ host ++ [10]).
Proof.
  intros Ht Hl. assert (Hs : is_text (bytes "host: " ++ host)) by (apply Forall_app; split; [by apply text_dec|done]).
  destruct (text_spec _ Hs) as [H10 Hz]. rewrite app_assoc. split_and!.
  - by exists (bytes "host: " ++ host).
  - apply Forall_app. split; [done|]. by repeat (constructor; [lia|]).
  - rewrite !length_app. cbn [length bytes]. unfold MAXBUF. lia.
Qed.

(** The uri of a file: the path is that of the file. *)
Definition file_uri (uri : list Z) : Prop :=
  is_word uri /\ strstr uri (bytes "..") = false /\ strstr uri (bytes "cgi") = false /\ last uri <> Some 47 /\ (length uri <= 48)%nat.

Lemma handle_file stat conn uri b k st : file_uri uri -> stat (bytes "." ++ uri) = Some st -> isreg st = true -> rusr st = true ->
  handle_uri stat conn uri b k = Done (OK, mkBuffer conn true (st_size st) (bytes "." ++ uri) [] 0, k).
Proof.
  intros (_ & _ & Hc & Hlast & Hl) Hs Hr Hu. unfold handle_uri, request_parse_uri. rewrite Hc. cbn [negb].
  rewrite fits_ok by (rewrite length_app; cbn; unfold MAXBUF; lia). cbn [obind].
  replace (last_is 47 uri) with false by (unfold last_is; destruct (last uri) as [c|]; [|done]; destruct (Z.eqb_spec c 47); [congruence|done]).
  cbn [obind]. rewrite Hs, Hr, Hu. cbn [negb orb]. rewrite fits_ok by (rewrite length_app; cbn; unfold SMALL_BUF; lia). done.
Qed.

Lemma serve_static_file fs f c : fs f = Some c -> 0 < Z.of_nat (length c) < 2147483648 ->
  request_serve_static fs f (Z.of_nat (length c)) (mkSocket [] []) =
  Done (0, mkSocket (mjoin (static_headers (Z.of_nat (length c)) (bytes (request_get_filetype f))) ++ crlf ++ c) []).
Proof.
  intros Hf Hc. unfold request_serve_static, map_file. rewrite Hf. rewrite s32_small by lia. rewrite (proj2 (Z.leb_gt _ _)) by lia.
  destruct (static_headers_ok (Z.of_nat (length c)) f ltac:(lia)) as (_ & _ & Hl).
  rewrite fits_ok by (rewrite length_app; cbn [length crlf]; unfold MAXBUF; lia). cbn [obind sock_writes sock_write s_writes s_out app].
  rewrite Nat2Z.id, take_app_length. by rewrite <- app_assoc.
Qed.

(** The request and what is sent back. *)
Lemma exchange_sent stat fs cgi conn b buf hbuf uri host st c :
  file_uri uri -> is_text host -> (length host <= 100)%nat ->
  stat (bytes "." ++ uri) = Some st -> isreg st = true -> rusr st = true -> st_size st = Z.of_nat (length c) ->
  fs (bytes "." ++ uri) = Some c -> Z.of_nat (length c) < 2147483648 ->
  exists req b' k, client_send uri host = Done req /\
    pre_handle_request stat 2 conn buf hbuf (Some <$> req) b (mkSocket [] []) = Some (Done (OK, b', mkSocket [] [])) /\
    worker_serve fs cgi b' (mkSocket [] []) = Done k /\
    (c <> [] -> k.(s_out) = mjoin (static_headers (Z.of_nat (length c)) (bytes (request_get_filetype (bytes "." ++ uri)))) ++ crlf ++ c) /\
    (c = [] -> k.(s_out) = []).
Proof.
  intros Hu Hh Hhl Hs Hr Hus Hsz Hf Hc. pose proof Hu as (Hw & Hdots & _ & _ & Hul).
  eexists _, _. enough (exists k, worker_serve fs cgi (mkBuffer conn true (st_size st) (bytes "." ++ uri) [] 0) (mkSocket [] []) = Done k /\
    (c <> [] -> k.(s_out) = mjoin (static_headers (Z.of_nat (length c)) (bytes (request_get_filetype (bytes "." ++ uri)))) ++ crlf ++ c) /\
    (c = [] -> k.(s_out) = [])) as (k & Ek & Hk).
  - exists k. split; [apply client_send_ok; lia|]. split; [|split; [exact Ek|exact Hk]].
    rewrite (fmap_app Some (request_line _ _ _ _)), (fmap_app Some (mjoin _)). rewrite <- (app_nil_r (Some <$> crlf)).
    change 2%nat with (S (length [bytes "host: " ++ host ++ [10]])).
    rewrite (pre_handle_reads stat conn buf hbuf b (mkSocket [] []) [10] (bytes "GET") uri (bytes "HTTP/1.1") [bytes "host: " ++ host ++ [10]] []).
    + rewrite Hdots. by rewrite (handle_file _ _ _ _ _ st).
    + by left.
    + by apply is_word_dec.
    + done.
    + by apply is_word_dec.
    + cbn. lia.
    + constructor; [by apply host_line_good|constructor].
    + rewrite list_elem_of_singleton. intros E. apply (f_equal length) in E. rewrite !length_app in E. cbn in E. lia.
  - unfold worker_serve. cbn [is_static pathname size]. rewrite Hsz. destruct (decide (c = [])) as [->|Hne].
    + unfold request_serve_static, map_file. rewrite Hf. cbn. by eexists.
    + rewrite (serve_static_file fs _ c Hf) by (destruct c; [done|cbn [length] in *; lia]). cbn [obind]. by eexists.
Qed.

(** What the client prints of an answer with a file. *)
Lemma file_printed fuel cbuf f c : Z.of_nat (length c) < 2147483648 -> Forall short_line (lines c) ->
  (4 < fuel)%nat -> (length (lines c) < fuel)%nat ->
  client_print fuel cbuf (Some <$> mjoin (static_headers (Z.of_nat (length c)) (bytes (request_get_filetype f))) ++ crlf ++ c) =
  Some (Done ((static_headers (Z.of_nat (length c)) (bytes (request_get_filetype f)) ≫= fun h => bytes "Header: " ++ h) ++ visible (lines c))).
Proof.
  intros Hc Hlines H4 Hf. rewrite (fmap_app Some (mjoin _)), (fmap_app Some crlf).
  destruct (static_headers_ok (Z.of_nat (length c)) f ltac:(lia)) as (H1 & H2 & _). unfold client_print.
  destruct (print_headers_ok _ fuel cbuf (Some <$> c) [] H1 H2) as (buf' & E); [cbn; lia|]. rewrite E. cbn [app].
  pose proof (print_body_ok (lines c) fuel buf' (static_headers (Z.of_nat (length c)) (bytes (request_get_filetype f)) ≫= fun h => bytes "Header: " ++ h)
    (lines_are_lines c) Hlines ltac:(lia)) as Hb. by rewrite lines_join in Hb.
Qed.

Lemma nothing_printed fuel cbuf : client_print (S fuel) cbuf [] = Some (Done []).
Proof.
  unfold client_print. cbn [print_headers].
  assert (Er : forall b, client_readline b [] = Done (0, put_string [] b, []))
    by (intros b; apply (client_readline_last [] b); [apply not_elem_of_nil|pose proof client_buf_large; cbn; lia]).
  rewrite Er. cbn [obind]. rewrite is_crlf_string by constructor.
  rewrite bool_decide_eq_false_2 by done. cbn [obind].
  change (print_body (S fuel) (put_string [] cbuf) [] [] = Some (Done [])). by rewrite (print_body_step _ _ _ _ _ _ _ (Er _)).
Qed.

(** C27: a client asks for a text file, the server answers, the client prints the
    answer.  The file has fewer than 2^31 bytes and its lines have no NUL and are shorter
    than the array of the client, the uri is that of a static file with a short name, and the file is
    readable.  The server accepts the request of the client, sends the headers, with the size of
    the file, and the file, and the client prints the headers and the lines of
    the file up to the first that is empty, and all of the file when no line is
    one character long.  A file without contents is not answered: nothing is
    sent, and the client prints nothing. *)
Theorem web_exchange stat fs cgi conn b buf hbuf cbuf uri host st c :
  file_uri uri -> is_text host -> (length host <= 100)%nat ->
  stat (bytes "." ++ uri) = Some st -> isreg st = true -> rusr st = true -> st_size st = Z.of_nat (length c) ->
  fs (bytes "." ++ uri) = Some c -> Z.of_nat (length c) < 2147483648 -> Forall short_line (lines c) ->
  exists req b' k, client_send uri host = Done req /\
    pre_handle_request stat 2 conn buf hbuf (Some <$> req) b (mkSocket [] []) = Some (Done (OK, b', mkSocket [] [])) /\
    worker_serve fs cgi b' (mkSocket [] []) = Done k /\
    (c <> [] ->
       let printed := static_headers (Z.of_nat (length c)) (bytes (request_get_filetype (bytes "." ++ uri))) ≫= fun h => bytes "Header: " ++ h in
       client_print (5 + length (lines c)) cbuf (Some <$> k.(s_out)) = Some (Done (printed ++ visible (lines c))) /\
       (Forall (fun l => length l <> 1%nat) (lines c) -> visible (lines c) = c)) /\
    (c = [] -> k.(s_out) = [] /\ client_print 1 cbuf (Some <$> k.(s_out)) = Some (Done [])).
Proof.
  intros Hu Hh Hhl Hs Hr Hus Hsz Hf Hc Hlines.
  destruct (exchange_sent stat fs cgi conn b buf hbuf uri host st c Hu Hh Hhl Hs Hr Hus Hsz Hf Hc) as (req & b' & k & E1 & E2 & E3 & Hk1 & Hk2).
  exists req, b', k. split; [exact E1|]. split; [exact E2|]. split; [exact E3|]. split.
  - intros Hne printed. split; [|intros H1; rewrite visible_all by done; apply lines_join]. rewrite Hk1 by done.
    apply file_printed; [exact Hc|exact Hlines|lia|lia].
  - intros Hne. rewrite Hk2 by done. split; [done|]. apply nothing_printed.
Qed.

(** The file [/a] with the line [hi]. *)
Lemma web_exchange_witness :
  let c := bytes "hi" ++ [10] in
  exists req b' k, client_send (bytes "/a") (bytes "h") = Done req /\
    pre_handle_request (fun f => if decide (f = bytes "./a") then Some (mkStat true true false 3) else None) 2 4 [] [] (Some <$> req)
      (mkBuffer 0 false 0 [] [] 0) (mkSocket [] []) = Some (Done (OK, b', mkSocket [] [])) /\
    worker_serve (fun f => if decide (f = bytes "./a") then Some c else None) (fun _ _ => []) b' (mkSocket [] []) = Done k /\
    client_print 6 [] (Some <$> k.(s_out)) = Some (Done ((static_headers 3 (bytes "text/plain") ≫= fun h => bytes "Header: " ++ h) ++ c)).
Proof.
  intros c.
  destruct (web_exchange (fun f => if decide (f = bytes "./a") then Some (mkStat true true false 3) else None)
    (fun f => if decide (f = bytes "./a") then Some c else None) (fun _ _ => []) 4 (mkBuffer 0 false 0 [] [] 0) [] [] [] (bytes "/a") (bytes "h")
    (mkStat true true false 3) c) as (req & b' & k & H1 & H2 & H3 & H4 & _).
  - split; [by apply is_word_dec|]. split_and!; [reflexivity|reflexivity|discriminate|cbn; lia].
  - by apply text_dec.
  - cbn. lia.
  - reflexivity.
  - reflexivity.
  - reflexivity.
  - reflexivity.
  - reflexivity.
  - cbn. lia.
  - change (lines c) with [c]. pose proof client_buf_large. constructor; [|constructor]. split; [|cbn; lia].
    change c with [104; 105; 10]. repeat (constructor; [lia|]). constructor.
  - exists req, b', k. split; [exact H1|]. split; [exact H2|]. split; [exact H3|]. destruct (H4 ltac:(discriminate)) as [H5 _]. exact H5.
Defined.

(** The client loses the text behind an empty line: [readline] returns the number
    of characters before the newline, and 0 ends the loop. *)
Lemma client_stops_at_empty_line : visible (lines (bytes "a" ++ [97; 10; 10; 98; 98; 10])) = bytes "a" ++ [97; 10].
Proof. reflexivity. Qed.

Lemma mjoin_cons (l : list Z) ls : mjoin (l :: ls) = l ++ mjoin ls.
Proof. done. Qed.

(** The answer of [spin.c] behind what the server sends, line by line. *)
Definition spin_lines (q spun : list Z) : list (list Z) :=
  [ bytes "<p>Welcome to the CGI program (" ++ (q ++ bytes ")</p>") ++ crlf;
    bytes "<p>My only purpose is to waste time on the server!</p>" ++ [] ++ crlf;
    bytes "<p>I spun for " ++ (spun ++ bytes " seconds</p>") ++ crlf ].

Definition spin_headers (n : Z) : list (list Z) :=
  [ bytes "HTTP/1.0 200 OK" ++ [] ++ crlf; bytes "Server: OSTEP WebServer" ++ [] ++ crlf;
    bytes "Content-length: " ++ decimal n ++ crlf; bytes "Content-type: text/html" ++ [] ++ crlf ].

Lemma spin_lines_ok q spun : is_text q -> is_text spun -> (length q <= 40)%nat -> (length spun <= 40)%nat ->
  Forall header (spin_lines q spun) /\ (length (mjoin (spin_lines q spun)) <= 400)%nat.
Proof.
  intros Hq Hs Hlq Hls. assert (Hsnoc : forall a b, is_text a -> is_text (bytes b) -> is_text (a ++ bytes b)) by (intros a b Ha Hb; by apply Forall_app).
  split; [|unfold spin_lines; rewrite !mjoin_cons, !length_app; cbn [length bytes crlf]; change (length (mjoin [])) with 0%nat; lia].
  repeat (constructor; [apply header_ok; [by apply text_dec|first [constructor | apply Hsnoc; [done|by apply text_dec]]|done|rewrite ?length_app; cbn [length bytes]; lia]|]).
  constructor.
Qed.

Lemma spin_headers_ok n : 0 <= n < 2147483648 -> Forall header (spin_headers n) /\ crlf ∉ spin_headers n.
Proof.
  intros Hn. assert (H : Forall (fun h => header h /\ h <> crlf) (spin_headers n)).
  { pose proof (length_decimal n Hn). pose proof (decimal_text n ltac:(lia)).
    repeat (constructor; [apply header_ok; [by apply text_dec|first [constructor | done]|done|cbn [length bytes]; lia]|]). constructor. }
  split; [eapply Forall_impl; [exact H|]; by intros h [? _]|]. intros Hc. rewrite Forall_forall in H. by destruct (H _ Hc).
Qed.

Lemma headers_are_lines ls : Forall header ls -> are_lines ls.
Proof. induction 1 as [|h ls [Hh _] _ IH]; [done|]. by apply are_lines_cons. Qed.

(** The client prints the headers and all of the body of a CGI program. *)
Lemma spin_printed q spun filename cbuf : is_text q -> is_text spun -> (length q <= 40)%nat -> (length spun <= 40)%nat ->
  let n := Z.of_nat (length (mjoin (spin_lines q spun))) in
  exists out, spin_main (Some q) spun = Done out /\
    client_print 5 cbuf (Some <$> (request_serve_dynamic (fun _ _ => out) filename q (mkSocket [] [])).2.(s_out)) =
    Some (Done ((spin_headers n ≫= fun h => bytes "Header: " ++ h) ++ mjoin (spin_lines q spun))).
Proof.
  intros Hq Hs Hlq Hls n. destruct (spin_lines_ok q spun Hq Hs Hlq Hls) as [Hlines Hjoin].
  destruct (spin_headers_ok n ltac:(lia)) as [Hh Hc]. pose proof client_buf_large as Hbig.
  assert (Ej : mjoin (spin_lines q spun) = bytes "<p>Welcome to the CGI program (" ++ q ++ bytes ")</p>" ++ crlf ++
     bytes "<p>My only purpose is to waste time on the server!</p>" ++ crlf ++ bytes "<p>I spun for " ++ spun ++ bytes " seconds</p>" ++ crlf)
    by (unfold spin_lines; rewrite !mjoin_cons; change (mjoin []) with (@nil Z); rewrite !app_nil_r, !app_nil_l; repeat rewrite <- app_assoc; done).
  exists (bytes "Content-length: " ++ decimal n ++ crlf ++ bytes "Content-type: text/html" ++ crlf ++ crlf ++ mjoin (spin_lines q spun)). split.
  - unfold spin_main. cbn [default from_option]. unfold id. rewrite <- Ej. rewrite fits_ok by (unfold CLIENT_BUF in Hbig; lia). done.
  - unfold request_serve_dynamic. cbn [sock_writes sock_write s_writes s_out app]. change (0 =? -1) with false. cbn iota. cbn [snd s_out].
    match goal with |- client_print _ _ (Some <$> ?x) = _ => replace x with (mjoin (spin_headers n) ++ crlf ++ mjoin (spin_lines q spun))
      by (unfold spin_headers; rewrite !mjoin_cons; change (mjoin []) with (@nil Z); rewrite !app_nil_r, !app_nil_l; repeat rewrite <- app_assoc; done) end.
    rewrite (fmap_app Some (mjoin _)), (fmap_app Some crlf). unfold client_print.
    destruct (print_headers_ok (spin_headers n) 5 cbuf (Some <$> mjoin (spin_lines q spun)) [] Hh Hc ltac:(cbn; lia)) as (buf' & ->).
    cbn [app]. rewrite print_body_ok; [|by apply headers_are_lines
      |eapply Forall_impl; [exact Hlines|]; by intros h (_ & ? & _)|cbn; lia].
    rewrite visible_all; [done|]. eapply Forall_impl; [exact Hlines|]. intros h (_ & _ & ?). lia.
Qed.
