(* ===== verification/ClientThreads.v ===== *)
(** * The threads of the web client

    [send_request] and the threads of [main] of
    [projects/concurrency-webserver/wclient.c], on the machine of [Threads]: every
    thread opens a connection, sends its request and prints the answer while it
    has the lock.  What the server answers to a request is a parameter.  The loops
    of [client_print] are instructions here, one for each call of [readline] and
    [printf], so that the threads can interleave between any two lines. *)

From Stdlib Require Import ZArith Lia String.
From stdpp Require Import base tactics numbers list relations.
From S2P Require Import Prelude Cstring Request WebClient Threads.

Local Open Scope Z_scope.
Local Open Scope ostep_scope.

(** ** Definitions *)

(** The variables of [send_request] and of [client_print]: [rd] is what the last
    call of [readline] left, its result, the array and the rest of the answer. *)
Record request_vars := mkVars { filename : list Z; rd : outcome string (Z * list Z * stream) }.

(** What the threads share: the characters written to [stdout] and how many of
    them [fflush] has written out, the requests the server received, and the
    number of open connections. *)
Record client_store := mkClient { out : list Z; flushed : nat; sent : list (list Z); opened : Z }.

Section client.
Variable hostname : list Z.
Variable answer : list Z -> stream.
(** The array of [client_print] before the first line. *)
Variable buf0 : list Z.

Definition instruction : Type := instr unit request_vars client_store.

Definition set_rd (r : outcome string (Z * list Z * stream)) (l : request_vars) : request_vars := mkVars l.(filename) r.

Definition print (text : list Z) (s : client_store) : client_store := mkClient (s.(out) ++ text) s.(flushed) s.(sent) s.(opened).

(** [open_client_fd_or_die] *)
Definition do_open (l : request_vars) (s : client_store) : request_vars * client_store :=
  (l, mkClient s.(out) s.(flushed) s.(sent) (s.(opened) + 1)).

(** [client_send] *)
Definition do_send (l : request_vars) (s : client_store) : request_vars * client_store :=
  match client_send l.(filename) hostname with
  | Done req => (set_rd (Done (0, buf0, answer req)) l, mkClient s.(out) s.(flushed) (s.(sent) ++ [req]) s.(opened))
  | Fail e => (set_rd (Fail e) l, s)
  | Crash e => (set_rd (Crash e) l, s)
  end.

(** [n = readline_or_die(fd, buf, MAXBUF)] *)
Definition do_readline (l : request_vars) (s : client_store) : request_vars * client_store :=
  (set_rd (let* '(_, buf, conn) := l.(rd) in client_readline buf conn) l, s).

(** [strcmp(buf, "\r\n") && (n > 0)] *)
Definition in_headers (l : request_vars) (_ : client_store) : bool :=
  match l.(rd) with
  | Done (n, buf, _) => match is_crlf buf with Done blank => negb blank && (0 <? n) | _ => false end
  | _ => false
  end.

(** [n > 0] *)
Definition in_body (l : request_vars) (_ : client_store) : bool :=
  match l.(rd) with Done (n, _, _) => 0 <? n | _ => false end.

(** [printf] of the array behind [prefix]. *)
Definition do_print (prefix : list Z) (l : request_vars) (s : client_store) : request_vars * client_store :=
  match (let* '(_, buf, _) := l.(rd) in cstr buf) with
  | Done text => (l, print (prefix ++ text) s)
  | _ => (l, s)
  end.

(** [printf("%s end\n\n", filename)] *)
Definition end_mark (f : list Z) : list Z := f ++ bytes " end" ++ [10; 10].

Definition send_request : list instruction :=
  [ Act do_open;
    Act do_send;
    Wait (fun _ => tt);
    Act do_readline;
    Unless in_headers 3;
    Act (do_print (bytes "Header: "));
    Act do_readline;
    Back 3;
    Act do_readline;
    Unless in_body 3;
    Act (do_print []);
    Act do_readline;
    Back 3;
    Act (fun l s => (l, print (end_mark l.(filename)) s));
    Act (fun l s => (l, mkClient s.(out) (length s.(out)) s.(sent) s.(opened)));
    Post (fun _ => tt);
    Act (fun l s => (l, mkClient s.(out) s.(flushed) s.(sent) (s.(opened) - 1))) ].

Definition code (_ : unit) : list instruction := send_request.

(** The threads that [main] creates, one for every name of [client_files]. *)
Definition main (files : list (list Z)) : machine unit unit request_vars client_store :=
  mkMachine (fun _ => 1) (mkClient [] 0 [] 0) ((fun f => mkThread tt 0 (mkVars f (Done (0, buf0, [])))) <$> files).

Local Opaque client_readline.

(** ** What a thread is to print *)

(** What [send_request] prints for a file by itself. *)
Definition block (f : list Z) : option (list Z) :=
  match client_send f hostname with
  | Done req =>
      match client_print (S (length (answer req))) buf0 (answer req) with
      | Some (Done text) => Some (text ++ end_mark f)
      | _ => None
      end
  | _ => None
  end.

(** What the loops of [client_print] still print behind a call of [readline]. *)
Inductive body_prints : Z -> list Z -> stream -> list Z -> Prop :=
| body_end n buf s : n <= 0 -> body_prints n buf s []
| body_line n buf s text n' buf' s' rest :
    0 < n -> cstr buf = Done text -> client_readline buf s = Done (n', buf', s') -> body_prints n' buf' s' rest ->
    body_prints n buf s (text ++ rest).

Inductive headers_print : Z -> list Z -> stream -> list Z -> Prop :=
| headers_end n buf s blank n' buf' s' rest :
    is_crlf buf = Done blank -> negb blank && (0 <? n) = false -> client_readline buf s = Done (n', buf', s') ->
    body_prints n' buf' s' rest -> headers_print n buf s rest
| headers_line n buf s text n' buf' s' rest :
    is_crlf buf = Done false -> 0 < n -> cstr buf = Done text -> client_readline buf s = Done (n', buf', s') ->
    headers_print n' buf' s' rest -> headers_print n buf s (bytes "Header: " ++ text ++ rest).

Lemma print_body_prints fuel : forall buf s acc text, print_body fuel buf s acc = Some (Done text) ->
  exists n buf' s' rest, client_readline buf s = Done (n, buf', s') /\ body_prints n buf' s' rest /\ text = acc ++ rest.
Proof.
  induction fuel as [|fuel IH]; intros buf s acc text E; [done|].
  destruct (client_readline buf s) as [[[n buf'] s']|e|e] eqn:Er; [|cbn [print_body] in E; by rewrite Er in E..].
  rewrite (print_body_step _ _ _ _ _ _ _ Er) in E. exists n, buf', s'. destruct (Z.ltb_spec 0 n) as [Hn|Hn].
  - destruct (cstr buf') as [t|e|e] eqn:Ec; [|done..]. apply IH in E as (n2 & b2 & s2 & rest & E2 & Hb & ->).
    exists (t ++ rest). split_and!; [done|by econstructor|by rewrite app_assoc].
  - injection E as <-. exists []. split_and!; [done|by constructor|by rewrite app_nil_r].
Qed.

Lemma print_headers_prints fuel : forall buf s acc acc' b t text, print_headers fuel buf s acc = Some (Done (acc', b, t)) ->
  print_body fuel b t acc' = Some (Done text) ->
  exists n buf' s' rest, client_readline buf s = Done (n, buf', s') /\ headers_print n buf' s' rest /\ text = acc ++ rest.
Proof.
  generalize fuel at 2 as fuel2. induction fuel as [|fuel IH]; intros fuel2 buf s acc acc' b t text E E2; [done|]. cbn [print_headers] in E.
  destruct (client_readline buf s) as [[[n buf'] s']|e|e] eqn:Er; [|done..]. cbn [obind] in E. exists n, buf', s'.
  destruct (is_crlf buf') as [blank|e|e] eqn:Eb; [|done..]. cbn [obind] in E. destruct (negb blank && (0 <? n)) eqn:En.
  - destruct (cstr buf') as [x|e|e] eqn:Ec; [|done..]. cbn [obind] in E.
    destruct (IH _ _ _ _ _ _ _ _ E E2) as (n2 & b2 & s2 & rest & E3 & Hh & ->). bool_to_prop. destruct blank; [done|].
    exists (bytes "Header: " ++ x ++ rest). split_and!; [done|econstructor; (done || lia)|by rewrite <- !app_assoc].
  - injection E as <- <- <-. apply print_body_prints in E2 as (n2 & b2 & s2 & rest & E3 & Hb & ->).
    exists rest. split_and!; [done|by eapply headers_end|done].
Qed.

Lemma block_prints f text : block f = Some text ->
  exists req n buf s rest, client_send f hostname = Done req /\ client_readline buf0 (answer req) = Done (n, buf, s) /\
    headers_print n buf s rest /\ text = rest ++ end_mark f.
Proof.
  unfold block. destruct (client_send f hostname) as [req|e|e] eqn:Es; [|done..]. unfold client_print.
  destruct (print_headers _ _ _ _) as [[[[acc b] t]|e|e]|] eqn:Eh; [|done..].
  destruct (print_body _ _ _ _) as [[x|e|e]|] eqn:Eb; [|done..]. intros [= <-].
  destruct (print_headers_prints _ _ _ _ _ _ _ _ Eh Eb) as (n & buf & s & rest & Er & Hh & ->).
  exists req, n, buf, s, rest. split; [exact eq_refl|]. split; [exact Er|]. split; [exact Hh|]. reflexivity.
Qed.

(** ** The invariant *)

Definition text_of (f : list Z) : list Z := default [] (block f).
Definition request_of (f : list Z) : list Z := match client_send f hostname with Done req => req | _ => [] end.

(** [part] is what the thread with the lock has printed so far. *)
Definition thread_ok (part : list Z) (t : thread unit request_vars) : Prop :=
  let l := t.(loc) in let f := l.(filename) in
  let left (P : Z -> list Z -> stream -> list Z -> Prop) :=
    exists n buf s rest, l.(rd) = Done (n, buf, s) /\ P n buf s rest /\ text_of f = part ++ rest ++ end_mark f in
  (t.(pc) <= 17)%nat /\ is_Some (block f) /\
  match t.(pc) with
  | 2%nat => l.(rd) = Done (0, buf0, answer (request_of f))
  | 3%nat => l.(rd) = Done (0, buf0, answer (request_of f)) /\ part = []
  | 4%nat | 7%nat => left headers_print
  | 5%nat => left (fun n buf s rest => 0 < n /\ is_crlf buf = Done false /\ headers_print n buf s rest)
  | 6%nat => left (fun _ buf s rest => exists n' buf' s', client_readline buf s = Done (n', buf', s') /\ headers_print n' buf' s' rest)
  | 8%nat | 11%nat => left (fun _ buf s rest => exists n' buf' s', client_readline buf s = Done (n', buf', s') /\ body_prints n' buf' s' rest)
  | 9%nat | 12%nat => left body_prints
  | 10%nat => left (fun n buf s rest => 0 < n /\ body_prints n buf s rest)
  | 13%nat => text_of f = part ++ end_mark f
  | 14%nat | 15%nat => part = []
  | _ => True
  end.

(** How often a text occurs in a list. *)
Definition occurs (x : list Z) (l : list (list Z)) : Z := tsum (fun y => if decide (y = x) then 1 else 0) l.

(** The threads behind an instruction for which [f] of the name is [x]. *)
Definition behind (p : nat) (f : list Z -> list Z) (x : list Z) (t : thread unit request_vars) : Z :=
  if ((p <=? t.(pc))%nat && bool_decide (f t.(loc).(filename) = x))%bool then 1 else 0.

(** [ds] is the names of the threads that have printed their end, in this order. *)
Definition inv (m : machine unit unit request_vars client_store) : Prop :=
  let s := m.(store) in let ts := m.(threads) in
  0 <= m.(sems) tt /\ m.(sems) tt + tsum (at_pc 3 15) ts = 1 /\ s.(opened) = tsum (at_pc 1 16) ts /\
  (tsum (at_pc 3 14) ts = 0 -> s.(flushed) = length s.(out)) /\
  (forall r, occurs r s.(sent) = tsum (behind 2 request_of r) ts) /\
  exists ds part, s.(out) = mjoin (text_of <$> ds) ++ part /\ (tsum (at_pc 3 15) ts = 0 -> part = []) /\
    (forall f, occurs f ds = tsum (behind 14 id f) ts) /\ Forall (thread_ok part) ts.

(** Only the thread with the lock changes [part]. *)
Lemma keep_others part part' ts j t t' :
  Forall (thread_ok part) ts -> ts !! j = Some t -> tsum (at_pc 3 15) ts <= 1 -> part' = part \/ at_pc 3 15 t = 1 ->
  thread_ok part' t' -> Forall (thread_ok part') (<[j := t']> ts).
Proof.
  intros Hok Ht H1 Hor H'. apply Forall_lookup. intros i u Hu. destruct (decide (i = j)) as [->|Hij].
  { rewrite list_lookup_insert_eq in Hu by (by eapply lookup_lt_Some). by injection Hu as <-. }
  rewrite list_lookup_insert_ne in Hu by done. pose proof (proj1 (Forall_lookup _ _) Hok _ _ Hu) as Hp.
  destruct Hor as [->|Hcs]; [done|]. pose proof (tsum_ge2 (at_pc 3 15) ts j i t u ltac:(auto with ostep) ltac:(done) Ht Hu) as H2.
  unfold thread_ok in *. destruct u as [[] p l]. cbn [pc loc] in *. destruct Hp as (Hp & Hb & Hm). split_and!; [done|done|].
  assert (Hq : (p < 3 \/ 15 < p)%nat) by (destruct (decide (3 <= p <= 15)%nat); [rewrite (at_pc_1 3 15 (mkThread () p l)) in H2 by done; lia|lia]).
  split_pc 16%nat p; first [exact I | exact Hm | lia].
Qed.

Lemma block_sends f : is_Some (block f) -> client_send f hostname = Done (request_of f).
Proof. unfold block, request_of. intros [x E]. by destruct (client_send f hostname). Qed.

(** A step that prints nothing. *)
Ltac silent part :=
  exists [], part; cbn [out]; rewrite ?app_nil_r;
  (split; [done|]; split; [done|]; split; [first [by left|by right]|]; split; [intros Hz; first [discriminate Hz|by right|by left]|]); unfold thread_ok; cbn [pc loc filename rd set_rd]; (split; [cbn; lia|]; split; [first [assumption|by eexists]|]).

(** A step of the thread with the lock that prints [x]. *)
Ltac says part x :=
  exists x, (part ++ x); cbn [out print];
  (split; [done|]; split; [done|]; split; [by right|]; split; [done|]); unfold thread_ok; cbn [pc loc filename rd set_rd];
  (split; [cbn; lia|]; split; [assumption|]).

Ltac by_hyps := repeat split; first [assumption | reflexivity].

(** One instruction of a thread: what it prints, [x], belongs to its own text. *)
Lemma thread_step part v s t v' s' t' :
  thread_ok part t -> exec (code) v s t = Some (v', s', t') -> (t.(pc) = 2%nat -> part = []) ->
  exists x part', s'.(out) = s.(out) ++ x /\
    mjoin (text_of <$> (if (t.(pc) =? 13)%nat then [t.(loc).(filename)] else [])) ++ part' = part ++ x /\
    (part' = part \/ at_pc 3 15 t = 1) /\ (at_pc 3 15 t' = 0 -> part' = [] \/ at_pc 3 15 t = 0) /\ thread_ok part' t'.
Proof.
  intros Hok Ex H2. unfold thread_ok in Hok. destruct t as [[] p [f r]]. cbn [pc loc filename rd] in *. destruct Hok as (Hp & Hb & Hm).
  destruct (decide (p = 13%nat)) as [->|Hn13].
  { cbn in Ex. injection Ex as <- <- <-. exists (end_mark f), []. split_and!; [done| |by right|done|].
    - cbn. by rewrite Hm, !app_nil_r.
    - split_and!; [cbn; lia|done|done]. }
  rewrite (proj2 (Nat.eqb_neq p 13) Hn13). cbn [fmap list_fmap mjoin list_join app].
  split_pc 18%nat p; try lia; cbn -[client_readline] in Ex.
  - injection Ex as <- <- <-. silent part. done.
  - apply block_sends in Hb as Hs. unfold do_send in Ex. cbn [filename] in Ex. rewrite Hs in Ex. injection Ex as <- <- <-. silent part. done.
  - destruct (0 <? v tt); [|done]. injection Ex as <- <- <-. silent part. auto.
  - destruct Hm as [-> ->]. injection Ex as <- <- <-. destruct Hb as [text Hb]. pose proof (block_prints _ _ Hb) as (req & n & buf & c & rest & Es & Er & Hh & ->).
    silent (@nil Z). unfold request_of, text_of. rewrite Es, Hb. cbn [obind rd set_rd]. rewrite Er. exists n, buf, c, rest. split; [reflexivity|]. by split.
  - destruct Hm as (n & buf & c & rest & -> & Hh & Ht). unfold in_headers in Ex. cbn [rd] in Ex.
    destruct Hh as [n buf c blank n' buf' c' rest Eb En Er Hb'|n buf c text n' buf' c' rest Eb En Ec Er Hh]; rewrite Eb in Ex.
    + rewrite En in Ex. injection Ex as <- <- <-. silent part. exists n, buf, c, rest. split; [reflexivity|]. split; [exists n', buf', c'; by_hyps|exact Ht].
    + rewrite (proj2 (Z.ltb_lt _ _) En) in Ex. injection Ex as <- <- <-. silent part. eexists n, buf, c, _. split; [reflexivity|]. split; [|exact Ht].
      split; [exact En|]. split; [exact Eb|]. econstructor; eassumption.
  - destruct Hm as (n & buf & c & rest & -> & (Hn & Ecr & Hh) & Ht). unfold do_print in Ex. cbn [rd obind] in Ex.
    destruct Hh as [n buf c blank n' buf' c' rest Eb En Er Hb'|n buf c text n' buf' c' rest Eb En Ec Er Hh].
    { rewrite Ecr in Eb. injection Eb as <-. rewrite (proj2 (Z.ltb_lt _ _) Hn) in En. discriminate En. }
    rewrite Ec in Ex. injection Ex as <- <- <-. says part (bytes "Header: " ++ text). exists n, buf, c, rest. split; [reflexivity|].
    split; [exists n', buf', c'; by_hyps|]. rewrite Ht. by rewrite <- !app_assoc.
  - destruct Hm as (n & buf & c & rest & -> & (n' & buf' & c' & Er & Hh) & Ht). unfold do_readline in Ex. cbn [rd obind] in Ex. rewrite Er in Ex.
    injection Ex as <- <- <-. silent part. exists n', buf', c', rest. by_hyps.
  - injection Ex as <- <- <-. silent part. exact Hm.
  - destruct Hm as (n & buf & c & rest & -> & (n' & buf' & c' & Er & Hh) & Ht). unfold do_readline in Ex. cbn [rd obind] in Ex. rewrite Er in Ex.
    injection Ex as <- <- <-. silent part. exists n', buf', c', rest. by_hyps.
  - destruct Hm as (n & buf & c & rest & -> & Hh & Ht). unfold in_body in Ex. cbn [rd] in Ex. destruct (Z.ltb_spec 0 n) as [Hn|Hn].
    + injection Ex as <- <- <-. silent part. exists n, buf, c, rest. by_hyps.
    + injection Ex as <- <- <-. silent part. inversion Hh; subst; [done|lia].
  - destruct Hm as (n & buf & c & rest & -> & (Hn & Hh) & Ht). unfold do_print in Ex. cbn [rd obind] in Ex.
    inversion Hh as [|? ? ? text n' buf' c' rest' _ Ec Er Hh']; subst; [lia|]. rewrite Ec in Ex. injection Ex as <- <- <-.
    says part text. exists n, buf, c, rest'. split; [reflexivity|]. split; [exists n', buf', c'; by_hyps|]. rewrite Ht. by rewrite <- !app_assoc.
  - destruct Hm as (n & buf & c & rest & -> & (n' & buf' & c' & Er & Hh) & Ht). unfold do_readline in Ex. cbn [rd obind] in Ex. rewrite Er in Ex.
    injection Ex as <- <- <-. silent part. exists n', buf', c', rest. by_hyps.
  - injection Ex as <- <- <-. silent part. exact Hm.
  - injection Ex as <- <- <-. silent part. exact Hm.
  - injection Ex as <- <- <-. silent part. done.
  - injection Ex as <- <- <-. silent part. done.
  - discriminate Ex.
Qed.

Lemma occurs_app x l l' : occurs x (l ++ l') = occurs x l + occurs x l'.
Proof. apply tsum_app. Qed.

Lemma occurs_one x y : occurs x [y] = if decide (y = x) then 1 else 0.
Proof. unfold occurs. rewrite tsum_cons. cbn [tsum foldr]. lia. Qed.

(** The lock, the connections, the requests and the flushed output. *)
Definition counts (m : machine unit unit request_vars client_store) : Prop :=
  let s := m.(store) in let ts := m.(threads) in
  0 <= m.(sems) tt /\ m.(sems) tt + tsum (at_pc 3 15) ts = 1 /\ s.(opened) = tsum (at_pc 1 16) ts /\
  (tsum (at_pc 3 14) ts = 0 -> s.(flushed) = length s.(out)) /\
  (forall r, occurs r s.(sent) = tsum (behind 2 request_of r) ts).

(** The loops of [client_print] only print. *)
Lemma loop_step v s p l v' s' t' : (3 <= p <= 12)%nat -> exec (code) v s (mkThread tt p l) = Some (v', s', t') ->
  v' = v /\ (exists x, s' = print x s) /\ exists q l', t' = mkThread tt q l' /\ l'.(filename) = l.(filename) /\ (4 <= q <= 13)%nat.
Proof.
  intros Hp. assert (Hs : s = print [] s) by (destruct s; unfold print; cbn; by rewrite app_nil_r).
  split_pc 13%nat p; try lia; unfold exec; cbn [code send_request lookup list_lookup]; unfold do_readline, do_print.
  all: try (destruct (obind _ _)). all: intros [= <- <- <-]. all: split; [reflexivity|].
  all: (split; [first [by eexists | exists []; exact Hs]|]).
  all: eexists _, _; split; [reflexivity|]; split; [reflexivity|]; cbn; try destruct (in_headers _ _); try destruct (in_body _ _); lia.
Qed.

Lemma behind_same p f x (t t' : thread unit request_vars) : t'.(loc).(filename) = t.(loc).(filename) ->
  (p <=? t'.(pc))%nat = (p <=? t.(pc))%nat -> behind p f x t' = behind p f x t.
Proof. unfold behind. by intros -> ->. Qed.

Lemma behind_set p f x (t : thread unit request_vars) : (p <= t.(pc))%nat -> behind p f x t = occurs x [f t.(loc).(filename)].
Proof.
  intros H. unfold behind. rewrite (proj2 (Nat.leb_le _ _) H), occurs_one. cbn [andb].
  case_decide; [by rewrite bool_decide_eq_true_2|by rewrite bool_decide_eq_false_2].
Qed.

Lemma behind_unset p f x (t : thread unit request_vars) : (t.(pc) < p)%nat -> behind p f x t = 0.
Proof. intros H. unfold behind. by rewrite (proj2 (Nat.leb_gt _ _) H). Qed.

Ltac client_sums Ht :=
  rewrite ?(tsum_step _ _ _ _ _ Ht); cbn [at_pc pc Nat.leb andb Nat.add] in *; unfold sem_add; rewrite ?decide_True by done; lia.

Ltac client_names Ht :=
  intros ?; rewrite (tsum_step _ _ _ _ _ Ht);
  first [match goal with |- _ - behind _ _ _ ?t + behind _ _ _ ?t' = _ => rewrite (behind_same _ _ _ t t') by done end |
         match goal with |- _ = _ - behind _ _ _ ?t + behind _ _ _ ?t' => rewrite (behind_same _ _ _ t t') by done end | rewrite (behind_unset _ _ _ (mkThread _ _ _)) by (cbn; lia); rewrite behind_set by (cbn; lia)];
  rewrite ?occurs_app; cbn [loc filename set_rd]; unfold id;
  try match goal with H : forall r, occurs r (sent _) = _ |- _ => rewrite H end; try change (occurs _ []) with 0; lia.

Lemma counts_step v s ts j t v' s' t' part :
  counts (mkMachine v s ts) -> thread_ok part t -> ts !! j = Some t -> exec (code) v s t = Some (v', s', t') ->
  counts (mkMachine v' s' (<[j := t']> ts)) /\
  (forall f, tsum (behind 14 id f) (<[j := t']> ts) = tsum (behind 14 id f) ts + occurs f (if (t.(pc) =? 13)%nat then [t.(loc).(filename)] else [])).
Proof.
  intros (Hv & Hl & Ho & Hf & Hs) Hok Ht Ex. unfold counts. cbn [sems store threads] in *. destruct Hok as (Hp & Hb & _).
  destruct t as [[] p l]. cbn [pc loc] in *.
  pose proof (at_pc_sub 3 14 3 15 ts ltac:(lia) ltac:(lia)). pose proof (tsum_nonneg (at_pc 3 14) ts ltac:(auto with ostep)).
  pose proof (at_pc_of 3 14 ts j _ Ht). pose proof (at_pc_of 3 15 ts j _ Ht).
  destruct (decide (3 <= p <= 12)%nat) as [Hl3|Hl3].
  - destruct (loop_step _ _ _ _ _ _ _ Hl3 Ex) as (-> & [x ->] & q & l' & -> & El & Hq).
    cbn [print out flushed sent opened].
    assert (Hpq : forall lo hi, (lo <= 3)%nat -> (13 <= hi)%nat -> tsum (at_pc lo hi) (<[j := mkThread tt q l']> ts) = tsum (at_pc lo hi) ts)
      by (intros lo hi Hlo Hhi; rewrite (tsum_step _ _ _ _ _ Ht), !at_pc_1 by (cbn; lia); lia).
    rewrite !Hpq by lia. rewrite (at_pc_1 3 14) in * by (cbn; lia). split_and!; try done; try lia.
    + intros r. rewrite (tsum_step _ _ _ _ _ Ht), Hs, (behind_same _ _ _ (mkThread () p l) (mkThread () q l')); [lia|done|].
      cbn [pc]. rewrite !(proj2 (Nat.leb_le _ _)) by lia. done.
    + intros f. rewrite (tsum_step _ _ _ _ _ Ht). rewrite !behind_unset by (cbn; lia). rewrite (proj2 (Nat.eqb_neq _ _)) by lia. cbn. lia.
  - split_pc 18%nat p; try lia; unfold exec in Ex; cbn [code send_request lookup list_lookup] in Ex;
      unfold do_open, do_send in Ex; try (rewrite (block_sends _ Hb) in Ex); try discriminate Ex;
      try (destruct (Z.ltb_spec 0 (v tt)); [|discriminate Ex]); injection Ex as <- <- <-;
      cbn [print out flushed sent opened Nat.eqb]; (split; [split_and!|client_names Ht]); first [client_sums Ht | client_names Ht].
Qed.

Lemma client_step v s ts j t v' s' t' :
  inv (mkMachine v s ts) -> ts !! j = Some t -> exec (code) v s t = Some (v', s', t') -> inv (mkMachine v' s' (<[j := t']> ts)).
Proof.
  intros (Hv & Hl & Ho & Hf & Hs & ds & part & Eo & Hp & Hd & Hok) Ht Ex. cbn [sems store threads] in *.
  pose proof (proj1 (Forall_lookup _ _) Hok _ _ Ht) as Hit.
  destruct (counts_step v s ts j t v' s' t' part) as [(Hv' & Hl' & Ho' & Hf' & Hs') Hd']; [by split_and!|done|done|done|].
  destruct (thread_step part v s t v' s' t' Hit Ex) as (x & part' & Ex' & Ej & Hor & Hend & Hit').
  { intros H2. apply Hp. destruct t as [[] p l]. cbn [pc] in H2. subst p. cbn in Ex. destruct (Z.ltb_spec 0 (v tt)); [|done].
    pose proof (tsum_nonneg (at_pc 3 15) ts ltac:(auto with ostep)). lia. }
  unfold inv. cbn [sems store threads] in *. split_and!; try assumption.
  exists (ds ++ (if (t.(pc) =? 13)%nat then [t.(loc).(filename)] else [])), part'. split_and!.
  - rewrite Ex', Eo, fmap_app, join_app, <- !app_assoc. by rewrite Ej.
  - intros Hz. pose proof (tsum_all (at_pc 3 15) (<[j := t']> ts) ltac:(auto with ostep) Hz) as Hall.
    pose proof (proj1 (Forall_lookup _ _) Hall j t' ltac:(apply list_lookup_insert_eq; by eapply lookup_lt_Some)) as H0. cbv beta in H0.
    destruct (Hend H0) as [?|Hout]; [done|]. destruct Hor as [->|?]; [|lia]. apply Hp. rewrite (tsum_step _ _ _ _ _ Ht) in Hz. lia.
  - intros f. rewrite occurs_app, Hd. symmetry. apply Hd'.
  - eapply keep_others; [exact Hok|exact Ht|lia|exact Hor|exact Hit'].
Qed.

Lemma client_reach files m : Forall (fun f => is_Some (block f)) files -> reach (code) (main files) m -> inv m.
Proof.
  intros Hb. apply reach_inv; [|intros; by eapply client_step]. unfold inv, main. cbn [sems store threads out flushed sent opened].
  rewrite !tsum_fmap. cbn [at_pc pc Nat.leb andb]. rewrite !tsum_const. split_and!; [lia|lia|lia|done| |].
  - intros r. rewrite tsum_fmap. cbn. by rewrite tsum_const.
  - exists [], []. split_and!; [done|done| |].
    + intros f. rewrite tsum_fmap. cbn. by rewrite tsum_const.
    + apply Forall_fmap. eapply Forall_impl; [exact Hb|]. intros f Hf. split; [cbn; lia|]. by split.
Qed.

(** The instructions a thread still executes, at most: a turn of a loop takes a
    line from the answer. *)
Definition remaining (t : thread unit request_vars) : Z :=
  let len := match t.(loc).(rd) with Done (_, _, c) => Z.of_nat (length c) | _ => 0 end in
  let more := match t.(loc).(rd) with Done (n, _, _) => if 0 <? n then 4 else 0 | _ => 0 end in
  match t.(pc) with
  | 0%nat => 4 * Z.of_nat (length (answer (request_of t.(loc).(filename)))) + 12
  | 1%nat => 4 * Z.of_nat (length (answer (request_of t.(loc).(filename)))) + 11
  | 2%nat => 4 * len + 10
  | 3%nat => 4 * len + 9
  | 4%nat => 4 * len + more + 7
  | 5%nat => 4 * len + 10
  | 6%nat => 4 * len + 9
  | 7%nat => 4 * len + more + 8
  | 8%nat => 4 * len + 6
  | 9%nat => 4 * len + more + 5
  | 10%nat => 4 * len + 8
  | 11%nat => 4 * len + 7
  | 12%nat => 4 * len + more + 6
  | p => 17 - Z.of_nat p
  end.

Lemma client_remaining_nonneg part t : thread_ok part t -> 0 <= remaining t.
Proof.
  intros (Hp & _). unfold remaining. destruct t as [[] p [f [[[n b] c]|e|e]]]; cbn [pc loc rd filename] in *; cbv zeta;
    try destruct (0 <? n); split_pc 13%nat p; lia.
Qed.

(** A call of [readline] pays for the turn it leads to. *)
Lemma readline_pays buf c n' buf' c' : client_readline buf c = Done (n', buf', c') ->
  4 * Z.of_nat (length c') + (if 0 <? n' then 4 else 0) <= 4 * Z.of_nat (length c).
Proof. intros [H1 H2]%client_readline_consumes. destruct (Z.ltb_spec 0 n'); lia. Qed.

Lemma client_remaining_step part v s t v' s' t' : thread_ok part t -> exec (code) v s t = Some (v', s', t') -> remaining t' < remaining t.
Proof.
  intros (Hp & Hb & _) Ex. destruct t as [[] p [f r]]. cbn [pc loc filename rd] in *.
  split_pc 18%nat p; try lia; unfold exec in Ex; cbn [code send_request lookup list_lookup] in Ex;
    unfold do_open, do_send, do_readline, do_print, in_headers, in_body in Ex; cbn [filename rd] in Ex; try (rewrite (block_sends _ Hb) in Ex);
    try (destruct (0 <? v tt); [|discriminate Ex]); try discriminate Ex;
    (destruct r as [[[n b] c]|e|e]; cbn [obind] in Ex;
     repeat match type of Ex with
     | context [client_readline ?b ?c] => pose proof (readline_pays b c); destruct (client_readline b c) as [[[? ?] ?]|?|?]
     | context [is_crlf ?b] => destruct (is_crlf b) as [[]|?|?]
     | context [cstr ?b] => destruct (cstr b)
     | context [if negb ?a && ?b then _ else _] => cbn [negb andb] in Ex
     | context [if 0 <? n then _ else _] => destruct (0 <? n) eqn:?
     end; injection Ex as <- <- <-; unfold remaining, set_rd; cbn [pc loc rd filename Nat.add Nat.sub];
     repeat match goal with H : forall n' : Z, _ |- _ => specialize (H _ _ _ eq_refl) end; try lia;
     repeat match goal with H : (0 <? n) = _ |- _ => rewrite H; clear H end; try lia;
     repeat match goal with |- context [if ?b then _ else _] => destruct b end; lia).
Qed.

(** ** Correctness *)

Lemma occurs_perm l l' : (forall x, occurs x l = occurs x l') -> l ≡ₚ l'.
Proof.
  intros H. apply (proj2 (Permutation_count_occ (fun a b : list Z => decide (a = b)) l l')). intros x. specialize (H x).
  enough (E : forall l, occurs x l = Z.of_nat (count_occ (fun a b : list Z => decide (a = b)) l x)) by (rewrite !E in H; lia).
  clear. induction l as [|y l IH]; [done|]. change (occurs x (y :: l)) with ((if decide (y = x) then 1 else 0) + occurs x l). rewrite IH. cbn [count_occ].
  destruct (decide (y = x)); lia.
Qed.

(** The number of instructions of a thread that asks for [f]. *)
Definition work (f : list Z) : Z := 4 * Z.of_nat (length (answer (request_of f))) + 12.

Lemma client_bounded files : Forall (fun f => is_Some (block f)) files ->
  forall k m, nsteps (mstep (code)) k (main files) m -> Z.of_nat k <= tsum work files.
Proof.
  intros Hb k m Hk. assert (E : tsum remaining (main files).(threads) = tsum work files)
    by (cbn [main threads]; rewrite tsum_fmap; reflexivity).
  rewrite <- E. eapply (steps_bounded _ inv (fun m => tsum remaining (threads m)) _ (fun m => client_reach files m Hb)); [| |exact Hk].
  - intros m' (_ & _ & _ & _ & _ & ds & part & _ & _ & _ & Hok). rewrite <- (Z.mul_0_l (Z.of_nat (length (threads m')))), <- tsum_const.
    apply tsum_le. eapply Forall_impl; [exact Hok|]. intros t. apply client_remaining_nonneg.
  - intros w s ts j t w' s' t' (_ & _ & _ & _ & _ & ds & part & _ & _ & _ & Hok) Ht Ex. cbn [threads] in *.
    rewrite (tsum_step _ _ _ _ _ Ht). pose proof (proj1 (Forall_lookup _ _) Hok _ _ Ht) as Hit.
    pose proof (client_remaining_step _ _ _ _ _ _ _ Hit Ex). lia.
Qed.

(** No thread waits when the others have ended. *)
Lemma client_ends v s ts : inv (mkMachine v s ts) -> stuck (code) (mkMachine v s ts) -> Forall (fun t => t.(pc) = 17%nat) ts.
Proof.
  intros (Hv & Hl & _ & _ & _ & ds & part & _ & _ & _ & Hok) Hs%stuck_exec. cbn [sems store threads] in *.
  assert (Hb : Forall (fun t => t.(pc) = 17%nat \/ (t.(pc) = 2%nat /\ v tt <= 0)) ts).
  { apply Forall_lookup. intros k t Ht. pose proof (proj1 (Forall_lookup _ _) Hs _ _ Ht) as Ex.
    destruct (proj1 (Forall_lookup _ _) Hok _ _ Ht) as [Hp _]. destruct t as [[] p l]. cbn [pc] in *. unfold exec in Ex.
    split_pc 18%nat p; try lia; cbn [code send_request lookup list_lookup] in Ex; unfold do_send, do_print in Ex;
      repeat match type of Ex with context [match ?x with Done _ => _ | _ => _ end] => destruct x end; try discriminate Ex.
    destruct (0 <? v _) eqn:E; [discriminate Ex|]. right. split; [done|]. by apply Z.ltb_ge in E. }
  rewrite (at_pc_none 3 15 ts) in Hl by (eapply Forall_impl; [exact Hb|]; cbv beta; lia).
  eapply Forall_impl; [exact Hb|]. cbv beta. lia.
Qed.

Lemma reach_names files m : reach (code) (main files) m -> (fun t => t.(loc).(filename)) <$> m.(threads) = files.
Proof.
  apply (reach_inv _ (fun m => (fun t => t.(loc).(filename)) <$> m.(threads) = files)).
  - cbn [main threads]. rewrite <- list_fmap_compose. apply list_fmap_id.
  - intros v s ts i t v' s' t' H Ht Ex. cbn [threads] in *. rewrite list_fmap_insert, <- H. apply list_insert_id.
    rewrite list_lookup_fmap, Ht. cbn. f_equal. destruct t as [[] p l]. cbn beta iota delta [exec] in Ex.
    match type of Ex with match ?x with _ => _ end = _ => destruct x as [a|] eqn:Ea; [|discriminate Ex] end. apply list_elem_of_lookup_2 in Ea. cbn [code] in Ea. unfold send_request in Ea.
    repeat (apply elem_of_cons in Ea as [->|Ea]; [unfold do_open, do_send, do_readline, do_print in Ex;
      repeat match type of Ex with context [match ?x with Done _ => _ | _ => _ end] => destruct x end;
      try (destruct (0 <? v _); [|discriminate Ex]); injection Ex as <- <- <-; reflexivity|]).
    by apply not_elem_of_nil in Ea.
Qed.

(** A name has been counted as often as it was given when all threads are behind. *)
Lemma behind_all p (f : list Z -> list Z) x (ts : list (thread unit request_vars)) : Forall (fun t => (p <= t.(pc))%nat) ts ->
  tsum (behind p f x) ts = occurs x (f <$> ((fun t => t.(loc).(filename)) <$> ts)).
Proof.
  intros H. unfold occurs. rewrite !tsum_fmap. apply tsum_ext. eapply Forall_impl; [exact H|]. cbv beta. intros t Ht.
  rewrite behind_set by done. apply occurs_one.
Qed.

(** C28: the threads of the client, any number of them under any schedule, when the
    answers of the server can be printed.  At every moment the output is the
    texts of the threads that have ended it, one behind the other, and the beginning of the
    text of one more.  The program ends after a bounded number of instructions: when no
    thread can run all have returned, the output has the text of every file once
    and is flushed, every request was sent once and every connection is closed. *)
Theorem client_threads_correct files : Forall (fun f => is_Some (block f)) files ->
  (forall k m, nsteps (mstep (code)) k (main files) m -> Z.of_nat k <= tsum work files) /\
  (forall m, reach (code) (main files) m ->
     (exists ds part, m.(store).(out) = mjoin (text_of <$> ds) ++ part /\
        (part = [] \/ exists f rest, f ∈ files /\ text_of f = part ++ rest)) /\
     (stuck (code) m -> finished (code) m /\ m.(sems) tt = 1 /\ m.(store).(opened) = 0 /\
        m.(store).(flushed) = length m.(store).(out) /\ m.(store).(sent) ≡ₚ (request_of <$> files) /\
        exists ds, ds ≡ₚ files /\ m.(store).(out) = mjoin (text_of <$> ds))).
Proof.
  intros Hb. split; [by apply client_bounded|]. intros m Hm. pose proof (client_reach _ _ Hb Hm) as Hi. pose proof (reach_names _ _ Hm) as Hn.
  destruct m as [v s ts]. pose proof Hi as (Hv & Hl & Ho & Hf & Hs & ds & part & Eo & Hp & Hd & Hok). cbn [sems store threads] in *. split.
  - exists ds, part. split; [exact Eo|]. destruct (decide (Exists (fun t => (3 <= t.(pc) <= 15)%nat) ts)) as [Hc|Hc].
    + apply Exists_exists in Hc as (t & Ht & Hpc). rewrite Forall_forall in Hok. destruct (Hok t Ht) as (_ & _ & Hm').
      enough (part = [] \/ exists rest, text_of t.(loc).(filename) = part ++ rest) as [->|[rest E]]; [by left| |].
      { right. exists t.(loc).(filename), rest. split; [|exact E]. rewrite <- Hn. apply list_elem_of_fmap. by exists t. }
      destruct t as [[] p l]. cbn [pc loc] in *. split_pc 16%nat p; try lia;
        first [left; exact Hm' | left; exact (proj2 Hm') | right; eexists; exact Hm'
              | right; destruct Hm' as (n & buf & c & rest & _ & _ & E); eexists; exact E].
    + left. apply Hp, at_pc_none. apply Forall_forall. intros t Ht. destruct (decide (3 <= t.(pc) <= 15)%nat) as [H|H]; [|lia].
      destruct Hc. apply Exists_exists. by exists t.
  - intros Hst. pose proof (client_ends _ _ _ Hi Hst) as H17.
    assert (Hz : forall lo hi, (hi < 17)%nat -> tsum (at_pc lo hi) ts = 0)
      by (intros lo hi Hh; apply at_pc_none; eapply Forall_impl; [exact H17|]; cbv beta; lia).
    rewrite Hz in Hl, Ho, Hf, Hp by lia. split; [eapply Forall_impl; [exact H17|]; intros t Ht; unfold ended; rewrite Ht; reflexivity|].
    split; [lia|]. split; [exact Ho|]. split; [by apply Hf|]. split.
    + apply occurs_perm. intros r. rewrite Hs, behind_all, Hn; [done|]. eapply Forall_impl; [exact H17|]. cbv beta. lia.
    + exists ds. split; [|by rewrite Eo, Hp, app_nil_r by done]. apply occurs_perm. intros f. rewrite Hd, behind_all, list_fmap_id, Hn; [done|].
      eapply Forall_impl; [exact H17|]. cbv beta. lia.
Qed.

End client.

(** ** The client and the server *)

(** What the server sends back for a request: a worker serves what
    [pre_handle_request] accepts. *)
Definition server_answer (stat : list Z -> option stat_t) (fs : list Z -> option (list Z)) (cgi : list Z -> list Z -> list Z) (req : list Z) : stream :=
  match pre_handle_request stat 2 4 [] [] (Some <$> req) (mkBuffer 0 false 0 [] [] 0) (mkSocket [] []) with
  | Some (Done (OK, b, k)) => match worker_serve fs cgi b k with Done k => Some <$> k.(s_out) | _ => [] end
  | Some (Done (_, _, k)) => Some <$> k.(s_out)
  | _ => []
  end.

Lemma lines_short c : (length (lines c) <= length c)%nat.
Proof.
  rewrite <- (lines_join c) at 2. pose proof (lines_are_lines c) as Ha. revert Ha. generalize (lines c) as ls.
  induction ls as [|l ls IH]; intros Ha; [done|]. rewrite mjoin_cons, length_app. cbn [length].
  assert (l <> [] /\ (ls = [] \/ are_lines ls)) as [Hl Hls].
  { destruct ls as [|l' ls]; [destruct Ha as [(a & -> & _)|[? _]]; split; [by destruct a|by left|done|by left]|].
    destruct Ha as [(a & -> & _) Ha]. split; [by destruct a|by right]. }
  assert (length l <> 0)%nat by (by destruct l). destruct Hls as [->|Hls]; [cbn; lia|]. specialize (IH Hls). lia.
Qed.

(** The text of a file that the server has: its headers, its lines and the end. *)
Lemma block_of_file host stat fs cgi buf0 uri st c :
  file_uri uri -> is_text host -> (length host <= 100)%nat ->
  stat (bytes "." ++ uri) = Some st -> isreg st = true -> rusr st = true -> st_size st = Z.of_nat (length c) ->
  fs (bytes "." ++ uri) = Some c -> Z.of_nat (length c) < 2147483648 -> Forall short_line (lines c) -> c <> [] ->
  block host (server_answer stat fs cgi) buf0 uri =
  Some ((static_headers (Z.of_nat (length c)) (bytes (request_get_filetype (bytes "." ++ uri))) ≫= fun h => bytes "Header: " ++ h) ++
        visible (lines c) ++ end_mark uri).
Proof.
  intros Hu Hh Hhl Hs Hr Hus Hsz Hf Hc Hlines Hne.
  destruct (exchange_sent stat fs cgi 4 (mkBuffer 0 false 0 [] [] 0) [] [] uri host st c Hu Hh Hhl Hs Hr Hus Hsz Hf Hc)
    as (req & b' & k & E1 & E2 & E3 & Hk & _).
  unfold block. rewrite E1. assert (Ea : server_answer stat fs cgi req = Some <$> k.(s_out)) by (unfold server_answer; rewrite E2, E3; reflexivity).
  rewrite Ea, (Hk Hne). rewrite file_printed; [by rewrite <- app_assoc|exact Hc|exact Hlines| |];
    rewrite length_fmap, length_app; [|rewrite length_app; pose proof (lines_short c); lia].
  unfold static_headers. rewrite mjoin_cons, !length_app. cbn [length bytes]. lia.
Qed.

(** Two threads: one asks for the CGI program, one for a file with one line. *)
Lemma client_threads_correct_witness :
  let stat f := if decide (f = bytes "./f1") then Some (mkStat true true false 3) else if decide (f = bytes "./spin.cgi") then Some (mkStat true true true 9) else None in
  let fs f := if decide (f = bytes "./f1") then Some (bytes "hi" ++ [10]) else None in
  let answer := server_answer stat fs (fun _ q => match spin_main (Some q) (bytes "1.00") with Done out => out | _ => [] end) in
  exists files, client_files 5 (bytes "/f") 2 = Done files /\ length files = 2%nat /\
    forall m, reach (code (bytes "h") answer []) (main [] files) m -> stuck (code (bytes "h") answer []) m ->
      exists ds, ds ≡ₚ files /\ m.(store).(out) = mjoin (text_of (bytes "h") answer [] <$> ds).
Proof.
  intros stat fs answer. exists [bytes "/spin.cgi?1"; bytes "/f1"]. split; [vm_compute; reflexivity|]. split; [reflexivity|].
  intros m Hm Hs. destruct (client_threads_correct (bytes "h") answer [] [bytes "/spin.cgi?1"; bytes "/f1"]) as [_ H].
  - constructor; [|constructor; [|constructor]].
    + assert (E : match block (bytes "h") answer [] (bytes "/spin.cgi?1") with Some _ => true | None => false end = true) by (vm_compute; reflexivity).
      destruct (block _ _ _ _); [by eexists|discriminate E].
    + assert (E : match block (bytes "h") answer [] (bytes "/f1") with Some _ => true | None => false end = true) by (vm_compute; reflexivity).
      destruct (block _ _ _ _); [by eexists|discriminate E].
  - destruct (H m Hm) as [_ H']. by destruct (H' Hs) as (_ & _ & _ & _ & _ & ?).
Defined.
