(* ===== verification/Webserver.v ===== *)
(** * The worker pool of the web server

    [projects/concurrency-webserver/wserver.c] on the machine of [Threads]; the
    [Zem_t] of [thread_helper.h] are its semaphores.  The master thread accepts
    connections, numbered from 1, and puts the requests that
    [pre_handle_request] finds [OK] into the buffer; a worker takes one and serves
    it.  A request is the number of its connection, which also stands for its
    descriptor. *)

From Stdlib Require Import ZArith Lia.
From stdpp Require Import base tactics list numbers relations.
From S2P Require Import Prelude Threads.

Local Open Scope Z_scope.

(** ** Definitions *)

Inductive pool_sem := Full | Empty | PoolMutex.

#[export] Instance pool_sem_eq : EqDecision pool_sem.
Proof. solve_decision. Defined.

Inductive pool_role := Master | Worker.

#[export] Instance pool_role_eq : EqDecision pool_role.
Proof. solve_decision. Defined.

(** What a worker does with a request: it sends the answer, then it closes the
    descriptor. *)
Inductive action := Serve (req : Z) | Close (req : Z).

(** A connection: [accept] fails, or the request is refused or OK with a size. *)
Inductive conn := NoConn | Refused | Accepted (size : Z).

(** The fields of [Buffer_t] that the pool looks at. *)
Record slot := mkSlot { fd : Z; size : Z; handling : bool }.

(** [use], [fill], [schedalg], the buffer, the connections to come and what was
    done. *)
Record pool := mkPool { sff : bool; buffers : Z; use : Z; fill : Z; buf : list slot; conns : Z -> conn; done : list action }.

(** The master's connection and the worker's [useCopy]. *)
Abbreviation pool_loc := Z (only parsing).

Definition pool_instr : Type := instr pool_sem pool_loc pool.

Definition pool_wait (k : pool_sem) : pool_instr := Wait (fun _ => k).

Definition pool_post (k : pool_sem) : pool_instr := Post (fun _ => k).

Definition slot_at (i : Z) (s : pool) : slot := default (mkSlot 0 0 false) (s.(buf) !! Z.to_nat i).

Definition set_slot (i : Z) (x : slot) (s : pool) : pool :=
  mkPool s.(sff) s.(buffers) s.(use) s.(fill) (<[Z.to_nat i := x]> s.(buf)) s.(conns) s.(done).

(** The loop of SFF: the unhandled slot of the least size. *)
Fixpoint shortest (i : Z) (slots : list slot) (min_size best : Z) : Z :=
  match slots with
  | [] => best
  | x :: slots =>
      if negb x.(handling) && negb (x.(fd) =? 0) && (x.(size) <? min_size) then shortest (i + 1) slots x.(size) i
      else shortest (i + 1) slots min_size best
  end.

(** What a worker does between the locks. *)
Definition choose (l : pool_loc) (s : pool) : pool_loc * pool :=
  if s.(sff) then
    let u := shortest 0 s.(buf) 9223372036854775807 s.(use) in
    let x := slot_at u s in (u, set_slot u (mkSlot x.(fd) x.(size) true) s)
  else (s.(use), mkPool s.(sff) s.(buffers) (Z.rem (s.(use) + 1) s.(buffers)) s.(fill) s.(buf) s.(conns) s.(done)).

Definition act (a : Z -> action) : pool_instr :=
  Act (fun l s => (l, mkPool s.(sff) s.(buffers) s.(use) s.(fill) s.(buf) s.(conns) (s.(done) ++ [a (slot_at l s).(fd)]))).

Definition workerThread : list pool_instr :=
  [ pool_wait Full; pool_wait PoolMutex; Act choose; pool_post PoolMutex; act Serve; act Close; pool_post Empty; Back 7 ].

(** [accept] failed, and [pre_handle_request] did not return [OK]. *)
Definition no_conn (l : pool_loc) (s : pool) : bool := match s.(conns) l with NoConn => true | _ => false end.

Definition refused (l : pool_loc) (s : pool) : bool := match s.(conns) l with Accepted _ => false | _ => true end.

(** [pre_handle_request] fills the slot and [fill] moves on. *)
Definition put_request (l : pool_loc) (s : pool) : pool_loc * pool :=
  let n := match s.(conns) l with Accepted n => n | _ => 0 end in
  let s := set_slot s.(fill) (mkSlot l n false) s in
  (l, mkPool s.(sff) s.(buffers) s.(use) (Z.rem (s.(fill) + 1) s.(buffers)) s.(buf) s.(conns) s.(done)).

Definition master : list pool_instr :=
  [ pool_wait Empty;
    Act (fun l s => (l + 1, s));
    Unless no_conn 2; pool_post Empty; Back 4;
    pool_wait PoolMutex;
    Unless refused 3; pool_post PoolMutex; pool_post Empty; Back 9;
    Act put_request;
    pool_post PoolMutex;
    pool_post Full;
    Back 13 ].

Definition pool_code (r : pool_role) : list pool_instr := match r with Master => master | Worker => workerThread end.

(** [main]: [threads] workers and a buffer, whose slots [malloc] left with
    [garbage]. *)
Definition pool_main (sff : bool) (threads : nat) (garbage : list slot) (conns : Z -> conn) : machine pool_sem pool_role pool_loc pool :=
  mkMachine (fun k => match k with Full => 0 | Empty => Z.of_nat (length garbage) | PoolMutex => 1 end)
    (mkPool sff (Z.of_nat (length garbage)) 0 0 garbage conns [])
    (mkThread Master 0 0 :: replicate threads (mkThread Worker 0 0)).

(** ** One worker *)

Definition accepted (cs : Z -> conn) (k : Z) : bool := match cs k with Accepted _ => true | _ => false end.

(** The requests among the first [n] connections, in order. *)
Definition oks (cs : Z -> conn) (n : Z) : list Z := filter (fun k => accepted cs k = true) (seqZ 1 n).

Lemma oks_succ cs k : 0 <= k -> oks cs (k + 1) = oks cs k ++ (if accepted cs (k + 1) then [k + 1] else []).
Proof.
  intros Hk. unfold oks. rewrite seqZ_app, list.filter_app by lia. f_equal. rewrite seqZ_cons by lia.
  replace (1 + k) with (k + 1) by lia. replace (Z.pred 1) with 0 by lia. cbn [seqZ Z.to_nat seq fmap list_fmap].
  rewrite filter_cons. destruct (accepted cs (k + 1)); [by rewrite decide_True|by rewrite decide_False].
Qed.

(** What the worker has done when it has served [reqs]. *)
Definition log (reqs : list Z) : list action := reqs ≫= fun r => [Serve r; Close r].

Lemma log_snoc reqs r : log (reqs ++ [r]) = log reqs ++ [Serve r; Close r].
Proof. unfold log. by rewrite bind_app. Qed.

(** The connection the master has not decided on yet is not counted. *)
Definition known (p : nat) (l : Z) : Z := match p with 2%nat | 5%nat | 6%nat | 10%nat => l - 1 | _ => l end.

Definition b2z (b : bool) : Z := if b then 1 else 0.

Definition is_in (p : nat) (l : list nat) : Z := b2z (bool_decide (p ∈ l)).

Definition pool_inv (B : Z) (cs : Z -> conn) (m : machine pool_sem pool_role pool_loc pool) : Prop :=
  exists p k q u w,
    m.(threads) = [mkThread Master p k; mkThread Worker q u] /\ (p <= 13)%nat /\ (q <= 7)%nat /\
    let v := m.(sems) in let s := m.(store) in let reqs := oks cs (known p k) in let f := Z.of_nat (length reqs) in
    s.(sff) = false /\ s.(buffers) = B /\ s.(conns) = cs /\ Z.of_nat (length s.(buf)) = B /\
    (0 <= k /\ 0 <= known p k) /\ 0 <= w <= f /\ s.(use) = w mod B /\ s.(fill) = f mod B /\
    (0 <= v Full /\ 0 <= v Empty /\ 0 <= v PoolMutex) /\
    v PoolMutex + is_in p [6; 7; 10; 11]%nat + is_in q [2; 3]%nat = 1 /\
    f - w = v Full + is_in p [11; 12]%nat + is_in q [1; 2]%nat /\
    v Empty + is_in p [1; 2; 3; 5; 6; 7; 8; 10]%nat + (f - w) + is_in q [3; 4; 5; 6]%nat = B /\
    match p with
    | 10%nat => accepted cs k = true
    | 3%nat | 4%nat | 7%nat | 8%nat | 9%nat => accepted cs k = false
    | _ => True
    end /\
    (forall j r, f - B <= Z.of_nat j -> reqs !! j = Some r -> (slot_at (Z.of_nat j mod B) s).(fd) = r) /\
    match q with 3%nat | 4%nat | 5%nat => 1 <= w /\ u = (w - 1) mod B | _ => True end /\
    s.(done) = match q with
               | 3%nat | 4%nat => log (take (Z.to_nat (w - 1)) reqs)
               | 5%nat => log (take (Z.to_nat (w - 1)) reqs) ++ [Serve (nth (Z.to_nat (w - 1)) reqs 0)]
               | _ => log (take (Z.to_nat w) reqs)
               end.

Ltac eval_in :=
  repeat match goal with
  | |- context [is_in ?p ?l] =>
      let x := eval vm_compute in (is_in p l) in match x with Z0 => idtac | Zpos xH => idtac end; change (is_in p l) with x
  | H : context [is_in ?p ?l] |- _ =>
      let x := eval vm_compute in (is_in p l) in match x with Z0 => idtac | Zpos xH => idtac end; change (is_in p l) with x in H
  end.

Lemma pool_inv_init garbage cs :
  garbage <> [] -> pool_inv (Z.of_nat (length garbage)) cs (pool_main false 1 garbage cs).
Proof.
  intros Hne. assert (0 < Z.of_nat (length garbage)) by (destruct garbage; [done|cbn; lia]).
  exists 0%nat, 0, 0%nat, 0, 0. cbn [pool_main sems store threads replicate sff buffers conns buf use fill done known].
  assert (E : oks cs 0 = []) by done. rewrite E. cbn [length Z.of_nat]. rewrite Z.mod_0_l by lia. eval_in.
  split_and!; try lia; try done; try (cbn; lia).
Qed.

Lemma oks_skip cs k : 0 <= k - 1 -> accepted cs k = false -> oks cs k = oks cs (k - 1).
Proof.
  intros Hk Ha. pose proof (oks_succ cs (k - 1) Hk) as E. rewrite Z.sub_add, Ha, app_nil_r in E. done.
Qed.

Lemma oks_take cs k : 0 <= k - 1 -> accepted cs k = true -> oks cs k = oks cs (k - 1) ++ [k].
Proof. intros Hk Ha. pose proof (oks_succ cs (k - 1) Hk) as E. by rewrite Z.sub_add, Ha in E. Qed.

Lemma rem_succ x B : 0 < B -> 0 <= x -> Z.rem (x mod B + 1) B = (x + 1) mod B.
Proof.
  intros HB Hx. pose proof (Z.mod_pos_bound x B HB). rewrite Z.rem_mod_nonneg by lia. by rewrite Z.add_mod_idemp_l by lia.
Qed.

(** Two numbers less than [B] apart are in different slots. *)
Lemma slot_ne x y B : 0 < B -> x < y -> y - x < B -> x mod B <> y mod B.
Proof.
  intros HB H1 H2 E. assert (Hd : (y - x) mod B = 0) by (rewrite Zminus_mod, E, Z.sub_diag; apply Z.mod_0_l; lia).
  rewrite Z.mod_small in Hd by lia. lia.
Qed.

Lemma slot_at_put i j x s : 0 <= i < Z.of_nat (length s.(buf)) -> 0 <= j ->
  slot_at j (set_slot i x s) = if decide (j = i) then x else slot_at j s.
Proof.
  intros Hi Hj. unfold slot_at, set_slot. cbn [buf]. case_decide as E.
  - subst j. by rewrite list_lookup_insert_eq by lia.
  - by rewrite list_lookup_insert_ne by lia.
Qed.

(** The steps of the master. *)
Lemma master_step B cs v s p k q u v' s' t' :
  0 < B ->
  pool_inv B cs (mkMachine v s [mkThread Master p k; mkThread Worker q u]) ->
  exec pool_code v s (mkThread Master p k) = Some (v', s', t') ->
  pool_inv B cs (mkMachine v' s' [t'; mkThread Worker q u]).
Proof.
  intros HB (p0 & k0 & q0 & u0 & w & Ets & Hp & Hq & H) Ex. injection Ets as <- <- <- <-. cbn [sems store threads] in H.
  destruct s as [sf bs us fi bu co dn]. cbn [sff buffers use fill buf conns done] in H.
  destruct H as (-> & -> & -> & Hlen & [Hk Hkn] & Hw & Hus & Hfi & Hv & HM & Hf & He & Hno & Hsl & Hu & Hd).
  split_pc 14%nat p; try lia; step_cases Ex; cbn [known] in *; eval_in; cbn [Nat.add Nat.sub].
  all: try (eexists _, _, q, u, w; split; [reflexivity|]; split; [lia|]; split; [lia|];
    cbn [sems store threads sff buffers use fill buf conns done known]; sem_simpl; eval_in;
    try (rewrite Z.add_simpl_r);
    split_and!; first [assumption|lia|done|idtac]; fail).
  - (* accept failed *)
    assert (Ha : accepted cs k = false) by (unfold no_conn in *; unfold accepted; cbn [conns] in *; by destruct (cs k)).
    rewrite <- (oks_skip cs k Hkn Ha) in *. eexists _, _, q, u, w. split; [reflexivity|]. split; [lia|]. split; [lia|].
    cbn [sems store threads sff buffers use fill buf conns done known]. eval_in. split_and!; first [assumption|lia|done].
  - (* the request was refused *)
    assert (Ha : accepted cs k = false) by (unfold refused in *; unfold accepted; cbn [conns] in *; by destruct (cs k)).
    rewrite <- (oks_skip cs k Hkn Ha) in *. eexists _, _, q, u, w. split; [reflexivity|]. split; [lia|]. split; [lia|].
    cbn [sems store threads sff buffers use fill buf conns done known]. eval_in. split_and!; first [assumption|lia|done].
  - assert (Ha : accepted cs k = true) by (unfold refused in *; unfold accepted; cbn [conns] in *; by destruct (cs k)).
    eexists _, _, q, u, w. split; [reflexivity|]. split; [lia|]. split; [lia|].
    cbn [sems store threads sff buffers use fill buf conns done known]. eval_in. split_and!; first [assumption|lia|done].
  - (* a request is put into the buffer *)
    set (x := mkSlot k _ false). pose proof (oks_take cs k Hkn Hno) as Eo. set (reqs := oks cs (k - 1)) in *.
    assert (Hq' : 0 <= is_in q [3; 4; 5; 6]%nat) by (unfold is_in, b2z; case_bool_decide; lia).
    eexists _, _, q, u, w. split; [reflexivity|]. split; [lia|]. split; [lia|].
    cbn [sems store threads sff buffers use fill buf conns done known]. eval_in. rewrite Eo, length_app, length_insert. cbn [length].
    pose proof (Z.mod_pos_bound (Z.of_nat (length reqs)) B HB) as Hm.
    assert (Ht : forall n, (n <= length reqs)%nat -> take n (reqs ++ [k]) = take n reqs) by (intros n Hn; by apply take_app_le).
    split_and!; try assumption; try lia; try done.
    + subst fi. rewrite rem_succ by lia. f_equal. lia.
    + intros j r Hj Hr. change (mkPool false B us _ (<[Z.to_nat fi := x]> bu) cs dn) with
        (mkPool false B us (Z.rem (fi + 1) B) (set_slot fi x (mkPool false B us fi bu cs dn)).(buf) cs dn).
      change (slot_at ?i (mkPool false B us (Z.rem (fi + 1) B) (set_slot fi x ?s0).(buf) cs dn)) with (slot_at i (set_slot fi x s0)).
      rewrite slot_at_put by (cbn [buf]; subst fi; pose proof (Z.mod_pos_bound (Z.of_nat j) B HB); lia).
      destruct (decide (j < length reqs)%nat) as [Hlt|Hge].
      * rewrite decide_False by (subst fi; apply slot_ne; lia). apply Hsl; [lia|]. by rewrite lookup_app_l in Hr.
      * rewrite lookup_app_r in Hr by lia. apply list_lookup_singleton_Some in Hr as [Hj0 <-].
        rewrite decide_True by (subst fi; f_equal; lia). done.
    + rewrite Hd. destruct q as [|[|[|[|[|[|q]]]]]]; cbn in Hu; rewrite ?Ht by lia; try done. by rewrite app_nth1 by lia.
Qed.

Lemma lookup_nth (l : list Z) i d : (i < length l)%nat -> l !! i = Some (nth i l d).
Proof.
  intros H. destruct (lookup_lt_is_Some_2 l i H) as [x Hx]. rewrite Hx. f_equal. symmetry. by apply nth_lookup_Some.
Qed.

(** The steps of the worker. *)
Lemma worker_step B cs v s p k q u v' s' t' :
  0 < B ->
  pool_inv B cs (mkMachine v s [mkThread Master p k; mkThread Worker q u]) ->
  exec pool_code v s (mkThread Worker q u) = Some (v', s', t') ->
  pool_inv B cs (mkMachine v' s' [mkThread Master p k; t']).
Proof.
  intros HB (p0 & k0 & q0 & u0 & w & Ets & Hp & Hq & H) Ex. injection Ets as <- <- <- <-. cbn [sems store threads] in H.
  destruct s as [sf bs us fi bu co dn]. cbn [sff buffers use fill buf conns done] in H.
  destruct H as (-> & -> & -> & Hlen & [Hk Hkn] & Hw & Hus & Hfi & Hv & HM & Hf & He & Hno & Hsl & Hu & Hd).
  assert (Hp1 : 0 <= is_in p [11; 12]%nat) by (unfold is_in, b2z; case_bool_decide; lia).
  assert (Hp2 : 0 <= is_in p [1; 2; 3; 5; 6; 7; 8; 10]%nat) by (unfold is_in, b2z; case_bool_decide; lia).
  set (reqs := oks cs (known p k)) in *.
  split_pc 8%nat q; try lia; step_cases Ex; eval_in; cbn [Nat.add Nat.sub] in *.
  all: try (exists p, k; eexists _, _, w; split; [reflexivity|]; split; [lia|]; split; [lia|]; fold reqs;
    cbn [sems store threads sff buffers use fill buf conns done]; sem_simpl; eval_in;
    split_and!; first [assumption|lia|done|idtac]; fail).
  - (* takes a slot *)
    exists p, k. eexists _, _, (w + 1). split; [reflexivity|]. split; [lia|]. split; [lia|]. fold reqs.
    cbn [sems store threads sff buffers use fill buf conns done]. eval_in. rewrite Z.add_simpl_r.
    split_and!; try assumption; try lia; try done. subst us. apply rem_succ; lia.
  - (* serves *)
    destruct Hu as [Hw1 ->]. exists p, k. eexists _, _, w. split; [reflexivity|]. split; [lia|]. split; [lia|]. fold reqs.
    cbn [sems store threads sff buffers use fill buf conns done]. eval_in. split_and!; try assumption; try lia; try done.
    rewrite Hd. do 3 f_equal. assert (Hlt : (Z.to_nat (w - 1) < length reqs)%nat) by lia.
    pose proof (Hsl (Z.to_nat (w - 1)) (nth (Z.to_nat (w - 1)) reqs 0)) as Hs. rewrite Z2Nat.id in Hs by lia. apply Hs; [lia|].
    by apply lookup_nth.
  - (* closes *)
    destruct Hu as [Hw1 ->]. exists p, k. eexists _, _, w. split; [reflexivity|]. split; [lia|]. split; [lia|]. fold reqs.
    cbn [sems store threads sff buffers use fill buf conns done]. eval_in. split_and!; try assumption; try lia; try done.
    assert (Hlt : (Z.to_nat (w - 1) < length reqs)%nat) by lia.
    assert (Hr : reqs !! Z.to_nat (w - 1) = Some (nth (Z.to_nat (w - 1)) reqs 0)) by (by apply lookup_nth).
    pose proof (Hsl (Z.to_nat (w - 1)) _ ltac:(lia) Hr) as Hs. rewrite Z2Nat.id in Hs by lia. rewrite Hs.
    rewrite Hd, <- app_assoc. cbn [app]. replace (Z.to_nat w) with (S (Z.to_nat (w - 1))) by lia.
    by rewrite (take_S_r _ _ _ Hr), log_snoc.
Qed.

Lemma pool_reach garbage cs m :
  garbage <> [] -> reach pool_code (pool_main false 1 garbage cs) m -> pool_inv (Z.of_nat (length garbage)) cs m.
Proof.
  intros Hne. assert (HB : 0 < Z.of_nat (length garbage)) by (destruct garbage; [done|cbn; lia]).
  apply reach_inv; [by apply pool_inv_init|]. intros v s ts i t v' s' t' Hi Ht Ex.
  pose proof Hi as (p & k & q & u & w & E & _). cbn [threads] in E. subst ts. destruct i as [|[|i]]; cbn in Ht; [..|done].
  - injection Ht as <-. cbn. by eapply master_step.
  - injection Ht as <-. cbn. by eapply worker_step.
Qed.

(** ** Properties *)

(** C25: with one worker and the FIFO policy, whatever the size of the buffer, the
    connections and the schedule: what the worker has done is, request by
    request in the order of their acceptance, to send the answer and close the
    descriptor of the same request, so that no request is lost, served twice or
    mixed up with another; and the server never stops. *)
Theorem pool_one_worker garbage cs m :
  garbage <> [] -> reach pool_code (pool_main false 1 garbage cs) m ->
  (exists n reqs, prefix reqs (oks cs n) /\
     (m.(store).(done) = log reqs \/ exists r, prefix (reqs ++ [r]) (oks cs n) /\ m.(store).(done) = log reqs ++ [Serve r])) /\
  ~ stuck pool_code m.
Proof.
  intros Hne Hm. assert (HB : 0 < Z.of_nat (length garbage)) by (destruct garbage; [done|cbn; lia]).
  destruct (pool_reach _ _ _ Hne Hm) as (p & k & q & u & w & E & Hp & Hq & H). destruct m as [v s ts]. cbn [sems store threads] in *.
  destruct H as (_ & _ & _ & _ & [Hk Hkn] & Hw & _ & _ & Hv & HM & Hf & He & _ & _ & Hu & Hd). split.
  - exists (known p k). set (reqs := oks cs (known p k)) in *.
    assert (Ht : forall n, prefix (take n reqs) reqs) by (intros n; exists (drop n reqs); by rewrite take_drop).
    destruct (decide (q = 5%nat)) as [->|Hq5].
    + exists (take (Z.to_nat (w - 1)) reqs). split; [done|]. right. exists (nth (Z.to_nat (w - 1)) reqs 0). split; [|done].
      destruct Hu as [Hw1 _]. rewrite <- (take_S_r reqs (Z.to_nat (w - 1)) (nth (Z.to_nat (w - 1)) reqs 0)); [done|].
      apply lookup_nth. lia.
    + destruct q as [|[|[|[|[|[|q]]]]]]; try (eexists; split; [|left; exact Hd]; done). done.
  - intros Hs. subst ts. apply stuck_exec in Hs. apply Forall_cons in Hs as [H1 Hs]. apply Forall_cons in Hs as [H2 _].
    split_pc 14%nat p; try lia; cbn in H1; try discriminate H1; try (destruct (_ <? _) eqn:E1 in H1; [discriminate H1|]);
      (split_pc 8%nat q; try lia; cbn in H2; try discriminate H2; try (destruct (_ <? _) eqn:E2 in H2; [discriminate H2|]));
      eval_in; bool_to_prop; try lia; by destruct (choose u s).
Qed.

(** A buffer of one slot: the first request has been served and the second one
    has been put into its place. *)
Lemma pool_one_worker_witness :
  let cs := fun k => if k =? 2 then Refused else Accepted 10 in
  exists m, reach pool_code (pool_main false 1 [mkSlot 0 0 false] cs) m /\ m.(store).(done) = [Serve 1; Close 1] /\
    ~ stuck pool_code m.
Proof.
  intros cs. destruct (run_witness pool_code (fun m => m.(store).(done) = [Serve 1; Close 1])
    ([0; 0; 0; 0; 0; 0; 0; 0] ++ [1; 1; 1; 1; 1; 1; 1])%nat (pool_main false 1 [mkSlot 0 0 false] cs)) as (m & Hm & H);
    [vm_compute; reflexivity|].
  exists m. split; [exact Hm|]. split; [exact H|].
  destruct (pool_one_worker [mkSlot 0 0 false] cs m) as [_ Hs]; [discriminate|exact Hm|exact Hs].
Defined.

(** With more than that, requests are lost.  Two workers, FIFO and a buffer of
    two slots: the second worker finishes first, the master puts request 3 over
    request 1, which the first worker has taken but not served, and this worker
    serves request 3 instead of it.  One worker and SFF: the shorter request 2 is
    served first, and request 3 is put over the waiting request 1. *)
Lemma pool_loses_requests :
  (exists m, reach pool_code (pool_main false 2 (replicate 2 (mkSlot 0 0 false)) (fun _ => Accepted 10)) m /\
     m.(store).(done) = [Serve 2; Close 2; Serve 3; Close 3] /\ (slot_at 0 m.(store)).(fd) = 3 /\ (slot_at 1 m.(store)).(fd) = 2) /\
  (exists m, reach pool_code (pool_main true 1 (replicate 2 (mkSlot 0 0 false)) (fun k => Accepted (10 - k))) m /\
     m.(store).(done) = [Serve 2; Close 2] /\ (slot_at 0 m.(store)).(fd) = 3 /\ (slot_at 1 m.(store)).(fd) = 2).
Proof.
  split.
  - destruct (run_witness pool_code (fun m => m.(store).(done) = [Serve 2; Close 2; Serve 3; Close 3] /\
      (slot_at 0 m.(store)).(fd) = 3 /\ (slot_at 1 m.(store)).(fd) = 2)
      (replicate 18 0 ++ [1; 1; 1; 1] ++ replicate 7 2 ++ replicate 8 0 ++ [1; 1])%nat
      (pool_main false 2 (replicate 2 (mkSlot 0 0 false)) (fun _ => Accepted 10))) as (m & Hm & H); [vm_compute; split_and!; reflexivity|].
    by exists m.
  - destruct (run_witness pool_code (fun m => m.(store).(done) = [Serve 2; Close 2] /\
      (slot_at 0 m.(store)).(fd) = 3 /\ (slot_at 1 m.(store)).(fd) = 2)
      (replicate 18 0 ++ replicate 7 1 ++ replicate 8 0)%nat
      (pool_main true 1 (replicate 2 (mkSlot 0 0 false)) (fun k => Accepted (10 - k)))) as (m & Hm & H); [vm_compute; split_and!; reflexivity|].
    by exists m.
Qed.
