(* ===== verification/Wish.v ===== *)
(** * The shell

    [projects/processes-shell/wish.c]: parsing a command, the built-in commands
    and the search for a program.  A line is the list of its bytes.  The working
    directory is part of the state; what [fopen], [chdir], [access] and [fork] return
    there are arguments.  [Run] is the call of [execv] in the child, after the
    redirection. *)

From Stdlib Require Import ZArith Lia String.
From stdpp Require Import base tactics numbers list.
From S2P Require Import Prelude Cstring Request.

Local Open Scope Z_scope.
Local Open Scope ostep_scope.

(** ** Definitions *)

Definition BUFF_SIZE : nat := 256.

(** [strsep]: the token up to the first delimiter, and the rest behind it, which
    is [None] for a null pointer. *)
Fixpoint strsep (delims : list Z) (s : list Z) : list Z * option (list Z) :=
  match s with
  | [] => ([], None)
  | c :: s => if bool_decide (c ∈ delims) then ([], Some s) else let '(t, r) := strsep delims s in (c :: t, r)
  end.

(** [trim]: the spaces at the start, then, when something is left, those at the
    end. *)
Definition trim (s : list Z) : list Z := reverse (skip_space (reverse (skip_space s))).

(** The regular expression [\S\s+\S]. *)
Fixpoint inner_space (s : list Z) : bool :=
  match s with
  | [] => false
  | c :: s =>
      (negb (isspace c) && match s with d :: _ => isspace d | [] => false end &&
       match skip_space s with [] => false | _ => true end) || inner_space s
  end.

(** The loop that fills [args]; it stops when the array is full. *)
Fixpoint split_args (fuel : nat) (n : nat) (command : option (list Z)) : list (list Z) :=
  match fuel, command with
  | S fuel, Some s =>
      let '(t, r) := strsep [32; 9] s in
      match t with
      | [] => split_args fuel n r
      | _ => trim t :: (if (BUFF_SIZE <=? S n)%nat then [] else split_args fuel (S n) r)
      end
  | _, _ => []
  end.

(** What [parseInput] does: an error, nothing, or [executeCommands] with the
    arguments and the file for the output. *)
Inductive parsed := PError | PNothing | PExecute (args : list (list Z)) (out : option (list Z)).

Definition parse_args (command : list Z) (out : option (list Z)) : parsed :=
  match split_args (S (length command)) 0 (Some command) with
  | [] => PNothing
  | args => PExecute args out
  end.

(** [fopen_ok] is whether a file can be opened for writing. *)
Definition parseInput (fopen_ok : list Z -> bool) (line : list Z) : parsed :=
  let '(command, rest) := strsep [62] line in
  match command with
  | [] => PError
  | _ =>
      let command := trim command in
      match rest with
      | None => parse_args command None
      | Some r =>
          if inner_space r || bool_decide (62 ∈ r) then PError
          else if fopen_ok (trim r) then parse_args command (Some (trim r)) else PError
      end
  end.

(** The loop of [main] that cuts a line at [&]: the commands that run in
    parallel. *)
Fixpoint split_commands (fuel : nat) (n : nat) (temp : option (list Z)) : list (list Z) :=
  match fuel, temp with
  | S fuel, Some s =>
      let '(t, r) := strsep [38] s in
      match t with
      | [] => split_commands fuel n r
      | _ => t :: (if (BUFF_SIZE <=? S n)%nat then [] else split_commands fuel (S n) r)
      end
  | _, _ => []
  end.

(** [paths] *)
Abbreviation paths_t := (list (option (list Z))).

Definition initial_paths : paths_t := Some (bytes "/bin") :: replicate (BUFF_SIZE - 1) None.

(** What the kernel answers, to a name and the working directory: [chdir] with the
    new directory. *)
Record world := mkWorld {
  fopen_ok : list Z -> list Z -> bool; chdir : list Z -> list Z -> option (list Z);
  access_ok : list Z -> list Z -> bool; fork_ok : bool }.

(** What the threads of the shell share. *)
Record shared := mkShared { paths : paths_t; cwd : list Z }.

Definition set_cwd (d : list Z) (s : shared) : shared := mkShared s.(paths) d.

(** A file that was opened: the working directory then, and the name. *)
Abbreviation file_t := (list Z * list Z)%type.

(** What a command does besides changing [paths]: [Cd] with the directory it comes
    to, and [Run] with the working directory of the child. *)
Inductive effect := Exit | Cd (dir : list Z) | PrintError | Run (cwd path : list Z) (args : list (list Z)) (out : option file_t).

Section execute.
Context (w : world).

(** [searchPath]; [snprintf] cuts the path off at the size of the array. *)
Fixpoint searchPath (cwd firstArg : list Z) (paths : paths_t) : outcome string (option (list Z)) :=
  match paths with
  | [] => Crash "past the end of paths"%string
  | None :: _ => Done None
  | Some p :: paths =>
      let path := take (BUFF_SIZE - 1) (p ++ bytes "/" ++ firstArg) in
      if w.(access_ok) cwd path then Done (Some path) else searchPath cwd firstArg paths
  end.

(** [paths[i] = strdup(args[i + 1])] for the indices from [i] on. *)
Fixpoint set_paths (i : nat) (dirs : list (list Z)) (paths : paths_t) : paths_t :=
  match dirs with
  | [] => paths
  | d :: dirs => set_paths (S i) dirs (<[i := Some d]> paths)
  end.

(** The built-in [path], with [args_num] arguments. *)
Definition path_command (dirs : list (list Z)) (paths : paths_t) : outcome string paths_t :=
  let paths := set_paths 0 dirs (<[0%nat := None]> paths) in
  if (length dirs + 1 <? length paths)%nat then Done (<[(length dirs + 1)%nat := None]> paths)
  else Crash "past the end of paths"%string.

(** The built-in [cd]. *)
Definition cd_command (rest : list (list Z)) (s : shared) : list effect * shared :=
  match rest with
  | [d] => match w.(chdir) s.(cwd) d with Some c => ([Cd c], set_cwd c s) | None => ([PrintError], s) end
  | _ => ([PrintError], s)
  end.

(** The child, or an error. *)
Definition run_child (args : list (list Z)) (out : option file_t) (path : list Z) (s : shared) : effect :=
  if w.(fork_ok) then Run s.(cwd) path args out else PrintError.

Definition executeCommands (args : list (list Z)) (out : option file_t) (s : shared) : outcome string (list effect * shared) :=
  match args with
  | [] => Crash "args is empty"%string
  | a :: rest =>
      if decide (a = bytes "exit") then Done ([match rest with [] => Exit | _ => PrintError end], s)
      else if decide (a = bytes "cd") then Done (cd_command rest s)
      else if decide (a = bytes "path") then let* paths := path_command rest s.(paths) in Done ([], mkShared paths s.(cwd))
      else
        let* found := searchPath s.(cwd) a s.(paths) in
        Done ([match found with None => PrintError | Some path => run_child args out path s end], s)
  end.

End execute.

(** ** Words *)

Definition blank (c : Z) : Prop := c = 32 \/ c = 9.

(** A text as words with blanks between them. *)
Fixpoint joined (w : list Z) (rest : list (list Z * list Z)) : list Z :=
  match rest with
  | [] => w
  | (gap, w') :: rest => w ++ gap ++ joined w' rest
  end.

Definition gap_ok (g : list Z) : Prop := g <> [] /\ Forall blank g.

Lemma strsep_none delims w : Forall (fun c => c ∉ delims) w -> strsep delims w = (w, None).
Proof. induction 1 as [|c w Hc _ IH]; [done|]. cbn. by rewrite bool_decide_eq_false_2, IH. Qed.

Lemma strsep_some delims w d s : Forall (fun c => c ∉ delims) w -> d ∈ delims -> strsep delims (w ++ d :: s) = (w, Some s).
Proof.
  intros Hw Hd. induction Hw as [|c w Hc _ IH]; cbn; [by rewrite bool_decide_eq_true_2|]. by rewrite bool_decide_eq_false_2, IH.
Qed.

Lemma word_not_blank w : is_word w -> Forall (fun c => c ∉ [32; 9]) w.
Proof.
  intros [_ Hw]. eapply Forall_impl; [exact Hw|]. intros c [Hc _]. rewrite !elem_of_cons. intros [->|[->|H]]; [done|done|by apply elem_of_nil in H].
Qed.

Lemma skip_words w r : is_word w -> skip_space (reverse w ++ r) = reverse w ++ r.
Proof.
  intros [Hne Hw]. apply skip_word. split; [intros E; apply (f_equal reverse) in E; rewrite reverse_involutive in E; by apply Hne|].
  by apply Forall_reverse.
Qed.

Lemma trim_word w : is_word w -> trim w = w.
Proof.
  intros Hw. unfold trim. pose proof (skip_word w [] Hw) as H. rewrite app_nil_r in H. rewrite H.
  pose proof (skip_words w [] Hw) as H2. rewrite app_nil_r in H2. by rewrite H2, reverse_involutive.
Qed.

(** Blanks before the next word. *)
Lemma split_blanks g : forall fuel n s, Forall blank g -> (length g <= fuel)%nat ->
  split_args fuel n (Some (g ++ s)) = split_args (fuel - length g) n (Some s).
Proof.
  induction g as [|c g IH]; intros fuel n s Hg Hf; [cbn; by rewrite Nat.sub_0_r|]. apply Forall_cons in Hg as [Hc Hg].
  destruct fuel as [|fuel]; [cbn in Hf; lia|]. cbn [length app split_args]. cbn [strsep].
  rewrite bool_decide_eq_true_2 by (destruct Hc as [-> | ->]; [left|right; left]). rewrite IH by (done || (cbn in Hf; lia)). done.
Qed.

Lemma split_joined rest : forall fuel n w, is_word w -> Forall (fun p => gap_ok p.1 /\ is_word p.2) rest ->
  (n + S (length rest) < BUFF_SIZE)%nat -> (length (joined w rest) < fuel)%nat ->
  split_args fuel n (Some (joined w rest)) = w :: (snd <$> rest).
Proof.
  induction rest as [|[g w'] rest IH]; intros fuel n w Hw Hr Hn Hf; (destruct fuel as [|fuel]; [cbn in Hf; lia|]); cbn [joined split_args].
  - rewrite strsep_none by (by apply word_not_blank). destruct w as [|c w1] eqn:E; [by destruct Hw|]. rewrite <- E in *.
    rewrite trim_word by done. destruct (Nat.leb_spec BUFF_SIZE (S n)); [cbn in Hn; lia|]. by destruct fuel.
  - apply Forall_cons in Hr as [[[Hgne Hg] Hw'] Hr]. cbn [fst snd] in *. destruct g as [|b g]; [done|]. apply Forall_cons in Hg as [Hb Hg].
    cbn [app]. rewrite strsep_some; [|by apply word_not_blank|destruct Hb as [-> | ->]; [left|right; left]].
    destruct w as [|c w1] eqn:E; [by destruct Hw|]. rewrite <- E in *. rewrite trim_word by done.
    cbn [joined length] in Hf. rewrite ?length_app in Hf. cbn [length] in Hf, Hn. rewrite ?length_app in Hf.
    destruct (Nat.leb_spec BUFF_SIZE (S n)); [lia|]. rewrite split_blanks by (done || lia).
    rewrite (IH (fuel - length g)%nat (S n) w') by (done || lia). done.
Qed.

Definition spaces (s : list Z) : Prop := Forall (fun c => isspace c = true) s.

Lemma skip_spaces s r : spaces s -> skip_space (s ++ r) = skip_space r.
Proof. induction 1 as [|c s Hc _ IH]; [done|]. cbn [app skip_space]. by rewrite Hc. Qed.

Lemma skip_space_length s : (length (skip_space s) <= length s)%nat.
Proof. induction s as [|c s IH]; [done|]. cbn [skip_space length]. destruct (isspace c); cbn [length]; lia. Qed.

(** What does not start with a space. *)
Lemma skip_fixed c s : skip_space (c :: s) = c :: s -> isspace c = false.
Proof.
  cbn [skip_space]. destruct (isspace c); [|done]. intros H. apply (f_equal length) in H. cbn [length] in H.
  pose proof (skip_space_length s). lia.
Qed.

Lemma skip_app a b : a <> [] -> skip_space a = a -> skip_space (a ++ b) = a ++ b.
Proof. intros Hne Ha. destruct a as [|c a]; [done|]. apply skip_fixed in Ha. cbn [app skip_space]. by rewrite Ha. Qed.

Lemma joined_some w rest : is_word w -> joined w rest <> [].
Proof. intros [Hne _]. destruct w as [|c w]; [done|]. by destruct rest as [|[? ?] ?]. Qed.

(** A text of words starts and ends with a character that is not a space. *)
Lemma joined_ends w rest : is_word w -> Forall (fun p => gap_ok p.1 /\ is_word p.2) rest ->
  skip_space (joined w rest) = joined w rest /\ skip_space (reverse (joined w rest)) = reverse (joined w rest).
Proof.
  intros Hw Hr. split.
  - destruct rest as [|[g w'] rest]; cbn [joined]; [rewrite <- (app_nil_r w)|]; by apply skip_word.
  - revert w Hw. induction Hr as [|[g w'] rest [_ Hw'] Hr IH]; intros w Hw; cbn [joined].
    + pose proof (skip_words w [] Hw) as H. by rewrite app_nil_r in H.
    + specialize (IH w' Hw'). rewrite !reverse_app, <- app_assoc.
      apply skip_app; [|done]. intros E. apply (f_equal reverse) in E. rewrite reverse_involutive in E. by apply (joined_some w' rest) in E.
Qed.

Lemma trim_joined lead w rest trail : spaces lead -> spaces trail -> is_word w -> Forall (fun p => gap_ok p.1 /\ is_word p.2) rest ->
  trim (lead ++ joined w rest ++ trail) = joined w rest.
Proof.
  intros Hl Ht Hw Hr. destruct (joined_ends w rest Hw Hr) as [H1 H2]. unfold trim. rewrite skip_spaces by done.
  assert (E : skip_space (joined w rest ++ trail) = joined w rest ++ trail) by (apply skip_app; [by apply joined_some|done]).
  rewrite E, reverse_app, skip_spaces by (by apply Forall_reverse). by rewrite H2, reverse_involutive.
Qed.

(** A file name with spaces around it. *)
Lemma inner_space_none l f t : spaces l -> is_word f -> spaces t -> inner_space (l ++ f ++ t) = false.
Proof.
  intros Hl [_ Hf] Ht. assert (Htt : inner_space t = false).
  { induction Ht as [|c t Hc _ IH]; [done|]. cbn [inner_space]. by rewrite Hc. }
  assert (Hff : inner_space (f ++ t) = false).
  { induction Hf as [|c f [Hc _] Hf IH]; [done|]. cbn [app inner_space]. rewrite IH, orb_false_r, Hc. cbn [negb andb].
    destruct Hf as [|d f [Hd _] Hf]; cbn [app].
    - destruct Ht as [|d t Hd Ht]; [done|]. rewrite <- (app_nil_r (d :: t)), skip_spaces by (by constructor).
      by rewrite andb_false_r.
    - by rewrite Hd. }
  induction Hl as [|c l Hc _ IH]; [done|]. cbn [app inner_space]. by rewrite Hc.
Qed.

Lemma spaces_not_gt s : spaces s -> Forall (fun c => c ∉ [62]) s.
Proof. intros H. eapply Forall_impl; [exact H|]. intros c Hc E. apply list_elem_of_singleton in E as ->. done. Qed.

(** ** Properties *)

(** C33: [parseInput] understands commands.  Words, separated by blanks and with
    any spaces around them, become the arguments, in order; behind [>] one word
    with any spaces around it becomes the file for the output, if it can be
    opened; two words behind [>], a second [>], and a command line that starts
    with [>] are errors. *)
Theorem wish_parse_correct fopen_ok lead w rest trail :
  spaces lead -> spaces trail -> is_word w -> Forall (fun p => gap_ok p.1 /\ is_word p.2) rest ->
  62 ∉ joined w rest -> (S (length rest) < BUFF_SIZE)%nat ->
  let command := lead ++ joined w rest ++ trail in
  parseInput fopen_ok command = PExecute (w :: (snd <$> rest)) None /\
  (forall l f t, spaces l -> is_word f -> 62 ∉ f -> spaces t ->
     parseInput fopen_ok (command ++ 62 :: l ++ f ++ t) =
     if fopen_ok f then PExecute (w :: (snd <$> rest)) (Some f) else PError) /\
  (forall r, inner_space r = true \/ 62 ∈ r -> parseInput fopen_ok (command ++ 62 :: r) = PError) /\
  (forall r, parseInput fopen_ok (62 :: r) = PError).
Proof.
  intros Hl Ht Hw Hr Hgt Hn command.
  assert (Hc : Forall (fun c => c ∉ [62]) command).
  { apply Forall_app. split; [by apply spaces_not_gt|]. apply Forall_app. split; [|by apply spaces_not_gt].
    apply Forall_forall. intros c Hc E. apply list_elem_of_singleton in E as ->. done. }
  assert (Hne : exists c cs, command = c :: cs).
  { destruct command as [|c cs] eqn:E; [exfalso|by eexists _, _]. subst command. apply app_eq_nil in E as [_ E].
    apply app_eq_nil in E as [E _]. by apply (joined_some w rest) in E. }
  assert (Hargs : forall out, parse_args (trim command) out = PExecute (w :: (snd <$> rest)) out).
  { intros out. subst command. rewrite trim_joined by done. unfold parse_args.
    rewrite split_joined by (done || (cbn [plus]; lia)). done. }
  destruct Hne as (c & cs & Ec). split_and!.
  - unfold parseInput. rewrite strsep_none by done. rewrite Ec. rewrite <- Ec. apply Hargs.
  - intros l f t Hsl Hf Hf2 Hst. unfold parseInput. rewrite strsep_some by (done || left). rewrite Ec. rewrite <- Ec.
    rewrite inner_space_none by done. rewrite bool_decide_eq_false_2.
    + pose proof (trim_joined l f [] t Hsl Hst Hf (Forall_nil_2 _)) as Etr. cbn [joined] in Etr. rewrite Etr. cbn [orb].
      by rewrite Hargs.
    + rewrite !elem_of_app. apply spaces_not_gt in Hsl, Hst. rewrite Forall_forall in Hsl, Hst. intros [H|[H|H]]; [|done|].
      * by apply (Hsl 62 H), list_elem_of_singleton.
      * by apply (Hst 62 H), list_elem_of_singleton.
  - intros r Hbad. unfold parseInput. rewrite strsep_some by (done || left). rewrite Ec. rewrite <- Ec.
    destruct Hbad as [-> |H]; [done|]. rewrite (bool_decide_eq_true_2 (62 ∈ r)) by done. by rewrite orb_true_r.
  - done.
Qed.

(** The command [ls  -l > f]. *)
Lemma wish_parse_correct_witness :
  parseInput (fun _ => true) (bytes "ls  -l " ++ 62 :: bytes " f") = PExecute [bytes "ls"; bytes "-l"] (Some (bytes "f")).
Proof.
  assert (Hw : forall w, w <> [] -> forallb (fun c => negb (isspace c) && negb (c =? 0)) w = true -> is_word w).
  { intros w Hne Hf. split; [exact Hne|]. apply Forall_forall. intros c Hc. rewrite forallb_forall in Hf.
    specialize (Hf c ltac:(by apply list_elem_of_In)). apply andb_true_iff in Hf as [H1 H2].
    split; [by destruct (isspace c)|]. intros ->. discriminate H2. }
  destruct (wish_parse_correct (fun _ => true) [] (bytes "ls") [(bytes "  ", bytes "-l")] (bytes " ")) as (_ & H & _).
  - constructor.
  - repeat constructor.
  - apply Hw; [discriminate|reflexivity].
  - constructor; [|constructor]. split; [split; [discriminate|]|apply Hw; [discriminate|reflexivity]].
    constructor; [by left|]. constructor; [by left|]. constructor.
  - vm_compute. intros H. repeat (apply elem_of_cons in H as [H|H]; [discriminate|]). by apply elem_of_nil in H.
  - vm_compute. lia.
  - exact (H (bytes " ") (bytes "f") [] ltac:(repeat constructor) ltac:(apply Hw; [discriminate|reflexivity])
      ltac:(intros E; apply list_elem_of_singleton in E; discriminate) ltac:(constructor)).
Defined.

(** ** The path *)

(** The directories that are searched: up to the first null pointer. *)
Fixpoint searched (paths : paths_t) : list (list Z) :=
  match paths with
  | Some p :: paths => p :: searched paths
  | _ => []
  end.

Lemma set_paths_spec dirs : forall i paths, (i + length dirs <= length paths)%nat ->
  set_paths i dirs paths = take i paths ++ (Some <$> dirs) ++ drop (i + length dirs) paths.
Proof.
  induction dirs as [|d dirs IH]; intros i paths Hl; cbn [set_paths length] in *.
  - rewrite Nat.add_0_r. cbn. by rewrite take_drop.
  - rewrite IH by (rewrite length_insert; lia). rewrite (take_S_r _ _ (Some d)) by (apply list_lookup_insert_eq; lia).
    rewrite take_insert_ge, drop_insert_lt by lia. rewrite <- app_assoc. cbn. do 3 f_equal. f_equal. lia.
Qed.

Lemma searched_app dirs paths : searched ((Some <$> dirs) ++ paths) = dirs ++ searched paths.
Proof. induction dirs as [|d dirs IH]; [done|]. cbn. f_equal. exact IH. Qed.

(** After [path] with the directories [dirs], one directory of the old path is
    searched behind them: the entry that follows them is not overwritten. *)
Lemma path_keeps_entry dirs paths d n : length paths = BUFF_SIZE -> dirs <> [] -> length dirs = n -> (n < BUFF_SIZE - 1)%nat ->
  paths !! n = Some (Some d) -> exists paths', path_command dirs paths = Done paths' /\ searched paths' = dirs ++ [d].
Proof.
  intros Hl Hne Hn Hlt Hd. unfold path_command.
  assert (E : set_paths 0 dirs (<[0%nat := None]> paths) = (Some <$> dirs) ++ drop n paths).
  { rewrite set_paths_spec by (rewrite length_insert; lia). cbn [take app plus]. rewrite Hn.
    rewrite drop_insert_lt; [done|]. destruct dirs; [done|]. cbn in Hn. lia. }
  rewrite E, length_app, length_fmap, length_drop. destruct (Nat.ltb_spec (length dirs + 1) (length dirs + (length paths - n))) as [_|H]; [|lia].
  eexists. split; [done|]. rewrite insert_app_r_alt by (rewrite length_fmap; lia). rewrite length_fmap.
  replace (length dirs + 1 - length dirs)%nat with 1%nat by lia. rewrite searched_app. f_equal.
  rewrite (drop_S _ _ _ Hd). destruct (drop (S n) paths) as [|x l] eqn:Ed; [|done].
  apply (f_equal length) in Ed. rewrite length_drop in Ed. cbn in Ed. lia.
Qed.
