(* ===== verification/WishMain.v ===== *)
(** * The loop of the shell

    [main] of [projects/processes-shell/wish.c] for the lines of its input: the
    commands of a line, separated by [&], run in threads of their own, which share
    the array [paths] and the working directory.  A step of a thread is what it does
    up to and with its next access to one of the two, which [fopen], [access],
    [chdir] and [fork] are; the threads of a line interleave in any order.  A line
    ends when all its threads have ended, or the process ends when one of them
    calls [exit].

    What the kernel answers may differ from line to line, as the files do after the
    programs that ran.  On one line it depends on the name and the working
    directory alone: no command of the line changes the files another looks for. *)

From Stdlib Require Import ZArith Lia String.
From stdpp Require Import base tactics numbers list relations.
From S2P Require Import Prelude Cstring Request Wish.

Local Open Scope Z_scope.
Local Open Scope ostep_scope.

(** ** Definitions *)

(** Where a thread is: before [parseInput], before [executeCommands], in the loop of
    [searchPath] at [i] before the test and before [access], before [fork], in the
    loop of the command [path] with the directories still to write, or at its end,
    with what it has done. *)
Inductive thread :=
| TStart (command : list Z)
| TExec (args : list (list Z)) (out : option file_t)
| TSearch (args : list (list Z)) (out : option file_t) (i : nat)
| TAccess (args : list (list Z)) (out : option file_t) (i : nat) (path : list Z)
| TFork (args : list (list Z)) (out : option file_t) (path : list Z)
| TSet (dirs : list (list Z)) (i : nat)
| TEnd (done : list effect).

(** [line[nread - 1] = '\0'] for a newline, and the string up to a NUL. *)
Definition strip_newline (l : list Z) : list Z :=
  upto_nul (match last l with Some 10 => take (length l - 1) l | _ => l end).

(** The commands of a line. *)
Definition commands (l : list Z) : list (list Z) :=
  let temp := strip_newline l in split_commands (S (length temp)) 0 (Some temp).

(** [redirect] in the child: [outFileno] is what [fileno] returns; [fds] are the
    files behind the standard output and the standard error. *)
Definition redirect (outFileno : Z) (dup1_ok dup2_ok : bool) (fds : Z * Z) : list effect * (Z * Z) :=
  if outFileno =? -1 then ([PrintError], fds)
  else if outFileno =? 1 then ([], fds)
  else if negb dup1_ok then ([PrintError], fds)
  else if negb dup2_ok then ([PrintError], (outFileno, fds.2))
  else ([], (outFileno, outFileno)).

(** The input that [main] chooses; [file] gives the contents of a file that can be
    opened. *)
Definition choose_input (argv : list (list Z)) (stdin : list Z) (file : list Z -> option (list Z)) : outcome string (list Z) :=
  match argv with
  | _ :: f :: rest =>
      match rest, file f with
      | [], Some text => Done text
      | _, _ => Fail "An error has occurred"%string
      end
  | _ => Done stdin
  end.

Definition set_shared (paths : paths_t) (s : shared) : shared := mkShared paths s.(cwd).

Section line.
Context (w : world).

(** [executeCommands] up to its first access to what is shared; the search comes
    after it. *)
Definition start (args : list (list Z)) (out : option file_t) (s : shared) : outcome string (thread * shared) :=
  match args with
  | [] => Crash "args is empty"%string
  | a :: rest =>
      if decide (a = bytes "exit") then Done (TEnd [match rest with [] => Exit | _ => PrintError end], s)
      else if decide (a = bytes "cd") then let '(e, s) := cd_command w rest s in Done (TEnd e, s)
      else if decide (a = bytes "path") then Done (TSet rest 0, set_shared (<[0%nat := None]> s.(paths)) s)
      else Done (TSearch args out 0, s)
  end.

Definition tstep (t : thread) (s : shared) : outcome string (thread * shared) :=
  match t with
  | TStart c =>
      match parseInput (w.(fopen_ok) s.(cwd)) c with
      | PError => Done (TEnd [PrintError], s)
      | PNothing => Done (TEnd [], s)
      | PExecute args out => Done (TExec args ((fun f => (s.(cwd), f)) <$> out), s)
      end
  | TExec args out => start args out s
  | TSearch args out i =>
      match s.(paths) !! i with
      | None => Crash "past the end of paths"%string
      | Some None => Done (TEnd [PrintError], s)
      | Some (Some p) => Done (TAccess args out i (take (BUFF_SIZE - 1) (p ++ bytes "/" ++ default [] (head args))), s)
      end
  | TAccess args out i path => Done (if w.(access_ok) s.(cwd) path then TFork args out path else TSearch args out (S i), s)
  | TFork args out path => Done (TEnd [run_child w args out path s], s)
  | TSet (d :: dirs) i =>
      if (i <? length s.(paths))%nat then Done (TSet dirs (S i), set_shared (<[i := Some d]> s.(paths)) s)
      else Crash "past the end of paths"%string
  | TSet [] i =>
      if (S i <? length s.(paths))%nat then Done (TEnd [], set_shared (<[S i := None]> s.(paths)) s)
      else Crash "past the end of paths"%string
  | TEnd _ => Done (t, s)
  end.

Definition ended (t : thread) : bool := match t with TEnd _ => true | _ => false end.

Definition is_exit (e : list effect) : bool := match e with [Exit] => true | _ => false end.

Definition has_exited (t : thread) : bool := match t with TEnd e => is_exit e | _ => false end.

(** A step of some thread of a line, in a process that has not ended. *)
Inductive lstep : list thread * shared -> list thread * shared -> Prop :=
| lstep_thread ts s j t t' s' :
    ts !! j = Some t -> ended t = false -> forallb (fun t => negb (has_exited t)) ts = true ->
    tstep t s = Done (t', s') -> lstep (ts, s) (<[j := t']> ts, s').

(** What the threads of a line have done. *)
Definition effects (ts : list thread) : list (list effect) := (fun t => match t with TEnd e => e | _ => [] end) <$> ts.

(** *** One command after the other *)

(** A command on its own. *)
Definition alone (command : list Z) (s : shared) : outcome string (list effect * shared) :=
  match parseInput (w.(fopen_ok) s.(cwd)) command with
  | PError => Done ([PrintError], s)
  | PNothing => Done ([], s)
  | PExecute args out => executeCommands w args ((fun f => (s.(cwd), f)) <$> out) s
  end.

Fixpoint run_commands (cs : list (list Z)) (s : shared) : outcome string (list (list effect) * shared) :=
  match cs with
  | [] => Done ([], s)
  | c :: cs =>
      let* '(e, s) := alone c s in
      let* '(es, s) := run_commands cs s in
      Done (e :: es, s)
  end.

(** The commands that change what the others see: a built-in one by its name,
    whether or not the file for its output can be opened. *)
Definition changes (command : list Z) : bool :=
  match parseInput (fun _ => true) command with
  | PExecute (a :: _) _ => bool_decide (a ∈ [bytes "path"; bytes "cd"; bytes "exit"])
  | _ => false
  end.

(** A line on which the order cannot matter: one command, or none that changes
    [paths] or the working directory or ends the shell. *)
Definition orderly (l : list Z) : Prop := (length (commands l) <= 1)%nat \/ Forall (fun c => changes c = false) (commands l).

(** ** A thread on its own *)

(** What is left to do. *)
Definition finish (t : thread) (s : shared) : outcome string (list effect * shared) :=
  let search args out i :=
    let* found := searchPath w s.(cwd) (default [] (head args)) (drop i s.(paths)) in
    Done ([match found with None => PrintError | Some path => run_child w args out path s end], s) in
  match t with
  | TStart c => alone c s
  | TExec args out => executeCommands w args out s
  | TSearch args out i => search args out i
  | TAccess args out i path => if w.(access_ok) s.(cwd) path then Done ([run_child w args out path s], s) else search args out (S i)
  | TFork args out path => Done ([run_child w args out path s], s)
  | TSet dirs i =>
      if (i + length dirs + 1 <? length s.(paths))%nat
      then Done ([], set_shared (<[(i + length dirs + 1)%nat := None]> (set_paths i dirs s.(paths))) s)
      else Crash "past the end of paths"%string
  | TEnd e => Done (e, s)
  end.

Lemma set_paths_length dirs : forall i paths, length (set_paths i dirs paths) = length paths.
Proof. induction dirs as [|d dirs IH]; intros i paths; [done|]. cbn [set_paths]. by rewrite IH, length_insert. Qed.

Lemma start_finish args out s : match start args out s with
  | Done (t, s') => executeCommands w args out s = finish t s'
  | Fail _ => False
  | Crash e => executeCommands w args out s = Crash e
  end.
Proof.
  destruct args as [|a rest]; [done|]. cbn [start executeCommands]. case_decide; [done|]. case_decide; [by destruct (cd_command w rest s)|].
  case_decide; [|by cbn [finish head default]; rewrite drop_0].
  cbn [finish set_shared paths]. unfold path_command. rewrite set_paths_length, length_insert. cbn [plus]. by destruct (length rest + 1 <? length (paths s))%nat.
Qed.

(** A step leaves the result of the thread as it is. *)
Lemma tstep_finish t s : match tstep t s with
  | Done (t', s') => finish t s = finish t' s'
  | Fail _ => False
  | Crash e => finish t s = Crash e
  end.
Proof.
  destruct t as [c|args out|args out i|args out i path|args out path|[|d dirs] i|e]; cbn [tstep finish]; [unfold alone| | | | | | |done].
  - by destruct (parseInput _ c) as [| |args out].
  - apply start_finish.
  - destruct (paths s !! i) as [[p|]|] eqn:E; [|rewrite (drop_S _ _ _ E); done|by rewrite drop_ge by (by apply lookup_ge_None)].
    rewrite (drop_S _ _ _ E). cbn [searchPath finish]. by destruct (access_ok w _ _).
  - by destruct (access_ok w _ _).
  - done.
  - cbn [length set_paths]. replace (i + 0 + 1)%nat with (S i) by lia. by destruct (Nat.ltb_spec (S i) (length (paths s))).
  - cbn [length set_paths]. destruct (Nat.ltb_spec i (length (paths s))) as [Hi|Hi].
    + cbn [finish set_shared paths cwd]. rewrite length_insert. by replace (S i + length dirs + 1)%nat with (i + S (length dirs) + 1)%nat by lia.
    + destruct (Nat.ltb_spec (i + S (length dirs) + 1) (length (paths s))); [lia|done].
Qed.

(** ** Termination *)

Definition weight (n : nat) (t : thread) : nat :=
  match t with
  | TStart c => 4 + 3 * n + match parseInput (fun _ => true) c with PExecute args _ => length args | _ => 0 end
  | TExec args _ => 3 + 3 * n + length args
  | TSearch _ _ i => 2 + 3 * (n - i)
  | TAccess _ _ i _ => 3 + 3 * (n - S i)
  | TFork _ _ _ => 1
  | TSet dirs _ => 1 + length dirs
  | TEnd _ => 0
  end.

(** A file that cannot be opened leaves nothing to execute. *)
Lemma parse_any fopen c args out : parseInput fopen c = PExecute args out -> parseInput (fun _ => true) c = PExecute args out.
Proof. unfold parseInput. destruct (strsep [62] c) as [[|x l] [r|]]; try done. destruct (_ || _); [done|]. by destruct (fopen _). Qed.

Lemma cd_paths rest s e s' : cd_command w rest s = (e, s') -> s'.(paths) = s.(paths).
Proof. unfold cd_command. intros E. repeat case_match; by injection E as <- <-. Qed.

Lemma tstep_weight t s t' s' : ended t = false -> tstep t s = Done (t', s') ->
  length s'.(paths) = length s.(paths) /\ (weight (length s.(paths)) t' < weight (length s.(paths)) t)%nat.
Proof.
  destruct t as [c|args out|args out i|args out i path|args out path|[|d dirs] i|e]; cbn [tstep ended weight]; intros He E; [| | | | | | |done].
  - destruct (parseInput _ c) as [| |args out] eqn:Ep; [by injection E as <- <-; cbn; split; [|lia]..|].
    apply parse_any in Ep. rewrite Ep. injection E as <- <-. cbn [weight]. split; [done|lia].
  - destruct args as [|a rest]; [done|]. cbn [start] in E. case_decide; [injection E as <- <-; cbn; split; [done|lia]|].
    case_decide; [destruct (cd_command w rest s) as [e s1] eqn:Ec; injection E as <- <-; rewrite (cd_paths _ _ _ _ Ec); cbn; split; [done|lia]|].
    case_decide; injection E as <- <-; cbn [weight set_shared paths length]; rewrite ?length_insert; split; (done || lia).
  - destruct (paths s !! i) as [[p|]|] eqn:Ei; [|by injection E as <- <-; cbn; split; [|lia]|done]. apply lookup_lt_Some in Ei.
    injection E as <- <-. cbn [weight]. split; [done|lia].
  - injection E as <- <-. destruct (access_ok w _ _); cbn [weight]; split; (done || lia).
  - injection E as <- <-. cbn [weight]. split; [done|lia].
  - case_match; [|done]. injection E as <- <-. cbn [set_shared paths]. rewrite length_insert. cbn. split; [done|lia].
  - case_match; [|done]. injection E as <- <-. cbn [set_shared paths]. rewrite length_insert. cbn. split; [done|lia].
Qed.

Definition total (s : list thread * shared) : nat := sum_list (weight (length s.2.(paths)) <$> s.1).

Lemma sum_insert (f : thread -> nat) ts j t t' : ts !! j = Some t -> (f t' < f t)%nat -> (sum_list (f <$> <[j := t']> ts) < sum_list (f <$> ts))%nat.
Proof.
  intros Hj Hlt. apply list_elem_of_split_length in Hj as (a & b & -> & ->). rewrite insert_app_r_alt, Nat.sub_diag by lia. cbn.
  rewrite !fmap_app. unfold sum_list. induction (f <$> a) as [|x l IH]; cbn in *; lia.
Qed.

Lemma lstep_total s s' : lstep s s' -> (total s' < total s)%nat.
Proof.
  intros H. inversion H as [ts p j t t' p' Hj He _ Et]; subst. apply tstep_weight in Et as [Hl Hw]; [|done]. unfold total. cbn [fst snd]. rewrite Hl. by eapply sum_insert.
Qed.

(** ** Threads that do not disturb each other *)

Definition builtin (args : list (list Z)) : Prop := match args with a :: _ => a ∈ [bytes "path"; bytes "cd"; bytes "exit"] | [] => False end.

Definition quiet (t : thread) : Prop :=
  match t with
  | TStart c => changes c = false
  | TExec args _ => ~ builtin args
  | TSearch _ _ _ | TAccess _ _ _ _ | TFork _ _ _ => True
  | TSet _ _ => False
  | TEnd e => is_exit e = false
  end.

Lemma quiet_step t s t' s' : quiet t -> tstep t s = Done (t', s') -> s' = s /\ quiet t'.
Proof.
  destruct t as [c|args out|args out i|args out i path|args out path|dirs i|e]; cbn [quiet tstep]; intros Hq E; [| | | | |done|by injection E as <- <-].
  - destruct (parseInput _ c) as [| |args out] eqn:Ep; [by injection E as <- <-..|]. injection E as <- <-. split; [done|].
    unfold changes in Hq. rewrite (parse_any _ _ _ _ Ep) in Hq. cbn [quiet]. destruct args as [|a rest]; [by intros []|]. by apply bool_decide_eq_false in Hq.
  - destruct args as [|a rest]; [done|]. cbn [builtin start] in *.
    destruct (decide (a = bytes "exit")) as [->|_]; [exfalso; apply Hq; set_solver|]. destruct (decide (a = bytes "cd")) as [->|_]; [exfalso; apply Hq; set_solver|].
    destruct (decide (a = bytes "path")) as [->|_]; [exfalso; apply Hq; set_solver|]. by injection E as <- <-.
  - destruct (paths s !! i) as [[p|]|]; [by injection E as <- <-..|done].
  - injection E as <- <-. by destruct (access_ok w _ _).
  - injection E as <- <-. split; [done|]. unfold run_child. cbn [quiet]. by destruct (fork_ok w).
Qed.

Lemma forallb_not_exited ts : Forall quiet ts -> forallb (fun t => negb (has_exited t)) ts = true.
Proof. induction 1 as [|t ts Hq _ IH]; [done|]. cbn [forallb]. rewrite IH, andb_true_r. by destruct t; cbn in *; rewrite ?Hq. Qed.

(** The threads of a line of quiet commands. *)
Lemma line_quiet cs p0 s : Forall (fun c => changes c = false) cs -> rtc lstep (TStart <$> cs, p0) s ->
  s.2 = p0 /\ Forall2 (fun c t => quiet t /\ finish t p0 = alone c p0) cs s.1.
Proof.
  intros Hcs Hr. revert s Hr. apply (rtc_ind_r (fun s => s.2 = p0 /\ Forall2 (fun c t => quiet t /\ finish t p0 = alone c p0) cs s.1)).
  - split; [done|]. cbn [fst]. clear -Hcs. induction Hcs as [|c cs Hc _ IH]; constructor; [done|exact IH].
  - intros s s' _ Hs [Hp H2]. inversion Hs as [ts p j t t' p' Hj He _ Et]; subst. cbn [fst snd] in *.
    destruct (Forall2_lookup_r _ _ _ _ _ H2 Hj) as (c & Hc & Hq & Hf). destruct (quiet_step _ _ _ _ Hq Et) as [-> Hq'].
    split; [done|]. pose proof (tstep_finish t p) as Hfin. rewrite Et in Hfin.
    rewrite <- (list_insert_id cs j c) by done. apply Forall2_insert; [done|]. split; [done|congruence].
Qed.

Lemma line_single c p0 s : rtc lstep ([TStart c], p0) s -> exists t, s.1 = [t] /\ finish t s.2 = alone c p0.
Proof.
  intros Hr. revert s Hr. apply (rtc_ind_r (fun s => exists t, s.1 = [t] /\ finish t s.2 = alone c p0)); [by exists (TStart c)|].
  intros s s' _ Hs (t0 & H1 & H2). inversion Hs as [ts p j t t' p' Hj He _ Et]; subst. cbn [fst snd] in *. subst ts.
  destruct j; [|done]. injection Hj as ->. exists t'. split; [done|]. pose proof (tstep_finish t p) as Hf. rewrite Et in Hf. congruence.
Qed.

Lemma effects_end es : effects (TEnd <$> es) = es.
Proof. unfold effects. rewrite <- list_fmap_compose. by apply list_fmap_id. Qed.

Lemma forall_ended ts : forallb ended ts = true -> exists es, ts = TEnd <$> es.
Proof.
  induction ts as [|t ts IH]; [by exists []|]. cbn. intros H. apply andb_true_iff in H as [H1 H2]. destruct (IH H2) as [es ->].
  destruct t as [| | | | | |e]; try done. by exists (e :: es).
Qed.

Lemma run_commands_alone cs es p : Forall2 (fun c e => alone c p = Done (e, p)) cs es -> run_commands cs p = Done (es, p).
Proof. induction 1 as [|c e cs es H _ IH]; [done|]. cbn [run_commands]. rewrite H. cbn [obind]. by rewrite IH. Qed.

(** However the threads of an orderly line interleave, they have done what the
    commands do one after the other. *)
Lemma line_ends l p ts p' : orderly l -> rtc lstep (TStart <$> commands l, p) (ts, p') -> forallb ended ts = true \/ existsb has_exited ts = true ->
  run_commands (commands l) p = Done (effects ts, p').
Proof.
  intros Ho Hr He. destruct Ho as [Ho|Ho].
  - destruct (commands l) as [|c [|]]; [|clear Ho|cbn in Ho; lia].
    + apply (line_quiet []) in Hr as [Hp H2]; [|constructor]. cbn [fst snd] in *. inversion H2. by subst.
    + apply line_single in Hr as (t & E & Hf). cbn [fst snd] in *. subst ts. cbn [run_commands].
      assert (Het : exists e, t = TEnd e) by (destruct t; [by destruct He..|by eexists]). destruct Het as [e ->]. cbn [finish] in Hf. by rewrite <- Hf.
  - apply line_quiet in Hr as [Hp H2]; [|done]. cbn [fst snd] in *. subst p'.
    assert (Hq : Forall quiet ts) by (clear -H2; induction H2 as [|c t cs ts [H _] _ IH]; by constructor).
    destruct He as [He|He].
    + apply forall_ended in He as [es ->]. rewrite effects_end. apply run_commands_alone. apply Forall2_fmap_r in H2. eapply Forall2_impl; [exact H2|].
      intros c e [_ H]. cbn [finish] in H. done.
    + exfalso. apply forallb_not_exited in Hq. clear -He Hq. induction ts as [|t ts IH]; [done|]. cbn [forallb existsb] in *.
      apply andb_true_iff in Hq as [H1 H2]. destruct (has_exited t); [done|]. by apply IH.
Qed.

(** ** Every command can run *)

(** A thread can go on to its end while the others stand still. *)
Lemma finish_run n : forall t p e p' a b, (weight (length p.(paths)) t <= n)%nat -> finish t p = Done (e, p') ->
  forallb (fun t => negb (has_exited t)) (a ++ b) = true -> rtc lstep (a ++ t :: b, p) (a ++ TEnd e :: b, p').
Proof.
  induction n as [|n IH]; intros t p e p' a b Hw Hf Hx; (destruct (ended t) eqn:He; [destruct t; try done; injection Hf as <- <-; apply rtc_refl|]).
  - destruct t; cbn in Hw; (lia || done).
  - pose proof (tstep_finish t p) as Hs. destruct (tstep t p) as [[t1 p1]| |] eqn:Et; [|done|congruence].
    destruct (tstep_weight t p t1 p1 He Et) as [Hl Hlt]. eapply rtc_l; [|apply (IH t1 p1 e p' a b); [rewrite Hl; lia|congruence|done]].
    replace (a ++ t1 :: b) with (<[length a := t1]> (a ++ t :: b)) by (by rewrite insert_app_r_alt, Nat.sub_diag by lia).
    econstructor; [by apply list_lookup_middle|done| |done]. rewrite forallb_app in *. cbn [forallb]. apply andb_true_iff in Hx as [-> ->]. by destruct t.
Qed.

Lemma alone_quiet c p e p' : changes c = false -> alone c p = Done (e, p') -> p' = p /\ is_exit e = false.
Proof.
  intros Hc Ha. destruct (line_quiet [c] p ([TEnd e], p')) as [Hp H2]; [by constructor| |].
  { apply (finish_run (weight (length p.(paths)) (TStart c)) (TStart c) p e p' [] []); done. }
  cbn [fst snd] in *. apply Forall2_cons in H2 as [[Hq _] _]. by split.
Qed.

Lemma run_commands_steps cs : forall p es p' a, Forall (fun c => changes c = false) cs -> run_commands cs p = Done (es, p') ->
  forallb (fun t => negb (has_exited t)) a = true -> rtc lstep (a ++ (TStart <$> cs), p) (a ++ (TEnd <$> es), p') /\ existsb is_exit es = false.
Proof.
  induction cs as [|c cs IH]; intros p es p' a Hcs E Ha; cbn [run_commands] in E; [injection E as <- <-; split; [apply rtc_refl|done]|].
  apply Forall_cons in Hcs as [Hc Hcs]. apply obind_Done in E as ([e p1] & E1 & E). apply obind_Done in E as ([es1 p2] & E2 & E). injection E as <- <-.
  destruct (alone_quiet _ _ _ _ Hc E1) as [-> He].
  assert (Hx : forallb (fun t => negb (has_exited t)) (a ++ [TEnd e]) = true) by (rewrite forallb_app, Ha; cbn; by rewrite He).
  destruct (IH p es1 p2 (a ++ [TEnd e]) Hcs E2 Hx) as [Hr Hes]. split; [|cbn [existsb]; by rewrite He].
  cbn [fmap list_fmap]. rewrite <- !app_assoc in Hr. etransitivity; [|exact Hr].
  apply (finish_run (weight (length p.(paths)) (TStart c)) (TStart c) p e p a (TStart <$> cs)); [done|done|]. rewrite forallb_app, Ha. cbn [andb]. clear. by induction cs.
Qed.

Lemma line_runs l p es p' : orderly l -> run_commands (commands l) p = Done (es, p') -> rtc lstep (TStart <$> commands l, p) (TEnd <$> es, p').
Proof.
  intros Ho E. destruct Ho as [Ho|Ho]; [|by apply (run_commands_steps _ p es p' [] Ho E)].
  destruct (commands l) as [|c [|]]; [|clear Ho|cbn in Ho; lia]; cbn [run_commands] in E; [injection E as <- <-; apply rtc_refl|].
  apply obind_Done in E as ([e p1] & E1 & E). injection E as <- <-. by apply (finish_run (weight (length p.(paths)) (TStart c)) (TStart c) p e p1 [] []).
Qed.

Lemma exited_effects es : existsb has_exited (TEnd <$> es) = existsb is_exit es /\ forallb ended (TEnd <$> es) = true /\
  forallb (fun t => negb (has_exited t)) (TEnd <$> es) = negb (existsb is_exit es).
Proof.
  induction es as [|e es (H1 & H2 & H3)]; [done|]. cbn [fmap list_fmap existsb forallb has_exited ended]. fold (TEnd <$> es).
  rewrite H1, H2, H3. split_and!; [done|done|]. by destruct (is_exit e).
Qed.

(** ** Runs *)

Lemma getline_cons input l rest : input <> [] -> getline input = (l, rest) -> lines input = l :: lines rest /\ (length rest < length input)%nat.
Proof.
  intros Hne E. destruct input as [|c input]; [done|]. pose proof (getline_ok c input) as H. rewrite E in H. destruct H as [H1 H2]. split; [done|cbn; lia].
Qed.

End line.

(** The runs of [main] from a line on: what was done for every line. *)
Inductive shell_run (env : nat -> world) : nat -> shared -> list Z -> list (list (list effect)) -> Prop :=
| run_eof k s : shell_run env k s [] []
| run_line k s input l rest ts s' out :
    input <> [] -> getline input = (l, rest) -> rtc (lstep (env k)) (TStart <$> commands l, s) (ts, s') ->
    forallb ended ts = true -> forallb (fun t => negb (has_exited t)) ts = true -> shell_run env (S k) s' rest out ->
    shell_run env k s input (effects ts :: out)
| run_exit k s input l rest ts s' :
    input <> [] -> getline input = (l, rest) -> rtc (lstep (env k)) (TStart <$> commands l, s) (ts, s') ->
    existsb has_exited ts = true -> shell_run env k s input [effects ts].

(** The shell that runs the commands of a line in order; [exit] ends it after its
    line. *)
Fixpoint shell (env : nat -> world) (fuel k : nat) (s : shared) (input : list Z) : outcome string (list (list (list effect))) :=
  match fuel, input with
  | O, _ => Fail "fuel"%string
  | _, [] => Done []
  | S fuel, _ =>
      let '(l, rest) := getline input in
      let* '(es, s) := run_commands (env k) (commands l) s in
      if existsb is_exit es then Done [es]
      else let* out := shell env fuel (S k) s rest in Done (es :: out)
  end.

Lemma run_shell env k p input out : shell_run env k p input out -> forall fuel, Forall orderly (lines input) -> (length input < fuel)%nat -> shell env fuel k p input = Done out.
Proof.
  induction 1 as [k p|k p input l rest ts p' out Hne Hg Hr He Hx _ IH|k p input l rest ts p' Hne Hg Hr Hx]; intros fuel Ho Hf;
    (destruct fuel as [|fuel]; [lia|]); [done|..]; destruct (getline_cons _ _ _ Hne Hg) as [El Hlen]; rewrite El in Ho; apply Forall_cons in Ho as [Ho Hos];
    (destruct input as [|c input]; [done|]); cbn [shell]; rewrite Hg.
  - rewrite (line_ends _ l p ts p') by (done || by left). cbn [obind]. apply forall_ended in He as [es ->]. rewrite effects_end.
    destruct (exited_effects es) as (_ & _ & H3). rewrite Hx in H3. destruct (existsb is_exit es); [done|]. rewrite (IH fuel); [done|done|lia].
  - rewrite (line_ends _ l p ts p') by (done || by right). cbn [obind].
    assert (E : existsb is_exit (effects ts) = true); [|by rewrite E]. clear -Hx. induction ts as [|t ts IH]; [done|]. cbn [existsb effects fmap list_fmap] in *.
    apply orb_true_iff in Hx as [H|H]; [destruct t; try done; cbn in H; by rewrite H|]. fold (effects ts). rewrite IH by done. by rewrite orb_true_r.
Qed.

Lemma shell_runs env fuel : forall k p input out, Forall orderly (lines input) -> shell env fuel k p input = Done out -> shell_run env k p input out.
Proof.
  induction fuel as [|fuel IH]; intros k p input out Ho E; [by destruct input|]. destruct input as [|c input]; [injection E as <-; constructor|].
  cbn [shell] in E. destruct (getline (c :: input)) as [l rest] eqn:Hg. destruct (getline_cons (c :: input) l rest ltac:(discriminate) Hg) as [El _]. rewrite El in Ho.
  apply Forall_cons in Ho as [Ho Hos]. apply obind_Done in E as ([es p'] & Er & E). destruct (exited_effects es) as (H1 & H2 & H3).
  pose proof (line_runs _ l p es p' Ho Er) as Hr. destruct (existsb is_exit es) eqn:Hx.
  - injection E as <-. rewrite <- (effects_end es). by eapply run_exit.
  - apply obind_Done in E as (out' & E & Eo). injection Eo as <-. rewrite <- (effects_end es). eapply run_line; try done. by apply IH.
Qed.

(** ** Properties *)

(** C34: The loop of the shell, when on every line with several commands none is
    [path], [cd] or [exit], and what the kernel answers depends, on one line, on the
    name and the working directory alone.  However the threads interleave, a run does
    for every line what the commands do one after the other in the order of the
    line, every program in the same working directory; and that run is possible.  A
    line with one command may hold any.  On any line, orderly or not, the threads
    take a bounded number of steps. *)
Theorem wish_main_correct env k s input out : Forall orderly (lines input) ->
  (shell_run env k s input out <-> shell env (S (length input)) k s input = Done out) /\
  (forall w l s n s', nsteps (lstep w) n (TStart <$> commands l, s) s' -> (n <= total (TStart <$> commands l, s))%nat).
Proof.
  intros Ho. split.
  - split; [intros H; eapply run_shell; [exact H|done|lia]|by apply shell_runs].
  - intros w l p n s'. generalize (TStart <$> commands l, p). intros s0 H. induction H as [s0|n s0 s1 s2 H _ IH]; [lia|].
    apply lstep_total in H. lia.
Qed.

(** A file system in which [ls] is in [/bin], a second one in [/home], and both are
    directories. *)
Definition sample_world : world :=
  mkWorld (fun _ _ => true)
    (fun _ d => if decide (d ∈ [bytes "/bin"; bytes "/home"]) then Some d else None)
    (fun cwd p => bool_decide (p ∈ [bytes "/bin/ls"; bytes "/home/ls"]) || bool_decide (cwd = bytes "/home" /\ p = bytes "./ls")) true.

(** Two programs on a line, one of which does not exist; then another directory, and
    in it the program there. *)
Lemma wish_main_correct_witness :
  shell_run (fun _ => sample_world) 0 (mkShared initial_paths (bytes "/"))
    (bytes "ls & who" ++ 10 :: bytes "path ." ++ 10 :: bytes "cd /home" ++ 10 :: bytes "ls " ++ 62 :: bytes "f" ++ 10 :: bytes "exit")
    [[[Run (bytes "/") (bytes "/bin/ls") [bytes "ls"] None]; [PrintError]]; [[]]; [[Cd (bytes "/home")]];
     [[Run (bytes "/home") (bytes "./ls") [bytes "ls"] (Some (bytes "/home", bytes "f"))]]; [[Exit]]].
Proof.
  apply (wish_main_correct (fun _ => sample_world) 0 (mkShared initial_paths (bytes "/"))
    (bytes "ls & who" ++ 10 :: bytes "path ." ++ 10 :: bytes "cd /home" ++ 10 :: bytes "ls " ++ 62 :: bytes "f" ++ 10 :: bytes "exit")).
  - repeat first [apply Forall_nil_2 | apply Forall_cons_2]; try (left; vm_compute; lia). right. repeat constructor.
  - vm_compute. reflexivity.
Defined.

(** Out of order: [path] beside another command on one line.  The search may see
    the directories half written; here it finds nothing, though both the old and
    the new path have the program. *)
Lemma path_race : exists ts s,
  let cs := [bytes "path /bin /usr"; bytes "ls"] in
  rtc (lstep sample_world) (TStart <$> cs, mkShared initial_paths (bytes "/")) (ts, s) /\
  effects ts = [[]; [PrintError]] /\ run_commands sample_world cs (mkShared initial_paths (bytes "/")) =
    Done ([[]; [Run (bytes "/") (bytes "/bin/ls") [bytes "ls"] None]], s).
Proof.
  set (cs := [bytes "path /bin /usr"; bytes "ls"]). eexists _, _. cbv zeta. split_and!.
  - do 2 (eapply rtc_l; [eapply (lstep_thread _ _ _ 0); [reflexivity|reflexivity|reflexivity|vm_compute; reflexivity]|]).
    do 3 (eapply rtc_l; [eapply (lstep_thread _ _ _ 1); [reflexivity|reflexivity|reflexivity|vm_compute; reflexivity]|]).
    do 3 (eapply rtc_l; [eapply (lstep_thread _ _ _ 0); [reflexivity|reflexivity|reflexivity|vm_compute; reflexivity]|]).
    apply rtc_refl.
  - vm_compute. reflexivity.
  - vm_compute. reflexivity.
Qed.

(** And [cd] beside another: the program was found in one directory and runs in
    another. *)
Lemma cd_race : exists ts s,
  let cs := [bytes "ls"; bytes "cd /home"] in
  rtc (lstep sample_world) (TStart <$> cs, mkShared initial_paths (bytes "/")) (ts, s) /\
  effects ts = [[Run (bytes "/home") (bytes "/bin/ls") [bytes "ls"] None]; [Cd (bytes "/home")]] /\
  run_commands sample_world cs (mkShared initial_paths (bytes "/")) =
    Done ([[Run (bytes "/") (bytes "/bin/ls") [bytes "ls"] None]; [Cd (bytes "/home")]], s).
Proof.
  set (cs := [bytes "ls"; bytes "cd /home"]). eexists _, _. cbv zeta. split_and!.
  - do 4 (eapply rtc_l; [eapply (lstep_thread _ _ _ 0); [reflexivity|reflexivity|reflexivity|vm_compute; reflexivity]|]).
    do 2 (eapply rtc_l; [eapply (lstep_thread _ _ _ 1); [reflexivity|reflexivity|reflexivity|vm_compute; reflexivity]|]).
    eapply rtc_l; [eapply (lstep_thread _ _ _ 0); [reflexivity|reflexivity|reflexivity|vm_compute; reflexivity]|].
    apply rtc_refl.
  - vm_compute. reflexivity.
  - vm_compute. reflexivity.
Qed.
