(* ===== verification/SelectServer.v ===== *)
(** * The file server on select

    [33/server_select.c]: [read_from_client] answers a request for a file from a
    cache of ten files or from the file system, [reset_cache] (the handler of
    SIGUSR1) empties the cache.  What [open] and [read] give for a name is an
    argument; the signal is taken between two requests. *)

From Stdlib Require Import ZArith Lia String.
From stdpp Require Import base tactics numbers list.
From S2P Require Import Prelude Cstring Request.

Local Open Scope Z_scope.
Local Open Scope ostep_scope.

(** ** Definitions *)

Definition CACHE_NUM : nat := 10.

Definition NAME_SIZE : nat := 20.

Definition MAXMSG : nat := 512.

Definition forbidden_files : list (list Z) := [bytes "test1.txt"; bytes "not_me.txt"].

(** [file_map]: the strings in its arrays. *)
Record file_map := mkMap { content : list Z; file_name : list Z }.

(** [file_cache] and [file_cache_tail]. *)
Record cache := mkCache { file_cache : list file_map; file_cache_tail : nat }.

Definition reset_cache : cache := mkCache (replicate CACHE_NUM (mkMap [] [])) 0.

(** The result of [read] on the connection. *)
Inductive request := ReadError | Eof | Data (bs : list Z).

(** What becomes of a file: it cannot be opened, or read, or its first
    [MAXMSG] bytes are read. *)
Inductive file := NoFile | Unreadable | Bytes (bs : list Z).

(** The array [char a[MAXMSG] = {0}] after a [read] of up to [MAXMSG] bytes. *)
Definition array_of (bs : list Z) : list Z := take MAXMSG bs ++ replicate (MAXMSG - length bs) 0.

(** The loop starts at index 1. *)
Definition is_forbidden (name : list Z) : bool := bool_decide (name ∈ tail forbidden_files).

(** The loop over the cache stops at the first slot without a name. *)
Fixpoint find_cached (name : list Z) (slots : list file_map) : option (list Z) :=
  match slots with
  | [] => None
  | m :: slots =>
      match m.(file_name) with
      | [] => None
      | _ => if decide (m.(file_name) = name) then Some m.(content) else find_cached name slots
      end
  end.

Definition set_name (name : list Z) (m : file_map) : file_map := mkMap m.(content) name.

Definition set_content (text : list Z) (m : file_map) : file_map := mkMap text m.(file_name).

Section server.
Variable fs : list Z -> file.

(** The value returned, what is sent and the cache afterwards. *)
Definition read_from_client (r : request) (c : cache) : outcome string (Z * option (list Z) * cache) :=
  match r with
  | ReadError => Fail "read"%string
  | Eof => Done (-1, None, c)
  | Data bs =>
      let* name := cstr (array_of bs) in
      if is_forbidden name then Done (-1, None, c)
      else
        match find_cached name c.(file_cache) with
        | Some text => Done (0, Some text, c)
        | None =>
            match fs name with
            | NoFile => Done (-1, None, c)
            | f =>
                let* name := fits NAME_SIZE name in
                let slots := alter (set_name name) c.(file_cache_tail) c.(file_cache) in
                match f with
                | Bytes bs =>
                    let* text := cstr (array_of bs) in
                    let slots := alter (set_content text) c.(file_cache_tail) slots in
                    let t := S c.(file_cache_tail) in
                    Done (0, Some text, mkCache slots (if (t =? CACHE_NUM)%nat then 0%nat else t))
                | _ => Done (-1, None, mkCache slots c.(file_cache_tail))
                end
            end
        end
  end.

(** What arrives: requests, and the signal. *)
Inductive event := Request (r : request) | Usr1.

(** The answers to a sequence of events. *)
Fixpoint serve (es : list event) (c : cache) : outcome string (list (Z * option (list Z)) * cache) :=
  match es with
  | [] => Done ([], c)
  | Usr1 :: es => serve es reset_cache
  | Request r :: es =>
      let* '(z, text, c) := read_from_client r c in
      let* '(rs, c) := serve es c in Done ((z, text) :: rs, c)
  end.

(** ** A server without a cache *)

Definition answer (r : request) : outcome string (Z * option (list Z)) :=
  match r with
  | ReadError => Fail "read"%string
  | Eof => Done (-1, None)
  | Data bs =>
      let* name := cstr (array_of bs) in
      if is_forbidden name then Done (-1, None)
      else match fs name with
           | Bytes bs => let* text := cstr (array_of bs) in Done (0, Some text)
           | _ => Done (-1, None)
           end
  end.

(** Every slot with a name holds what the file has. *)
Definition coherent (c : cache) : Prop :=
  (c.(file_cache_tail) < CACHE_NUM)%nat /\ length c.(file_cache) = CACHE_NUM /\
  Forall (fun m => m.(file_name) <> [] -> exists bs, fs m.(file_name) = Bytes bs /\ cstr (array_of bs) = Done m.(content)) c.(file_cache).

Lemma coherent_reset : coherent reset_cache.
Proof. split_and!; [unfold CACHE_NUM; cbn; lia|done|]. apply Forall_replicate. done. Qed.

Lemma find_coherent name text c : coherent c -> find_cached name c.(file_cache) = Some text ->
  exists bs, fs name = Bytes bs /\ cstr (array_of bs) = Done text.
Proof.
  intros (_ & _ & Hc). induction Hc as [|m slots Hm _ IH]; [done|]. cbn [find_cached].
  destruct (file_name m) as [|x n] eqn:E; [done|]. case_decide as Hn; [|exact IH]. intros [= <-]. rewrite <- Hn. by apply Hm.
Qed.

(** A request that does not name something which can be opened and not read, such as
    a directory. *)
Definition readable (r : request) : Prop :=
  match r with Data bs => forall name, cstr (array_of bs) = Done name -> fs name <> Unreadable | _ => True end.

(** The shape of the cache, whatever is asked for. *)
Definition cache_shape (c : cache) : Prop := (c.(file_cache_tail) < CACHE_NUM)%nat /\ length c.(file_cache) = CACHE_NUM.

Lemma read_shape r c z text c' : cache_shape c -> read_from_client r c = Done (z, text, c') -> cache_shape c'.
Proof.
  intros [Ht Hl]. destruct r as [| |bs]; cbn [read_from_client]; [done|intros [= <- <- <-]; done|].
  intros (name & _ & H)%obind_Done. destruct (is_forbidden name); [by injection H as <- <- <-|].
  destruct (find_cached name (file_cache c)) as [t|]; [by injection H as <- <- <-|].
  destruct (fs name) as [| |bs']; [by injection H as <- <- <-|..]; apply obind_Done in H as (name' & _ & H).
  - injection H as <- <- <-. split; [done|]. cbn [file_cache]. by rewrite length_alter.
  - apply obind_Done in H as (t & _ & H). injection H as <- <- <-. split; cbn [file_cache file_cache_tail]; [|by rewrite !length_alter].
    unfold CACHE_NUM in *. destruct (Nat.eqb_spec (file_cache_tail c) 9); lia.
Qed.

(** One request: the answer is that of the file system, and the cache stays
    coherent. *)
Lemma read_coherent r c z text c' : coherent c -> readable r -> read_from_client r c = Done (z, text, c') ->
  coherent c' /\ answer r = Done (z, text).
Proof.
  intros Hc Hr. destruct r as [| |bs]; cbn [read_from_client answer]; [done|intros [= <- <- <-]; done|].
  intros (name & Hn & H)%obind_Done. rewrite Hn. cbn [obind]. destruct (is_forbidden name); [by injection H as <- <- <-|].
  destruct (find_cached name (file_cache c)) as [t|] eqn:Hf.
  { injection H as <- <- <-. destruct (find_coherent _ _ _ Hc Hf) as (bs' & -> & ->). done. }
  pose proof (Hr name Hn). destruct (fs name) as [| |bs'] eqn:Hfs; [by injection H as <- <- <-|done|].
  apply obind_Done in H as (name' & [-> _]%fits_Done & H). apply obind_Done in H as (t & Ht & H). injection H as <- <- <-.
  rewrite Ht. split; [|done]. destruct Hc as (Htail & Hl & Hc). split_and!.
  - cbn [file_cache_tail]. unfold CACHE_NUM in *. destruct (Nat.eqb_spec (file_cache_tail c) 9); lia.
  - cbn [file_cache]. by rewrite !length_alter.
  - cbn [file_cache]. apply Forall_lookup. intros i m Hi. destruct (decide (i = file_cache_tail c)) as [->|Hne].
    + rewrite !list_lookup_alter_eq in Hi. destruct (file_cache c !! file_cache_tail c) as [m0|]; [|done]. injection Hi as <-.
      cbn. intros _. by exists bs'.
    + rewrite !list_lookup_alter_ne in Hi by done. by apply (proj1 (Forall_lookup _ _) Hc i m).
Qed.

Lemma serve_coherent es : forall c rs c', coherent c -> Forall (fun e => match e with Request r => readable r | Usr1 => True end) es ->
  serve es c = Done (rs, c') ->
  coherent c' /\ Forall2 (fun r a => answer r = Done a) (omap (fun e => match e with Request r => Some r | Usr1 => None end) es) rs.
Proof.
  induction es as [|[r|] es IH]; intros c rs c' Hc Hes H; cbn [serve omap list_omap] in *; [|apply Forall_cons in Hes as [Hr Hes]..].
  - injection H as <- <-. split; [done|constructor].
  - apply obind_Done in H as ([[z text] c1] & H1 & H). apply obind_Done in H as ([rs1 c2] & H2 & H). injection H as <- <-.
    destruct (read_coherent r c z text c1 Hc Hr H1) as [Hc1 Ha]. destruct (IH c1 rs1 c2 Hc1 Hes H2) as [Hc2 Hr']. split; [done|by constructor].
  - apply (IH reset_cache rs c' coherent_reset Hes H).
Qed.

(** A request that stays inside the arrays: the name has less than 20 characters,
    and neither the request nor the file fills its array without a NUL. *)
Definition fits_arrays (r : request) : Prop :=
  match r with
  | ReadError => False
  | Eof => True
  | Data bs => exists name, cstr (array_of bs) = Done name /\ (length name < NAME_SIZE)%nat /\
      forall bs', fs name = Bytes bs' -> exists text, cstr (array_of bs') = Done text
  end.

Lemma read_returns r c : fits_arrays r -> exists z text c', read_from_client r c = Done (z, text, c').
Proof using Type.
  destruct r as [| |bs]; cbn [fits_arrays read_from_client]; [done|by eauto|]. intros (name & Hn & Hl & Hf). rewrite Hn. cbn [obind].
  destruct (is_forbidden name); [by eauto|]. destruct (find_cached name (file_cache c)); [by eauto|].
  unfold fits. rewrite (proj2 (Nat.ltb_lt _ _) Hl). destruct (fs name) as [| |bs']; cbn [obind]; [by eauto..|].
  destruct (Hf bs' eq_refl) as [text ->]. cbn [obind]. by eauto.
Qed.

Lemma serve_returns es : forall c, Forall (fun e => match e with Request r => fits_arrays r | Usr1 => True end) es ->
  exists rs c', serve es c = Done (rs, c').
Proof using Type.
  induction es as [|[r|] es IH]; intros c H; cbn [serve]; [by eauto|..]; apply Forall_cons in H as [Hr H].
  - destruct (read_returns r c Hr) as (z & text & c1 & ->). cbn [obind]. destruct (IH c1 H) as (rs & c2 & ->). cbn [obind]. by eauto.
  - by apply IH.
Qed.

End server.

(** ** Properties *)

(** The cache cannot be seen.  While the files do not change and what is asked for can be read
    when it can be opened, the server answers every sequence of requests that
    fit into its arrays, and of signals, and the answers are those of a server
    that reads the file for every request. *)
Theorem select_cache_transparent fs es :
  Forall (fun e => match e with Request r => fits_arrays fs r /\ readable fs r | Usr1 => True end) es ->
  exists rs c, serve fs es reset_cache = Done (rs, c) /\
    Forall2 (fun r a => answer fs r = Done a) (omap (fun e => match e with Request r => Some r | Usr1 => None end) es) rs /\
    length c.(file_cache) = CACHE_NUM /\ (c.(file_cache_tail) < CACHE_NUM)%nat.
Proof.
  intros Hes. assert (H1 : Forall (fun e => match e with Request r => fits_arrays fs r | Usr1 => True end) es /\
    Forall (fun e => match e with Request r => readable fs r | Usr1 => True end) es)
    by (split; (eapply Forall_impl; [exact Hes|]; intros [r|]; [by intros [? ?]|done])).
  destruct H1 as [Hf Hr]. destruct (serve_returns fs es reset_cache Hf) as (rs & c & H). exists rs, c. split; [done|].
  destruct (serve_coherent fs es _ _ _ (coherent_reset fs) Hr H) as [(Ht & Hl & _) Ha]. done.
Qed.

(** A file system with a file of the name [a]. *)
Definition one_file (name : list Z) : file := if decide (name = [97]) then Bytes [104; 105] else NoFile.

Lemma select_cache_transparent_witness :
  exists rs c, serve one_file [Request (Data [97]); Request (Data [97]); Usr1; Request Eof] reset_cache = Done (rs, c) /\
    length c.(file_cache) = CACHE_NUM.
Proof.
  destruct (select_cache_transparent one_file [Request (Data [97]); Request (Data [97]); Usr1; Request Eof]) as (rs & c & H & _ & Hl & _).
  - assert (Hr : readable one_file (Data [97])) by (intros name _; unfold one_file; destruct (decide _); discriminate).
    assert (Ha : fits_arrays one_file (Data [97])).
    { exists [97]. split; [vm_compute; reflexivity|]. split; [vm_compute; lia|].
      intros bs' E. exists [104; 105]. change (one_file [97]) with (Bytes [104; 105]) in E. injection E as <-. vm_compute. reflexivity. }
    constructor; [exact (conj Ha Hr)|]. constructor; [exact (conj Ha Hr)|]. constructor; [exact I|]. constructor; [exact (conj I I)|]. constructor.
  - exists rs, c. split; [exact H|exact Hl].
Defined.

(** What the server does not do.  The first forbidden file, [test1.txt], is
    served.  A file that is opened but cannot be read leaves its name on the slot
    with the contents of the file that was there before: here [b] gets, after nine
    other files and a failed read, what [a] has.  A name of 20 characters is
    written past its array. *)
Definition letter_file (name : list Z) : file :=
  match name with
  | [98] => Unreadable
  | [c] => Bytes [c; c]
  | _ => if decide (name = bytes "test1.txt") then Bytes [33] else if decide (name = replicate 20 97) then Bytes [33] else NoFile
  end.

Lemma select_defects :
  (exists c, read_from_client letter_file (Data (bytes "test1.txt")) reset_cache = Done (0, Some [33], c)) /\
  (exists rs c, serve letter_file ((fun k => Request (Data [Z.of_nat k])) <$> [97; 99; 100; 101; 102; 103; 104; 105; 106; 107; 98; 98]%nat) reset_cache
     = Done (rs ++ [(-1, None); (0, Some [97; 97])], c)) /\
  read_from_client letter_file (Data (replicate 20 97)) reset_cache = Crash "overflow of an array"%string.
Proof.
  split_and!; [eexists; vm_compute; reflexivity| |vm_compute; reflexivity].
  exists ((fun k => (0, Some [Z.of_nat k; Z.of_nat k])) <$> [97; 99; 100; 101; 102; 103; 104; 105; 106; 107]%nat). eexists. vm_compute. reflexivity.
Qed.
