(* ===== verification/SelectLoop.v ===== *)
(** * The event loop of the file server on select

    [make_socket] and [main] of [33/server_select.c]: the set of the sockets that
    are watched, the connections that are accepted, served and closed.  Which
    sockets are ready, and what arrives on them, is an argument of a round; the
    descriptor of a new connection is chosen by the system, one that is not in
    use. *)

From Stdlib Require Import ZArith Lia String.
From stdpp Require Import base tactics numbers list gmap sets.
From S2P Require Import Prelude Cstring Request SelectServer.

Local Open Scope Z_scope.
Local Open Scope ostep_scope.

(** ** Definitions *)

Definition FD_SETSIZE : nat := 1024.

(** [make_socket], and [listen] in [main]: the results of the calls. *)
Definition make_socket (socket bind : Z) : outcome string Z :=
  if socket <? 0 then Fail "socket"%string
  else if bind <? 0 then Fail "bind"%string
  else Done socket.

Definition listening (socket bind listen : Z) : outcome string Z :=
  let* sock := make_socket socket bind in
  if listen <? 0 then Fail "listen"%string else Done sock.

(** What a descriptor that is ready has: a connection, which can be accepted or
    not, or data. *)
Inductive input := Connection (ok : bool) | Read (r : request).

(** [active_fd_set], the connections that are open, and the cache. *)
Record server := mkServer { active_fd_set : gset nat; connections : gset nat; file_cache_of : cache }.

(** What was sent: the connection, the request and the answer. *)
Definition answered : Type := nat * request * (Z * option (list Z)).

Section loop.
Context (fs : list Z -> file) (sock : nat) (new_fd : gset nat -> nat).

Definition initial : server := mkServer {[sock]} ∅ reset_cache.

(** [FD_SET(new, &active_fd_set)], which writes past the set for a descriptor that
    is too large. *)
Definition FD_SET (new : nat) (s : gset nat) : outcome string (gset nat) :=
  if (new <? FD_SETSIZE)%nat then Done ({[new]} ∪ s) else Crash "past the end of fd_set"%string.

(** The body of the loop for the descriptor [i]. *)
Definition serve_fd (inp : nat -> input) (i : nat) (st : server * list answered) : outcome string (server * list answered) :=
  let '(s, out) := st in
  match inp i with
  | Connection ok =>
      if (ok : bool) then
        let new := new_fd ({[sock]} ∪ s.(connections)) in
        let* active := FD_SET new s.(active_fd_set) in
        Done (mkServer active ({[new]} ∪ s.(connections)) s.(file_cache_of), out)
      else Fail "accept"%string
  | Read r =>
      let* '(z, text, c) := read_from_client fs r s.(file_cache_of) in
      let s := if z <? 0 then mkServer (s.(active_fd_set) ∖ {[i]}) (s.(connections) ∖ {[i]}) c
               else mkServer s.(active_fd_set) s.(connections) c in
      Done (s, out ++ [(i, r, (z, text))])
  end.

(** The loop over the descriptors; [ready] is [read_fd_set] after [pselect]. *)
Definition round (ready : gset nat) (inp : nat -> input) (st : server * list answered) : outcome string (server * list answered) :=
  ofold (fun i st => if decide (i ∈ ready) then serve_fd inp i st else Done st) (seq 0 FD_SETSIZE) st.

(** What happens: [pselect] returns, or the signal empties the cache. *)
Inductive occurrence := Ready (ready : gset nat) (inp : nat -> input) | Signal.

Fixpoint loop (os : list occurrence) (st : server * list answered) : outcome string (server * list answered) :=
  match os with
  | [] => Done st
  | Ready ready inp :: os => let* st := round ready inp st in loop os st
  | Signal :: os => loop os (mkServer st.1.(active_fd_set) st.1.(connections) reset_cache, st.2)
  end.

(** ** The state of the server *)

(** The sockets that are watched are the one that listens and the connections that
    are open, and the cache has ten slots. *)
Record typed (s : server) : Prop := {
  typed_active : s.(active_fd_set) = {[sock]} ∪ s.(connections);
  typed_sock : sock ∉ s.(connections);
  typed_size : forall i, i ∈ s.(active_fd_set) -> (i < FD_SETSIZE)%nat;
  typed_cache : cache_shape s.(file_cache_of) }.

(** [pselect] reports sockets that are watched, and a connection on the one that
    listens alone. *)
Definition plausible (ready : gset nat) (inp : nat -> input) (s : server) : Prop :=
  ready ⊆ s.(active_fd_set) /\ forall i, i ∈ ready -> (exists ok, inp i = Connection ok) <-> i = sock.

(** An answer is that of a server without a cache. *)
Definition right_answer (a : answered) : Prop := let '(_, r, z) := a in answer fs r = Done z.

(** All answers are, and the cache agrees with the files. *)
Definition faithful (st : server * list answered) : Prop := coherent fs st.1.(file_cache_of) /\ Forall right_answer st.2.

(** Nothing that can be opened and not read is asked for. *)
Definition readable_run (os : list occurrence) : Prop :=
  forall ready inp i r, Ready ready inp ∈ os -> inp i = Read r -> readable fs r.

Lemma initial_typed : (sock < FD_SETSIZE)%nat -> typed initial.
Proof using Type. intros H. constructor; cbn; [set_solver|set_solver|intros i Hi; apply elem_of_singleton in Hi; by subst|unfold cache_shape, CACHE_NUM; cbn; lia]. Qed.

Hypothesis new_fd_fresh : forall X, new_fd X ∉ X.

Lemma serve_fd_typed inp i s out s' out' : typed s -> (exists ok, inp i = Connection ok) <-> i = sock ->
  serve_fd inp i (s, out) = Done (s', out') -> typed s'.
Proof using new_fd_fresh.
  intros [Ha Hs Hz Hc] Hi E. unfold serve_fd in E. destruct (inp i) as [ok|r] eqn:Ei.
  - destruct ok; [|done]. pose proof (new_fd_fresh ({[sock]} ∪ s.(connections))) as Hf. apply obind_Done in E as (active & Hset & E). injection E as <- <-.
    unfold FD_SET in Hset. destruct (Nat.ltb_spec (new_fd ({[sock]} ∪ connections s)) FD_SETSIZE) as [Hlt|]; [|done]. injection Hset as <-.
    constructor; cbn; [set_solver|set_solver| |done]. intros j Hj. apply elem_of_union in Hj as [Hj|Hj]; [apply elem_of_singleton in Hj; by subst|by apply Hz].
  - apply obind_Done in E as ([[z text] c] & Er & E). pose proof (read_shape fs _ _ _ _ _ Hc Er) as Hc'.
    assert (Hne : i <> sock) by (intros Hi'; apply Hi in Hi' as [ok Hok]; congruence). injection E as <- <-.
    destruct (z <? 0); constructor; cbn; try done; [set_solver|set_solver|]. intros j Hj. apply Hz. set_solver.
Qed.

Lemma serve_fd_faithful inp i st st' : faithful st -> (forall r, inp i = Read r -> readable fs r) -> serve_fd inp i st = Done st' -> faithful st'.
Proof using Type.
  destruct st as [s out]. intros [Hc Ho] Hr E. unfold serve_fd in E. destruct (inp i) as [ok|r] eqn:Ei.
  - destruct ok; [|done]. apply obind_Done in E as (active & _ & E). by injection E as <-.
  - apply obind_Done in E as ([[z text] c] & Er & E). destruct (read_coherent fs _ _ _ _ _ Hc (Hr r eq_refl) Er) as [Hc' Hans]. injection E as <-.
    split; [by destruct (z <? 0)|]. cbn [snd]. apply Forall_app. split; [done|]. constructor; [exact Hans|constructor].
Qed.

Lemma round_typed ready inp s out s' out' : typed s -> plausible ready inp s -> round ready inp (s, out) = Done (s', out') -> typed s'.
Proof using new_fd_fresh.
  intros Hs [_ Hp] E. unfold round in E.
  eapply (ofold_inv _ (fun _ st => typed st.1) (seq 0 FD_SETSIZE) (s, out) (s', out')); [done| |exact E].
  intros d i r [s1 o1] [s2 o2] _ H1 Ei. cbn [fst snd] in *. case_decide as Hr; [|by injection Ei as <- <-].
  by eapply serve_fd_typed; [exact H1|by apply Hp|].
Qed.

Lemma round_faithful ready inp st st' : faithful st -> (forall i r, inp i = Read r -> readable fs r) -> round ready inp st = Done st' -> faithful st'.
Proof using Type.
  intros Hs Hr E. unfold round in E. eapply (ofold_inv _ (fun _ st => faithful st) (seq 0 FD_SETSIZE) st st'); [done| |exact E].
  intros d i l s1 s2 _ H1 Ei. cbv beta in Ei. case_decide; [|by injection Ei as <-]. eapply serve_fd_faithful; [exact H1|by apply Hr|exact Ei].
Qed.

(** What [pselect] reports is plausible in every round. *)
Fixpoint plausible_run (os : list occurrence) (st : server * list answered) : Prop :=
  match os with
  | [] => True
  | Ready ready inp :: os => plausible ready inp st.1 /\ forall st', round ready inp st = Done st' -> plausible_run os st'
  | Signal :: os => plausible_run os (mkServer st.1.(active_fd_set) st.1.(connections) reset_cache, st.2)
  end.

Lemma loop_typed os : forall st st', typed st.1 -> plausible_run os st -> loop os st = Done st' -> typed st'.1.
Proof using new_fd_fresh.
  induction os as [|[ready inp|] os IH]; intros [s out] st' Hs Hp E; cbn [loop plausible_run] in *; [by injection E as <-|..].
  - destruct Hp as [Hp Hps]. apply obind_Done in E as ([s1 out1] & E1 & E). pose proof (round_typed _ _ _ _ _ _ Hs Hp E1) as H1.
    apply (IH (s1, out1) st'); [exact H1|by apply Hps|exact E].
  - eapply IH; [|exact Hp|exact E]. destruct Hs as [H1 H2 H3 _]. constructor; try done. unfold cache_shape, CACHE_NUM. cbn. lia.
Qed.

Lemma loop_faithful os : forall st st', faithful st -> readable_run os -> loop os st = Done st' -> faithful st'.
Proof using Type.
  induction os as [|[ready inp|] os IH]; intros st st' Hs Hr E; cbn [loop] in E; [by injection E as <-|..].
  - apply obind_Done in E as (st1 & E1 & E). eapply IH; [|intros ? ? ? ? Hin; eapply Hr; by right|exact E].
    eapply round_faithful; [exact Hs|intros i r Hi; eapply Hr; [by left|exact Hi]|exact E1].
  - eapply IH; [|intros ? ? ? ? Hin; eapply Hr; by right|exact E]. split; [apply coherent_reset|apply Hs].
Qed.

(** *** Rounds complete *)

(** What is ready can be handled: connections can be accepted, and requests fit
    into the arrays. *)
Definition manageable (ready : gset nat) (inp : nat -> input) : Prop :=
  forall i, i ∈ ready -> match inp i with Connection ok => ok = true | Read r => fits_arrays fs r end.

Hypothesis new_fd_low : forall X, (new_fd X <= 3 + base.size X)%nat.

Lemma round_returns ready inp s out : typed s -> plausible ready inp s -> manageable ready inp -> (base.size s.(connections) < 1000)%nat ->
  exists st', round ready inp (s, out) = Done st'.
Proof using new_fd_fresh new_fd_low.
  intros Hs [_ Hp] Hm Hn. unfold round.
  destruct (ofold_total (fun i st => if decide (i ∈ ready) then serve_fd inp i st else Done st)
    (fun d st => typed st.1 /\ (sock ∈ d \/ st.1.(connections) ⊆ s.(connections))) (seq 0 FD_SETSIZE) (s, out)) as (st' & E & _).
  - split; [done|by right].
  - intros d i rest [s1 o1] El [H1 Hc]. cbn [fst snd] in *. case_decide as Hr.
    2:{ exists (s1, o1). split; [done|]. split; [done|]. destruct Hc as [Hc|Hc]; [left; apply elem_of_app; by left|by right]. }
    assert (Hd : exists st2, serve_fd inp i (s1, o1) = Done st2 /\ (sock ∈ d ++ [i] \/ st2.1.(connections) ⊆ s.(connections))).
    { specialize (Hm i Hr). specialize (Hp i Hr). unfold serve_fd. destruct (inp i) as [ok|r] eqn:Ei.
      - subst ok. assert (Hi : i = sock) by (apply Hp; by exists true). subst i.
        destruct Hc as [Hc|Hc].
        { exfalso. assert (Hnd : NoDup (seq 0 FD_SETSIZE)) by apply NoDup_seq. rewrite El in Hnd. apply NoDup_app in Hnd as (_ & Hnd & _). apply (Hnd sock Hc). left. }
        unfold FD_SET. destruct (Nat.ltb_spec (new_fd ({[sock]} ∪ connections s1)) FD_SETSIZE) as [|Hge].
        + eexists. split; [reflexivity|]. left. apply elem_of_app. right. left.
        + exfalso. pose proof (new_fd_low ({[sock]} ∪ connections s1)) as Hlow. rewrite size_union_alt, size_singleton in Hlow.
          assert (Hsub : connections s1 ∖ {[sock]} ⊆ connections s) by (clear -Hc; set_solver).
          apply subseteq_size in Hsub. unfold FD_SETSIZE in Hge. clear -Hge Hlow Hsub Hn. lia.
      - destruct (read_returns fs r s1.(file_cache_of) Hm) as (z & text & c & ->). cbn [obind]. eexists. split; [reflexivity|].
        destruct Hc as [Hc|Hc]; [left; apply elem_of_app; by left|right]. clear -Hc. destruct (z <? 0); cbn; set_solver. }
    destruct Hd as ([s2 o2] & E2 & Hc2). exists (s2, o2). split; [done|]. split; [|exact Hc2]. eapply serve_fd_typed; [exact H1|by apply Hp|exact E2].
  - by exists st'.
Qed.

End loop.

(** ** Properties *)


(** A connection is accepted, asks for the file [a] and gets its contents. *)
Definition first_fd : nat := fresh ({[3%nat]} ∪ ∅ : gset nat).

Definition visit : list occurrence :=
  [Ready {[3%nat]} (fun i => if (i =? 3)%nat then Connection true else Read Eof); Signal; Ready {[first_fd]} (fun _ => Read (Data [97]))].

