(* ===== verification/UringServer.v ===== *)
(** * The file server on io_uring

    [33/server_io_uring.c] and what [33/client.c] shows of an answer.  A request is
    a chain of four operations, accept, receive, read and send, each submitted
    when the one before has completed; the operations of different connections
    complete in any order.  The kernel is a list of submitted operations, any of
    which can be the next to complete; [io_uring_get_sqe] and [io_uring_submit]
    succeed, since the queue has as many entries as there are slots.  A descriptor is
    a number that was not used before. *)

From Stdlib Require Import ZArith Lia String.
From stdpp Require Import base tactics numbers list list_numbers gmap.
From S2P Require Import Prelude Cstring.

Local Open Scope Z_scope.
Local Open Scope ostep_scope.

(** ** Definitions *)

Definition LISTEN_BACKLOG : nat := 800.

Definition BUFSIZ : nat := Z.to_nat 8192.

Inductive io := ACCEPT | RECV | READ | SEND.

Record user_data := mkData { buf : list Z; socket_fd : Z; file_fd : Z; index : nat; io_op : io }.

(** A submitted operation with its descriptor and its user data, the slot. *)
Inductive sqe := SAccept (u : nat) | SRecv (fd : Z) (u : nat) | SRead (fd : Z) (u : nat) | SSend (fd : Z) (u : nat).

(** The globals of the program, the operations that have not completed, the open
    files with their contents, the open connections, what was sent to which, and
    the next descriptor. *)
Record uring := mkUring {
  data_arr : list user_data; numAccepts : Z; numReqs : Z;
  sqes : list sqe; files : gmap Z (list Z); socks : gset Z; sent : list (Z * list Z); next_fd : Z }.

Definition set_data (a : list user_data) (s : uring) : uring :=
  mkUring a s.(numAccepts) s.(numReqs) s.(sqes) s.(files) s.(socks) s.(sent) s.(next_fd).

Definition submit (x : sqe) (s : uring) : uring :=
  mkUring s.(data_arr) s.(numAccepts) s.(numReqs) (s.(sqes) ++ [x]) s.(files) s.(socks) s.(sent) s.(next_fd).

(** [data_arr[i]] *)
Definition slot (i : Z) (s : uring) : outcome string user_data :=
  if i <? 0 then Crash "index out of bounds"%string
  else match s.(data_arr) !! Z.to_nat i with Some d => Done d | None => Crash "index out of bounds"%string end.

Definition prep_accept (s : uring) : outcome string uring :=
  let n := s.(numAccepts) - 1 in
  let* d := slot n s in
  let s := set_data (<[Z.to_nat n := mkData d.(buf) d.(socket_fd) d.(file_fd) (Z.to_nat n) ACCEPT]> s.(data_arr)) s in
  Done (submit (SAccept (Z.to_nat n)) (mkUring s.(data_arr) n s.(numReqs) s.(sqes) s.(files) s.(socks) s.(sent) s.(next_fd))).

Definition prep_recv (cfd : Z) (i : nat) (s : uring) : outcome string uring :=
  let* d := slot (Z.of_nat i) s in
  let s := set_data (<[i := mkData (replicate BUFSIZ 0) cfd d.(file_fd) d.(index) RECV]> s.(data_arr)) s in
  let s := submit (SRecv cfd i) s in
  if 0 <? s.(numAccepts) then prep_accept s else Done s.

Section server.
(** The contents of the files that can be opened. *)
Context (fs : list Z -> option (list Z)).

Definition prep_read (i : nat) (s : uring) : outcome string uring :=
  let* d := slot (Z.of_nat i) s in
  let* name := cstr d.(buf) in
  match fs name with
  | None => Fail "open"%string
  | Some content =>
      let fd := s.(next_fd) in
      let s := mkUring (<[i := mkData d.(buf) d.(socket_fd) fd d.(index) READ]> s.(data_arr)) s.(numAccepts) s.(numReqs) s.(sqes)
                 (<[fd := content]> s.(files)) s.(socks) s.(sent) (fd + 1) in
      Done (submit (SRead fd i) s)
  end.

Definition prep_send (i : nat) (s : uring) : outcome string uring :=
  let* d := slot (Z.of_nat i) s in
  let s := mkUring (<[i := mkData d.(buf) d.(socket_fd) d.(file_fd) d.(index) SEND]> s.(data_arr)) s.(numAccepts) s.(numReqs) s.(sqes)
             (delete d.(file_fd) s.(files)) s.(socks) s.(sent) s.(next_fd) in
  Done (submit (SSend d.(socket_fd) i) s).

(** The kernel writes [bs] to the start of the array of a slot. *)
Definition fill (i : nat) (bs : list Z) (s : uring) : uring :=
  set_data (alter (fun d => mkData (bs ++ drop (length bs) d.(buf)) d.(socket_fd) d.(file_fd) d.(index) d.(io_op)) i s.(data_arr)) s.

(** An operation completes: the position in the list of operations and, for a
    [recv], what the client sent; or it fails. *)
Inductive event := Completed (p : nat) (m : list Z) | Failed (p : nat).

(** What the kernel does for an operation: its result, if it has one, and the state. *)
Definition perform (x : sqe) (m : list Z) (s : uring) : Z * uring :=
  match x with
  | SAccept u => (s.(next_fd), mkUring s.(data_arr) s.(numAccepts) s.(numReqs) s.(sqes) s.(files) ({[s.(next_fd)]} ∪ s.(socks)) s.(sent) (s.(next_fd) + 1))
  | SRecv fd u => let bs := take BUFSIZ m in (Z.of_nat (length bs), fill u bs s)
  | SRead fd u => let bs := take BUFSIZ (default [] (s.(files) !! fd)) in (Z.of_nat (length bs), fill u bs s)
  | SSend fd u => (Z.of_nat BUFSIZ, mkUring s.(data_arr) s.(numAccepts) s.(numReqs) s.(sqes) s.(files) s.(socks)
                     (s.(sent) ++ [(fd, default [] (buf <$> s.(data_arr) !! u))]) s.(next_fd))
  end.

Definition user (x : sqe) : nat := match x with SAccept u | SRecv _ u | SRead _ u | SSend _ u => u end.

(** One turn of the loop of [main]: [io_uring_wait_cqe] returns the completion. *)
Definition turn (e : event) (s : uring) : option (outcome string uring) :=
  match e with
  | Failed p => match s.(sqes) !! p with None => None | Some _ => Some (Fail "I/O error"%string) end
  | Completed p m =>
      match s.(sqes) !! p with
      | None => None
      | Some x =>
          let '(res, s) := perform x m (mkUring s.(data_arr) s.(numAccepts) s.(numReqs) (delete p s.(sqes)) s.(files) s.(socks) s.(sent) s.(next_fd)) in
          Some (let* data := slot (Z.of_nat (user x)) s in
            match data.(io_op) with
            | ACCEPT => prep_recv res data.(index) s
            | RECV => prep_read data.(index) s
            | READ => prep_send data.(index) s
            | SEND =>
                let* d := slot (Z.of_nat data.(index)) s in
                Done (mkUring s.(data_arr) s.(numAccepts) (s.(numReqs) - 1) s.(sqes) s.(files) (s.(socks) ∖ {[d.(socket_fd)]}) s.(sent) s.(next_fd))
            end)
      end
  end.

(** The loop: [None] when an event is not that of a submitted operation, or there
    are more events than the loop waits for. *)
Fixpoint loop (es : list event) (s : uring) : option (outcome string uring) :=
  match es with
  | [] => Some (Done s)
  | e :: es =>
      if s.(numReqs) <=? 0 then None
      else match turn e s with Some (Done s) => loop es s | r => r end
  end.

(** What the clients see of the completions: a connection is opened, and a message
    is received on it. *)
Inductive seen := Opened (cfd : Z) | Heard (cfd : Z) (m : list Z).

Definition observe (e : event) (s : uring) : list seen :=
  match e with
  | Completed p m =>
      match s.(sqes) !! p with
      | Some (SAccept _) => [Opened s.(next_fd)]
      | Some (SRecv fd _) => [Heard fd m]
      | _ => []
      end
  | Failed _ => []
  end.

Fixpoint log (es : list event) (s : uring) : list seen :=
  match es with
  | [] => []
  | e :: es => observe e s ++ match turn e s with Some (Done s) => log es s | _ => [] end
  end.
End server.

Definition opened (l : list seen) : list Z := omap (fun x => match x with Opened c => Some c | _ => None end) l.

Definition heard (l : list seen) : list (Z * list Z) := omap (fun x => match x with Heard c m => Some (c, m) | _ => None end) l.

(** [main] up to the loop; the arrays are zero. *)
Definition start (numReqs : Z) : outcome string uring :=
  if numReqs <=? 0 then Fail "Get out"%string
  else prep_accept (mkUring (replicate LISTEN_BACKLOG (mkData (replicate BUFSIZ 0) 0 0 0 ACCEPT)) numReqs numReqs [] ∅ ∅ [] 3).

(** What [client.c] prints of an answer: the array, zero before, is filled by one
    [recv]. *)
Definition client_shows (answer : list Z) : outcome string (list Z) :=
  cstr (take BUFSIZ answer ++ replicate (BUFSIZ - length (take BUFSIZ answer)) 0).

(** ** Connections

    What each connection is waiting for. *)

(** The array of a slot behind [recv] and behind [read]. *)
Definition asked (m : list Z) : list Z := take BUFSIZ m ++ drop (length (take BUFSIZ m)) (replicate BUFSIZ 0).

Definition answer (m c : list Z) : list Z := take BUFSIZ c ++ drop (length (take BUFSIZ c)) (asked m).

Inductive phase :=
| PAccept
| PRecv (cfd : Z)
| PRead (cfd : Z) (m : list Z) (fd : Z) (c : list Z)
| PSend (cfd : Z) (m c : list Z)
| PDone (cfd : Z) (m c : list Z).

Definition rank (p : phase) : nat := match p with PAccept => 0 | PRecv _ => 1 | PRead _ _ _ _ => 2 | PSend _ _ _ => 3 | PDone _ _ _ => 4 end.

Definition sqe_of (x : nat * phase) : option sqe :=
  match x.2 with
  | PAccept => Some (SAccept x.1)
  | PRecv cfd => Some (SRecv cfd x.1)
  | PRead _ _ fd _ => Some (SRead fd x.1)
  | PSend cfd _ _ => Some (SSend cfd x.1)
  | PDone _ _ _ => None
  end.

Definition file_of (x : nat * phase) : option (Z * list Z) := match x.2 with PRead _ _ fd c => Some (fd, c) | _ => None end.

Definition sock_of (x : nat * phase) : option Z :=
  match x.2 with PRecv cfd | PRead cfd _ _ _ | PSend cfd _ _ => Some cfd | _ => None end.

Definition answer_of (x : nat * phase) : option (Z * list Z) := match x.2 with PDone cfd m c => Some (cfd, answer m c) | _ => None end.

(** What has been seen of a connection. *)
Definition seen_of (x : nat * phase) : list seen :=
  match x.2 with
  | PAccept => []
  | PRecv cfd => [Opened cfd]
  | PRead cfd m _ _ | PSend cfd m _ | PDone cfd m _ => [Opened cfd; Heard cfd m]
  end.

(** The connections go on, and [l] is seen of it. *)
Definition moved (ph ph' : list (nat * phase)) (l : list seen) : Prop := ph' ≫= seen_of ≡ₚ (ph ≫= seen_of) ++ l.

Definition slot_ok (i : nat) (p : phase) (d : user_data) : Prop :=
  d.(index) = i /\
  match p with
  | PAccept => d.(io_op) = ACCEPT
  | PRecv cfd => d.(io_op) = RECV /\ d.(socket_fd) = cfd /\ d.(buf) = replicate BUFSIZ 0
  | PRead cfd m fd _ => d.(io_op) = READ /\ d.(socket_fd) = cfd /\ d.(file_fd) = fd /\ d.(buf) = asked m
  | PSend cfd m c => d.(io_op) = SEND /\ d.(socket_fd) = cfd /\ d.(buf) = answer m c
  | PDone _ _ _ => True
  end.

Definition slots_ok (ph : list (nat * phase)) (arr : list user_data) : Prop :=
  Forall (fun x => exists d, arr !! x.1 = Some d /\ slot_ok x.1 x.2 d) ph.

(** How far the connections are, and how many are done. *)
Definition progress (ph : list (nat * phase)) : nat := sum_list_with (fun x => rank x.2) ph.

Definition is_done (p : phase) : bool := match p with PDone _ _ _ => true | _ => false end.

Definition all_slots (N k : nat) : list nat := (fun j => (N - 1 - j)%nat) <$> seq 0 k.

Definition inv (fs : list Z -> option (list Z)) (N : nat) (s : uring) (ph : list (nat * phase)) : Prop :=
  (length ph <= N)%nat /\ (N <= length s.(data_arr))%nat /\ ph.*1 = all_slots N (length ph) /\ slots_ok ph s.(data_arr) /\
  s.(numAccepts) = Z.of_nat N - Z.of_nat (length ph) /\
  s.(numReqs) = Z.of_nat N - Z.of_nat (length (filter (fun x => is_done x.2 = true) ph)) /\
  s.(sqes) ≡ₚ omap sqe_of ph /\ s.(sent) ≡ₚ omap answer_of ph /\
  map_to_list s.(files) ≡ₚ omap file_of ph /\ elements s.(socks) ≡ₚ omap sock_of ph /\
  Forall (fun x => x.1 < s.(next_fd)) (omap file_of ph) /\ Forall (fun x => x < s.(next_fd)) (omap sock_of ph) /\
  Forall (fun x => match x.2 with PRead _ m _ c | PSend _ m c | PDone _ m c => fs m = Some c | _ => True end) ph.

(** While connections are missing, one is being accepted. *)
Definition accepting (s : uring) (ph : list (nat * phase)) : Prop := 0 < s.(numAccepts) -> exists ph' i, ph = ph' ++ [(i, PAccept)].

(** *** Lists that change in one place *)

Section change.
Context {A B : Type} (f : A -> option B).

Lemma omap_split l j a : l !! j = Some a -> omap f l ≡ₚ option_list (f a) ++ omap f (delete j l).
Proof.
  intros H. rewrite <- (take_drop_middle l j a H) at 1. rewrite delete_take_drop, !omap_app. cbn [omap list_omap].
  destruct (f a) as [b|]; cbn; [|done]. by rewrite Permutation_middle.
Qed.

Lemma omap_change l j a a' : l !! j = Some a -> omap f (<[j := a']> l) ≡ₚ option_list (f a') ++ omap f (delete j l).
Proof.
  intros H. rewrite insert_take_drop by (by eapply lookup_lt_Some). rewrite delete_take_drop, !omap_app. cbn [omap list_omap].
  destruct (f a') as [b|]; cbn; [|done]. by rewrite Permutation_middle.
Qed.
End change.

Lemma alter_to_insert {A} (f : A -> A) (l : list A) i a : l !! i = Some a -> alter f i l = <[i := f a]> l.
Proof.
  intros H. apply list_eq. intros k. destruct (decide (k = i)) as [->|Hk].
  - rewrite list_lookup_alter_eq, H. symmetry. apply list_lookup_insert_eq. by eapply lookup_lt_Some.
  - by rewrite list_lookup_alter_ne, list_lookup_insert_ne.
Qed.

Lemma all_slots_NoDup N k : (k <= N)%nat -> NoDup (all_slots N k).
Proof.
  intros H. unfold all_slots. apply NoDup_fmap_2_strong; [|apply NoDup_seq]. intros x y Hx%elem_of_seq Hy%elem_of_seq. lia.
Qed.

Lemma slots_change ph arr j i p p' d' : NoDup ph.*1 -> ph !! j = Some (i, p) -> slots_ok ph arr -> slot_ok i p' d' ->
  slots_ok (<[j := (i, p')]> ph) (<[i := d']> arr).
Proof.
  intros Hn Hj Hs Hd. apply Forall_lookup. intros k [i' q] Hk. unfold slots_ok in Hs. rewrite Forall_lookup in Hs. destruct (decide (k = j)) as [->|Hne].
  - rewrite list_lookup_insert_eq in Hk by (by eapply lookup_lt_Some). injection Hk as <- <-. exists d'. split; [|done]. cbn [fst].
    destruct (Hs j _ Hj) as (d & Hd0 & _). apply list_lookup_insert_eq. by eapply lookup_lt_Some.
  - rewrite list_lookup_insert_ne in Hk by done. destruct (Hs k _ Hk) as (d & Hd0 & Hok). exists d. split; [|done]. cbn [fst] in *.
    rewrite list_lookup_insert_ne; [done|]. intros <-. apply Hne. eapply NoDup_lookup; [exact Hn| |]; rewrite list_lookup_fmap.
    + by rewrite Hk.
    + by rewrite Hj.
Qed.

Lemma fst_change (ph : list (nat * phase)) j i p p' : ph !! j = Some (i, p) -> (<[j := (i, p')]> ph).*1 = ph.*1.
Proof. intros H. rewrite list_fmap_insert. apply list_insert_id. by rewrite list_lookup_fmap, H. Qed.

Lemma progress_change (ph : list (nat * phase)) j i p p' : ph !! j = Some (i, p) -> rank p' = S (rank p) -> progress (<[j := (i, p')]> ph) = S (progress ph).
Proof.
  intros H Hr. unfold progress. rewrite <- (take_drop_middle ph j _ H) at 2. rewrite insert_take_drop by (by eapply lookup_lt_Some).
  rewrite !sum_list_with_app. cbn. rewrite Hr. lia.
Qed.

Lemma done_change (ph : list (nat * phase)) j i p p' : ph !! j = Some (i, p) -> is_done p = false ->
  length (filter (fun x => is_done x.2 = true) (<[j := (i, p')]> ph)) =
  (length (filter (fun x => is_done x.2 = true) ph) + if is_done p' then 1 else 0)%nat.
Proof.
  intros H Hp. rewrite <- (take_drop_middle ph j _ H) at 2. rewrite insert_take_drop by (by eapply lookup_lt_Some).
  rewrite !list.filter_app, !length_app, !filter_cons. cbn [snd]. rewrite (decide_False (P := is_done p = true)) by (by rewrite Hp).
  destruct (is_done p'); [rewrite decide_True by done|rewrite decide_False by done]; cbn [length]; lia.
Qed.

Lemma moved_change ph j i p p' l : ph !! j = Some (i, p) -> seen_of (i, p') = seen_of (i, p) ++ l -> moved ph (<[j := (i, p')]> ph) l.
Proof.
  intros H E. unfold moved. rewrite <- (take_drop_middle ph j _ H) at 2. rewrite insert_take_drop by (by eapply lookup_lt_Some).
  rewrite !bind_app. cbn [mbind list_bind]. rewrite E, <- !app_assoc. do 2 apply Permutation_app_head. apply Permutation_app_comm.
Qed.

(** A connection goes on to its next phase: what has to be shown of the state. *)
Lemma inv_change fs N s s' ph j i p p' d' :
  inv fs N s ph -> ph !! j = Some (i, p) -> is_done p = false -> slot_ok i p' d' ->
  s'.(data_arr) = <[i := d']> s.(data_arr) -> s'.(numAccepts) = s.(numAccepts) ->
  s'.(numReqs) = s.(numReqs) - (if is_done p' then 1 else 0) -> s.(next_fd) <= s'.(next_fd) ->
  s'.(sqes) ≡ₚ option_list (sqe_of (i, p')) ++ omap sqe_of (delete j ph) ->
  s'.(sent) ≡ₚ option_list (answer_of (i, p')) ++ omap answer_of (delete j ph) ->
  map_to_list s'.(files) ≡ₚ option_list (file_of (i, p')) ++ omap file_of (delete j ph) ->
  elements s'.(socks) ≡ₚ option_list (sock_of (i, p')) ++ omap sock_of (delete j ph) ->
  Forall (fun x => x.1 < s'.(next_fd)) (option_list (file_of (i, p'))) -> Forall (fun x => x < s'.(next_fd)) (option_list (sock_of (i, p'))) ->
  match p' with PRead _ m _ c | PSend _ m c | PDone _ m c => fs m = Some c | _ => True end ->
  inv fs N s' (<[j := (i, p')]> ph).
Proof.
  intros (Hl & Hd & Hf & Hs & Ha & Hr & Hq & Hse & Hfi & Hso & Hff & Hsf & Hc) Hj Hp Hok Edata Eacc Ereq Hnext Hq' Hse' Hfi' Hso' Hff' Hsf' Hm.
  assert (Hrest : forall {B} (f : nat * phase -> option B), omap f ph ≡ₚ option_list (f (i, p)) ++ omap f (delete j ph)) by (intros; by apply omap_split).
  unfold inv. rewrite length_insert, fst_change with (p := p), Edata, length_insert, Eacc, Ereq, Hr by done. rewrite (done_change _ _ _ _ p' Hj Hp).
  split_and!; try done.
  - eapply slots_change; [|done|done|done]. rewrite Hf. by apply all_slots_NoDup.
  - destruct (is_done p'); lia.
  - by rewrite Hq', (omap_change sqe_of ph j (i, p)) by done.
  - by rewrite Hse', (omap_change answer_of ph j (i, p)) by done.
  - by rewrite Hfi', (omap_change file_of ph j (i, p)) by done.
  - by rewrite Hso', (omap_change sock_of ph j (i, p)) by done.
  - rewrite (omap_change file_of ph j (i, p)) by done. apply Forall_app. split; [done|]. rewrite (Hrest _ file_of) in Hff. apply Forall_app in Hff as [_ Hff].
    eapply Forall_impl; [exact Hff|]. intros x Hx. cbv beta in Hx. lia.
  - rewrite (omap_change sock_of ph j (i, p)) by done. apply Forall_app. split; [done|]. rewrite (Hrest _ sock_of) in Hsf. apply Forall_app in Hsf as [_ Hsf].
    eapply Forall_impl; [exact Hsf|]. intros x Hx. cbv beta in Hx. lia.
  - by apply Forall_insert.
Qed.

(** The first connection, and the next one. *)
Lemma inv_accept fs N s ph s' : inv fs N s ph -> 0 < s.(numAccepts) -> prep_accept s = s' ->
  exists s1, s' = Done s1 /\ inv fs N s1 (ph ++ [((N - 1 - length ph)%nat, PAccept)]).
Proof.
  intros (Hl & Hd & Hf & Hs & Ha & Hr & Hq & Hse & Hfi & Hso & Hff & Hsf & Hc) H0 <-. unfold prep_accept, slot.
  rewrite (proj2 (Z.ltb_ge _ _)) by lia. assert (En : Z.to_nat (numAccepts s - 1) = (N - 1 - length ph)%nat) by lia. rewrite En.
  destruct (data_arr s !! (N - 1 - length ph)%nat) as [d|] eqn:Ed; [|apply lookup_ge_None in Ed; lia]. cbn [obind]. eexists. split; [reflexivity|].
  unfold inv, submit, set_data. cbn [data_arr numAccepts numReqs sqes files socks sent next_fd]. rewrite length_insert, length_app, fmap_app, !omap_app, list.filter_app, length_app.
  cbn [length]. rewrite filter_cons_False by done. cbn [omap list_omap sqe_of answer_of file_of sock_of fst snd fmap list_fmap filter list_filter length].
  assert (Hnew : ph.*1 ++ [(N - 1 - length ph)%nat] = all_slots N (length ph + 1)).
  { unfold all_slots. rewrite seq_app, fmap_app. cbn. by rewrite Hf. }
  assert (Hfresh : (N - 1 - length ph)%nat ∉ ph.*1).
  { intros Hin. assert (Hn : NoDup (ph.*1 ++ [(N - 1 - length ph)%nat])) by (rewrite Hnew; apply all_slots_NoDup; lia).
    apply NoDup_app in Hn as (_ & Hn & _). by apply (Hn _ Hin), list_elem_of_singleton. }
  rewrite !app_nil_r. split_and!; try done; try lia.
  - apply Forall_app. split.
    + unfold slots_ok in Hs. rewrite Forall_forall in Hs |- *. intros x Hx. destruct (Hs x Hx) as (d0 & Hd0 & Hok). exists d0. split; [|done].
      rewrite list_lookup_insert_ne; [done|]. intros E. apply Hfresh. rewrite E. by apply list_elem_of_fmap_2.
    + constructor; [|constructor]. eexists. split; [apply list_lookup_insert_eq; by eapply lookup_lt_Some|]. done.
  - by rewrite Hq.
  - apply Forall_app. split; [done|]. by constructor.
Qed.

(** An operation that completes is that of a connection. *)
Lemma pending_conn fs N s ph p x : inv fs N s ph -> s.(sqes) !! p = Some x ->
  exists j i q d, ph !! j = Some (i, q) /\ sqe_of (i, q) = Some x /\ is_done q = false /\ user x = i /\ s.(data_arr) !! i = Some d /\ slot_ok i q d /\
    delete p s.(sqes) ≡ₚ omap sqe_of (delete j ph).
Proof.
  intros (_ & _ & _ & Hs & _ & _ & Hq & _) Hx. assert (Hin : x ∈ omap sqe_of ph) by (rewrite <- Hq; by eapply list_elem_of_lookup_2).
  apply list_elem_of_omap in Hin as ([i q] & Hin & Ex). apply list_elem_of_lookup in Hin as [j Hj].
  unfold slots_ok in Hs. rewrite Forall_lookup in Hs. destruct (Hs j _ Hj) as (d & Hd & Hok). exists j, i, q, d. split_and!; try done.
  - by destruct q.
  - by destruct q; cbn in Ex; simplify_eq.
  - apply (Permutation_cons_inv (a := x)). rewrite <- delete_Permutation by done. rewrite Hq, (omap_split sqe_of ph j (i, q)) by done. by rewrite Ex.
Qed.

Lemma slot_at i d s : s.(data_arr) !! i = Some d -> slot (Z.of_nat i) s = Done d.
Proof. intros H. unfold slot. rewrite (proj2 (Z.ltb_ge _ _)) by lia. by rewrite Nat2Z.id, H. Qed.

(** The four kinds of completions. *)
Section turns.
Context (fs : list Z -> option (list Z)) (N : nat) (s : uring) (ph : list (nat * phase)).
Context (Hinv : inv fs N s ph).

Definition without (p : nat) : uring :=
  mkUring s.(data_arr) s.(numAccepts) s.(numReqs) (delete p s.(sqes)) s.(files) s.(socks) s.(sent) s.(next_fd).

Lemma rest_of {B} (f : nat * phase -> option B) (l : list B) j x : ph !! j = Some x -> l ≡ₚ omap f ph ->
  l ≡ₚ option_list (f x) ++ omap f (delete j ph).
Proof using. intros Hj ->. by apply omap_split. Qed.

Lemma turn_accept j i d p : ph !! j = Some (i, PAccept) -> s.(data_arr) !! i = Some d -> slot_ok i PAccept d ->
  delete p s.(sqes) ≡ₚ omap sqe_of (delete j ph) ->
  exists s1, prep_recv s.(next_fd) i (perform (SAccept i) [] (without p)).2 = Done s1 /\
    exists ph', inv fs N s1 ph' /\ progress ph' = S (progress ph) /\ accepting s1 ph' /\ moved ph ph' [Opened (next_fd s)].
Proof using Hinv.
  intros Hj Hd [Hi Hop] Hdel. pose proof Hinv as (Hl & _ & _ & _ & Ha & _ & Hq & Hse & Hfi & Hso & Hff & Hsf & _).
  unfold prep_recv. cbn [perform snd]. rewrite (slot_at i d) by done. cbn [obind]. set (s1 := submit _ _).
  assert (H1 : inv fs N s1 (<[j := (i, PRecv (next_fd s))]> ph)).
  { eapply inv_change; [exact Hinv|exact Hj|done| | |done| | | | | | | | |done].
    2: { unfold s1, submit, set_data. cbn. reflexivity. }
    - by split.
    - cbn. lia.
    - cbn. lia.
    - cbn. rewrite Hdel. by rewrite Permutation_app_comm.
    - cbn. by apply (rest_of answer_of) with (x := (i, PAccept)).
    - cbn. by apply (rest_of file_of) with (x := (i, PAccept)).
    - cbn. rewrite elements_union_singleton; [constructor; by apply (rest_of sock_of) with (x := (i, PAccept))|].
      intros Hin. apply elem_of_elements in Hin. rewrite Hso in Hin. rewrite Forall_forall in Hsf. specialize (Hsf _ Hin). cbv beta in Hsf. lia.
    - constructor.
    - cbn. constructor; [lia|constructor]. }
  assert (Hp1 : progress (<[j := (i, PRecv (next_fd s))]> ph) = S (progress ph)) by (by eapply progress_change).
  assert (Hmv : moved ph (<[j := (i, PRecv (next_fd s))]> ph) [Opened (next_fd s)]) by (by eapply moved_change).
  destruct (Z.ltb_spec 0 (numAccepts s1)) as [H0|H0].
  - destruct (inv_accept _ _ _ _ _ H1 H0 eq_refl) as (s2 & E2 & H2). exists s2. split; [exact E2|]. eexists. split; [exact H2|]. split.
    + unfold progress in *. rewrite sum_list_with_app, Hp1. cbn. lia.
    + split; [intros _; by eexists _, _|]. unfold moved. rewrite bind_app. cbn [mbind list_bind seen_of snd]. rewrite app_nil_r. exact Hmv.
  - exists s1. split; [done|]. eexists. split; [exact H1|]. split; [done|]. split; [intros ?; lia|exact Hmv].
Qed.

(** The other ones leave the connection that is being accepted alone. *)
Lemma accepting_change s' j i q q' : accepting s ph -> s'.(numAccepts) = s.(numAccepts) -> ph !! j = Some (i, q) -> q <> PAccept ->
  accepting s' (<[j := (i, q')]> ph).
Proof using.
  clear Hinv. intros Ha En Hj Hq H0. rewrite En in H0. destruct (Ha H0) as (ph' & k & ->). pose proof (lookup_lt_Some _ _ _ Hj) as Hlt. rewrite length_app in Hlt. cbn in Hlt.
  destruct (decide (j = length ph')) as [->|Hne].
  - rewrite lookup_app_r, Nat.sub_diag in Hj by lia. cbn in Hj. congruence.
  - rewrite insert_app_l by lia. by eexists _, _.
Qed.

Lemma turn_recv j i cfd d p m c : accepting s ph -> ph !! j = Some (i, PRecv cfd) -> s.(data_arr) !! i = Some d -> slot_ok i (PRecv cfd) d ->
  delete p s.(sqes) ≡ₚ omap sqe_of (delete j ph) -> fs m = Some c -> Forall (fun c => c <> 0) m -> (length m < BUFSIZ)%nat ->
  exists s1, prep_read fs i (perform (SRecv cfd i) m (without p)).2 = Done s1 /\
    exists ph', inv fs N s1 ph' /\ progress ph' = S (progress ph) /\ accepting s1 ph' /\ moved ph ph' [Heard cfd m].
Proof using Hinv.
  intros Hacc Hj Hd (Hi & Hop & Hcfd & Hbuf) Hdel Hm Hz Hlen. pose proof Hinv as (_ & _ & _ & _ & _ & _ & Hq & Hse & Hfi & Hso & Hff & Hsf & _).
  unfold prep_read. cbn [perform snd]. unfold fill. cbn [data_arr without]. rewrite (alter_to_insert _ _ _ _ Hd).
  rewrite (slot_at i (mkData (asked m) (socket_fd d) (file_fd d) (index d) (io_op d)))
    by (cbn; unfold asked; rewrite Hbuf; apply list_lookup_insert_eq; by eapply lookup_lt_Some).
  cbn [obind buf]. assert (Ec : cstr (asked m) = Done m).
  { unfold asked. rewrite take_ge by lia. rewrite drop_replicate. destruct (BUFSIZ - length m)%nat as [|k] eqn:Ek; [lia|]. by apply cstr_app. }
  rewrite Ec. cbn [obind]. rewrite Hm. eexists. split; [reflexivity|]. exists (<[j := (i, PRead cfd m (next_fd s) c)]> ph). split; [|split].
  - eapply inv_change; [exact Hinv|exact Hj|done| | |done| | | | | | | | |exact Hm].
    2: { unfold submit, set_data. cbn. by rewrite list_insert_insert_eq. }
    + by split.
    + cbn. lia.
    + cbn. lia.
    + cbn. rewrite Hdel. by rewrite Permutation_app_comm.
    + cbn. by apply (rest_of answer_of) with (x := (i, PRecv cfd)).
    + cbn. rewrite map_to_list_insert; [constructor; by apply (rest_of file_of) with (x := (i, PRecv cfd))|].
      destruct (files s !! next_fd s) as [c0|] eqn:E; [|done]. apply elem_of_map_to_list in E. rewrite Hfi in E. rewrite Forall_forall in Hff.
      specialize (Hff _ E). cbn in Hff. lia.
    + cbn. by apply (rest_of sock_of) with (x := (i, PRecv cfd)).
    + cbn. constructor; [cbn; lia|constructor].
    + cbn. constructor; [|constructor]. rewrite (rest_of sock_of _ j _ Hj (Permutation_refl _)) in Hsf. cbn in Hsf. apply Forall_cons in Hsf as [? _]. lia.
  - by eapply progress_change.
  - split; [by eapply accepting_change|by eapply moved_change].
Qed.

Lemma turn_read j i cfd m fd c d p : accepting s ph -> ph !! j = Some (i, PRead cfd m fd c) -> s.(data_arr) !! i = Some d -> slot_ok i (PRead cfd m fd c) d ->
  delete p s.(sqes) ≡ₚ omap sqe_of (delete j ph) ->
  exists s1, prep_send i (perform (SRead fd i) [] (without p)).2 = Done s1 /\
    exists ph', inv fs N s1 ph' /\ progress ph' = S (progress ph) /\ accepting s1 ph' /\ moved ph ph' [].
Proof using Hinv.
  intros Hacc Hj Hd (Hi & Hop & Hcfd & Hfd & Hbuf) Hdel. pose proof Hinv as (_ & _ & _ & _ & _ & _ & Hq & Hse & Hfi & Hso & Hff & Hsf & Hc).
  pose proof (rest_of file_of _ j _ Hj Hfi) as Hfi2. cbn in Hfi2.
  assert (Ef : files s !! fd = Some c) by (apply elem_of_map_to_list; rewrite Hfi2; apply elem_of_cons; by left).
  unfold prep_send. cbn [perform snd]. unfold fill. cbn [data_arr without]. rewrite (alter_to_insert _ _ _ _ Hd). cbn [files without]. rewrite Ef. cbn [default from_option]. unfold id.
  rewrite (slot_at i (mkData (answer m c) (socket_fd d) (file_fd d) (index d) (io_op d)))
    by (cbn; unfold answer; rewrite Hbuf; apply list_lookup_insert_eq; by eapply lookup_lt_Some).
  cbn [obind buf socket_fd file_fd index]. eexists. split; [reflexivity|]. exists (<[j := (i, PSend cfd m c)]> ph). split; [|split].
  - eapply inv_change; [exact Hinv|exact Hj|done| | |done| | | | | | | | |by apply (Forall_lookup_1 _ _ _ _ Hc Hj)].
    2: { unfold submit, set_data. cbn. by rewrite list_insert_insert_eq. }
    + by split.
    + cbn. lia.
    + cbn. lia.
    + cbn. rewrite Hdel, Hcfd. by rewrite Permutation_app_comm.
    + cbn. by apply (rest_of answer_of) with (x := (i, PRead cfd m fd c)).
    + cbn. rewrite Hfd. apply (Permutation_cons_inv (a := (fd, c))). by rewrite map_to_list_delete.
    + cbn. by apply (rest_of sock_of) with (x := (i, PRead cfd m fd c)).
    + constructor.
    + cbn. constructor; [|constructor]. rewrite (rest_of sock_of _ j _ Hj (Permutation_refl _)) in Hsf. cbn in Hsf. apply Forall_cons in Hsf as [? _]. lia.
  - by eapply progress_change.
  - split; [by eapply accepting_change|by eapply moved_change].
Qed.

Lemma turn_send j i cfd m c d p : accepting s ph -> ph !! j = Some (i, PSend cfd m c) -> s.(data_arr) !! i = Some d -> slot_ok i (PSend cfd m c) d ->
  delete p s.(sqes) ≡ₚ omap sqe_of (delete j ph) ->
  let s1 := (perform (SSend cfd i) [] (without p)).2 in
  let s2 := mkUring s1.(data_arr) s1.(numAccepts) (s1.(numReqs) - 1) s1.(sqes) s1.(files) (s1.(socks) ∖ {[d.(socket_fd)]}) s1.(sent) s1.(next_fd) in
  exists ph', inv fs N s2 ph' /\ progress ph' = S (progress ph) /\ accepting s2 ph' /\ moved ph ph' [].
Proof using Hinv.
  intros Hacc Hj Hd (Hi & Hop & Hcfd & Hbuf) Hdel s1 s2. pose proof Hinv as (_ & _ & _ & _ & _ & _ & Hq & Hse & Hfi & Hso & Hff & Hsf & Hc).
  exists (<[j := (i, PDone cfd m c)]> ph). split; [|split].
  - eapply (inv_change _ _ _ _ _ _ _ _ _ d); [exact Hinv|exact Hj|done| | |done| | | | | | | | |by apply (Forall_lookup_1 _ _ _ _ Hc Hj)].
    + by split.
    + cbn. by rewrite list_insert_id.
    + cbn. lia.
    + cbn. lia.
    + cbn. exact Hdel.
    + cbn. rewrite Hd. cbn. rewrite Hbuf. rewrite Permutation_app_comm. cbn. constructor. by apply (rest_of answer_of) with (x := (i, PSend cfd m c)).
    + cbn. by apply (rest_of file_of) with (x := (i, PSend cfd m c)).
    + cbn. rewrite Hcfd. pose proof (rest_of sock_of _ j _ Hj Hso) as Hso2. cbn in Hso2. apply (Permutation_cons_inv (a := cfd)).
      rewrite <- Hso2. assert (Hin : cfd ∈ socks s) by (apply elem_of_elements; rewrite Hso2; apply elem_of_cons; by left).
      rewrite <- elements_union_singleton by set_solver. by rewrite <- union_difference_L by set_solver.
    + constructor.
    + constructor.
  - by eapply progress_change.
  - split; [by eapply accepting_change|by eapply moved_change].
Qed.
End turns.

(** ** Runs *)

(** The client asked for a file that exists, with a name that fits. *)
Definition good_event (fs : list Z -> option (list Z)) (e : event) : Prop :=
  match e with
  | Completed _ m => (exists c, fs m = Some c) /\ Forall (fun c => c <> 0) m /\ (length m < BUFSIZ)%nat
  | Failed _ => False
  end.

Lemma turn_ok fs N s ph e r : inv fs N s ph -> accepting s ph -> good_event fs e -> turn fs e s = Some r ->
  exists s1, r = Done s1 /\ exists ph', inv fs N s1 ph' /\ progress ph' = S (progress ph) /\ accepting s1 ph' /\ moved ph ph' (observe e s).
Proof.
  intros Hinv Hacc He. destruct e as [p m|p]; [|done]. destruct He as ([c Hm] & Hz & Hl). cbn [turn observe]. destruct (sqes s !! p) as [x|] eqn:Hx; [|done].
  destruct (pending_conn _ _ _ _ _ _ Hinv Hx) as (j & i & q & d & Hj & Ex & _ & Eu & Hd & Hok & Hdel). fold (without s p).
  clear Eu. destruct q as [|cfd|cfd m0 fd c0|cfd m0 c0|]; cbn in Ex; simplify_eq; cbn beta iota zeta delta [perform user].
  - pose proof Hok as [Hi Hop]. rewrite (slot_at _ d) by done. cbn [obind]. rewrite Hop, Hi. intros [= <-]. by eapply (turn_accept fs N s ph Hinv).
  - pose proof Hok as (Hi & Hop & _). rewrite (slot_at i (mkData (take BUFSIZ m ++ drop (length (take BUFSIZ m)) (buf d)) (socket_fd d) (file_fd d) (index d) (io_op d))).
    + cbn [obind io_op index]. rewrite Hop, Hi. intros [= <-]. by eapply (turn_recv fs N s ph Hinv j _ cfd d p m c).
    + unfold fill. cbn. rewrite (alter_to_insert _ _ _ _ Hd). apply list_lookup_insert_eq. by eapply lookup_lt_Some.
  - pose proof Hok as (Hi & Hop & _). set (bs := take BUFSIZ (default [] (files (without s p) !! fd))).
    rewrite (slot_at i (mkData (bs ++ drop (length bs) (buf d)) (socket_fd d) (file_fd d) (index d) (io_op d))).
    + cbn [obind io_op index]. rewrite Hop, Hi. intros [= <-]. by eapply (turn_read fs N s ph Hinv j _ cfd m0 fd c0 d p).
    + unfold fill. cbn. rewrite (alter_to_insert _ _ _ _ Hd). apply list_lookup_insert_eq. by eapply lookup_lt_Some.
  - pose proof Hok as (Hi & Hop & _). rewrite (slot_at _ d) by done. cbn [obind]. rewrite Hop, Hi, (slot_at _ d) by done. cbn [obind]. intros [= <-].
    eexists. split; [reflexivity|]. eapply (turn_send fs N s ph Hinv j _ cfd m0 c0 d p); done.
Qed.

Lemma loop_ok fs N es : forall s ph r, inv fs N s ph -> accepting s ph -> Forall (good_event fs) es -> loop fs es s = Some r ->
  exists s1, r = Done s1 /\ exists ph', inv fs N s1 ph' /\ progress ph' = (progress ph + length es)%nat /\ accepting s1 ph' /\ moved ph ph' (log fs es s).
Proof.
  induction es as [|e es IH]; intros s ph r Hinv Hacc He E; cbn [loop] in E.
  - injection E as <-. exists s. split; [done|]. exists ph. split_and!; [done|cbn; lia|done|]. unfold moved. cbn [log]. by rewrite app_nil_r.
  - apply Forall_cons in He as [He Hes]. destruct (numReqs s <=? 0); [done|]. destruct (turn fs e s) as [r1|] eqn:Et; [|done].
    destruct (turn_ok _ _ _ _ _ _ Hinv Hacc He Et) as (s1 & -> & ph1 & Hi1 & Hp1 & Ha1 & Hm1).
    destruct (IH s1 ph1 r Hi1 Ha1 Hes E) as (s2 & -> & ph2 & Hi2 & Hp2 & Ha2 & Hm2). exists s2. split; [done|]. exists ph2. split_and!; [done|cbn; lia|done|].
    unfold moved in *. cbn [log]. rewrite Et, Hm2, Hm1. by rewrite app_assoc.
Qed.

Lemma start_ok fs N : (0 < N <= LISTEN_BACKLOG)%nat -> exists s, start (Z.of_nat N) = Done s /\ inv fs N s [((N - 1)%nat, PAccept)] /\ accepting s [((N - 1)%nat, PAccept)].
Proof.
  intros HN. unfold start. rewrite (proj2 (Z.leb_gt _ _)) by lia. set (s0 := mkUring _ _ _ _ _ _ _ _).
  assert (H0 : inv fs N s0 []).
  { unfold inv, s0. cbn [data_arr numAccepts numReqs sqes files socks sent next_fd]. rewrite length_replicate.
    split_and!; [cbn; lia|lia|done|apply Forall_nil_2|cbn; lia|cbn; lia|done|done|by rewrite map_to_list_empty|by rewrite elements_empty|apply Forall_nil_2..]. }
  destruct (inv_accept _ _ _ _ _ H0 ltac:(cbn; lia) eq_refl) as (s1 & E & H1). exists s1. split; [exact E|]. cbn in H1. rewrite Nat.sub_0_r in H1.
  split; [exact H1|]. intros _. by exists [], (N - 1)%nat.
Qed.

Lemma filter_done (ph : list (nat * phase)) : (forall x, x ∈ ph -> is_done x.2 = true) -> filter (fun x => is_done x.2 = true) ph = ph.
Proof.
  intros Hd. induction ph as [|x ph IH]; [done|]. rewrite filter_cons_True by (apply Hd, elem_of_cons; by left).
  f_equal. apply IH. intros y Hy. apply Hd, elem_of_cons. by right.
Qed.

(** Nothing is missing: while requests are, an operation is under way. *)
Lemma no_wait_forever fs N s ph : inv fs N s ph -> accepting s ph -> 0 < s.(numReqs) -> s.(sqes) <> [].
Proof.
  intros (Hl & _ & _ & _ & Ha & Hr & Hq & _) Hacc H0 E. rewrite E in Hq. apply Permutation_nil in Hq.
  assert (Hd : forall x, x ∈ ph -> is_done x.2 = true).
  { intros [i q] Hx. destruct (sqe_of (i, q)) as [y|] eqn:Ey; [|by destruct q].
    assert (Hy : y ∈ omap sqe_of ph) by (apply list_elem_of_omap; by exists (i, q)). rewrite Hq in Hy. by apply elem_of_nil in Hy. }
  rewrite (filter_done _ Hd) in Hr. destruct Hacc as (ph' & i & ->); [lia|].
  specialize (Hd (i, PAccept)). cbn in Hd. discriminate Hd. apply elem_of_app. right. by apply list_elem_of_singleton.
Qed.

(** At the end every connection is done. *)
Lemma all_done fs N s ph : inv fs N s ph -> s.(numReqs) = 0 -> length ph = N /\ forall x, x ∈ ph -> is_done x.2 = true.
Proof.
  intros (Hl & _ & _ & _ & _ & Hr & _) H0. assert (Hfl : (length (filter (fun x => is_done x.2 = true) ph) <= length ph)%nat) by apply length_filter.
  split; [lia|]. assert (Hf : length (filter (fun x => is_done x.2 = true) ph) = length ph) by lia.
  intros x Hx.
  destruct (is_done x.2) eqn:Ex; [done|]. pose proof (length_filter_lt (fun x => is_done x.2 = true) ph x Hx ltac:(cbv beta; by rewrite Ex)). lia.
Qed.

(** What done connections leave behind: nothing open, and their answers. *)
Lemma done_nothing {B} (f : nat * phase -> option B) ph : (forall x, x ∈ ph -> is_done x.2 = true) -> (forall i cfd m c, f (i, PDone cfd m c) = None) -> omap f ph = [].
Proof.
  intros Hd Hf. induction ph as [|[i q] ph IH]; [done|]. cbn [omap list_omap].
  assert (Hq : is_done q = true) by (apply (Hd (i, q)), elem_of_cons; by left). destruct q; try discriminate Hq. rewrite Hf. apply IH.
  intros x Hx. apply Hd, elem_of_cons. by right.
Qed.

Lemma done_answers (fs : list Z -> option (list Z)) ph : (forall x, x ∈ ph -> is_done x.2 = true) ->
  Forall (fun x => match x.2 with PRead _ m _ c | PSend _ m c | PDone _ m c => fs m = Some c | _ => True end) ph ->
  omap answer_of ph = (fun x => (x.1, answer x.2 (default [] (fs x.2)))) <$> heard (ph ≫= seen_of) /\
  opened (ph ≫= seen_of) = (heard (ph ≫= seen_of)).*1 /\ length (heard (ph ≫= seen_of)) = length ph.
Proof.
  intros Hd Hc. induction Hc as [|[i q] ph Hq _ IH]; [done|]. destruct IH as (H1 & H2 & H3); [intros x Hx; apply Hd, elem_of_cons; by right|].
  assert (Hdq : is_done q = true) by (apply (Hd (i, q)), elem_of_cons; by left). destruct q as [| | | |cfd m c]; try discriminate Hdq.
  cbn in Hq. cbn. rewrite Hq. cbn. unfold heard, opened in *. rewrite H1, H2, H3. done.
Qed.

(** The descriptors of the connections are new ones. *)
Lemma turn_next_fd fs e s s' : turn fs e s = Some (Done s') ->
  s.(next_fd) <= s'.(next_fd) /\ Forall (fun x => match x with Opened c => c = s.(next_fd) /\ c < s'.(next_fd) | _ => True end) (observe e s).
Proof.
  destruct e as [p m|p]; cbn [turn observe]; [|by destruct (sqes s !! p)]. destruct (sqes s !! p) as [x|]; [|done].
  assert (Ha : forall s1 s2, prep_accept s1 = Done s2 -> next_fd s2 = next_fd s1) by (intros s1 s2 (d & _ & [= <-])%obind_Done; done).
  assert (Hr : forall c i s1 s2, prep_recv c i s1 = Done s2 -> next_fd s2 = next_fd s1).
  { intros c i s1 s2 (d & _ & E)%obind_Done. cbn in E. destruct (0 <? numAccepts s1); [by apply Ha in E|by injection E as <-]. }
  assert (Hstep : forall res (s1 : uring) s2 (data : user_data), (match data.(io_op) with
     | ACCEPT => prep_recv res data.(index) s1 | RECV => prep_read fs data.(index) s1 | READ => prep_send data.(index) s1
     | SEND => let* d := slot (Z.of_nat data.(index)) s1 in
         Done (mkUring s1.(data_arr) s1.(numAccepts) (s1.(numReqs) - 1) s1.(sqes) s1.(files) (s1.(socks) ∖ {[d.(socket_fd)]}) s1.(sent) s1.(next_fd)) end) = Done s2 ->
     next_fd s1 <= next_fd s2).
  { intros res s1 s2 data E. destruct (io_op data).
    - apply Hr in E. lia.
    - apply obind_Done in E as (d & _ & E). apply obind_Done in E as (n & _ & E). destruct (fs n); [|done]. injection E as <-. cbn. lia.
    - apply obind_Done in E as (d & _ & E). injection E as <-. cbn. lia.
    - apply obind_Done in E as (d & _ & E). injection E as <-. cbn. lia. }
  destruct x as [u|fd u|fd u|fd u]; cbn [perform user]; intros [= E]; apply obind_Done in E as (data & _ & E); apply Hstep in E; cbn [next_fd fill set_data] in E;
    (split; [lia|]); repeat constructor; lia.
Qed.

Lemma log_fresh fs es : forall s r, loop fs es s = Some (Done r) -> NoDup (opened (log fs es s)) /\ Forall (fun c => s.(next_fd) <= c) (opened (log fs es s)).
Proof.
  induction es as [|e es IH]; intros s r E; cbn [loop log] in *; [split; [apply NoDup_nil_2|constructor]|].
  destruct (numReqs s <=? 0); [done|]. destruct (turn fs e s) as [[s1| |]|] eqn:Et; [|done..]. destruct (IH s1 r E) as [H1 H2].
  destruct (turn_next_fd _ _ _ _ Et) as [Hle Hob]. unfold opened in *. rewrite omap_app.
  assert (H2' : Forall (fun c => next_fd s <= c) (omap (fun x => match x with Opened c => Some c | _ => None end) (log fs es s1)))
    by (eapply Forall_impl; [exact H2|]; cbv beta; lia).
  unfold observe in *. destruct e as [p m|p]; [|done]. destruct (sqes s !! p) as [[u|fd u|fd u|fd u]|]; cbn [omap list_omap app]; try done.
  apply Forall_cons in Hob as [[_ Hlt] _]. split; [|constructor; [lia|done]]. constructor; [|done]. intros Hin. rewrite Forall_forall in H2. specialize (H2 _ Hin). cbv beta in H2. lia.
Qed.

Lemma rank_le p : (rank p <= 4)%nat.
Proof. destruct p; cbn; lia. Qed.

Lemma progress_le ph : (progress ph <= 4 * length ph)%nat.
Proof. unfold progress. induction ph as [|[i p] ph IH]; [done|]. cbn [sum_list_with length snd]. pose proof (rank_le p). lia. Qed.

Lemma progress_done ph : progress ph = (4 * length ph)%nat <-> forall x, x ∈ ph -> is_done x.2 = true.
Proof.
  induction ph as [|[i p] ph IH]; [split; [by intros _ x Hx%elem_of_nil|done]|]. pose proof (progress_le ph) as Hle. pose proof (rank_le p) as Hr.
  unfold progress in *. cbn [sum_list_with length snd]. split.
  - intros E x. rewrite elem_of_cons. assert (Hp : rank p = 4%nat) by lia. intros [->|Hx]; [by destruct p|]. apply IH; [lia|done].
  - intros H. assert (Hp : is_done p = true) by (apply (H (i, p)); apply elem_of_cons; by left).
    rewrite (proj2 IH) by (intros x Hx; apply H, elem_of_cons; by right). destruct p; try discriminate Hp; cbn; lia.
Qed.

(** ** Properties *)

(** What the client shows of an answer. *)
Lemma client_shows_answer m c : Forall (fun x => x <> 0) m -> Forall (fun x => x <> 0) c -> (length m < BUFSIZ)%nat -> (length c < BUFSIZ)%nat ->
  client_shows (answer m c) = Done (c ++ drop (length c) m).
Proof.
  intros Hm Hc Hlm Hlc. unfold client_shows, answer, asked. rewrite (take_ge m), (take_ge c), drop_replicate by lia.
  rewrite drop_app, drop_replicate. set (k := (BUFSIZ - length m - (length c - length m))%nat).
  assert (Hlen : length (c ++ drop (length c) m ++ replicate k 0) = BUFSIZ) by (rewrite !length_app, length_drop, length_replicate; lia).
  rewrite (take_ge (c ++ _)) by lia. rewrite Hlen, Nat.sub_diag, app_nil_r. destruct k as [|k'] eqn:Ek; [lia|]. rewrite app_assoc. cbn [replicate].
  apply cstr_app. apply Forall_app. split; [done|]. by apply Forall_drop.
Qed.

(** A turn behind a run of the loop. *)
Lemma loop_snoc fs es e s0 s r : loop fs es s0 = Some (Done s) -> 0 < numReqs s -> turn fs e s = Some r -> loop fs (es ++ [e]) s0 = Some r.
Proof.
  revert s0. induction es as [|e' es IH]; intros s0 E Hs Et; cbn [loop app] in *.
  - injection E as ->. rewrite (proj2 (Z.leb_gt _ _) Hs), Et. by destruct r.
  - destruct (numReqs s0 <=? 0); [done|]. destruct (turn fs e' s0) as [[s1| | ]|]; try done. by apply IH.
Qed.

(** What is heard is what a client said. *)
Lemma heard_said fs es : forall s x, x ∈ heard (log fs es s) -> exists p, Completed p x.2 ∈ es.
Proof.
  induction es as [|e es IH]; intros s x Hx; cbn [log] in Hx; [by apply elem_of_nil in Hx|].
  unfold heard in Hx. rewrite omap_app in Hx. apply elem_of_app in Hx as [Hx|Hx].
  - apply list_elem_of_omap in Hx as (o & Ho & E). destruct o; [done|]. injection E as <-.
    destruct e as [p m'|]; cbn [observe] in Ho; [|by apply elem_of_nil in Ho].
    exists p. repeat case_match; repeat (apply elem_of_cons in Ho as [Ho|Ho]; [try done; injection Ho as -> ->; by left|]); by apply elem_of_nil in Ho.
  - destruct (turn fs e s) as [[s1| | ]|]; try by apply elem_of_nil in Hx. destruct (IH _ _ Hx) as [p Hp]. exists p. by right.
Qed.


