(* ===== verification/FileServers.v ===== *)
(** * The event loops of chapter 33

    [33/server_epoll.c] and [33/server_libevent.c]: two servers that answer the name
    of a file with the file, and the connection of [33/connection.h].  What they
    promise is the specification [fstep]; [FileServer] is the interface of a server
    whose handlers implement it, and what holds of a batch of events for every such
    server is proved from it.  The events the kernel or [libevent] reports are
    arguments: a connection is reported at most once in a batch, and a new
    descriptor is one that is not in use. *)

From Stdlib Require Import ZArith Lia String.
From stdpp Require Import base tactics numbers list gmap relations.
From S2P Require Import Prelude Cstring UringServer.

Local Open Scope Z_scope.
Local Open Scope ostep_scope.

(** ** The specification *)

(** The connections, and the answers sent: connection, name of the file, bytes. *)
Record fstate := mkF { f_conns : gset Z; f_log : list (Z * list Z * list Z) }.

(** What [sendfile] transfers at most, in one call. *)
Definition MAX_RW : Z := 2147479552.

Inductive fstep (fs : list Z -> option (list Z)) : fstate -> fstate -> Prop :=
| f_connect fd C log : fd ∉ C -> fstep fs (mkF C log) (mkF ({[fd]} ∪ C) log)
| f_answer fd name c bs C log : fd ∈ C -> fs name = Some c -> bs `prefix_of` c -> (Z.of_nat (length c) <= MAX_RW -> bs = c) ->
    fstep fs (mkF C log) (mkF C (log ++ [(fd, name, bs)]))
| f_close fd C log : fd ∈ C -> fstep fs (mkF C log) (mkF (C ∖ {[fd]}) log).

(** The answers of a server that follows the specification are files. *)
Definition good_answer (fs : list Z -> option (list Z)) (x : Z * list Z * list Z) : Prop :=
  exists c, fs x.1.2 = Some c /\ x.2 `prefix_of` c /\ (Z.of_nat (length c) <= MAX_RW -> x.2 = c).

Lemma fsteps_answers fs a b : rtc (fstep fs) a b -> Forall (good_answer fs) (f_log a) -> Forall (good_answer fs) (f_log b).
Proof.
  induction 1 as [|a b d Hs _ IH]; [done|]. intros H. apply IH. destruct Hs as [| fd name c bs C log Hfd Hn Hp Hl|]; [done| |done].
  cbn [f_log] in *. apply Forall_app. split; [done|]. constructor; [|constructor]. by exists c.
Qed.

(** ** The interface of a server *)

Class FileServer (fs : list Z -> option (list Z)) (St Ev : Type) := {
  view : St -> fstate;
  (** the connection an event is for *)
  event_fd : Ev -> option Z;
  (** the descriptor of a new connection *)
  new_fd : Ev -> option Z;
  (** a message that fills the array *)
  too_long : Ev -> bool;
  handle : Ev -> St -> outcome string St;
  handle_refines e s s' : handle e s = Done s' -> (forall fd, new_fd e = Some fd -> fd ∉ f_conns (view s)) ->
    rtc (fstep fs) (view s) (view s');
  handle_keeps e s s' fd : handle e s = Done s' -> fd ∈ f_conns (view s) -> event_fd e <> Some fd -> fd ∈ f_conns (view s');
  handle_safe e s why : handle e s = Crash why -> (forall fd, event_fd e = Some fd -> fd ∈ f_conns (view s)) -> too_long e = true }.

Section batches.
Context {fs : list Z -> option (list Z)} {St Ev : Type} {HS : FileServer fs St Ev}.

(** A descriptor that the kernel can give out: those up to 4 are used by the
    server itself. *)
Definition can (e : Ev) (s : St) : bool :=
  match new_fd e with Some fd => (4 <? fd) && negb (bool_decide (fd ∈ f_conns (view s))) | None => true end.

(** The batch that is reported: at most [LISTEN_BACKLOG] events, one for a
    connection, and for the connections that are open. *)
Definition ready (evs : list Ev) (s : St) : bool :=
  (length evs <=? LISTEN_BACKLOG)%nat && bool_decide (NoDup (omap event_fd evs)) &&
  forallb (fun fd => bool_decide (fd ∈ f_conns (view s))) (omap event_fd evs).

(** [for (int i = 0; i < ready; i++)]; [None] for a descriptor that cannot be. *)
Fixpoint run_batch (evs : list Ev) (s : St) : option (outcome string St) :=
  match evs with
  | [] => Some (Done s)
  | e :: evs => if can e s then match handle e s with Done s => run_batch evs s | r => Some r end else None
  end.

Lemma can_new e s : can e s = true -> forall fd, new_fd e = Some fd -> fd ∉ f_conns (view s).
Proof. unfold can. intros Hc fd E. rewrite E in Hc. apply andb_prop in Hc as [_ Hc]. apply negb_true_iff in Hc. by apply bool_decide_eq_false in Hc. Qed.

(** Every event of a batch finds its connection open, whatever the ones before it
    did; a server goes wrong only on a message that fills its array. *)
Lemma batch_safe evs : forall s r, NoDup (omap event_fd evs) -> Forall (fun fd => fd ∈ f_conns (view s)) (omap event_fd evs) ->
  run_batch evs s = Some r ->
  match r with
  | Done s' => rtc (fstep fs) (view s) (view s')
  | Crash _ => exists e, e ∈ evs /\ too_long e = true
  | Fail _ => True
  end.
Proof.
  induction evs as [|e evs IH]; intros s r Hnd Hin E; cbn [run_batch] in E; [by injection E as <-|].
  destruct (can e s) eqn:Hc; [|done]. pose proof (can_new _ _ Hc) as Hn.
  assert (Hnd' : NoDup (omap event_fd evs) /\ forall fd, event_fd e = Some fd -> (fd ∉ omap event_fd evs) /\ fd ∈ f_conns (view s)).
  { cbn [omap list_omap] in Hnd, Hin. destruct (event_fd e) as [fd|]; [|done]. apply NoDup_cons in Hnd as [? ?].
    apply Forall_cons in Hin as [? _]. split; [done|]. by intros ? [= <-]. }
  destruct Hnd' as [Hnd' He].
  assert (Hin' : Forall (fun fd => fd ∈ f_conns (view s)) (omap event_fd evs))
    by (cbn [omap list_omap] in Hin; destruct (event_fd e); [by apply Forall_cons in Hin as [_ ?]|done]).
  destruct (handle e s) as [s1|why|why] eqn:Eh.
  - specialize (IH s1 r Hnd'). assert (Hk : Forall (fun fd => fd ∈ f_conns (view s1)) (omap event_fd evs)).
    { apply Forall_forall. intros fd Hfd. rewrite Forall_forall in Hin'. apply (handle_keeps _ _ _ _ Eh (Hin' _ Hfd)).
      intros E1. by destruct (He fd E1). }
    specialize (IH Hk E). destruct r as [s'|?|?]; [|done|].
    + etrans; [by eapply handle_refines|exact IH].
    + destruct IH as (e' & ? & ?). exists e'. split; [by right|done].
  - by injection E as <-.
  - injection E as <-. exists e. split; [by left|]. eapply handle_safe; [exact Eh|]. intros fd Hfd. by destruct (He fd Hfd).
Qed.

(** One report and its events. *)
Definition turn_of (evs : list Ev) (s : St) : option (outcome string St) := if ready evs s then run_batch evs s else None.

Lemma turn_safe evs s r : turn_of evs s = Some r ->
  match r with
  | Done s' => rtc (fstep fs) (view s) (view s')
  | Crash _ => exists e, e ∈ evs /\ too_long e = true
  | Fail _ => True
  end.
Proof.
  unfold turn_of, ready. destruct (_ && _) eqn:Hr; [|done]. apply andb_prop in Hr as [Hr Hin]. apply andb_prop in Hr as [_ Hnd].
  apply batch_safe; [by apply bool_decide_eq_true in Hnd|]. apply Forall_forall. intros fd Hfd. rewrite forallb_forall in Hin.
  apply (bool_decide_eq_true _), Hin. by apply list_elem_of_In.
Qed.

End batches.

(** ** What both servers do with a message *)

Section servers.
(** The contents of the files that can be opened. *)
Context (fs : list Z -> option (list Z)).

(** [char buff[BUFSIZ] = ""] behind [recv]. *)
Definition received (m : list Z) : list Z := take BUFSIZ m ++ replicate (BUFSIZ - length (take BUFSIZ m)) 0.

(** [open(buff, O_RDONLY)]: the name and the contents. *)
Definition open_file (m : list Z) : outcome string (list Z * list Z) :=
  let* name := cstr (received m) in
  match fs name with None => Fail "open"%string | Some c => Done (name, c) end.

Definition long (m : list Z) : bool := (BUFSIZ <=? length m)%nat && forallb (fun c => negb (c =? 0)) (take BUFSIZ m).

(** ** The server on epoll *)

(** [numReqs], the descriptors of the interest list but for the listening one, and
    what was sent. *)
Record epoll := mkEpoll { numReqs : Z; conns : gset Z; sent : list (Z * list Z * list Z) }.

(** An event of [evlist]: a connection that [accept] returns or fails to return, a
    message that [recv] returns or fails to return, another event than [EPOLLIN]. *)
Inductive epoll_ev := EConn (cfd : option Z) | EData (fd : Z) (m : option (list Z)) | EOther (fd : Z).

(** [sendfile] of the whole file. *)
Definition sendfile (c : list Z) : list Z := if Z.of_nat (length c) <=? MAX_RW then c else take (Z.to_nat MAX_RW) c.

(** The body of the loop over [evlist]. *)
Definition epoll_event (e : epoll_ev) (s : epoll) : outcome string epoll :=
  match e with
  | EOther _ => Done s
  | EConn None => Fail "accept"%string
  | EConn (Some cfd) => Done (mkEpoll s.(numReqs) ({[cfd]} ∪ s.(conns)) s.(sent))
  | EData fd m =>
      if bool_decide (fd ∈ s.(conns)) then
        match m with
        | None => Fail "recv"%string
        | Some m =>
            let* '(name, c) := open_file m in
            Done (mkEpoll (s.(numReqs) - 1) (s.(conns) ∖ {[fd]}) (s.(sent) ++ [(fd, name, sendfile c)]))
        end
      else Crash "recv on a closed descriptor"%string
  end.

Local Opaque BUFSIZ MAX_RW.

Lemma cstr_crash l why : cstr l = Crash why -> 0 ∉ l.
Proof.
  induction l as [|c l IH]; cbn [cstr]; intros E; [apply not_elem_of_nil|]. destruct (Z.eqb_spec c 0) as [|Hc]; [discriminate E|].
  destruct (cstr l) as [x|x|x]; [discriminate E..|]. apply not_elem_of_cons. split; [congruence|]. by apply IH.
Qed.

Lemma received_crash m why : cstr (received m) = Crash why -> long m = true.
Proof.
  intros [Ht Hr]%cstr_crash%not_elem_of_app. unfold long. generalize dependent BUFSIZ. intros size Ht Hr.
  destruct (Nat.leb_spec size (length m)) as [Hl|Hl].
  - cbn [andb]. apply forallb_forall. intros x Hx. apply negb_true_iff, Z.eqb_neq. intros ->. by apply Ht, list_elem_of_In.
  - destruct Hr. rewrite length_take. apply elem_of_replicate. split; [done|lia].
Qed.

Lemma long_open m why : open_file m = Crash why -> long m = true.
Proof.
  unfold open_file. destruct (cstr (received m)) as [name|e|e] eqn:Ec; cbn [obind]; intros E; [by destruct (fs name)|discriminate E|].
  exact (received_crash _ _ Ec).
Qed.

Lemma open_file_fs m name c : open_file m = Done (name, c) -> fs name = Some c.
Proof. unfold open_file. destruct (cstr _) as [n|e|e]; [|done..]. cbn [obind]. destruct (fs n) eqn:E; [|done]. by intros [= <- <-]. Qed.

Lemma sendfile_prefix c : sendfile c `prefix_of` c /\ (Z.of_nat (length c) <= MAX_RW -> sendfile c = c).
Proof. unfold sendfile. destruct (Z.leb_spec (Z.of_nat (length c)) MAX_RW); (split; [done || apply prefix_take|lia || done]). Qed.

#[export] Instance epoll_server : FileServer fs epoll epoll_ev.
Proof.
  refine {| view s := mkF s.(conns) s.(sent);
            event_fd e := match e with EConn _ => None | EData fd _ | EOther fd => Some fd end;
            new_fd e := match e with EConn cfd => cfd | _ => None end;
            too_long e := match e with EData _ (Some m) => long m | _ => false end;
            handle := epoll_event |}.
  - intros [[cfd|]|fd [m|]|fd] s s' E Hn; cbn [epoll_event] in E; try discriminate E; try (case_bool_decide; discriminate E).
    + injection E as <-. apply rtc_once. constructor. by apply Hn.
    + case_bool_decide as Hfd; [|discriminate E]. destruct (open_file m) as [[name c]|e|e] eqn:Eo; cbn [obind] in E; [|discriminate E..].
      injection E as <-. cbn [conns sent]. eapply rtc_l; [eapply (f_answer _ fd name c (sendfile c)); [done|by eapply open_file_fs|apply sendfile_prefix..]|].
      apply rtc_once. by constructor.
    + by injection E as <-.
  - intros [[cfd|]|fd [m|]|fd] s s' x E Hx Hne; cbn [epoll_event] in E; try discriminate E; try (case_bool_decide; discriminate E).
    + injection E as <-. cbn [f_conns conns] in *. set_solver.
    + case_bool_decide as Hfd; [|discriminate E]. destruct (open_file m) as [[name c]|e|e] eqn:Eo; cbn [obind] in E; [|discriminate E..].
      injection E as <-. cbn [f_conns conns] in *. set_solver.
    + by injection E as <-.
  - intros [[cfd|]|fd [m|]|fd] s why E Hin; cbn [epoll_event] in E; try discriminate E; (case_bool_decide as Hfd; [|destruct Hfd; by apply Hin]); [|discriminate E].
    destruct (open_file m) as [[name c]|e|e] eqn:Eo; cbn [obind] in E; [discriminate E..|]. by eapply long_open.
Defined.

(** What [epoll_wait] does: it is interrupted, fails, or reports events. *)
Inductive wait := Interrupted | Failing | Batch (evs : list epoll_ev).

(** The loop of [main]: [None] when there is no call of [epoll_wait] for a report, or a
    report cannot be. *)
Fixpoint epoll_loop (ws : list wait) (s : epoll) : option (outcome string epoll) :=
  match ws with
  | [] => Some (Done s)
  | w :: ws =>
      if s.(numReqs) <=? 0 then None
      else
        match w with
        | Interrupted => epoll_loop ws s
        | Failing => Some (Fail "epoll_wait"%string)
        | Batch evs => match turn_of evs s with Some (Done s) => epoll_loop ws s | r => r end
        end
  end.

Definition epoll_start (numReqs : Z) : epoll := mkEpoll numReqs ∅ [].

(** ** The counts of the server *)

Definition accepted (e : epoll_ev) : nat := match e with EConn (Some _) => 1 | _ => 0 end.
Definition events (ws : list wait) : list epoll_ev := ws ≫= fun w => match w with Batch evs => evs | _ => [] end.

(** [numReqs] counts the answers, and a connection is open until it is answered. *)
Definition counted (N : Z) (n : nat) (s : epoll) : Prop :=
  s.(numReqs) = N - Z.of_nat (length s.(sent)) /\ (size s.(conns) + length s.(sent))%nat = n.

Lemma event_counted N n e s s' : counted N n s -> can e s = true -> epoll_event e s = Done s' ->
  counted N (n + accepted e) s' /\ (length s'.(sent) <= S (length s.(sent)))%nat.
Proof.
  intros [H1 H2] Hc E. destruct e as [[cfd|]|fd [m|]|fd]; cbn [epoll_event accepted] in *; try discriminate E; try (case_bool_decide; discriminate E).
  - injection E as <-. unfold counted. cbn [numReqs conns sent]. pose proof (can_new _ _ Hc cfd eq_refl) as Hn. cbn [f_conns view epoll_server] in Hn.
    rewrite size_union by set_solver. rewrite size_singleton. split_and!; lia.
  - case_bool_decide as Hfd; [|discriminate E]. destruct (open_file m) as [[name c]|x|x]; cbn [obind] in E; [|discriminate E..].
    injection E as <-. unfold counted. cbn [numReqs conns sent]. rewrite length_app. cbn [length].
    assert (Hsz : size s.(conns) = S (size (s.(conns) ∖ {[fd]}))).
    { assert (Hsub : {[fd]} ⊆ s.(conns)) by set_solver. pose proof (subseteq_size _ _ Hsub) as Hle.
      rewrite size_difference by done. rewrite size_singleton in *. lia. }
    split_and!; lia.
  - injection E as <-. split; [split; [done|lia]|lia].
Qed.

Lemma batch_counted N evs : forall n s s', counted N n s -> run_batch evs s = Some (Done s') ->
  counted N (n + sum_list_with accepted evs) s' /\ (length s'.(sent) <= length s.(sent) + length evs)%nat.
Proof.
  induction evs as [|e evs IH]; intros n s s' Hs E; cbn [run_batch] in E.
  - injection E as <-. cbn. rewrite !Nat.add_0_r. split; [done|lia].
  - destruct (can e s) eqn:Hc; [|done]. cbn [handle epoll_server] in E. destruct (epoll_event e s) as [s1|x|x] eqn:Ee; [|discriminate E..].
    destruct (event_counted _ _ _ _ _ Hs Hc Ee) as [Hs1 Hl1]. destruct (IH _ _ _ Hs1 E) as [Hs' Hl'].
    cbn [sum_list_with length]. rewrite Nat.add_assoc. split; [done|lia].
Qed.

Lemma turn_counted N evs n s s' : counted N n s -> turn_of evs s = Some (Done s') ->
  counted N (n + sum_list_with accepted evs) s' /\ (length s'.(sent) <= length s.(sent) + LISTEN_BACKLOG)%nat.
Proof.
  intros Hs. unfold turn_of, ready. destruct (_ && _) eqn:Hr; [|discriminate]. intros E. destruct (batch_counted _ _ _ _ _ Hs E) as [H1 H2].
  apply andb_prop in Hr as [Hr _]. apply andb_prop in Hr as [Hr _]. apply Nat.leb_le in Hr. split; [done|lia].
Qed.

Lemma loop_counted N ws : forall n s s', counted N n s -> Z.of_nat (length s.(sent)) < N + Z.of_nat LISTEN_BACKLOG ->
  epoll_loop ws s = Some (Done s') ->
  counted N (n + sum_list_with accepted (events ws)) s' /\ Z.of_nat (length s'.(sent)) < N + Z.of_nat LISTEN_BACKLOG /\
  rtc (fstep fs) (view s) (view s').
Proof.
  induction ws as [|w ws IH]; intros n s s' Hs Hb E; cbn [epoll_loop] in E.
  - injection E as <-. cbn. rewrite Nat.add_0_r. done.
  - destruct (Z.leb_spec s.(numReqs) 0) as [|Hpos]; [discriminate E|]. unfold events. cbn [mbind list_bind]. fold (events ws). rewrite sum_list_with_app.
    destruct w as [| |evs]; [by apply IH|discriminate E|]. destruct (turn_of evs s) as [[s1|x|x]|] eqn:Et; [|discriminate E..].
    destruct (turn_counted _ _ _ _ _ Hs Et) as [Hs1 Hl1]. pose proof (turn_safe _ _ _ Et) as Hr. cbn iota in Hr.
    destruct (IH _ _ _ Hs1 ltac:(destruct Hs; lia) E) as (H1 & H2 & H3). split_and!; [|done|by etrans].
    by rewrite Nat.add_assoc.
Qed.

Lemma loop_crash ws : forall s why, epoll_loop ws s = Some (Crash why) -> exists fd m, EData fd (Some m) ∈ events ws /\ long m = true.
Proof.
  induction ws as [|w ws IH]; intros s why E; cbn [epoll_loop] in E; [discriminate E|].
  destruct (s.(numReqs) <=? 0); [discriminate E|]. unfold events. cbn [mbind list_bind]. fold (events ws).
  destruct w as [| |evs]; [by apply (IH s why)|discriminate E|]. destruct (turn_of evs s) as [[s1|x|x]|] eqn:Et; [|discriminate E| |discriminate E].
  - destruct (IH _ _ E) as (fd & m & H & Hl). exists fd, m. split; [apply elem_of_app; by right|done].
  - pose proof (turn_safe _ _ _ Et) as (e & He & Hl). destruct e as [|fd [m|]|]; [discriminate Hl| |discriminate Hl..].
    exists fd, m. split; [apply elem_of_app; by left|exact Hl].
Qed.

(** A message that is the name of a file is answered. *)
Definition names_file (e : epoll_ev) (x : Z * list Z * list Z) : Prop :=
  exists fd name c, e = EData fd (Some name) /\ Forall (fun c => c <> 0) name /\ (length name < BUFSIZ)%nat /\ fs name = Some c /\
    x = (fd, name, sendfile c).

Lemma open_file_ok name c : Forall (fun c => c <> 0) name -> (length name < BUFSIZ)%nat -> fs name = Some c -> open_file name = Done (name, c).
Proof.
  intros Hz Hl Hf. unfold open_file, received. rewrite take_ge by lia. destruct (BUFSIZ - length name)%nat as [|k] eqn:Ek; [lia|].
  cbn [replicate]. rewrite cstr_app by done. cbn [obind]. by rewrite Hf.
Qed.

Lemma batch_answers evs xs : Forall2 names_file evs xs -> forall s, NoDup (omap event_fd evs) ->
  Forall (fun fd => fd ∈ s.(conns)) (omap event_fd evs) ->
  exists s', run_batch evs s = Some (Done s') /\ s'.(sent) = s.(sent) ++ xs /\ s'.(numReqs) = s.(numReqs) - Z.of_nat (length evs).
Proof.
  induction 1 as [|e x evs xs (fd & name & c & -> & Hz & Hl & Hf & ->) _ IH]; intros s Hnd Hin.
  - exists s. rewrite app_nil_r. cbn. split_and!; [done|done|lia].
  - cbn [omap list_omap event_fd epoll_server] in Hnd, Hin. apply NoDup_cons in Hnd as [Hn Hnd]. apply Forall_cons in Hin as [Hfd Hin].
    destruct (IH (mkEpoll (s.(numReqs) - 1) (s.(conns) ∖ {[fd]}) (s.(sent) ++ [(fd, name, sendfile c)])) Hnd) as (s' & E & Hs & Hr).
    { apply Forall_forall. intros y Hy. rewrite Forall_forall in Hin. cbn [conns]. apply elem_of_difference. split; [by apply Hin|].
      rewrite elem_of_singleton. intros ->. by apply Hn. }
    exists s'. cbn [sent numReqs length] in *. split_and!; [|rewrite Hs, <- app_assoc; done|lia].
    cbn [run_batch can new_fd handle epoll_server epoll_event]. rewrite bool_decide_eq_true_2 by done. rewrite (open_file_ok name c Hz Hl Hf). exact E.
Qed.

End servers.

(** C31: the server on epoll, for every sequence of reports of [epoll_wait].  It uses a
    descriptor only while the connection is open, and leaves its array only for
    a message that fills it without a zero.  While it runs, every answer is the
    file that was asked for on that connection, [numReqs] is the requests that are left, and a
    connection is open until it is answered; the loop answers all the requests of a
    batch, so that it ends with fewer than 800 answers too many. *)
Theorem epoll_server_correct fs N ws r : 0 < N -> epoll_loop fs ws (epoll_start N) = Some r ->
  match r with
  | Done s =>
      rtc (fstep fs) (mkF ∅ []) (mkF s.(conns) s.(sent)) /\ Forall (good_answer fs) s.(sent) /\
      s.(numReqs) = N - Z.of_nat (length s.(sent)) /\ (size s.(conns) + length s.(sent) = sum_list_with accepted (events ws))%nat /\
      Z.of_nat (length s.(sent)) < N + 800 /\
      (forall evs xs, Forall2 (names_file fs) evs xs -> ready (HS := epoll_server fs) evs s = true ->
         exists s', turn_of (HS := epoll_server fs) evs s = Some (Done s') /\ s'.(sent) = s.(sent) ++ xs)
  | Crash _ => exists fd m, EData fd (Some m) ∈ events ws /\ long m = true
  | Fail _ => True
  end.
Proof.
  intros HN E. destruct r as [s|why|why]; [|done|by eapply loop_crash].
  assert (Hc : counted N 0 (epoll_start N)) by (split; cbn; [lia|by rewrite size_empty]).
  destruct (loop_counted fs N ws 0 _ _ Hc ltac:(cbn; lia) E) as ([H1 H2] & H3 & H4). split_and!; [exact H4| |exact H1|exact H2|exact H3|].
  - apply (fsteps_answers _ _ _ H4). constructor.
  - intros evs xs Hx Hr. unfold turn_of. rewrite Hr. unfold ready in Hr. apply andb_prop in Hr as [Hr Hin]. apply andb_prop in Hr as [_ Hnd].
    apply bool_decide_eq_true in Hnd. destruct (batch_answers fs evs xs Hx s Hnd) as (s' & Es & Hs & _); [|by exists s'].
    apply Forall_forall. intros fd Hfd. rewrite forallb_forall in Hin. apply (bool_decide_eq_true _), Hin. by apply list_elem_of_In.
Qed.

(** A client that connects and is answered in the next report. *)
Lemma epoll_server_correct_witness :
  let fs n := if decide (n = [97]) then Some ([116; 120]) else None in
  let ws := [Batch [EConn (Some 5)]; Interrupted; Batch [EConn (Some 6); EData 5 (Some ([97]))]] in
  exists s, epoll_loop fs ws (epoll_start 1) = Some (Done s) /\ s.(sent) = [(5, [97], [116; 120])] /\ s.(numReqs) = 0 /\ (size s.(conns) = 1)%nat.
Proof.
  intros fs ws. assert (E : exists s, epoll_loop fs ws (epoll_start 1) = Some (Done s) /\ s.(sent) = [(5, [97], [116; 120])])
    by (eexists; split; vm_compute; reflexivity).
  destruct E as (s & E & Es). exists s. pose proof (epoll_server_correct fs 1 ws (Done s) ltac:(lia) E) as (_ & _ & H1 & H2 & _).
  rewrite Es in *. cbn in H1, H2. split_and!; [exact E|reflexivity|lia|lia].
Defined.

(** A client that connects and closes ends the server: an empty message is the name of no
    file. *)
Lemma empty_message fs fd s : fs [] = None -> fd ∈ s.(conns) -> epoll_event fs (EData fd (Some [])) s = Fail "open"%string.
Proof.
  intros Hf Hfd. cbn [epoll_event]. rewrite bool_decide_eq_true_2 by done. unfold open_file, received. rewrite take_nil. cbn [app length].
  rewrite Nat.sub_0_r. destruct BUFSIZ eqn:E; [by vm_compute in E|]. cbn [replicate cstr]. cbn. by rewrite Hf.
Qed.

(** ** The server on libevent *)

Section libevent.
Context (fs : list Z -> option (list Z)).

(** [num_reqs], the bufferevents, what was put into their output buffers, and
    whether [event_base_loopexit] was called. *)
Record libevent := mkLib { num_reqs : Z; bevs : gset Z; output : list (Z * list Z * list Z); exiting : bool }.

(** The callbacks that [libevent] runs, with what [accept4] returns, the message
    that [bufferevent_read] takes, and the two bits of [error]. *)
Inductive callback := LAccept (cfd : option Z) | LRead (fd : Z) (m : list Z) | LError (fd : Z) (eof error : bool).

Definition do_accept (cfd : option Z) (s : libevent) : outcome string libevent :=
  match cfd with
  | None => Fail "accept4"%string
  | Some cfd => Done (mkLib s.(num_reqs) ({[cfd]} ∪ s.(bevs)) s.(output) s.(exiting))
  end.

Definition readcb (fd : Z) (m : list Z) (s : libevent) : outcome string libevent :=
  if bool_decide (fd ∈ s.(bevs)) then
    let* '(name, c) := open_file fs m in
    Done (mkLib s.(num_reqs) s.(bevs) (s.(output) ++ [(fd, name, c)]) s.(exiting))
  else Crash "bufferevent was freed"%string.

Definition errorcb (fd : Z) (eof error : bool) (s : libevent) : outcome string libevent :=
  if bool_decide (fd ∈ s.(bevs)) then
    let n := if eof then s.(num_reqs) - 1 else s.(num_reqs) in
    Done (mkLib n (s.(bevs) ∖ {[fd]}) s.(output) (s.(exiting) || (eof && (n =? 0))))
  else Crash "bufferevent was freed"%string.

Definition call (e : callback) (s : libevent) : outcome string libevent :=
  match e with LAccept cfd => do_accept cfd s | LRead fd m => readcb fd m s | LError fd eof error => errorcb fd eof error s end.

#[export] Instance libevent_server : FileServer fs libevent callback.
Proof.
  refine {| view s := mkF s.(bevs) s.(output);
            event_fd e := match e with LAccept _ => None | LRead fd _ | LError fd _ _ => Some fd end;
            new_fd e := match e with LAccept cfd => cfd | _ => None end;
            too_long e := match e with LRead _ m => long m | _ => false end;
            handle := call |}.
  - intros [[cfd|]|fd m|fd eof er] s s' E Hn; cbn [call do_accept] in E; unfold readcb, errorcb in E; [|discriminate E| |].
    + injection E as <-. apply rtc_once. constructor. by apply Hn.
    + case_bool_decide as Hfd; [|discriminate E]. destruct (open_file fs m) as [[name c]|e|e] eqn:Eo; cbn [obind] in E; [|discriminate E..].
      injection E as <-. apply rtc_once, (f_answer _ fd name c c); [done|by eapply open_file_fs|done|done].
    + case_bool_decide as Hfd; [|discriminate E]. injection E as <-. apply rtc_once. by constructor.
  - intros [[cfd|]|fd m|fd eof er] s s' x E Hx Hne; cbn [call do_accept] in E; unfold readcb, errorcb in E; [|discriminate E| |].
    + injection E as <-. cbn [f_conns bevs] in *. set_solver.
    + case_bool_decide as Hfd; [|discriminate E]. destruct (open_file fs m) as [[name c]|e|e] eqn:Eo; cbn [obind] in E; [|discriminate E..].
      by injection E as <-.
    + case_bool_decide as Hfd; [|discriminate E]. injection E as <-. cbn [f_conns bevs] in *. set_solver.
  - intros [[cfd|]|fd m|fd eof er] s why E Hin; cbn [call do_accept] in E; unfold readcb, errorcb in E; [discriminate E..| |];
      (case_bool_decide as Hfd; [|destruct Hfd; by apply Hin]); [|discriminate E].
    destruct (open_file fs m) as [[name c]|e|e] eqn:Eo; cbn [obind] in E; [discriminate E..|]. by eapply long_open.
Defined.

(** [event_base_dispatch]: the callbacks of one turn all run before the loop looks
    whether it is to end. *)
Fixpoint dispatch (turns : list (list callback)) (s : libevent) : option (outcome string libevent) :=
  match turns with
  | [] => Some (Done s)
  | evs :: turns =>
      if s.(exiting) then None
      else match turn_of evs s with Some (Done s) => dispatch turns s | r => r end
  end.

Definition libevent_start (num_reqs : Z) : libevent := mkLib num_reqs ∅ [] false.

(** The connections that ended. *)
Definition ends (e : callback) : nat := match e with LError _ true _ => 1 | _ => 0 end.

Definition lcounted (N : Z) (n : nat) (s : libevent) : Prop :=
  s.(num_reqs) = N - Z.of_nat n /\ (s.(exiting) = true <-> 0 < N <= Z.of_nat n).

Lemma call_counted N n e s s' : lcounted N n s -> call e s = Done s' -> lcounted N (n + ends e) s'.
Proof.
  intros [H1 H2] E. destruct e as [[cfd|]|fd m|fd eof er]; cbn [call do_accept ends] in *; unfold readcb, errorcb in E; try discriminate E.
  - injection E as <-. rewrite Nat.add_0_r. done.
  - case_bool_decide; [|discriminate E]. destruct (open_file fs m) as [[name c]|x|x]; cbn [obind] in E; [|discriminate E..].
    injection E as <-. rewrite Nat.add_0_r. done.
  - case_bool_decide; [|discriminate E]. injection E as <-. unfold lcounted. cbn [num_reqs exiting]. destruct eof; cbn [ends andb].
    + split; [lia|]. rewrite orb_true_iff, Z.eqb_eq, H2. lia.
    + rewrite orb_false_r, Nat.add_0_r. done.
Qed.

Lemma calls_counted N evs : forall n s s', lcounted N n s -> run_batch evs s = Some (Done s') -> lcounted N (n + sum_list_with ends evs) s'.
Proof.
  induction evs as [|e evs IH]; intros n s s' Hs E; cbn [run_batch] in E; [injection E as <-; by rewrite Nat.add_0_r|].
  destruct (can e s); [|discriminate E]. cbn [handle libevent_server] in E. destruct (call e s) as [s1|x|x] eqn:Ee; [|discriminate E..].
  cbn [sum_list_with]. rewrite Nat.add_assoc. eapply IH; [|exact E]. by eapply call_counted.
Qed.

(** The server on libevent: the answers are the files asked for, on connections
    that are open; the loop ends when as many connections have ended as requests
    were to be served, whether they had asked for a file or not, and never when none
    were to be served. *)
Lemma libevent_correct N turns s : dispatch turns (libevent_start N) = Some (Done s) ->
  rtc (fstep fs) (mkF ∅ []) (mkF s.(bevs) s.(output)) /\ Forall (good_answer fs) s.(output) /\
  s.(num_reqs) = N - Z.of_nat (sum_list_with ends (mjoin turns)) /\
  (s.(exiting) = true <-> 0 < N <= Z.of_nat (sum_list_with ends (mjoin turns))).
Proof.
  assert (H : forall turns n s0, lcounted N n s0 -> dispatch turns s0 = Some (Done s) ->
    rtc (fstep fs) (view s0) (view s) /\ lcounted N (n + sum_list_with ends (mjoin turns)) s).
  { clear. induction turns as [|evs turns IH]; intros n s0 Hs E; cbn [dispatch] in E.
    - injection E as <-. cbn. by rewrite Nat.add_0_r.
    - destruct (exiting s0); [discriminate E|]. destruct (turn_of evs s0) as [[s1|x|x]|] eqn:Et; [|discriminate E..].
      pose proof (turn_safe _ _ _ Et) as Hr. cbn iota in Hr. change (mjoin (evs :: turns)) with (evs ++ mjoin turns).
      rewrite sum_list_with_app, Nat.add_assoc. unfold turn_of in Et. destruct (ready evs s0); [|discriminate Et].
      destruct (IH _ _ (calls_counted _ _ _ _ _ Hs Et) E) as [H1 H2]. split; [by etrans|done]. }
  intros E. destruct (H turns 0%nat (libevent_start N)) as [H1 H2]; [split; cbn; [lia|split; [done|lia]]|exact E|].
  split_and!; [exact H1|apply (fsteps_answers _ _ _ H1); constructor|apply H2|apply H2].
Qed.

End libevent.

(** ** The connection of a client *)

(** [init_socket] of a client: [results] are those of the calls of [connect]; the
    number of calls that failed. *)
Fixpoint connect_loop (results : nat -> bool) (fuel : nat) (retry_connect : nat) : outcome string nat :=
  match fuel with
  | O => Crash "fuel"%string
  | S fuel =>
      if results retry_connect then Done retry_connect
      else if (S retry_connect =? 200)%nat then Fail "connect"%string
      else connect_loop results fuel (S retry_connect)
  end.

(** The loop ends after at most 200 calls, and fails only when all of them did. *)
Lemma connect_ends results :
  (exists n, (n < 200)%nat /\ connect_loop results 200 0 = Done n /\ results n = true /\ forall i, (i < n)%nat -> results i = false) \/
  (connect_loop results 200 0 = Fail "connect"%string /\ forall i, (i < 200)%nat -> results i = false).
Proof.
  assert (H : forall fuel k, (fuel + k = 200)%nat -> (0 < fuel)%nat -> (forall i, (i < k)%nat -> results i = false) ->
    (exists n, (n < 200)%nat /\ connect_loop results fuel k = Done n /\ results n = true /\ forall i, (i < n)%nat -> results i = false) \/
    (connect_loop results fuel k = Fail "connect"%string /\ forall i, (i < 200)%nat -> results i = false));
    [|apply (H 200%nat 0%nat); [done|lia|lia]].
  induction fuel as [|fuel IH]; intros k Hk Hf Hb; [lia|]. cbn [connect_loop]. destruct (results k) eqn:Er.
  - left. exists k. split_and!; [lia|done|done|done].
  - assert (Hb' : forall i, (i < S k)%nat -> results i = false) by (intros i Hi; destruct (decide (i = k)) as [->|]; [done|apply Hb; lia]).
    destruct (Nat.eqb_spec (S k) 200) as [E|E]; [right; split; [done|]; intros i Hi; apply Hb'; lia|]. apply IH; [lia|lia|exact Hb'].
Qed.
