(* ===== verification/Aio.v ===== *)
(** * Asynchronous input and output

    The experiments of [33/aio_gist] and [33/aio_intel].  The tests of [aio_read]
    run on a small file system with directories, inodes and descriptors; a request
    is in progress for any number of calls of [aio_error].  The example of
    [aio_intel] is a program and a device in parallel: a request reads or writes the
    array of the program at the moment it completes, and completion sets a flag that
    the program waits for. *)

From Stdlib Require Import ZArith Lia String.
From stdpp Require Import base tactics numbers list gmap strings relations.
From S2P Require Import Prelude Cstring Request.

Local Open Scope Z_scope.
Local Open Scope ostep_scope.

(** ** Files *)

(** A descriptor: its inode and its offset. *)
Record ofile := mkOfile { inode : nat; off : nat }.

(** The names, the contents of the inodes, and the descriptors. *)
Record fsys := mkFs { dir : gmap string nat; inodes : list (list Z); fds : list (option ofile) }.

Definition unlink (name : string) (s : fsys) : fsys := mkFs (delete name s.(dir)) s.(inodes) s.(fds).

(** A new descriptor for an inode. *)
Definition new_fd (i : nat) (s : fsys) : nat * fsys := (length s.(fds), mkFs s.(dir) s.(inodes) (s.(fds) ++ [Some (mkOfile i 0)])).

(** [open] with [O_CREAT | O_RDWR] and [O_EXCL] or [O_TRUNC]; [ok] tells whether
    the permissions suffice. *)
Definition open_creat (ok excl : bool) (name : string) (s : fsys) : option (nat * fsys) :=
  if negb ok then None
  else
    match s.(dir) !! name with
    | Some i => if excl then None else Some (new_fd i (mkFs s.(dir) (<[i := []]> s.(inodes)) s.(fds)))
    | None => Some (new_fd (length s.(inodes)) (mkFs (<[name := length s.(inodes)]> s.(dir)) (s.(inodes) ++ [[]]) s.(fds)))
    end.

(** [open] with [O_RDONLY] *)
Definition open_rdonly (name : string) (s : fsys) : option (nat * fsys) :=
  match s.(dir) !! name with Some i => Some (new_fd i s) | None => None end.

(** The bytes of an inode from an offset on. *)
Definition pread (i o n : nat) (s : fsys) : list Z := take n (drop o (default [] (s.(inodes) !! i))).

Definition read (fd n : nat) (s : fsys) : option (list Z * fsys) :=
  match s.(fds) !! fd with
  | Some (Some f) =>
      let bs := pread f.(inode) f.(off) n s in
      Some (bs, mkFs s.(dir) s.(inodes) (<[fd := Some (mkOfile f.(inode) (f.(off) + length bs))]> s.(fds)))
  | _ => None
  end.

(** [write]: the bytes take the place of what was there. *)
Definition write (fd : nat) (bs : list Z) (s : fsys) : option (nat * fsys) :=
  match s.(fds) !! fd with
  | Some (Some f) =>
      let c := default [] (s.(inodes) !! f.(inode)) in
      let c := take f.(off) c ++ replicate (f.(off) - length c) 0 ++ bs ++ drop (f.(off) + length bs) c in
      Some (length bs, mkFs s.(dir) (<[f.(inode) := c]> s.(inodes)) (<[fd := Some (mkOfile f.(inode) (f.(off) + length bs))]> s.(fds)))
  | _ => None
  end.

(** [lseek(fd, 0, SEEK_SET)] *)
Definition rewind (fd : nat) (s : fsys) : fsys :=
  match s.(fds) !! fd with
  | Some (Some f) => mkFs s.(dir) s.(inodes) (<[fd := Some (mkOfile f.(inode) 0)]> s.(fds))
  | _ => s
  end.

Definition close (fd : nat) (s : fsys) : fsys := mkFs s.(dir) s.(inodes) (<[fd := None]> s.(fds)).

(** ** A request *)

(** [aio_read] of [n] bytes at offset 0 into an array with [old], and the loop over
    [aio_error], which finds the request in progress [polls] times; the array and
    the result of [aio_return].  [aio_lio_opcode] is not looked at. *)
Fixpoint wait_request (polls : nat) (result : list Z * nat) : list Z * nat :=
  match polls with O => result | S polls => wait_request polls result end.

Definition aio_read_0 (fd n : nat) (old : list Z) (polls : nat) (s : fsys) : option (list Z * nat) :=
  match s.(fds) !! fd with
  | Some (Some f) =>
      let bs := pread f.(inode) 0 n s in
      Some (wait_request polls (bs ++ drop (length bs) old, length bs))
  | _ => None
  end.

(** ** The tests *)

Definition BUF_SIZE : nat := 111.

(** What a test prints, with its exit code and the file system behind it. *)
Record run := mkRun { exit_code : Z; output : list (string * list Z); files : fsys }.

(** [aio_read-test.c]: [garbage] is in the array that [read] is to fill, and [tmpfname] the name made from the number of the process. *)
Definition aio_read_test (ok : bool) (tmpfname : string) (garbage : list Z) (polls : nat) (s : fsys) : outcome string run :=
  let s := unlink tmpfname s in
  match open_creat ok true tmpfname s with
  | None => Done (mkRun 1 [("Error at open()"%string, [])] s)
  | Some (fd, s) =>
      let s := unlink tmpfname s in
      let buf := Z.of_nat <$> seq 0 BUF_SIZE in
      match write fd buf s with
      | None => Done (mkRun 1 [("Error at write()"%string, [])] s)
      | Some (n, s) =>
          if negb (n =? BUF_SIZE)%nat then Done (mkRun 1 [("Error at write()"%string, [])] s)
          else
            match read fd 1024 s with
            | None => Done (mkRun (-1) [("read file"%string, [])] s)
            | Some (bs, s) =>
                let* shown := cstr (bs ++ drop (length bs) garbage) in
                let out := [("read %s"%string, shown)] in
                match aio_read_0 fd BUF_SIZE (replicate BUF_SIZE 170) polls s with
                | None => Done (mkRun 2 (out ++ [("Error at aio_read()"%string, [])]) s)
                | Some (check, ret) =>
                    if negb (ret =? BUF_SIZE)%nat then Done (mkRun 2 (out ++ [("Error at aio_return()"%string, [])]) (close fd s))
                    else if bool_decide (check = buf) then Done (mkRun 0 (out ++ [("Test PASSED"%string, [])]) (close fd s))
                    else Done (mkRun 2 (out ++ [("read values are corrupted"%string, [])]) s)
                end
            end
      end
  end.

Definition MAXMSG : nat := 255.
Definition TARGET_STR : list Z := bytes "This is test".

(** [aio_read-test_mod.c], as it is built ([CHECK_FD], [USE_AIO]). *)
Definition aio_read_test_mod (ok : bool) (tmpfname : string) (polls : nat) (s : fsys) : outcome string run :=
  let s := unlink tmpfname s in
  match open_rdonly "test.txt" s with
  | None => Done (mkRun (-1) [("read file"%string, [])] s)
  | Some (fd, s) =>
      match read fd MAXMSG s with
      | None => Done (mkRun (-1) [("read file"%string, [])] s)
      | Some (bs, s) =>
          let* before := cstr (bs ++ drop (length bs) (replicate MAXMSG 0)) in
          let out := [("before write, read %s"%string, before)] in
          match open_creat ok false "test.txt" s with
          | None => Done (mkRun 1 (out ++ [("Error at open()"%string, [])]) s)
          | Some (fd, s) =>
              let out := out ++ [("read buf directly: %s"%string, TARGET_STR)] in
              match write fd TARGET_STR s with
              | None => Done (mkRun 1 (out ++ [("Error at write()"%string, [])]) s)
              | Some (n, s) =>
                  match aio_read_0 fd BUF_SIZE (replicate BUF_SIZE 0) polls s with
                  | None => Done (mkRun 2 (out ++ [("Error at aio_read()"%string, [])]) s)
                  | Some (check, ret) =>
                      if negb (ret =? length TARGET_STR)%nat then Done (mkRun 2 (out ++ [("Error at aio_return()"%string, [])]) (close fd s))
                      else
                        let* text := cstr check in
                        let out := out ++ [("read with check: %s"%string, text)] in
                        if negb (bool_decide (text = TARGET_STR)) then Crash "assert"%string
                        else
                          match read fd MAXMSG (rewind fd s) with
                          | None => Done (mkRun (-1) (out ++ [("read file"%string, [])]) s)
                          | Some (bs, s) =>
                              let* text := cstr (bs ++ drop (length bs) (replicate MAXMSG 0)) in
                              Done (mkRun 0 (out ++ [("read by `read` %s"%string, text); ("Test PASSED"%string, [])]) (close fd s))
                          end
                  end
              end
          end
      end
  end.

Lemma wait_request_same polls r : wait_request polls r = r.
Proof. induction polls; [done|exact IHpolls]. Qed.

Lemma insert_last {A} (l : list A) x y : <[length l := y]> (l ++ [x]) = l ++ [y].
Proof. induction l as [|z l IH]; [done|]. cbn. f_equal. exact IH. Qed.

Lemma lookup_last {A} (l : list A) x : (l ++ [x]) !! length l = Some x.
Proof. by rewrite lookup_app_r, Nat.sub_diag by lia. Qed.

(** A file behind its last descriptor, at its start and empty. *)
Lemma write_new d ins l i bs : ins !! i = Some [] ->
  write (length l) bs (mkFs d ins (l ++ [Some (mkOfile i 0)])) =
    Some (length bs, mkFs d (<[i := bs]> ins) (l ++ [Some (mkOfile i (length bs))])).
Proof.
  intros Hi. unfold write. cbn [fds inodes dir]. rewrite lookup_last. cbn [inode off]. rewrite Hi. cbn [default from_option id length].
  rewrite take_nil, drop_nil, app_nil_r. cbn [replicate app Nat.sub Nat.add]. by rewrite insert_last.
Qed.

Lemma read_last d ins l i o n c : ins !! i = Some c ->
  read (length l) n (mkFs d ins (l ++ [Some (mkOfile i o)])) =
    Some (take n (drop o c), mkFs d ins (l ++ [Some (mkOfile i (o + length (take n (drop o c))))])).
Proof. intros Hi. unfold read, pread. cbn [fds inodes dir]. rewrite lookup_last. cbn [inode off]. rewrite Hi. by rewrite insert_last. Qed.

Lemma aio_last d ins l i o n old polls c : ins !! i = Some c ->
  aio_read_0 (length l) n old polls (mkFs d ins (l ++ [Some (mkOfile i o)])) = Some (take n c ++ drop (length (take n c)) old, length (take n c)).
Proof. intros Hi. unfold aio_read_0, pread. cbn [fds inodes dir]. rewrite lookup_last. cbn [inode off]. rewrite Hi, wait_request_same. by rewrite drop_0. Qed.

(** The test passes however long the request takes, and leaves no file and no open
    descriptor behind; what it prints before is not what it wrote: the
    file is read from behind its end, and the array is printed as it was. *)
Lemma aio_read_test_ok tmpfname garbage shown polls s : cstr garbage = Done shown ->
  exists s', aio_read_test true tmpfname garbage polls s = Done (mkRun 0 [("read %s"%string, shown); ("Test PASSED"%string, [])] s') /\
    s'.(dir) = delete tmpfname s.(dir) /\ s'.(fds) = s.(fds) ++ [None].
Proof.
  intros Hg. destruct s as [d ins l]. unfold aio_read_test, open_creat. unfold unlink at 1. cbn [negb dir inodes fds]. unfold unlink at 1. cbn [dir inodes fds].
  rewrite lookup_delete_eq. unfold new_fd. cbn [dir inodes fds]. unfold unlink. cbn [dir inodes fds]. set (buf := Z.of_nat <$> seq 0 BUF_SIZE).
  rewrite write_new by apply lookup_last. change (length buf =? BUF_SIZE)%nat with true. cbn [negb].
  rewrite (read_last _ _ _ _ _ _ buf) by (rewrite insert_last; apply lookup_last). rewrite drop_ge, take_nil by done. cbn [app length]. rewrite drop_0, Hg. cbn [obind].
  rewrite (aio_last _ _ _ _ _ _ _ _ buf) by (rewrite insert_last; apply lookup_last). rewrite take_ge, drop_ge, app_nil_r by done.
  change (length buf =? BUF_SIZE)%nat with true. cbn [negb]. rewrite bool_decide_eq_true_2 by done. eexists. split; [reflexivity|].
  unfold close. cbn [dir fds]. split; [|apply insert_last]. by rewrite delete_insert_eq, delete_delete_eq.
Qed.

(** The changed test stops when the file is not there yet.  With a file of fewer than 255
    characters it passes, and the file has the text; the descriptor of the
    first reading stays open. *)
Lemma aio_read_test_mod_ok tmpfname polls s : tmpfname <> "test.txt"%string ->
  match s.(dir) !! "test.txt"%string with
  | None => exists s', aio_read_test_mod true tmpfname polls s = Done (mkRun (-1) [("read file"%string, [])] s')
  | Some i =>
      forall c, s.(inodes) !! i = Some c -> Forall (fun x => x <> 0) c -> (length c < MAXMSG)%nat ->
      exists s' o, aio_read_test_mod true tmpfname polls s =
          Done (mkRun 0 [("before write, read %s"%string, c); ("read buf directly: %s"%string, TARGET_STR); ("read with check: %s"%string, TARGET_STR);
                         ("read by `read` %s"%string, TARGET_STR); ("Test PASSED"%string, [])] s') /\
        s'.(dir) !! "test.txt"%string = Some i /\ s'.(inodes) !! i = Some TARGET_STR /\ s'.(fds) = s.(fds) ++ [Some (mkOfile i o); None]
  end.
Proof.
  intros Hn. destruct s as [d ins l]. cbn [dir inodes fds]. unfold aio_read_test_mod. cbv zeta.
  change (unlink tmpfname (mkFs d ins l)) with (mkFs (delete tmpfname d) ins l). unfold open_rdonly. cbn [dir inodes fds]. rewrite lookup_delete_ne by done. destruct (d !! "test.txt"%string) as [i|] eqn:Ed; [|eexists; reflexivity]. intros c Hc Hz Hl.
  unfold new_fd. cbn [dir inodes fds]. rewrite (read_last _ _ _ _ _ _ c) by done. rewrite drop_0, take_ge by lia.
  assert (Et : forall c : list Z, Forall (fun x => x <> 0) c -> (length c < MAXMSG)%nat -> cstr (c ++ drop (length c) (replicate MAXMSG 0)) = Done c).
  { clear. intros c Hz Hl. rewrite drop_replicate. destruct (MAXMSG - length c)%nat eqn:E; [lia|]. by apply cstr_app. }
  rewrite Et by done. cbn [obind]. unfold open_creat. cbn [negb dir inodes fds]. rewrite lookup_delete_ne, Ed by done. unfold new_fd. cbn [dir inodes fds].
  assert (Hi : (i < length ins)%nat) by (by eapply lookup_lt_Some). rewrite write_new by (by apply list_lookup_insert_eq).
  rewrite list_insert_insert_eq. rewrite (aio_last _ _ _ _ _ _ _ _ TARGET_STR) by (by apply list_lookup_insert_eq).
  change (take BUF_SIZE TARGET_STR) with TARGET_STR. change (length TARGET_STR =? length TARGET_STR)%nat with true. cbn [negb].
  assert (Ht : cstr (TARGET_STR ++ drop (length TARGET_STR) (replicate BUF_SIZE 0)) = Done TARGET_STR) by (vm_compute; reflexivity).
  rewrite Ht. cbn [obind]. rewrite bool_decide_eq_true_2 by done. cbn [negb].
  unfold rewind. cbn [fds dir inodes]. rewrite lookup_last. cbn [inode]. rewrite insert_last.
  rewrite (read_last _ _ _ _ _ _ TARGET_STR) by (by apply list_lookup_insert_eq).
  change (take MAXMSG (drop 0 TARGET_STR)) with TARGET_STR. assert (Hm : cstr (TARGET_STR ++ drop (length TARGET_STR) (replicate MAXMSG 0)) = Done TARGET_STR) by (vm_compute; reflexivity).
  rewrite Hm. cbn [obind]. eexists _, _. split; [reflexivity|]. unfold close. cbn [dir inodes fds]. split_and!.
  - by rewrite lookup_delete_ne.
  - by apply list_lookup_insert_eq.
  - by rewrite insert_last, <- app_assoc.
Qed.

(** ** The example of [aio_intel]

    The rows are what [do_compute] returns, numbers that are compared and
    copied only; [DIM_X] is the number of rows.  The file is new, and a request with the offset
    -1 appends to it.  [aio_flg] starts with 0 in [example_2.c] and
    with 1 in [example_2_orig.c]. *)

Section example.
Context {D : Type} {HD : EqDecision D}.
Variable row : nat -> list D.
Variable DIM_X : nat.

Inductive request := AWrite | AFsync | ARead (record : nat).

(** Where [main] is: [WAIT] and [aio_write] for row [i], [WAIT], [aio_fsync] and
    [WAIT] of the flushing, and [aio_read], [WAIT] and the comparison for row [i]. *)
Inductive place :=
| W_wait (i : nat) | W_write (i : nat) | F_wait | F_sync | F_wait_sync
| R_read (i : nat) | R_wait (i : nat) | R_check (i : nat) | Finished | Aborted.

(** The flag, the request in progress, the records of the file, and
    [aio_dat_tmp]. *)
Record example := mkEx { at_ : place; aio_flg : bool; request_ : option request; records : list (list D); aio_dat_tmp : list D }.

(** [main]: [None] while [WAIT] loops. *)
Definition main_step (s : example) : option example :=
  let 'mkEx a flg r recs tmp := s in
  match a with
  | W_wait i => if flg then Some (mkEx (W_write i) false r recs tmp) else None
  | W_write i => Some (mkEx (if (S i =? DIM_X)%nat then F_wait else W_wait (S i)) flg (Some AWrite) recs (row i))
  | F_wait => if flg then Some (mkEx F_sync false r recs tmp) else None
  | F_sync => Some (mkEx F_wait_sync flg (Some AFsync) recs tmp)
  | F_wait_sync => if flg then Some (mkEx (R_read 0) false r recs tmp) else None
  | R_read i => Some (mkEx (R_wait i) flg (Some (ARead i)) recs tmp)
  | R_wait i => if flg then Some (mkEx (R_check i) false r recs tmp) else None
  | R_check i =>
      if bool_decide (row i = tmp) then Some (mkEx (if (S i =? DIM_X)%nat then Finished else R_read (S i)) flg r recs tmp)
      else Some (mkEx Aborted flg r recs tmp)
  | Finished | Aborted => None
  end.

(** The device completes the request: it appends the array as it is now, or reads a
    record into it; then [aio_CompletionRoutine] sets the flag. *)
Definition io_step (s : example) : option example :=
  let 'mkEx a flg r recs tmp := s in
  match r with
  | None => None
  | Some AWrite => Some (mkEx a true None (recs ++ [tmp]) tmp)
  | Some AFsync => Some (mkEx a true None recs tmp)
  | Some (ARead k) => Some (mkEx a true None recs (default tmp (recs !! k)))
  end.

Definition estep (s s' : example) : Prop := main_step s = Some s' \/ io_step s = Some s'.

Definition estart (flg : bool) (tmp : list D) : example := mkEx (W_wait 0) flg None [] tmp.

(** A request in progress, or its completion not yet seen. *)
Definition in_flight (s : example) (r : request) (before after : example -> Prop) : Prop :=
  (s.(request_) = Some r /\ s.(aio_flg) = false /\ before s) \/ (s.(request_) = None /\ s.(aio_flg) = true /\ after s).

Definition rows (k : nat) : list (list D) := row <$> seq 0 k.

Definition written (k : nat) (s : example) : Prop := s.(records) = rows k.

(** Behind the write of row [k - 1]. *)
Definition wrote (k : nat) (s : example) : Prop :=
  match k with
  | O => s.(request_) = None /\ s.(aio_flg) = true /\ written 0 s
  | S j => in_flight s AWrite (fun s => written j s /\ s.(aio_dat_tmp) = row j) (written k)
  end.

Definition idle (s : example) : Prop := s.(request_) = None /\ s.(aio_flg) = false.

Definition einv (s : example) : Prop :=
  match s.(at_) with
  | W_wait i => (i < DIM_X)%nat /\ wrote i s
  | W_write i => (i < DIM_X)%nat /\ idle s /\ written i s
  | F_wait => wrote DIM_X s
  | F_sync => idle s /\ written DIM_X s
  | F_wait_sync => in_flight s AFsync (written DIM_X) (written DIM_X)
  | R_read i => (i < DIM_X)%nat /\ idle s /\ written DIM_X s
  | R_wait i => (i < DIM_X)%nat /\ in_flight s (ARead i) (written DIM_X) (fun s => written DIM_X s /\ s.(aio_dat_tmp) = row i)
  | R_check i => (i < DIM_X)%nat /\ idle s /\ written DIM_X s /\ s.(aio_dat_tmp) = row i
  | Finished => idle s /\ written DIM_X s
  | Aborted => False
  end.

Lemma rows_S k : rows (S k) = rows k ++ [row k].
Proof. unfold rows. rewrite seq_S, fmap_app. done. Qed.

Lemma rows_lookup k i : (i < k)%nat -> rows k !! i = Some (row i).
Proof. intros H. unfold rows. by rewrite list_lookup_fmap, lookup_seq_lt by done. Qed.

Lemma einv_main s s' : (0 < DIM_X)%nat -> einv s -> main_step s = Some s' -> einv s'.
Proof.
  intros Hd Hi E. destruct s as [a flg r recs tmp]. cbn [main_step] in E.
  destruct a as [i|i| | | |i|i|i| |]; unfold einv, wrote, in_flight, idle, written in *; cbn [at_ aio_flg request_ records aio_dat_tmp] in *.
  - destruct flg; [|discriminate E]. injection E as <-. cbn. destruct Hi as [Hl Hi]. destruct i; [naive_solver|]. naive_solver.
  - destruct Hi as (Hl & [-> ->] & ->). destruct (Nat.eqb_spec (S i) DIM_X) as [Ei|Ei]; injection E as <-; cbn.
    + rewrite <- Ei. naive_solver.
    + split; [lia|]. naive_solver.
  - destruct flg; [|discriminate E]. injection E as <-. cbn. destruct DIM_X; [lia|]. naive_solver.
  - injection E as <-. cbn. naive_solver.
  - destruct flg; [|discriminate E]. injection E as <-. cbn. naive_solver.
  - injection E as <-. cbn. naive_solver.
  - destruct flg; [|discriminate E]. injection E as <-. cbn. naive_solver.
  - destruct Hi as (Hl & [-> ->] & -> & ->). rewrite bool_decide_eq_true_2 in E by done.
    destruct (Nat.eqb_spec (S i) DIM_X) as [Ei|Ei]; injection E as <-; cbn; [naive_solver|]. split; [lia|]. naive_solver.
  - discriminate E.
  - done.
Qed.

Lemma einv_io s s' : einv s -> io_step s = Some s' -> einv s'.
Proof.
  intros Hi E. destruct s as [a flg r recs tmp]. cbn [io_step] in E. destruct r as [[| |k]|]; [..|discriminate E]; injection E as <-;
    (destruct a as [i|i| | | |i|i|i| |]; unfold einv, wrote, in_flight, idle, written in *; cbn [at_ aio_flg request_ records aio_dat_tmp] in *; try naive_solver).
  - destruct Hi as [Hl Hi]. split; [done|]. destruct i as [|i]; [naive_solver|]. right. split_and!; [done|done|]. rewrite rows_S. destruct Hi as [(_ & _ & -> & ->)|(? & _)]; done.
  - destruct DIM_X as [|k]; [naive_solver|]. right. split_and!; [done|done|]. rewrite rows_S. destruct Hi as [(_ & _ & -> & ->)|(? & _)]; done.
  - destruct i; naive_solver.
  - destruct DIM_X; naive_solver.
  - destruct i; naive_solver.
  - destruct DIM_X; naive_solver.
  - destruct Hi as [Hl Hi]. split; [done|]. right. destruct Hi as [(E & _ & ->)|(? & _)]; [|done]. injection E as <-. split_and!; [done|done|done|].
    by rewrite rows_lookup.
Qed.

(** The steps that are left, at most. *)
Definition eleft (s : example) : nat :=
  (match s.(at_) with
   | W_wait i => 3 * (DIM_X - i) + 4 * DIM_X + 8
   | W_write i => 3 * (DIM_X - i) + 4 * DIM_X + 7
   | F_wait => 4 * DIM_X + 8 | F_sync => 4 * DIM_X + 7 | F_wait_sync => 4 * DIM_X + 5
   | R_read i => 4 * (DIM_X - i) + 3 | R_wait i => 4 * (DIM_X - i) + 1 | R_check i => 4 * (DIM_X - i)
   | Finished | Aborted => 0
   end + match s.(request_) with Some _ => 1 | None => 0 end)%nat.

Lemma eleft_step s s' : einv s -> estep s s' -> (eleft s' < eleft s)%nat.
Proof.
  intros Hi [E|E]; destruct s as [a flg r recs tmp]; cbn [main_step io_step] in E.
  - destruct a as [i|i| | | |i|i|i| |]; unfold einv, wrote, in_flight, idle in Hi; cbn [at_ aio_flg request_ records aio_dat_tmp] in Hi;
      try (destruct flg; [|discriminate E]); try discriminate E; try (destruct (bool_decide _)); try (destruct (Nat.eqb_spec (S i) DIM_X)); injection E as <-;
      unfold eleft; cbn [at_ request_]; try (destruct r; cbn); try lia; naive_solver lia.
  - destruct r as [[| |k]|]; [..|discriminate E]; injection E as <-; unfold eleft; cbn [at_ request_]; lia.
Qed.

Lemma einv_reach tmp s : (0 < DIM_X)%nat -> rtc estep (estart true tmp) s -> einv s.
Proof.
  intros Hd. cut (forall a b, rtc estep a b -> einv a -> einv b); [|induction 1 as [|? ? ? [E|E] _ IH]; [done|..]; intros Ha; apply IH; [by eapply einv_main|by eapply einv_io]].
  intros H Hr. apply (H _ _ Hr). split; [done|]. by split_and!.
Qed.

Lemma eleft_bound s k s' : (0 < DIM_X)%nat -> einv s -> nsteps estep k s s' -> (k + eleft s' <= eleft s)%nat.
Proof.
  intros Hd Hi Hk. induction Hk as [|k a b c Hs _ IH]; [lia|]. pose proof (eleft_step _ _ Hi Hs).
  assert (einv b) by (destruct Hs; [by eapply einv_main|by eapply einv_io]). specialize (IH ltac:(done)). lia.
Qed.

(** The program never waits without a request in progress. *)
Lemma einv_progress s : einv s -> (forall s', ~ estep s s') -> s.(at_) = Finished.
Proof.
  intros Hi Hn. destruct s as [a flg r recs tmp].
  assert (Hm : main_step (mkEx a flg r recs tmp) = None) by (destruct (main_step _) as [s'|] eqn:E; [destruct (Hn s'); by left|done]).
  assert (Hio : io_step (mkEx a flg r recs tmp) = None) by (destruct (io_step _) as [s'|] eqn:E; [destruct (Hn s'); by right|done]).
  assert (Er : r = None) by (destruct r as [[]|]; done). subst r. cbn [main_step] in Hm.
  destruct a as [i|i| | | |i|i|i| |]; unfold einv, wrote, in_flight, idle in Hi; cbn [at_ aio_flg request_] in *; try done; try (by destruct (bool_decide _)).
  - destruct flg; [done|]. destruct i; naive_solver.
  - destruct flg; [done|]. destruct DIM_X; naive_solver.
  - destruct flg; [done|]. naive_solver.
  - destruct flg; [done|]. naive_solver.
Qed.

(** The example of [aio_intel].  When the flag is set at the start, as in [example_2_orig.c],
    every schedule of the program and the device ends, after a bounded number of steps, with all the rows written in
    order, read back and found equal: the array is never changed while a request
    uses it.  With the flag of [example_2.c], 0, the program can take no step: it waits
    for a request that it has not made. *)
Theorem aio_example_correct tmp : (0 < DIM_X)%nat ->
  (forall k s, nsteps estep k (estart true tmp) s -> (k <= 7 * DIM_X + 8)%nat) /\
  (forall s, rtc estep (estart true tmp) s -> s.(at_) <> Aborted /\
     ((forall s', ~ estep s s') -> s.(at_) = Finished /\ s.(records) = rows DIM_X /\ s.(request_) = None)) /\
  (forall s', ~ estep (estart false tmp) s').
Proof.
  intros Hd. split_and!.
  - intros k s Hk. pose proof (eleft_bound _ _ _ Hd (einv_reach tmp _ Hd (rtc_refl _ _)) Hk) as H. unfold eleft at 2 in H. cbn in H. lia.
  - intros s Hr. pose proof (einv_reach _ _ Hd Hr) as Hi. split; [intros E; unfold einv in Hi; by rewrite E in Hi|].
    intros Hn. pose proof (einv_progress _ Hi Hn) as Hf. unfold einv in Hi. rewrite Hf in Hi. destruct Hi as [[? _] ?]. done.
  - intros s' [E|E]; discriminate E.
Qed.

End example.

(** Two rows of one number. *)
Lemma aio_example_correct_witness :
  let row i := [Z.of_nat i] in
  (forall k s, nsteps (estep row 2) k (estart true []) s -> (k <= 22)%nat) /\ (forall s', ~ estep row 2 (estart false []) s').
Proof.
  intros row. destruct (aio_example_correct row 2 [] ltac:(lia)) as (H1 & _ & H3). split; [exact H1|exact H3].
Defined.
