(* ===== verification/UdpLib.v ===== *)
(** * Messages over UDP

    [UDP_Write], [wait_ack] and [UDP_Read] of [48/UDP-lib.h], as it is built (with
    [TEST_BIG_FILE] and [SEND_BEFORE_TIMER]): a long message is cut into datagrams
    of five bytes, each sent again when no acknowledgement comes in time.

    A buffer is the memory from the pointer to the end of its array.  Whether the
    acknowledgements come in time is a list: [true] for one that does, [false] for
    a timeout; at the end of the list [sem_timedwait] fails. *)

From Stdlib Require Import ZArith Lia String.
From stdpp Require Import base tactics numbers list.
From S2P Require Import Prelude Cstring Request.

Local Open Scope Z_scope.
Local Open Scope ostep_scope.

(** ** Definitions *)

Definition SMALL_BUFFER_SIZE : nat := 5.

Definition BEGIN_STR : list Z := bytes "0begin" ++ [0; 0; 0; 0].

Definition END_STR : list Z := bytes "end1" ++ [0; 0; 0; 0; 0; 0].

(** The datagrams sent, and the acknowledgements to come. *)
Record net := mkNet { sent : list (list Z); acks : list bool }.

(** [sendto(sfd, buffer, n, ...)] *)
Definition sendto (buffer : list Z) (n : Z) (s : net) : outcome string (Z * net) :=
  if Z.of_nat (length buffer) <? n then past_end
  else Done (n, mkNet (s.(sent) ++ [take (Z.to_nat n) buffer]) s.(acks)).

(** [strncmp(a, b, n) == 0] for the string [b]: up to [n] characters, or to the
    NUL of [b], are compared. *)
Fixpoint strncmp_eq (n : nat) (a b : list Z) : outcome string bool :=
  match n, a, b with
  | O, _, _ => Done true
  | S n, x :: a, y :: b => if x =? y then if x =? 0 then Done true else strncmp_eq n a b else Done false
  | _, _, _ => past_end
  end.

Definition is_ack (buffer : list Z) : outcome string bool := strncmp_eq 4 buffer (bytes "ack" ++ [0]).

Section write.
(** [SMALL_BUFFER_SIZE], which differs between the two libraries, and
    [UDP_Write], called by [wait_ack] to send again. *)
Variable size : nat.
Variable again : list Z -> Z -> net -> outcome string (Z * net).

Definition wait_ack (buffer : list Z) (nread orig_ret : Z) (s : net) : outcome string (Z * net) :=
  let* ack := is_ack buffer in
  if (ack : bool) then Done (orig_ret, s)
  else
    match s.(acks) with
    | [] => Fail "sem_timedwait"%string
    | true :: r => Done (orig_ret, mkNet s.(sent) r)
    | false :: r => again buffer nread (mkNet s.(sent) r)
    end.

(** The loop over the full datagrams: the rest of the buffer and [ret]. *)
Fixpoint send_loop (n : nat) (buffer : list Z) (ret : Z) (s : net) : outcome string (list Z * Z * net) :=
  match n with
  | O => Done (buffer, ret, s)
  | S n =>
      let* '(k, s) := sendto buffer (Z.of_nat size) s in
      let* '(ret, s) := wait_ack buffer (Z.of_nat size) (ret + k) s in
      send_loop n (drop size buffer) ret s
  end.

Definition write_once (buffer : list Z) (nread : Z) (s : net) : outcome string (Z * net) :=
  if Z.of_nat size <? nread then
    let* '(_, s) := sendto BEGIN_STR 6 s in
    let* '(_, s) := wait_ack BEGIN_STR 6 0 s in
    let* '(buffer, ret, s) := send_loop (Z.to_nat (Z.quot nread (Z.of_nat size))) buffer 0 s in
    let left_cnt := nread - ret in
    let* '(k, s) := sendto buffer (left_cnt + 1) s in
    let* '(ret, s) := wait_ack buffer (left_cnt + 1) (ret + k) s in
    let* '(_, s) := sendto END_STR 5 s in
    let* '(_, s) := wait_ack END_STR 5 ret s in
    Done (if ret >? nread then nread else ret, s)
  else
    let* '(ret, s) := sendto buffer nread s in
    wait_ack buffer nread ret s.

End write.

(** Every call for another attempt takes a timeout from the list, which bounds the
    nesting. *)
Fixpoint UDP_Write (fuel : nat) (buffer : list Z) (nread : Z) (s : net) : outcome string (Z * net) :=
  match fuel with
  | O => Crash "fuel"%string
  | S fuel => write_once SMALL_BUFFER_SIZE (UDP_Write fuel) buffer nread s
  end.

(** [UDP_Read]: datagrams that arrive.  The acknowledgements it sends are counted;
    what was in [tmp_buf] is [tmp]. *)
Fixpoint read_loop (tmp buffer : list Z) (recv_bytes : Z) (ack_num : nat) (ds : list (list Z)) : outcome string (list Z * Z * nat * list (list Z)) :=
  match ds with
  | [] => Fail "recvfrom"%string
  | d :: ds =>
      let d := take SMALL_BUFFER_SIZE d in
      let tmp := d ++ drop (length d) tmp in
      let* fin := strncmp_eq 5 tmp (bytes "end1" ++ [0]) in
      if (fin : bool) then Done (buffer, recv_bytes, S ack_num, ds)
      else
        let* text := cstr tmp in
        read_loop tmp (buffer ++ text) (recv_bytes + Z.of_nat (length d)) (S ack_num) ds
  end.

Definition UDP_Read (tmp : list Z) (ds : list (list Z)) : outcome string (list Z * Z * nat * list (list Z)) :=
  match ds with
  | [] => Fail "recvfrom"%string
  | d :: ds =>
      let* begin := strncmp_eq 7 (d ++ replicate 10 0) BEGIN_STR in
      if negb begin then
        let* ack := is_ack (d ++ replicate 10 0) in
        Done (d, Z.of_nat (length d), if (ack : bool) then 0%nat else if (length d =? 0)%nat then 0%nat else 1%nat, ds)
      else
        let* '(buffer, n, a, ds) := read_loop tmp [] 0 0 ds in
        let* ack := is_ack (buffer ++ replicate 10 0) in
        Done (buffer, n, (a + 1 + if (ack : bool) then 0 else 1)%nat, ds)
  end.

(** *** Opening and closing

    For an address of [getaddrinfo]: what [socket] returns, and whether [bind] or
    [connect] succeeds on it.  The named semaphore is its value, if it exists. *)
Record address := mkAddress { socket : Z; bind_ok : bool; connect_ok : bool }.

(** The socket, if one succeeds, and the sockets that were closed. *)
Fixpoint open_loop (server : bool) (rp : list address) (closed : list Z) : option Z * list Z :=
  match rp with
  | [] => (None, closed)
  | a :: rp =>
      if a.(socket) =? -1 then open_loop server rp closed
      else if server && a.(bind_ok) then (Some a.(socket), closed)
      else if negb server && a.(connect_ok) then (Some a.(socket), closed)
      else open_loop server rp (closed ++ [a.(socket)])
  end.

(** [sem_open(client_sem_name, O_CREAT, S_IRWXU, 0)] by the server, which leaves a
    semaphore that exists as it is, and [sem_open(client_sem_name, 0)] by a client. *)
Definition sem_open (server : bool) (client_sem : option Z) : option Z :=
  match client_sem with
  | Some v => Some v
  | None => if server then Some 0 else None
  end.

Definition UDP_Open (server : bool) (s : Z) (result : list address) (client_sem : option Z) : outcome string (Z * list Z * option Z) :=
  if negb (s =? 0) then Fail "getaddrinfo"%string
  else
    match open_loop server result [] with
    | (None, _) => Fail (if server then "Could not bind" else "Could not connect")%string
    | (Some sfd, closed) =>
        match sem_open server client_sem with
        | None => Fail "sem_open"%string
        | sem => Done (sfd, closed, sem)
        end
    end.

(** [sem_close] is taken to succeed on the semaphore that [UDP_Open] opened;
    [sem_unlink] fails when the name is gone. *)
Definition closeSem (client_sem : option Z) : outcome string (option Z) :=
  match client_sem with
  | None => Fail "sem_close"%string
  | Some _ => Done None
  end.

(** ** Without timeouts *)

Lemma strncmp_done b : forall n a, 0 ∈ a -> (n <= length b)%nat -> exists r, strncmp_eq n a b = Done r.
Proof.
  induction b as [|y b IH]; intros n a Ha Hn; (destruct n as [|n]; [by eexists|]); [cbn in Hn; lia|].
  destruct a as [|x a]; [by apply elem_of_nil in Ha|]. cbn [strncmp_eq]. destruct (Z.eqb_spec x y) as [->|]; [|by eexists].
  destruct (Z.eqb_spec y 0) as [->|Hy]; [by eexists|]. apply elem_of_cons in Ha as [Ha|Ha]; [congruence|].
  apply IH; [done|cbn in Hn; lia].
Qed.

(** An acknowledgement in time, which is not taken for a datagram [ack]. *)
Lemma wait_ok again buffer n ret ds k : 0 ∈ buffer ->
  exists k', (k <= k')%nat /\ wait_ack again buffer n ret (mkNet ds (replicate (S k) true)) = Done (ret, mkNet ds (replicate k' true)).
Proof.
  intros Hb. unfold wait_ack. destruct (strncmp_done (bytes "ack" ++ [0]) 4 buffer Hb ltac:(cbn; lia)) as [r Hr].
  unfold is_ack. rewrite Hr. cbn [obind]. destruct r; [exists (S k); split; [lia|done]|exists k; split; [lia|done]].
Qed.

Lemma sendto_ok buffer n ds acks : (n <= length buffer)%nat -> sendto buffer (Z.of_nat n) (mkNet ds acks) = Done (Z.of_nat n, mkNet (ds ++ [take n buffer]) acks).
Proof. intros H. unfold sendto. rewrite (proj2 (Z.ltb_ge _ _)) by lia. by rewrite Nat2Z.id. Qed.

(** The full datagrams of a message. *)
Fixpoint pieces (size n : nat) (msg : list Z) : list (list Z) :=
  match n with O => [] | S n => take size msg :: pieces size n (drop size msg) end.

Lemma pieces_join size n : forall msg, mjoin (pieces size n msg) ++ drop (size * n) msg = msg.
Proof.
  induction n as [|n IH]; intros msg; [by rewrite Nat.mul_0_r|]. cbn [pieces].
  change (mjoin (take size msg :: pieces size n (drop size msg))) with (take size msg ++ mjoin (pieces size n (drop size msg))).
  replace (size * S n)%nat with (size + size * n)%nat by lia. rewrite <- app_assoc, <- drop_drop, IH. apply take_drop.
Qed.

Lemma pieces_length size n : forall msg, (size * n <= length msg)%nat -> Forall (fun m => length m = size) (pieces size n msg).
Proof.
  induction n as [|n IH]; intros msg Hl; cbn [pieces]; [constructor|]. constructor; [rewrite length_take; lia|]. apply IH. rewrite length_drop. lia.
Qed.

Lemma send_loop_ok size again n : forall msg ret ds k, (size * n <= length msg)%nat -> forall mem, 0 ∈ mem ->
  exists k', (k <= k')%nat /\ send_loop size again n (msg ++ mem) ret (mkNet ds (replicate (n + k) true)) =
    Done (drop (size * n) msg ++ mem, ret + Z.of_nat (size * n), mkNet (ds ++ pieces size n msg) (replicate k' true)).
Proof.
  induction n as [|n IH]; intros msg ret ds k Hl mem Hm; cbn [send_loop].
  - exists k. split; [lia|]. rewrite Nat.mul_0_r, drop_0, app_nil_r. do 3 f_equal. lia.
  - assert (Hmem : 0 ∈ msg ++ mem) by (apply elem_of_app; by right).
    rewrite (sendto_ok (msg ++ mem) size) by (rewrite length_app; lia). cbn [obind Nat.add].
    destruct (wait_ok again (msg ++ mem) (Z.of_nat size) (ret + Z.of_nat size) (ds ++ [take size (msg ++ mem)]) (n + k) Hmem) as (k1 & Hk1 & ->). cbn [obind].
    rewrite take_app_le, drop_app_le by lia.
    destruct (IH (drop size msg) (ret + Z.of_nat size) (ds ++ [take size msg]) (k1 - n)%nat ltac:(rewrite length_drop; lia) mem Hm) as (k' & Hk' & E).
    replace (n + (k1 - n))%nat with k1 in E by lia. rewrite E. exists k'. split; [lia|].
    rewrite drop_drop. replace (size + size * n)%nat with (size * S n)%nat by lia. cbn [pieces]. rewrite <- app_assoc. do 3 f_equal. lia.
Qed.

(** The datagrams of a message. *)
Definition datagrams (size : nat) (msg : list Z) : list (list Z) :=
  let q := (length msg / size)%nat in
  if (size <? length msg)%nat then [bytes "0begin"] ++ pieces size q msg ++ [drop (size * q) msg ++ [0]] ++ [bytes "end1" ++ [0]] else [msg].

Lemma div_bounds size n : (0 < size)%nat -> (size * (n / size) <= n < size * (n / size) + size)%nat.
Proof. intros H. pose proof (Nat.div_mod_eq n size). pose proof (Nat.mod_upper_bound n size ltac:(lia)). lia. Qed.

Lemma write_ok size again msg mem k : (0 < size)%nat ->
  exists k', write_once size again (msg ++ 0 :: mem) (Z.of_nat (length msg)) (mkNet [] (replicate (length msg / size + 3 + k) true)) =
    Done (Z.of_nat (length msg), mkNet (datagrams size msg) (replicate k' true)).
Proof.
  intros Hs. assert (Hmem : forall l, 0 ∈ l ++ 0 :: mem) by (intros l; apply elem_of_app; right; left).
  unfold write_once, datagrams. cbv zeta. destruct (Nat.ltb_spec size (length msg)) as [Hl|Hl].
  - rewrite (proj2 (Z.ltb_lt _ _)) by lia.
    rewrite Z.quot_div_nonneg by lia. rewrite <- Nat2Z.inj_div, Nat2Z.id.
    set (q := (length msg / size)%nat).
    pose proof (div_bounds size (length msg) Hs) as Hq. fold q in Hq.
    rewrite (sendto_ok BEGIN_STR 6) by (cbn; lia). cbn [obind].
    destruct (wait_ok again BEGIN_STR 6 0 ([] ++ [take 6 BEGIN_STR]) (q + 2 + k)) as (k1 & Hk1 & E1); [apply list_elem_of_In; cbn; tauto|].
    replace (q + 3 + k)%nat with (S (q + 2 + k)) by lia. rewrite E1. cbn [obind].
    destruct (send_loop_ok size again q msg 0 ([] ++ [take 6 BEGIN_STR]) (k1 - q)%nat ltac:(lia) (0 :: mem) ltac:(left)) as (k2 & Hk2 & E2).
    replace (q + (k1 - q))%nat with k1 in E2 by lia. rewrite E2. cbn [obind].
    replace (Z.of_nat (length msg) - (0 + Z.of_nat (size * q)) + 1) with (Z.of_nat (length (drop (size * q) msg) + 1)) by (rewrite length_drop; lia).
    rewrite sendto_ok by (rewrite length_app; cbn; lia). cbn [obind].
    destruct k2 as [|[|k2]]; [lia|lia|].
    destruct (wait_ok again (drop (size * q) msg ++ 0 :: mem) (Z.of_nat (length (drop (size * q) msg) + 1))
      (0 + Z.of_nat (size * q) + Z.of_nat (length (drop (size * q) msg) + 1))
      ((([] ++ [take 6 BEGIN_STR]) ++ pieces size q msg) ++ [take (length (drop (size * q) msg) + 1) (drop (size * q) msg ++ 0 :: mem)]) (S k2) (Hmem _)) as (k3 & Hk3 & ->).
    cbn [obind]. rewrite (sendto_ok END_STR 5) by (cbn; lia). cbn [obind]. destruct k3 as [|k3]; [lia|].
    match goal with |- context [wait_ack again END_STR 5 ?r (mkNet ?d _)] =>
      destruct (wait_ok again END_STR 5 r d k3) as (k4 & _ & ->); [apply list_elem_of_In; cbn; tauto|] end.
    cbn [obind]. exists k4. rewrite take_app_ge by lia.
    replace (length (drop (size * q) msg) + 1 - length (drop (size * q) msg))%nat with 1%nat by lia. rewrite length_drop.
    do 2 f_equal; [destruct (Z.gtb_spec (0 + Z.of_nat (size * q) + Z.of_nat (length msg - size * q + 1)) (Z.of_nat (length msg))); lia|].
    cbn [app take]. rewrite <- !app_assoc. done.
  - rewrite (proj2 (Z.ltb_ge _ _)) by lia. rewrite sendto_ok by (rewrite length_app; lia). cbn [obind].
    replace (length msg / size + 3 + k)%nat with (S (length msg / size + 2 + k)) by lia.
    destruct (wait_ok again (msg ++ 0 :: mem) (Z.of_nat (length msg)) (Z.of_nat (length msg)) ([] ++ [take (length msg) (msg ++ 0 :: mem)]) (length msg / size + 2 + k) (Hmem _)) as (k' & _ & E).
    rewrite E. exists k'. cbn [app]. by rewrite take_app_length.
Qed.

(** ** Reading *)

(** A datagram without NULs, with the zeros of the buffer behind it, compared with
    a string. *)
Lemma strncmp_string s rest : Forall (fun c => c <> 0) s -> forall n d, (length s < n)%nat -> Forall (fun c => c <> 0) d ->
  strncmp_eq n (d ++ 0 :: rest) (s ++ [0]) = Done (bool_decide (d = s)).
Proof.
  induction 1 as [|y s Hy _ IH]; intros n d Hn Hd; (destruct n as [|n]; [cbn in Hn; lia|]); destruct Hd as [|x d Hx Hd]; cbn [app strncmp_eq].
  - done.
  - rewrite (proj2 (Z.eqb_neq x 0)) by done. done.
  - rewrite (proj2 (Z.eqb_neq 0 y)) by congruence. done.
  - destruct (Z.eqb_spec x y) as [->|Hne].
    + rewrite (proj2 (Z.eqb_neq y 0)) by done. rewrite IH by (done || (cbn in Hn; lia)). f_equal. apply bool_decide_ext. split; [by intros ->|by intros [= ->]].
    + f_equal. symmetry. apply bool_decide_eq_false. congruence.
Qed.

Lemma cstr_full d : Forall (fun c => c <> 0) d -> exists w, cstr d = Crash w.
Proof.
  induction 1 as [|c d Hc _ [w IH]]; [by eexists|]. cbn [cstr]. rewrite (proj2 (Z.eqb_neq c 0)) by done. rewrite IH. by eexists.
Qed.

(** A datagram that fills [tmp_buf] has no NUL behind it. *)
Lemma read_loop_full d ds tmp buffer n a : length d = 5%nat -> length tmp = 5%nat -> Forall (fun c => c <> 0) d ->
  exists w, read_loop tmp buffer n a (d :: ds) = Crash w.
Proof.
  intros Hl Ht Hd. cbn [read_loop]. unfold SMALL_BUFFER_SIZE. rewrite take_ge by lia. rewrite drop_ge by lia. rewrite app_nil_r.
  destruct (cstr_full d Hd) as [w Hw]. do 5 (destruct d as [|? d]; [done|]). destruct d; [|done].
  repeat match goal with H : Forall _ (_ :: _) |- _ => apply Forall_cons in H as [? ?] end.
  assert (Hf : exists r, strncmp_eq 5 [z; z0; z1; z2; z3] (bytes "end1" ++ [0]) = Done r /\ r = false).
  { cbn. repeat (case_match; try by eexists). all: bool_to_prop; try congruence. }
  destruct Hf as (r & -> & ->). cbn [obind]. rewrite Hw. by eexists.
Qed.

(** A short message is returned and acknowledged. *)
Lemma read_short msg tmp ds : Forall (fun c => c <> 0) msg -> (length msg <= 5)%nat -> msg <> [] -> msg <> bytes "ack" ->
  UDP_Read tmp (msg :: ds) = Done (msg, Z.of_nat (length msg), 1%nat, ds).
Proof.
  intros Hz Hl Hne Hack. unfold UDP_Read. change (replicate 10 0) with (0 :: replicate 9 0).
  assert (E1 : strncmp_eq 7 (msg ++ 0 :: replicate 9 0) (bytes "0begin" ++ [0]) = Done (bool_decide (msg = bytes "0begin")))
    by (apply strncmp_string; [repeat (constructor; [done|]); constructor|vm_compute; lia|done]).
  assert (Eb : strncmp_eq 7 (msg ++ 0 :: replicate 9 0) BEGIN_STR = Done (bool_decide (msg = bytes "0begin"))).
  { rewrite <- E1. clear. generalize (msg ++ 0 :: replicate 9 0). intros l. unfold BEGIN_STR. cbn.
    repeat (destruct l as [|? l]; cbn; [done|]; case_match; [|done]; case_match; [done|]). destruct l; cbn; [done|]. by repeat case_match. }
  rewrite Eb, bool_decide_eq_false_2 by (intros E; rewrite E in Hl; cbn in Hl; lia). cbn [obind negb].
  assert (E2 : is_ack (msg ++ 0 :: replicate 9 0) = Done (bool_decide (msg = bytes "ack")))
    by (apply strncmp_string; [repeat (constructor; [done|]); constructor|vm_compute; lia|done]).
  rewrite E2.
  rewrite bool_decide_eq_false_2 by done. cbn [obind]. destruct msg; done.
Qed.

(** ** Properties *)

(** Messages over UDP without timeouts.  [UDP_Write] sends a message of up to
    five bytes as it is; a longer one between a datagram that begins it and one
    that ends it, in datagrams that join to the message and a NUL; it returns the
    length of the message.  [UDP_Read] of a short message, other than the two words
    of the protocol, returns it and acknowledges it once; but of a long one, as
    [UDP_Write] sends it, it copies a datagram of five characters with no NUL behind
    them as a string, past the end of its array. *)
Lemma udp_messages fuel msg mem k tmp :
  Forall (fun c => c <> 0) msg ->
  (exists acks, UDP_Write (S fuel) (msg ++ 0 :: mem) (Z.of_nat (length msg)) (mkNet [] (replicate (length msg / 5 + 3 + k) true)) =
     Done (Z.of_nat (length msg), mkNet (datagrams 5 msg) acks)) /\
  (if (5 <? length msg)%nat then
     (exists ms r, datagrams 5 msg = [bytes "0begin"] ++ ms ++ [r] ++ [bytes "end1" ++ [0]] /\ mjoin ms ++ r = msg ++ [0] /\ (length r <= 5)%nat /\
        Forall (fun m => length m = 5%nat) ms) /\
     (length tmp = 5%nat -> exists w, UDP_Read tmp (datagrams 5 msg) = Crash w)
   else
     msg <> [] -> msg <> bytes "ack" -> UDP_Read tmp (datagrams 5 msg) = Done (msg, Z.of_nat (length msg), 1%nat, [])).
Proof.
  intros Hz. split.
  { cbn [UDP_Write]. destruct (write_ok SMALL_BUFFER_SIZE (UDP_Write fuel) msg mem k ltac:(unfold SMALL_BUFFER_SIZE; lia)) as [k' E]. by eexists. }
  unfold datagrams. cbv zeta. destruct (Nat.ltb_spec 5 (length msg)) as [Hl|Hl].
  - set (q := (length msg / 5)%nat).
    pose proof (div_bounds 5 (length msg) ltac:(lia)) as Hq. fold q in Hq.
    split.
    + exists (pieces 5 q msg), (drop (5 * q) msg ++ [0]). split_and!; [done|by rewrite app_assoc, pieces_join|rewrite length_app, length_drop; cbn [length]; lia|].
      apply pieces_length. lia.
    + intros Ht. unfold UDP_Read. cbn [app]. change (strncmp_eq 7 (bytes "0begin" ++ replicate 10 0) BEGIN_STR) with (@Done string bool true).
      cbn [obind negb]. destruct q as [|q]; [lia|]. cbn [pieces app].
      destruct (read_loop_full (take 5 msg) (pieces 5 q (drop 5 msg) ++ [drop (5 * S q) msg ++ [0]; bytes "end1" ++ [0]]) tmp [] 0 0) as [w E];
        [rewrite length_take; lia|done|by apply Forall_take|]. cbn [app] in E. rewrite E. by eexists.
  - intros Hne Hack. by apply read_short.
Qed.

Lemma udp_messages_witness :
  exists acks, UDP_Write 1 (bytes "first hello" ++ [0; 0]) 11 (mkNet [] (replicate 5 true)) =
    Done (11, mkNet [bytes "0begin"; bytes "first"; bytes " hell"; bytes "o" ++ [0]; bytes "end1" ++ [0]] acks).
Proof.
  exact (proj1 (udp_messages 0 (bytes "first hello") [0] 0 [] ltac:(repeat (constructor; [discriminate|]); constructor))).
Defined.

(** A timeout.  The number of bytes sent starts again with the datagram that is
    sent twice: behind the second datagram of [first hello] too many bytes are
    counted as left, and [UDP_Write] sends seven bytes from the last character on.
    When the datagram that begins a message is sent again it is itself taken for a
    long message. *)
Lemma udp_timeout :
  (exists acks, UDP_Write 2 (bytes "first hello" ++ replicate 10 0) 11 (mkNet [] [true; true; false; true; true; true]) =
     Done (11, mkNet [bytes "0begin"; bytes "first"; bytes " hell"; bytes " hell"; bytes "o" ++ replicate 6 0; bytes "end1" ++ [0]] acks)) /\
  UDP_Write 2 (bytes "first hello" ++ [0]) 11 (mkNet [] [true; true; false; true; true; true]) = past_end /\
  (exists acks, UDP_Write 2 (bytes "longer" ++ replicate 10 0) 6 (mkNet [] (false :: replicate 9 true)) =
     Done (6, mkNet [bytes "0begin"; bytes "0begin"; bytes "0begi"; bytes "n" ++ [0]; bytes "end1" ++ [0];
                     bytes "longe"; bytes "r" ++ [0]; bytes "end1" ++ [0]] acks)).
Proof. split_and!; [eexists; vm_compute; reflexivity|vm_compute; reflexivity|eexists; vm_compute; reflexivity]. Qed.

(** ** Opening *)

(** The address serves: its socket can be made and bound, or connected. *)
Definition usable (server : bool) (a : address) : bool := negb (a.(socket) =? -1) && (if server then a.(bind_ok) else a.(connect_ok)).

(** The sockets made for the addresses. *)
Definition sockets (l : list address) : list Z := filter (fun s => s <> -1) (map socket l).

Lemma open_loop_spec server l : forall closed,
  (exists a l1 l2, l = l1 ++ a :: l2 /\ Forall (fun b => usable server b = false) l1 /\ usable server a = true /\
     open_loop server l closed = (Some a.(socket), closed ++ sockets l1)) \/
  (Forall (fun b => usable server b = false) l /\ open_loop server l closed = (None, closed ++ sockets l)).
Proof.
  induction l as [|a l IH]; intros closed; [right; split; [constructor|by rewrite app_nil_r]|]. cbn [open_loop].
  assert (Hs : forall l1, sockets (a :: l1) = (if a.(socket) =? -1 then [] else [a.(socket)]) ++ sockets l1).
  { intros l1. unfold sockets. cbn [map]. destruct (Z.eqb_spec a.(socket) (-1)) as [E|E]; [by rewrite filter_cons_False by (rewrite E; tauto)|by rewrite filter_cons_True by done]. }
  destruct (usable server a) eqn:Hu.
  - left. exists a, [], l. split_and!; [done|constructor|done|]. unfold usable in Hu. apply andb_true_iff in Hu as [H1 H2]. apply negb_true_iff in H1.
    rewrite H1. cbn [sockets map]. change (sockets []) with (@nil Z). rewrite app_nil_r. destruct server; cbn [andb negb]; by rewrite H2.
  - assert (E : (if a.(socket) =? -1 then open_loop server l closed else
       if server && a.(bind_ok) then (Some a.(socket), closed) else if negb server && a.(connect_ok) then (Some a.(socket), closed) else open_loop server l (closed ++ [a.(socket)]))
       = open_loop server l (closed ++ (if a.(socket) =? -1 then [] else [a.(socket)]))).
    { unfold usable in Hu. destruct (a.(socket) =? -1); cbn [negb andb] in Hu; [by rewrite app_nil_r|]. destruct server; cbn [andb negb]; by rewrite Hu. }
    rewrite E. destruct (IH (closed ++ (if a.(socket) =? -1 then [] else [a.(socket)]))) as [(b & l1 & l2 & -> & H1 & H2 & ->)|[H1 ->]].
    + left. exists b, (a :: l1), l2. split_and!; [done|by constructor|done|]. by rewrite Hs, app_assoc.
    + right. split; [by constructor|]. by rewrite Hs, app_assoc.
Qed.

(** [UDP_Open].  When the names resolve, it takes the first address whose socket
    can be made and bound (for a client, connected); of the sockets made before it
    every one is closed and no other; it fails exactly when no address serves or,
    for a client, no server has made the semaphore.  A server that finds an old
    semaphore keeps its value; [closeSem] removes it, and the next server starts
    from zero. *)
Lemma udp_open_spec server l sem :
  match UDP_Open server 0 l sem with
  | Done (sfd, closed, sem') =>
      (exists a l1 l2, l = l1 ++ a :: l2 /\ Forall (fun b => usable server b = false) l1 /\ usable server a = true /\
         sfd = a.(socket) /\ closed = sockets l1) /\
      sem' = Some (default 0 sem) /\
      closeSem sem' = Done None /\ sem_open true None = Some 0
  | Fail _ => Forall (fun b => usable server b = false) l \/ (server = false /\ sem = None)
  | Crash _ => False
  end.
Proof.
  unfold UDP_Open. cbn [negb Z.eqb]. destruct (open_loop_spec server l []) as [(a & l1 & l2 & -> & H1 & H2 & ->)|[H1 ->]]; [|by left].
  destruct sem as [v|]; cbn [sem_open]; [by split_and!; [exists a, l1, l2|..]|]. destruct server; [by split_and!; [exists a, l1, l2|..]|by right].
Qed.
