(* ===== verification/UdpAsync.v ===== *)
(** * Numbered messages over UDP with io_uring

    [48/UDP-lib_async.h], as it is built (with [ASYNC], [ASYNC_SEQ],
    [TEST_BIG_FILE], [SEND_BEFORE_TIMER]): a client hands its requests to a ring
    and sends a long message in numbered pieces; the server checks the numbers.
    [48/UDP-lib_async_also_server.h], a copy whose [UDP_Read] goes through a pointer
    that was never set, is not modelled.

    The ring lies outside the repository: the model takes the results of the
    requests as a list, and completions in the order of the requests.  What is
    waited for and never comes, a result or a datagram, is a [Fail].  The kernel
    is taken to copy a datagram when the request is submitted, before the buffer on
    the stack is used again. *)

From Stdlib Require Import ZArith Lia String.
From stdpp Require Import base tactics numbers list.
From S2P Require Import Prelude Cstring Request UdpLib.

Local Open Scope Z_scope.
Local Open Scope ostep_scope.

(** ** Definitions *)

Definition SMALL_BUFFER_SIZE : nat := 10.

Definition NUM_BUFFER_SIZE : nat := 4.

Definition CONTENT_SIZE : nat := SMALL_BUFFER_SIZE - NUM_BUFFER_SIZE.

Definition LISTEN_BACKLOG : nat := 2.

(** *** The client *)

Inductive io_op := IORING_OP_NOP | IORING_OP_CONNECT | IORING_OP_SEND.

(** The globals: [io_op] of the entries of [data_arr]; the entries whose requests
    are in the ring and the results to come; the datagrams to arrive and those
    sent. *)
Record client := mkClient {
  seq_cnt : nat; data_arr : list io_op; send_restore_buff : list (list Z);
  ring : list nat; results : list Z; inbox : list (list Z); out : list (list Z) }.

Definition blocked {A} (what : string) : outcome string A := Fail what.

(** [io_uring_wait_cqe]: the result and the entry of the completion at the head of
    the queue, where it stays until it is seen. *)
Definition io_uring_wait_cqe (c : client) : outcome string (Z * nat) :=
  match c.(ring), c.(results) with
  | i :: _, res :: _ => Done (res, i)
  | _, _ => blocked "io_uring_wait_cqe"
  end.

Definition io_uring_cqe_seen (c : client) : client :=
  mkClient c.(seq_cnt) c.(data_arr) c.(send_restore_buff) (tail c.(ring)) (tail c.(results)) c.(inbox) c.(out).

Definition check_cqe (c : client) : outcome string (Z * nat) :=
  let* '(res, i) := io_uring_wait_cqe c in
  if res <? 0 then Fail "I/O error"%string else Done (res, i).

(** [recvfrom] into an array of [SMALL_BUFFER_SIZE] that held [old]. *)
Definition recvfrom (old : list Z) (inbox : list (list Z)) : outcome string (list Z * nat * list (list Z)) :=
  match inbox with
  | [] => blocked "recvfrom"
  | d :: inbox => let d := take SMALL_BUFFER_SIZE d in Done (d ++ drop (length d) old, length d, inbox)
  end.

(** [strsep(&p, "_")]: the position of the delimiter, where it writes a NUL, or
    [None] when the string has none, which makes [p] [NULL]. *)
Fixpoint strsep_at (a : list Z) : outcome string (option nat) :=
  match a with
  | [] => past_end
  | c :: a => if c =? 0 then Done None else if c =? 95 then Done (Some 0%nat) else let* r := strsep_at a in Done (S <$> r)
  end.

Definition prep_connect (c : client) : client :=
  mkClient c.(seq_cnt) (<[c.(seq_cnt) := IORING_OP_CONNECT]> c.(data_arr)) c.(send_restore_buff)
    (c.(ring) ++ [c.(seq_cnt)]) c.(results) c.(inbox) c.(out).

(** The globals as [UDP_Open] sets them, and with the request to connect of a
    client. *)
Definition globals_init (results : list Z) (inbox : list (list Z)) : client :=
  mkClient 0 (replicate LISTEN_BACKLOG IORING_OP_NOP) (replicate LISTEN_BACKLOG (replicate 20 0)) [] results inbox [].

Definition client_init (results : list Z) (inbox : list (list Z)) : client := prep_connect (globals_init results inbox).

(** [UDP_Open]: a client asks the ring to connect its first socket, and does not
    wait for the result; [ring_ok] tells whether the ring can be set up. *)
Definition UDP_Open (server ring_ok : bool) (s : Z) (result : list address) (client_sem : option Z) (results : list Z) (inbox : list (list Z)) :
  outcome string (Z * list Z * option Z * client) :=
  if negb server && negb ring_ok then Fail "io_uring_queue_init"%string
  else
    let* '(sfd, closed, sem) := UdpLib.UDP_Open server s (map (fun a => mkAddress a.(socket) a.(bind_ok) true) result) client_sem in
    Done (sfd, closed, sem, if server then globals_init results inbox else client_init results inbox).

(** [prep_send_to] of the string [message] and its NUL.  [wait] is
    [wait_ack_client] for the call after the last entry, which comes before the
    index is written back. *)
Definition prep_send_to (wait : client -> outcome string client) (message : list Z) (c : client) : outcome string client :=
  let i := c.(seq_cnt) in
  let restore := if starts (bytes "ack") message then c.(send_restore_buff)
                 else <[i := message ++ 0 :: drop (S (length message)) (default [] (c.(send_restore_buff) !! i))]> c.(send_restore_buff) in
  let c := mkClient i (<[i := IORING_OP_SEND]> c.(data_arr)) restore (c.(ring) ++ [i]) c.(results) c.(inbox) (c.(out) ++ [message ++ [0]]) in
  if (S i =? LISTEN_BACKLOG)%nat then
    let* c := wait c in
    Done (mkClient 0 c.(data_arr) c.(send_restore_buff) c.(ring) c.(results) c.(inbox) c.(out))
  else Done (mkClient (S i) c.(data_arr) c.(send_restore_buff) c.(ring) c.(results) c.(inbox) c.(out)).

Section client.
(** What the stack holds where [tmp_buf] of [wait_ack_client] lies. *)
Variable stack : list Z.

(** The loop of [wait_ack_client], with [tmp_buf]. *)
Fixpoint ack_loop (fuel : nat) (tmp_buf : list Z) (seq_ack_cnt : nat) (resend : bool) (c : client) : outcome string client :=
  match fuel with
  | O => Fail "fuel"%string
  | S fuel =>
      let* _ := if resend then check_cqe c else Done (0, 0%nat) in
      let* '(tmp_buf, _, inbox) := recvfrom tmp_buf c.(inbox) in
      let c := mkClient c.(seq_cnt) c.(data_arr) c.(send_restore_buff) c.(ring) c.(results) inbox c.(out) in
      let* num_ptr := strsep_at tmp_buf in
      match num_ptr with
      | None => Crash "strlen(NULL)"%string
      | Some i =>
          let* num := cstr (drop (S i) tmp_buf) in
          let tmp_buf := <[i := 0]> tmp_buf in
          if decide (decimal (Z.of_nat seq_ack_cnt) = num) then ack_loop fuel tmp_buf (S seq_ack_cnt) resend c
          else
            match c.(send_restore_buff) !! seq_ack_cnt with
            | None => past_end
            | Some m =>
                let* m := cstr m in
                let* c := prep_send_to (ack_loop fuel stack 0 false) m c in
                ack_loop fuel tmp_buf (S seq_ack_cnt) true c
            end
      end
  end.

Definition wait_ack_client (fuel : nat) (buffer : list Z) (c : client) : outcome string client :=
  let* ack := is_ack buffer in
  if (ack : bool) then Done c else ack_loop fuel stack 0 false c.

(** [tmp_buf] of [prep_send_to_suffix_num]: up to [length] characters of the
    message, and the index. *)
Definition numbered (message : list Z) (length : nat) (index : nat) : list Z :=
  upto_nul (take length message) ++ 95 :: decimal (Z.of_nat index).

Definition prep_send_to_suffix_num (wait : client -> outcome string client) (message : list Z) (length : nat) (c : client) : outcome string client :=
  let tmp_buf := numbered message length c.(seq_cnt) in
  if (SMALL_BUFFER_SIZE <? List.length tmp_buf + 1)%nat then Fail "exit"%string
  else prep_send_to wait tmp_buf c.

(** The call of [wait_ack_client] in [prep_send_to]. *)
Definition wait_fake (fuel : nat) : client -> outcome string client := wait_ack_client fuel (replicate SMALL_BUFFER_SIZE 0).

(** The loop of [UDP_Write] over the completions; [ret] and the buffer forward. *)
Fixpoint write_loop (fuel : nat) (buffer : list Z) (nread bound ret : Z) (c : client) : outcome string (Z * client) :=
  match fuel with
  | O => Fail "fuel"%string
  | S fuel =>
      let* '(_, i) := check_cqe c in
      match default IORING_OP_NOP (c.(data_arr) !! i) with
      | IORING_OP_CONNECT =>
          let* c := prep_send_to_suffix_num (wait_fake fuel) BEGIN_STR 6 c in
          write_loop fuel buffer nread bound ret (io_uring_cqe_seen c)
      | IORING_OP_SEND =>
          if ret =? bound then
            let* c := prep_send_to_suffix_num (wait_fake fuel) buffer (Z.to_nat (nread - ret)) c in
            write_loop fuel buffer nread bound (ret + Z.of_nat CONTENT_SIZE) (io_uring_cqe_seen c)
          else if bound <? ret then
            let* c := prep_send_to_suffix_num (wait_fake fuel) END_STR 4 c in
            Done (let ret := ret + Z.of_nat CONTENT_SIZE in if ret >? nread then nread else ret, c)
          else
            let* c := prep_send_to_suffix_num (wait_fake fuel) buffer CONTENT_SIZE c in
            write_loop fuel (drop CONTENT_SIZE buffer) nread bound (ret + Z.of_nat CONTENT_SIZE) (io_uring_cqe_seen c)
      | IORING_OP_NOP => write_loop fuel buffer nread bound ret (io_uring_cqe_seen c)
      end
  end.

(** [UDP_Write] of more than [SMALL_BUFFER_SIZE] bytes. *)
Definition write_long (fuel : nat) (buffer : list Z) (nread : Z) (c : client) : outcome string (Z * client) :=
  write_loop fuel buffer nread (Z.quot nread (Z.of_nat CONTENT_SIZE) * Z.of_nat CONTENT_SIZE) 0 c.

(** [wait_ack], in which [again] is the call of [UDP_Write] after a timeout, and
    [acks] tells whether the acknowledgements come in time. *)
Definition wait_ack (again : list bool -> client -> outcome string (Z * list bool * client)) (buffer : list Z) (orig_ret : Z) (acks : list bool) (c : client) :
  outcome string (Z * list bool * client) :=
  let* ack := is_ack buffer in
  if (ack : bool) then Done (orig_ret, acks, c)
  else
    match acks with
    | [] => Fail "sem_timedwait"%string
    | true :: acks => Done (orig_ret, acks, c)
    | false :: acks => again acks c
    end.

(** A short message goes to the socket as it is. *)
Fixpoint UDP_Write (fuel : nat) (buffer : list Z) (nread : Z) (acks : list bool) (c : client) : outcome string (Z * list bool * client) :=
  match fuel with
  | O => Fail "fuel"%string
  | S fuel =>
      if Z.of_nat SMALL_BUFFER_SIZE <? nread then
        let* '(ret, c) := write_long fuel buffer nread c in Done (ret, acks, c)
      else
        let* '(ret, s) := sendto buffer nread (mkNet [] []) in
        let c := mkClient c.(seq_cnt) c.(data_arr) c.(send_restore_buff) c.(ring) c.(results) c.(inbox) (c.(out) ++ s.(sent)) in
        wait_ack (UDP_Write fuel buffer nread) buffer ret acks c
  end.

End client.

(** *** The server *)

(** [server_seq_cnt] is set once, by [UDP_Open]. *)
Definition server_seq_cnt : Z := 0.

Definition UDP_Write_server (again : list Z -> Z -> net -> outcome string (Z * net)) (buffer : list Z) (nread : Z) (s : net) :
  outcome string (Z * net) := write_once SMALL_BUFFER_SIZE again buffer nread s.

(** [check_server_seq(msg, &msg_struct, ack_str)]: the array [msg] with the NUL
    that [strsep] writes, and the message and [ack_str] unless the number is
    wrong. *)
Definition check_server_seq (msg ack_str : list Z) : outcome string (list Z * option (list Z * list Z)) :=
  let* p := strsep_at msg in
  match p with
  | None => Crash "atoi(NULL)"%string
  | Some i =>
      let* num := atoi (drop (S i) msg) in
      let msg' := <[i := 0]> msg in
      if negb (num =? server_seq_cnt) then Done (msg', None)
      else
        let* suffix := cstr (drop i msg') in
        let ack_str := ack_str ++ suffix in
        if (SMALL_BUFFER_SIZE <? length ack_str + 1)%nat then past_end
        else Done (msg', Some (take i msg, ack_str))
  end.

Section read.
Variable again : list Z -> Z -> net -> outcome string (Z * net).

Definition write_ack (ack_str : list Z) (s : net) : outcome string net :=
  let* '(_, s) := UDP_Write_server again (ack_str ++ [0]) (Z.of_nat (length ack_str) + 1) s in Done s.

(** [send_ack]: whether the number was right, and what is left. *)
Definition send_ack (tmp_buf : list Z) (ds : list (list Z)) (s : net) : outcome string (bool * list (list Z) * net) :=
  let* '(tmp_buf, r) := check_server_seq tmp_buf (bytes "ack") in
  match r with
  | None => let* '(_, _, ds) := recvfrom tmp_buf ds in Done (false, ds, s)
  | Some (_, ack_str) => let* s := write_ack ack_str s in Done (true, ds, s)
  end.

(** The loop for a message in pieces: the text, and, unless a number was wrong, the
    bytes counted and [tmp_buf] with the datagram that ends the message. *)
Fixpoint read_loop (fuel : nat) (tmp_buf buffer : list Z) (has_content : bool) (recv_bytes : Z) (ds : list (list Z)) (s : net) :
  outcome string (list Z * option (Z * list Z) * list (list Z) * net) :=
  match fuel with
  | O => Fail "fuel"%string
  | S fuel =>
      let* '(tmp_buf, r) := check_server_seq tmp_buf (bytes "ack") in
      match r with
      | None => let* '(_, _, ds) := recvfrom tmp_buf ds in Done (buffer, None, ds, s)
      | Some (message_str, ack_str) =>
          let buffer := if has_content then buffer ++ message_str else buffer in
          let* s := write_ack ack_str s in
          let* '(tmp_buf, recv_cnt, ds) := recvfrom tmp_buf ds in
          let* fin := strncmp_eq 4 tmp_buf END_STR in
          if (fin : bool) then Done (buffer, Some (recv_bytes, tmp_buf), ds, s)
          else read_loop fuel tmp_buf buffer true (recv_bytes + Z.of_nat recv_cnt) ds s
      end
  end.

(** [UDP_Read]: its result, the text in [buffer], the datagrams left and those
    sent.  The text of a short message stays in [tmp_buf]. *)
Definition UDP_Read (tmp_buf : list Z) (ds : list (list Z)) (s : net) : outcome string (Z * list Z * list (list Z) * net) :=
  let* '(tmp_buf, recv_bytes, ds) := recvfrom tmp_buf ds in
  if (recv_bytes =? 0)%nat then Done (0, [], ds, s)
  else
    let* begin := strncmp_eq 6 tmp_buf BEGIN_STR in
    if (begin : bool) then
      let* '(buffer, r, ds, s) := read_loop (S (length ds)) tmp_buf [] false 0 ds s in
      match r with
      | None => Done (0, buffer, ds, s)
      | Some (recv_bytes, tmp_buf) =>
          let* '(ok, ds, s) := send_ack tmp_buf ds s in
          Done (if (ok : bool) then recv_bytes else 0, buffer, ds, s)
      end
    else
      let* ack := is_ack tmp_buf in
      if (ack : bool) then Done (Z.of_nat recv_bytes, [], ds, s)
      else
        let* '(ok, ds, s) := send_ack tmp_buf ds s in
        Done (if (ok : bool) then Z.of_nat recv_bytes else 0, [], ds, s).

End read.

(** ** Numbers *)

(** The characters of a piece: neither a NUL nor the delimiter. *)
Definition plain (m : list Z) : Prop := Forall (fun c => c <> 0 /\ c <> 95) m.

Lemma plain_nul m : plain m -> Forall (fun c => c <> 0) m.
Proof. intros H. eapply Forall_impl; [exact H|]. by intros c []. Qed.

Lemma strsep_app m l : plain m -> strsep_at (m ++ 95 :: l) = Done (Some (length m)).
Proof.
  induction 1 as [|c m [H0 H1] _ IH]; [done|]. cbn [app strsep_at length]. by rewrite (proj2 (Z.eqb_neq c 0)), (proj2 (Z.eqb_neq c 95)), IH by done.
Qed.

Lemma strsep_at_none m l : plain m -> strsep_at (m ++ 0 :: l) = Done None.
Proof.
  induction 1 as [|c m [H0 H1] _ IH]; [done|]. cbn [app strsep_at length]. by rewrite (proj2 (Z.eqb_neq c 0)), (proj2 (Z.eqb_neq c 95)), IH by done.
Qed.

Lemma insert_delim (m : list Z) x y l : <[length m := y]> (m ++ x :: l) = m ++ y :: l.
Proof. by rewrite insert_app_r_alt, Nat.sub_diag by lia. Qed.

Lemma drop_delim (m : list Z) x l : drop (S (length m)) (m ++ x :: l) = l.
Proof. rewrite drop_app_ge by lia. by replace (S (length m) - length m)%nat with 1%nat by lia. Qed.

(** The check of a datagram with a number: the acknowledgement does not carry the
    number, whose delimiter [strsep] has overwritten. *)
Lemma check_numbered m i rest : plain m ->
  check_server_seq (m ++ 95 :: decimal (Z.of_nat i) ++ 0 :: rest) (bytes "ack") =
    Done (m ++ 0 :: decimal (Z.of_nat i) ++ 0 :: rest, if (i =? 0)%nat then Some (m, bytes "ack") else None).
Proof.
  intros Hm. unfold check_server_seq. rewrite strsep_app by done. cbn [obind]. rewrite drop_delim, atoi_decimal by lia. cbn [obind].
  rewrite insert_delim. unfold server_seq_cnt. destruct i as [|i]; cbn [Nat.eqb].
  - cbn [negb Z.of_nat Z.eqb]. rewrite drop_app_length. cbn [cstr Z.eqb obind]. rewrite app_nil_r. cbn. by rewrite take_app_length.
  - by rewrite (proj2 (Z.eqb_neq (Z.of_nat (S i)) 0)) by lia.
Qed.

(** Without a delimiter in front of the first NUL there is no number. *)
Lemma check_unnumbered a : 95 ∉ upto_nul a -> exists w, check_server_seq a (bytes "ack") = Crash w.
Proof.
  intros H. unfold check_server_seq. assert (E : strsep_at a = Done None \/ exists w, strsep_at a = Crash w); [|destruct E as [->|[w ->]]; by eexists].
  induction a as [|c a IH]; [right; by eexists|]. cbn [strsep_at upto_nul] in *. destruct (c =? 0); [by left|].
  rewrite not_elem_of_cons in H. destruct H as [Hc H]. rewrite (proj2 (Z.eqb_neq c 95)) by congruence.
  destruct (IH H) as [->|[w ->]]; [by left|right; by eexists].
Qed.

Lemma upto_nul_app m r : Forall (fun c => c <> 0) m -> upto_nul (m ++ r) = m ++ upto_nul r.
Proof. induction 1 as [|c m Hc _ IH]; [done|]. cbn [app upto_nul]. by rewrite (proj2 (Z.eqb_neq c 0)), IH. Qed.

Lemma numbered_plain m n i : plain m -> numbered m n i = take n m ++ 95 :: decimal (Z.of_nat i).
Proof. intros Hm. unfold numbered. rewrite upto_nul_id; [done|]. apply Forall_take. by apply plain_nul. Qed.

(** ** The client *)

(** [wait_ack_client] has no way out of its loop. *)
Lemma ack_loop_never stack fuel : forall tmp n b c c', ack_loop stack fuel tmp n b c <> Done c'.
Proof.
  induction fuel as [|fuel IH]; intros tmp n b c c'; [done|]. cbn [ack_loop]. intros E.
  apply obind_Done in E as (? & _ & E). apply obind_Done in E as ([[tmp' ?] inbox'] & _ & E). apply obind_Done in E as ([i|] & _ & E); [|done].
  apply obind_Done in E as (num & _ & E). case_decide; [by apply IH in E|]. cbn [send_restore_buff] in E.
  destruct (send_restore_buff c !! n); [|done]. apply obind_Done in E as (m & _ & E). apply obind_Done in E as (c1 & _ & E). by apply IH in E.
Qed.

Lemma wait_fake_never stack fuel c c' : wait_fake stack fuel c <> Done c'.
Proof. unfold wait_fake, wait_ack_client. apply ack_loop_never. Qed.

(** The acknowledgement of the server has no number to compare. *)
Lemma wait_fake_ack stack fuel c ds : c.(inbox) = (bytes "ack" ++ [0]) :: ds -> wait_fake stack (S fuel) c = Crash "strlen(NULL)"%string.
Proof. intros H. unfold wait_fake, wait_ack_client. cbn. by rewrite H. Qed.

Lemma wait_fake_empty stack fuel c : c.(inbox) = [] -> wait_fake stack (S fuel) c = blocked "recvfrom".
Proof. intros H. unfold wait_fake, wait_ack_client. cbn. by rewrite H. Qed.

(** The first two datagrams of a long message. *)
Definition first_datagrams (msg : list Z) : list (list Z) := [bytes "0begin_0" ++ [0]; take 6 msg ++ bytes "_1" ++ [0]].

(** The state after the connection, and behind it the rest of the loop. *)
Definition connected (rs : list Z) (ds : list (list Z)) : client :=
  mkClient 1 [IORING_OP_SEND; IORING_OP_NOP] [bytes "0begin_0" ++ replicate 12 0; replicate 20 0] [0%nat] rs ds [bytes "0begin_0" ++ [0]].

Lemma write_loop_connect stack fuel buffer nread bound r0 rs ds : 0 <= r0 ->
  write_loop stack (S fuel) buffer nread bound 0 (client_init (r0 :: rs) ds) = write_loop stack fuel buffer nread bound 0 (connected rs ds).
Proof.
  intros H0. change (client_init (r0 :: rs) ds) with
    (mkClient 0 [IORING_OP_CONNECT; IORING_OP_NOP] [replicate 20 0; replicate 20 0] [0%nat] (r0 :: rs) ds []).
  cbn [write_loop]. unfold check_cqe. cbn [io_uring_wait_cqe ring results obind].
  rewrite (proj2 (Z.ltb_ge r0 0)) by done. cbn [obind data_arr].
  change (default IORING_OP_NOP (_ !! 0%nat)) with IORING_OP_CONNECT. cbn iota.
  match goal with |- context [prep_send_to_suffix_num _ BEGIN_STR 6 ?c0] => change (prep_send_to_suffix_num (wait_fake stack fuel) BEGIN_STR 6 c0) with
    (@Done string client (mkClient 1 [IORING_OP_SEND; IORING_OP_NOP] [bytes "0begin_0" ++ replicate 12 0; replicate 20 0] [0%nat; 0%nat] (r0 :: rs) ds [bytes "0begin_0" ++ [0]])) end.
  done.
Qed.

(** The connection and the first send done, the client is in
    [wait_ack_client]. *)
Lemma write_long_start stack fuel msg mem r0 r1 rs ds : Forall (fun c => c <> 0) msg -> (10 < length msg)%nat -> 0 <= r0 -> 0 <= r1 ->
  exists c k, c.(out) = first_datagrams msg /\ c.(inbox) = ds /\
    write_long stack (S (S fuel)) (msg ++ 0 :: mem) (Z.of_nat (length msg)) (client_init (r0 :: r1 :: rs) ds) = obind (wait_fake stack fuel c) k.
Proof.
  intros Hm Hl H0 H1. unfold write_long. set (bound := _ * _).
  assert (Hb : 0 < bound). { unfold bound. rewrite Z.quot_div_nonneg by (unfold CONTENT_SIZE; cbn; lia).
    pose proof (Z.div_le_mono 6 (Z.of_nat (length msg)) (Z.of_nat CONTENT_SIZE) ltac:(cbn; lia) ltac:(lia)) as H. change (6 / Z.of_nat CONTENT_SIZE) with 1 in H. cbn in *. lia. }
  rewrite write_loop_connect by done. unfold connected. cbn [write_loop]. unfold check_cqe. cbn [io_uring_wait_cqe ring results obind].
  rewrite (proj2 (Z.ltb_ge r1 0)) by done. cbn [obind data_arr].
  change (default IORING_OP_NOP (_ !! 0%nat)) with IORING_OP_SEND. cbn iota.
  rewrite (proj2 (Z.eqb_neq 0 bound)), (proj2 (Z.ltb_ge bound 0)) by lia.
  unfold prep_send_to_suffix_num. cbn [seq_cnt]. change CONTENT_SIZE with 6%nat.
  assert (En : numbered (msg ++ 0 :: mem) 6 1 = take 6 msg ++ bytes "_1").
  { unfold numbered. rewrite take_app_le by lia. rewrite upto_nul_id by (by apply Forall_take). done. }
  rewrite En. rewrite length_app, length_take, Nat.min_l by lia. change (SMALL_BUFFER_SIZE <? 6 + length (bytes "_1") + 1)%nat with false. cbn iota.
  unfold prep_send_to. cbn [seq_cnt]. change (2 =? LISTEN_BACKLOG)%nat with true. cbn iota. cbn [data_arr send_restore_buff ring results inbox out].
  match goal with |- exists c k, _ /\ _ /\ obind (obind (wait_fake _ _ ?c0) ?f) ?g = _ => exists c0, (fun c => obind (f c) g) end.
  cbn [out inbox]. split_and!; [unfold first_datagrams; cbn [app]; by rewrite <- app_assoc|done|].
  by destruct (wait_fake _ _ _).
Qed.

(** With any results and any datagrams. *)
Lemma write_long_never stack fuel msg mem rs ds r : Forall (fun c => c <> 0) msg -> (10 < length msg)%nat ->
  write_long stack fuel (msg ++ 0 :: mem) (Z.of_nat (length msg)) (client_init rs ds) <> Done r.
Proof.
  intros Hm Hl. destruct fuel as [|fuel]; [done|]. destruct rs as [|r0 rs]; [done|].
  destruct (Z.ltb_spec r0 0) as [H0|H0].
  { unfold write_long. cbn [write_loop]. unfold check_cqe. cbn. by rewrite (proj2 (Z.ltb_lt r0 0)). }
  destruct fuel as [|fuel]; [unfold write_long; by rewrite write_loop_connect|].
  destruct rs as [|r1 rs]; [unfold write_long; by rewrite write_loop_connect|].
  destruct (Z.ltb_spec r1 0) as [H1|H1].
  { unfold write_long. rewrite write_loop_connect by done. cbn [write_loop]. unfold check_cqe. cbn. by rewrite (proj2 (Z.ltb_lt r1 0)). }
  destruct (write_long_start stack fuel msg mem r0 r1 rs ds Hm Hl H0 H1) as (c & k & _ & _ & ->). intros E.
  apply obind_Done in E as (c' & E & _). by apply wait_fake_never in E.
Qed.

(** ** The server *)

Lemma strncmp_starts p : forall a q, Forall (fun c => c <> 0) p -> (length p <= length a)%nat -> strncmp_eq (length p) a (p ++ q) = Done (starts p a).
Proof.
  induction p as [|y p IH]; intros a q Hp Hl; [done|]. apply Forall_cons in Hp as [Hy Hp]. destruct a as [|x a]; [cbn in Hl; lia|].
  cbn [length app strncmp_eq starts]. rewrite (Z.eqb_sym y x). destruct (Z.eqb_spec x y) as [->|]; [|done]. rewrite (proj2 (Z.eqb_neq y 0)) by done. cbn [andb].
  apply IH; [done|cbn in Hl; lia].
Qed.

Lemma starts_delim p m l : 95 ∉ p -> starts p (m ++ 95 :: l) = starts p m.
Proof.
  revert m. induction p as [|y p IH]; intros m Hp; [done|]. rewrite not_elem_of_cons in Hp. destruct Hp as [Hy Hp].
  destruct m as [|x m]; cbn [app starts]; [by rewrite (proj2 (Z.eqb_neq y 95)) by congruence|]. by rewrite IH.
Qed.

Lemma starts_nul p m l : 0 ∉ p -> starts p (m ++ 0 :: l) = starts p m.
Proof.
  revert m. induction p as [|y p IH]; intros m Hp; [done|]. rewrite not_elem_of_cons in Hp. destruct Hp as [Hy Hp].
  destruct m as [|x m]; cbn [app starts]; [by rewrite (proj2 (Z.eqb_neq y 0)) by congruence|]. by rewrite IH.
Qed.

(** A piece with the number that the server expects. *)
Definition piece (m : list Z) : list Z := m ++ bytes "_0" ++ [0].

(** A piece that the server takes for content. *)
Definition content (m : list Z) : Prop := plain m /\ (length m <= 7)%nat /\ starts (bytes "end1") m = false.

Lemma recv_piece m tmp ds : (length m <= 7)%nat -> length tmp = 10%nat ->
  recvfrom tmp (piece m :: ds) = Done (m ++ 95 :: decimal 0 ++ 0 :: drop (length m + 3) tmp, (length m + 3)%nat, ds) /\
  length (m ++ 95 :: decimal 0 ++ 0 :: drop (length m + 3) tmp) = 10%nat.
Proof.
  intros Hm Ht. assert (Hp : length (piece m) = (length m + 3)%nat) by (unfold piece; by rewrite !length_app).
  unfold recvfrom. change SMALL_BUFFER_SIZE with 10%nat. rewrite take_ge, Hp by lia. unfold piece. rewrite <- !app_assoc. split; [done|].
  rewrite length_app. cbn [length app decimal]. rewrite length_app. cbn [length]. rewrite length_drop. cbn. lia.
Qed.

Lemma write_ack_ok again s : write_ack again (bytes "ack") s = Done (mkNet (s.(sent) ++ [bytes "ack" ++ [0]]) s.(acks)).
Proof. done. Qed.

Definition acked (n : nat) : list (list Z) := replicate n (bytes "ack" ++ [0]).

Lemma acked_snoc l n : (l ++ [bytes "ack" ++ [0]]) ++ acked n = l ++ acked (S n).
Proof. by rewrite <- app_assoc. Qed.

(** The length of the pieces of a message, with their numbers. *)
Definition counted (ms : list (list Z)) : Z := Z.of_nat (sum_list (map (fun m => length m + 3)%nat ms)).

Lemma read_loop_pieces again ms : Forall content ms -> forall fuel m0 rest tmp0 buffer b n d ds l a,
  (length ms < fuel)%nat -> plain m0 -> tmp0 = m0 ++ 95 :: decimal 0 ++ 0 :: rest -> length tmp0 = 10%nat -> d = piece (bytes "end1") ->
  exists tmp, length tmp = 10%nat /\ read_loop again fuel tmp0 buffer b n (map piece ms ++ d :: ds) (mkNet l a) =
    Done (buffer ++ (if b then m0 else []) ++ mjoin ms, Some (n + counted ms, bytes "end1" ++ 95 :: decimal 0 ++ 0 :: drop 7 tmp), ds,
      mkNet (l ++ acked (S (length ms))) a).
Proof.
  induction 1 as [|m ms (Hm1 & Hm2 & Hm3) _ IH]; intros fuel m0 rest tmp0 buffer b n d ds l a Hf H0 E0 Hl0 Ed; (destruct fuel as [|fuel]; [lia|]).
  all: cbn [read_loop]; rewrite E0; change (decimal 0) with (decimal (Z.of_nat 0)); rewrite check_numbered by done; cbn [obind Nat.eqb];
    rewrite write_ack_ok; cbn [obind sent acks].
  all: assert (Hl1 : length (m0 ++ 0 :: decimal (Z.of_nat 0) ++ 0 :: rest) = 10%nat) by (rewrite E0 in Hl0; rewrite length_app in *; exact Hl0).
  - exists (m0 ++ 0 :: decimal (Z.of_nat 0) ++ 0 :: rest). split; [done|]. cbn [map app].
    destruct (recv_piece (bytes "end1") (m0 ++ 0 :: decimal (Z.of_nat 0) ++ 0 :: rest) ds) as [E1 _]; [cbn; lia|done|].
    rewrite Ed, E1. cbn [obind]. change (length (bytes "end1") + 3)%nat with 7%nat. 
    match goal with |- context [strncmp_eq 4 ?t END_STR] => change (strncmp_eq 4 t END_STR) with (@Done string bool true) end. cbn [obind].
    change (mjoin []) with (@nil Z). change (counted []) with 0. rewrite app_nil_r, Z.add_0_r. destruct b; [done|by rewrite app_nil_r].
  - cbn [map app]. destruct (recv_piece m (m0 ++ 0 :: decimal (Z.of_nat 0) ++ 0 :: rest) (map piece ms ++ d :: ds) Hm2 Hl1) as [E1 Hl2]. rewrite E1. cbn [obind].
    match goal with |- context [strncmp_eq 4 ?t END_STR] => assert (Es : strncmp_eq 4 t END_STR = Done (starts (bytes "end1") t));
      [apply (strncmp_starts (bytes "end1") t (replicate 6 0)); [by repeat (constructor; [done|]); constructor|rewrite Hl2; cbn; lia]|] end.
    rewrite Es. rewrite starts_delim by (apply (bool_decide_unpack (95 ∉ bytes "end1")); vm_compute; exact I). rewrite Hm3. cbn [obind].
    destruct (IH fuel m (drop (length m + 3) (m0 ++ 0 :: decimal (Z.of_nat 0) ++ 0 :: rest))
      (m ++ 95 :: decimal 0 ++ 0 :: drop (length m + 3) (m0 ++ 0 :: decimal (Z.of_nat 0) ++ 0 :: rest)) (if b then buffer ++ m0 else buffer) true (n + Z.of_nat (length m + 3)) d ds (l ++ [bytes "ack" ++ [0]]) a) as (tmp & Ht & E);
      [cbn in Hf; lia|done|reflexivity|exact Hl2|done|].
    exists tmp. split; [done|]. rewrite E. change (decimal 0) with (decimal (Z.of_nat 0)). rewrite acked_snoc. cbn [length].
    assert (Ec : n + Z.of_nat (length m + 3) + counted ms = n + counted (m :: ms)) by (unfold counted; cbn [map sum_list_with]; unfold sum_list; cbn; lia).
    rewrite Ec. do 4 f_equal. change (mjoin (m :: ms)) with (m ++ mjoin ms). destruct b; by rewrite <- ?app_assoc.
Qed.

Lemma is_ack_starts a : (4 <= length a)%nat -> is_ack a = Done (starts (bytes "ack" ++ [0]) a).
Proof.
  intros Hl. do 4 (destruct a as [|? a]; [cbn in Hl; lia|]). unfold is_ack. change (bytes "ack" ++ [0]) with [97; 99; 107; 0].
  cbn [strncmp_eq starts]. rewrite !(Z.eqb_sym 97), !(Z.eqb_sym 99), !(Z.eqb_sym 107), !(Z.eqb_sym 0).
  by repeat (match goal with |- context [?x =? ?y] => is_var x; destruct (Z.eqb_spec x y) as [->|]; [cbn [Z.eqb Pos.eqb andb]|done] end).
Qed.

(** A datagram without a number, behind which the array [tmp] keeps what it held. *)
Lemma short_message again tmp msg l a : length tmp = 10%nat -> plain msg -> (0 < length msg <= 10)%nat ->
  let arr := msg ++ drop (length msg) tmp in
  starts (bytes "0begin") arr = false -> starts (bytes "ack" ++ [0]) arr = false -> 95 ∉ upto_nul (drop (length msg) tmp) ->
  exists w, UDP_Read again tmp [msg] (mkNet l a) = Crash w.
Proof.
  intros Ht Hm Hl arr Hb Hack Hd. unfold UDP_Read, recvfrom. change SMALL_BUFFER_SIZE with 10%nat. rewrite take_ge by lia. cbn [obind].
  fold arr. destruct (Nat.eqb_spec (length msg) 0) as [|_]; [lia|].
  assert (Hn : length arr = 10%nat) by (unfold arr; rewrite length_app, length_drop; lia).
  assert (H6 : strncmp_eq 6 arr BEGIN_STR = Done (starts (bytes "0begin") arr)).
  { apply (strncmp_starts (bytes "0begin") arr (replicate 4 0)); [by repeat (constructor; [done|]); constructor|rewrite Hn; cbn; lia]. }
  rewrite H6. cbn [obind]. rewrite Hb, is_ack_starts, Hack by lia. cbn [obind]. unfold send_ack.
  destruct (check_unnumbered arr) as [w ->]; [|by eexists].
  unfold arr. rewrite upto_nul_app by (by apply plain_nul). rewrite not_elem_of_app. split; [|done].
  intros Hin. by destruct (proj1 (list.Forall_forall _ _) Hm _ Hin).
Qed.

(** Else what was left in the array can pass for a number. *)
Example leftover_acknowledged :
  UDP_Read (fun _ _ _ => Fail "retry"%string) (bytes "12345_0" ++ replicate 3 0) [bytes "hello"] (mkNet [] []) = Done (5, [], [], mkNet (acked 1) []).
Proof. reflexivity. Qed.

(** The server on the first two datagrams of a long message, and any third. *)
Lemma read_first again tmp msg d l a : plain msg -> (10 < length msg)%nat -> length tmp = 10%nat ->
  UDP_Read again tmp (first_datagrams msg ++ [d]) (mkNet l a) = Done (0, [], [], mkNet (l ++ acked 1) a).
Proof.
  intros Hm Hl Ht. unfold UDP_Read, first_datagrams. cbn [app].
  destruct (recv_piece (bytes "0begin") tmp [take 6 msg ++ bytes "_1" ++ [0]; d]) as [E Hl0]; [cbn; lia|done|].
  change (bytes "0begin_0" ++ [0]) with (piece (bytes "0begin")). rewrite E. cbn [obind]. change (length (bytes "0begin") + 3 =? 0)%nat with false. cbn iota.
  match goal with |- context [strncmp_eq 6 ?t BEGIN_STR] => change (strncmp_eq 6 t BEGIN_STR) with (@Done string bool true) end. cbn [obind length].
  cbn [read_loop]. change (decimal 0) with (decimal (Z.of_nat 0)). rewrite check_numbered by (by repeat (constructor; [done|]); constructor).
  cbn [obind Nat.eqb]. rewrite write_ack_ok. cbn [obind sent acks]. set (old := bytes "0begin" ++ _).
  assert (Hm6 : plain (take 6 msg)) by (by apply Forall_take). assert (H6 : length (take 6 msg) = 6%nat) by (rewrite length_take; lia).
  assert (Er : recvfrom old [take 6 msg ++ bytes "_1" ++ [0]; d] = Done (take 6 msg ++ 95 :: decimal (Z.of_nat 1) ++ 0 :: drop 9 old, 9%nat, [d])).
  { unfold recvfrom. change SMALL_BUFFER_SIZE with 10%nat. rewrite (take_ge (_ ++ _)), !length_app, H6 by (rewrite !length_app, H6; cbn; lia). by rewrite <- !app_assoc. }
  rewrite Er. cbn [obind]. set (t := take 6 msg ++ _).
  assert (Es : strncmp_eq 4 t END_STR = Done (starts (bytes "end1") t)).
  { apply (strncmp_starts (bytes "end1") t (replicate 6 0)); [by repeat (constructor; [done|]); constructor|unfold t; rewrite length_app, H6; cbn; lia]. }
  rewrite Es. cbn [obind]. unfold t. unfold send_ack. destruct (starts _ _); cbn [obind]; rewrite check_numbered by done; reflexivity.
Qed.

(** [UDP_Write_server] cuts a message as the other library does, at ten bytes. *)
Lemma server_write_ok again msg mem k :
  exists k', UDP_Write_server again (msg ++ 0 :: mem) (Z.of_nat (length msg)) (mkNet [] (replicate (length msg / 10 + 3 + k) true)) =
    Done (Z.of_nat (length msg), mkNet (datagrams 10 msg) (replicate k' true)).
Proof. apply (write_ok SMALL_BUFFER_SIZE). unfold SMALL_BUFFER_SIZE. lia. Qed.

(** A client takes its first socket, whether or not it can be connected. *)
Lemma async_open_client ring_ok a l sem v results inbox : a.(socket) <> -1 -> sem = Some v -> ring_ok = true ->
  UDP_Open false ring_ok 0 (a :: l) sem results inbox = Done (a.(socket), [], sem, client_init results inbox).
Proof. intros H -> ->. unfold UDP_Open, UdpLib.UDP_Open. cbn. by rewrite (proj2 (Z.eqb_neq _ (-1)) H). Qed.

(** ** Properties *)

(** The server reads a message in pieces.  When every datagram carries the number
    that it expects, any number of pieces between the two datagrams of the
    protocol joins to the text; each datagram is acknowledged, [ack] without a
    number; and the bytes counted include the numbers and the NULs. *)
Lemma async_server_reads again tmp ms ds l a : length tmp = 10%nat -> Forall content ms ->
  UDP_Read again tmp (piece (bytes "0begin") :: map piece ms ++ piece (bytes "end1") :: ds) (mkNet l a) =
    Done (counted ms, mjoin ms, ds, mkNet (l ++ acked (length ms + 2)) a).
Proof.
  intros Ht Hms. unfold UDP_Read.
  destruct (recv_piece (bytes "0begin") tmp (map piece ms ++ piece (bytes "end1") :: ds)) as [E Hl]; [cbn; lia|done|].
  rewrite E. cbn [obind]. change (length (bytes "0begin") + 3 =? 0)%nat with false. cbn iota.
  match goal with |- context [strncmp_eq 6 ?t BEGIN_STR] => change (strncmp_eq 6 t BEGIN_STR) with (@Done string bool true) end. cbn [obind].
  match goal with |- context [read_loop _ ?f _ _ _ _ _ _] => destruct (read_loop_pieces again ms Hms f (bytes "0begin") (drop 9 tmp)
    (bytes "0begin" ++ 95 :: decimal 0 ++ 0 :: drop 9 tmp) [] false 0 (piece (bytes "end1")) ds l a) as (tmp' & Ht' & E') end.
  { rewrite length_app, length_map. cbn [length]. lia. }
  { by repeat (constructor; [done|]); constructor. }
  { done. }
  { exact Hl. }
  { done. }
  change (length (bytes "0begin") + 3)%nat with 9%nat. rewrite E'. cbn [obind app]. unfold send_ack.
  change (decimal 0) with (decimal (Z.of_nat 0)). rewrite check_numbered by (by repeat (constructor; [done|]); constructor).
  cbn [obind Nat.eqb]. rewrite write_ack_ok. cbn [obind sent acks]. replace (length ms + 2)%nat with (S (length ms) + 1)%nat by lia.
  unfold acked. rewrite replicate_add, app_assoc. by rewrite Z.add_0_l.
Qed.

Lemma async_server_reads_witness : exists s,
  UDP_Read (fun _ _ _ => Fail "retry"%string) (replicate 10 7) (map piece [bytes "0begin"; bytes "first "; bytes "hello"; bytes "end1"]) (mkNet [] []) =
    Done (17, bytes "first hello", [], s).
Proof.
  eexists. apply (async_server_reads _ (replicate 10 7) [bytes "first "; bytes "hello"] [] [] [] eq_refl).
  repeat constructor; try done; vm_compute; lia.
Defined.

(** C32: The asynchronous library cannot send a message of more than ten bytes.
    The client sends the datagram that begins it, numbered 0, and the first piece,
    numbered 1, and then waits for acknowledgements in a loop that it cannot leave:
    [UDP_Write] returns for no results of the ring, no datagrams that arrive and no
    number of rounds.  When the message has no underscore the server, which accepts
    the number 0 alone, acknowledges the first datagram, refuses the second, and
    returns nothing.  Its acknowledgement has lost its number, so that the client
    looks for one behind a null pointer.  Other than that the numbers are right: a
    piece without underscores is read back with its number.  A message of at most ten
    bytes is sent without a number, and what the server does depends on what its array held: when
    that shows no underscore behind the message, up to the next NUL, and does not
    make the message one of the two that the protocol knows, the server looks for the
    number behind a null pointer, or past its array. *)
Theorem async_long_message stack msg mem again tmp d l a : Forall (fun c => c <> 0) msg -> length tmp = 10%nat ->
  ((10 < length msg)%nat ->
     (forall fuel rs ds r, write_long stack fuel (msg ++ 0 :: mem) (Z.of_nat (length msg)) (client_init rs ds) <> Done r) /\
     (forall fuel r0 r1 rs ds, 0 <= r0 -> 0 <= r1 ->
        exists c k, c.(out) = first_datagrams msg /\ c.(inbox) = ds /\
          write_long stack (S (S fuel)) (msg ++ 0 :: mem) (Z.of_nat (length msg)) (client_init (r0 :: r1 :: rs) ds) = obind (wait_fake stack fuel c) k /\
          (ds = acked 1 -> fuel <> 0%nat -> obind (wait_fake stack fuel c) k = Crash "strlen(NULL)"%string)) /\
     (plain msg -> UDP_Read again tmp (first_datagrams msg ++ [d]) (mkNet l a) = Done (0, [], [], mkNet (l ++ acked 1) a))) /\
  (forall i rest, plain msg -> check_server_seq (numbered msg (length msg) i ++ 0 :: rest) (bytes "ack") =
     Done (msg ++ 0 :: decimal (Z.of_nat i) ++ 0 :: rest, if (i =? 0)%nat then Some (msg, bytes "ack") else None)) /\
  (plain msg -> (0 < length msg <= 10)%nat -> let arr := msg ++ drop (length msg) tmp in
     starts (bytes "0begin") arr = false -> starts (bytes "ack" ++ [0]) arr = false -> 95 ∉ upto_nul (drop (length msg) tmp) ->
     exists w, UDP_Read again tmp [msg] (mkNet l a) = Crash w).
Proof.
  intros Hm Ht. split_and!.
  - intros Hl. split_and!; [intros; by apply write_long_never|..].
    + intros fuel r0 r1 rs ds H0 H1. destruct (write_long_start stack fuel msg mem r0 r1 rs ds Hm Hl H0 H1) as (c & k & E1 & E2 & E3).
      exists c, k. split_and!; [done..|]. intros Eds Hf. destruct fuel as [|fuel]; [done|]. rewrite (wait_fake_ack stack fuel c []); [done|]. by rewrite E2, Eds.
    + intros Hp. by apply read_first.
  - intros i rest Hp. rewrite numbered_plain, take_ge by (done || lia). rewrite <- app_assoc. cbn [app]. by apply check_numbered.
  - intros Hp Hl arr Hb Hack Hd. by apply short_message.
Qed.

(** A long message, and a short one over an array that is not zero. *)
Lemma async_long_message_witness :
  UDP_Read (fun _ _ _ => Fail "retry"%string) (replicate 10 7) [bytes "0begin_0" ++ [0]; bytes "first _1" ++ [0]; []] (mkNet [] []) =
    Done (0, [], [], mkNet (acked 1) []) /\
  exists w, UDP_Read (fun _ _ _ => Fail "retry"%string) (replicate 10 7) [bytes "hello"] (mkNet [] []) = Crash w.
Proof.
  split.
  - apply (async_long_message [] (bytes "first hello") [] (fun _ _ _ => Fail "retry"%string) (replicate 10 7) [] [] []);
      [by repeat (constructor; [done|]); constructor|done|vm_compute; lia|by repeat (constructor; [done|]); constructor].
  - apply (async_long_message [] (bytes "hello") [] (fun _ _ _ => Fail "retry"%string) (replicate 10 7) [] [] []);
      [by repeat (constructor; [done|]); constructor|done|by repeat (constructor; [done|]); constructor|vm_compute; lia|done|done|].
    apply (bool_decide_unpack (95 ∉ upto_nul (replicate 5 7))). vm_compute. exact I.
Defined.
