(* ===== verification/UdpPrograms.v ===== *)
(** * The programs on the UDP libraries

    [main] of [48/UDP-client.c], [48/UDP-server.c] and [48/UDP-client_async.c], on
    the calls of [UdpLib] and [UdpAsync].  The client sends two messages and reads
    an answer to each; the server reads messages for ever.  [strsep.c] is an
    example of that function. *)

From Stdlib Require Import ZArith Lia String.
From stdpp Require Import base tactics numbers list.
From S2P Require Import Prelude Cstring Request UdpLib UdpAsync.

Local Open Scope Z_scope.
Local Open Scope ostep_scope.

(** ** Definitions *)

Definition BUFFER_SIZE : nat := Z.to_nat 65507.

(** An array of [BUFFER_SIZE] that holds [text] and is zero behind it. *)
Definition array (text : list Z) : list Z := text ++ replicate (BUFFER_SIZE - length text) 0.

(** [strncpy(buf, text, n)] where [n] counts the NUL of [text]. *)
Definition strncpy (text buf : list Z) : list Z := text ++ 0 :: drop (S (length text)) buf.

(** What the client prints. *)
Inductive client_line := Send (text : list Z) | Received (nread : Z) (text : list Z).

(** One turn of the loop of the client: the array behind it, the network, the
    datagrams left and the output. *)
Definition client_turn (fuel : nat) (tmp buf : list Z) (s : net) (inbox : list (list Z)) (out : list client_line) :
  outcome string (list Z * net * list (list Z) * list client_line) :=
  let* text := cstr buf in
  let* '(ret, s) := UdpLib.UDP_Write fuel buf (Z.of_nat (length text)) s in
  if negb (ret =? Z.of_nat (length text)) then Fail "partial/failed write"%string
  else
    let* '(got, nread, _, inbox) := UdpLib.UDP_Read tmp inbox in
    let buf := array got in
    let* shown := cstr buf in
    Done (strncpy (bytes "hello") buf, s, inbox, out ++ [Send text; Received nread shown]).

(** [main] of [UDP-client.c]: the arguments of [UDP_Open] are as there, [acks] tells
    which acknowledgements come in time, [inbox] is what arrives. *)
Definition client_main (argc : Z) (fuel : nat) (s : Z) (result : list address) (client_sem : option Z) (acks : list bool)
    (tmp : list Z) (inbox : list (list Z)) : outcome string (list (list Z) * list client_line) :=
  if argc <? 2 then Fail "Usage"%string
  else
    let* _ := UdpLib.UDP_Open false s result client_sem in
    let* '(buf, n, inbox, out) := client_turn fuel tmp (array (bytes "first hello")) (mkNet [] acks) inbox [] in
    let* '(_, n, _, out) := client_turn fuel tmp buf n inbox out in
    Done (n.(sent), out).

(** The loop of [UDP-server.c] on the datagrams that arrive: what it prints, and how
    many acknowledgements it sends; then it waits.  The names of the peers are left out. *)
Fixpoint server_loop (fuel : nat) (tmp : list Z) (ds : list (list Z)) : outcome string (list (Z * list Z) * nat) :=
  match fuel, ds with
  | S fuel, _ :: _ =>
      let* '(got, nread, a, ds) := UdpLib.UDP_Read tmp ds in
      let* shown := cstr (array got) in
      let* '(out, b) := server_loop fuel tmp ds in
      Done ((nread, shown) :: out, (a + b)%nat)
  | _, _ => Done ([], 0%nat)
  end.

(** [main] of [UDP-client_async.c] up to its first call of [UDP_Write]. *)
Definition async_client_main (argc : Z) (stack : list Z) (fuel : nat) (ring_ok : bool) (s : Z) (result : list address) (client_sem : option Z) (acks : list bool)
    (results : list Z) (inbox : list (list Z)) : outcome string (Z * list bool * client) :=
  if argc <? 2 then Fail "Usage"%string
  else
    let* '(_, _, _, c) := UdpAsync.UDP_Open false ring_ok s result client_sem results inbox in
    let* text := cstr (array (bytes "first hello")) in
    UdpAsync.UDP_Write stack fuel (array text) (Z.of_nat (length text)) acks c.

(** The loop of [UDP-server_async.c], in which [UDP_Write_server] does not retry. *)
Fixpoint async_server_loop (fuel : nat) (tmp : list Z) (ds : list (list Z)) (s : net) : outcome string (list (Z * list Z) * net) :=
  match fuel, ds with
  | S fuel, _ :: _ =>
      let* '(nread, got, ds, s) := UdpAsync.UDP_Read (fun _ _ _ => Fail "retry"%string) tmp ds s in
      let* shown := cstr (array got) in
      let* '(out, s) := async_server_loop fuel tmp ds s in
      Done ((nread, shown) :: out, s)
  | _, _ => Done ([], s)
  end.

(** [strsep] with a blank: the fields of a string. *)
Fixpoint strsep (s field : list Z) : list (list Z) :=
  match s with
  | [] => [field]
  | c :: s => if c =? 32 then field :: strsep s [] else strsep s (field ++ [c])
  end.

(** ** The server *)

Lemma array_cstr text : Forall (fun c => c <> 0) text -> (length text < BUFFER_SIZE)%nat -> cstr (array text) = Done text.
Proof.
  intros Hz Hl. unfold array. destruct (BUFFER_SIZE - length text)%nat as [|k] eqn:E; [lia|]. cbn [replicate]. by apply cstr_app.
Qed.

Lemma buffer_large : (1000 < BUFFER_SIZE)%nat.
Proof. unfold BUFFER_SIZE. lia. Qed.

(** A message that the server can read. *)
Definition short (m : list Z) : Prop := Forall (fun c => c <> 0) m /\ (length m <= 5)%nat /\ m <> [] /\ m <> bytes "ack".

Lemma server_reads tmp ms : Forall short ms -> forall fuel, (length ms <= fuel)%nat ->
  server_loop fuel tmp ms = Done ((fun m => (Z.of_nat (length m), m)) <$> ms, length ms).
Proof.
  induction 1 as [|m ms (Hz & Hl & Hne & Hack) _ IH]; intros fuel Hf; [by destruct fuel|]. destruct fuel as [|fuel]; [cbn in Hf; lia|].
  cbn [server_loop]. rewrite read_short by done. cbn [obind]. pose proof buffer_large. rewrite array_cstr by (done || lia). cbn [obind].
  rewrite IH by (cbn in Hf; lia). done.
Qed.

(** ** The fields of a string *)

Lemma strsep_word w s f : 32 ∉ w -> strsep (w ++ 32 :: s) f = (f ++ w) :: strsep s [].
Proof.
  revert f. induction w as [|c w IH]; intros f Hw; cbn [app strsep]; [by rewrite app_nil_r|].
  apply not_elem_of_cons in Hw as [Hc Hw]. rewrite (proj2 (Z.eqb_neq c 32)) by congruence. rewrite IH by done. by rewrite <- app_assoc.
Qed.

(** The fields, joined by blanks, are the string. *)
Lemma strsep_join s : forall f, exists w ws, strsep s f = (f ++ w) :: ws /\ s = w ++ (ws ≫= fun w => 32 :: w).
Proof.
  induction s as [|c s IH]; intros f; cbn [strsep].
  - exists [], []. by rewrite app_nil_r.
  - destruct (Z.eqb_spec c 32) as [->|Hc].
    + destruct (IH []) as (w & ws & -> & ->). exists [], (w :: ws). by rewrite app_nil_r.
    + destruct (IH (f ++ [c])) as (w & ws & -> & ->). exists (c :: w), ws. by rewrite <- app_assoc.
Qed.

Lemma strsep_main : strsep (bytes "Hello there, peasants!") [] = [bytes "Hello"; bytes "there,"; bytes "peasants!"].
Proof. vm_compute. reflexivity. Qed.

(** ** The programs *)

(** The first message of the client, of eleven characters, is sent whole when the
    acknowledgements come in time, and the client goes on to its second; but
    the server runs past its array on the second datagram of the first one.  With
    messages of up to five characters it prints and acknowledges every one. *)
Lemma udp_programs tmp a v :
  length tmp = 5%nat -> usable false a = true ->
  (exists sent, client_main 2 1 0 [a] (Some v) (replicate 6 true) tmp (replicate 2 (bytes "ack" ++ [0])) =
     Done (sent, [Send (bytes "first hello"); Received 4 (bytes "ack"); Send (bytes "hello"); Received 4 (bytes "ack")]) /\
     sent = datagrams 5 (bytes "first hello") ++ datagrams 5 (bytes "hello") /\
     forall fuel, exists w, server_loop (S fuel) tmp sent = Crash w) /\
  (forall ms, Forall short ms -> server_loop (length ms) tmp ms = Done ((fun m => (Z.of_nat (length m), m)) <$> ms, length ms)).
Proof.
  intros Ht Ha. split; [|intros ms Hms; by apply server_reads]. exists (datagrams 5 (bytes "first hello") ++ datagrams 5 (bytes "hello")).
  split; [|split; [done|]].
  - unfold client_main. cbn [Z.ltb Z.compare]. assert (Eo : UdpLib.UDP_Open false 0 [a] (Some v) = Done (a.(socket), [], Some v)).
    { unfold UdpLib.UDP_Open. unfold usable in Ha. apply andb_prop in Ha as [H1 H2]. apply negb_true_iff in H1. cbn. by rewrite H1, H2. }
    change (2 <? 2) with false. cbn iota. rewrite Eo. cbn [obind]. clear. vm_compute. reflexivity.
  - intros fuel. destruct (read_loop_full (bytes "first") (tail (tail (datagrams 5 (bytes "first hello"))) ++ datagrams 5 (bytes "hello")) tmp [] 0 0) as [w Ew];
      [done|done|by repeat (constructor; [done|])|]. exists w. cbn [server_loop].
    change (datagrams 5 (bytes "first hello") ++ datagrams 5 (bytes "hello")) with
      (bytes "0begin" :: bytes "first" :: tail (tail (datagrams 5 (bytes "first hello"))) ++ datagrams 5 (bytes "hello")).
    unfold UdpLib.UDP_Read. change (strncmp_eq 7 (bytes "0begin" ++ replicate 10 0) BEGIN_STR) with (@Done string bool true). cbn [obind negb].
    cbn [server_loop]. rewrite Ew. done.
Qed.

Lemma udp_programs_witness : exists sent,
  client_main 2 1 0 [mkAddress 3 false true] (Some 0) (replicate 6 true) (replicate 5 0) (replicate 2 (bytes "ack" ++ [0])) =
    Done (sent, [Send (bytes "first hello"); Received 4 (bytes "ack"); Send (bytes "hello"); Received 4 (bytes "ack")]).
Proof.
  destruct (udp_programs (replicate 5 0) (mkAddress 3 false true) 0 eq_refl eq_refl) as [(sent & E & _) _]. by exists sent.
Defined.

(** The asynchronous client does not come past its first message. *)
Lemma async_client_never argc stack fuel ring_ok s result sem acks results inbox r :
  async_client_main argc stack fuel ring_ok s result sem acks results inbox <> Done r.
Proof.
  intros E. unfold async_client_main in E. destruct (argc <? 2); [discriminate E|]. apply obind_Done in E as ([[[sfd closed] sem'] c] & Eo & E).
  pose proof buffer_large. assert (Hz : Forall (fun c => c <> 0) (bytes "first hello")) by (by repeat (constructor; [done|])).
  rewrite array_cstr in E by (exact Hz || (cbn; lia)). cbn [obind] in E. destruct fuel as [|fuel]; [discriminate E|]. cbn [UdpAsync.UDP_Write] in E.
  change (Z.of_nat UdpAsync.SMALL_BUFFER_SIZE <? Z.of_nat (length (bytes "first hello"))) with true in E. cbn iota in E.
  apply obind_Done in E as ([ret c'] & E & _). unfold UdpAsync.UDP_Open in Eo. cbn [negb andb] in Eo. destruct ring_ok; [|discriminate Eo]. cbn [negb] in Eo.
  apply obind_Done in Eo as ([[a1 a2] a3] & _ & Eo). injection Eo as <- <- <- <-.
  unfold array in E. destruct (BUFFER_SIZE - length (bytes "first hello"))%nat as [|k] eqn:Ek; [cbn in Ek; lia|]. cbn [replicate] in E.
  revert E. apply write_long_never; [by repeat (constructor; [done|])|cbn; lia].
Qed.

(** The datagrams of a message in pieces, as the server expects them. *)
Definition wire (ms : list (list Z)) : list (list Z) := piece (bytes "0begin") :: map piece ms ++ [piece (bytes "end1")].

Lemma content_text ms : Forall content ms -> Forall (fun c => c <> 0) (mjoin ms).
Proof.
  induction 1 as [|m ms (Hp & _) _ IH]; [constructor|]. change (mjoin (m :: ms)) with (m ++ mjoin ms). apply Forall_app. split; [by apply plain_nul|exact IH].
Qed.

(** The asynchronous server prints every message whose datagrams carry the number it
    expects, and acknowledges every datagram. *)
Lemma async_server_all tmp msgs : length tmp = 10%nat -> Forall (fun ms => Forall content ms /\ (length (mjoin ms) < BUFFER_SIZE)%nat) msgs ->
  forall l a, exists k, async_server_loop (length msgs) tmp (msgs ≫= wire) (mkNet l a) =
    Done ((fun ms => (counted ms, mjoin ms)) <$> msgs, mkNet (l ++ acked k) a).
Proof.
  intros Ht. induction 1 as [|ms msgs [Hc Hl] _ IH]; intros l a.
  - exists 0%nat. cbn. by rewrite app_nil_r.
  - assert (Ew : ((ms :: msgs) ≫= wire) = piece (bytes "0begin") :: map piece ms ++ piece (bytes "end1") :: (msgs ≫= wire)).
    { change ((ms :: msgs) ≫= wire) with ((piece (bytes "0begin") :: (map piece ms ++ [piece (bytes "end1")])) ++ (msgs ≫= wire)).
      rewrite <- app_comm_cons. by rewrite <- app_assoc. }
    rewrite Ew. cbn [length async_server_loop]. rewrite async_server_reads by done. cbn [obind].
    rewrite array_cstr by first [exact (content_text ms Hc) | exact Hl]. cbn [obind]. destruct (IH (l ++ acked (length ms + 2)) a) as [k E]. rewrite E. cbn [obind].
    exists (length ms + 2 + k)%nat. unfold acked. by rewrite (replicate_add (length ms + 2) k), app_assoc.
Qed.
